(* ===== verification/_CoqProject ===== *)
-Q . S2P
Prelude.v
Float64.v
World.v
Text.v
Program.v
Bytes.v
Files.v
Store.v
StoreConcurrency.v
Core.v
Samples.v
Scheduler.v
RoleGraph.v
Partition.v
Placement.v
Reduction.v
Fusion.v
LogicalJob.v
Planner.v
Fabric.v
Submission.v
Roles.v
Execution.v
Coordinator.v
Routes.v
Clock.v
Frames.v
Evolution.v
Network.v
Leases.v
Safety.v
Polling.v
RoleFlow.v
RoleSteps.v
Reducers.v
Dataflow.v
Progress.v
Ledger.v
Daemon.v
AgentCalls.v
Operators.v
MapReduce.v
Executor.v
TaskExecution.v
DataPlane.v
Agent.v
Pipelines.v
Worker.v
Renewal.v
Cli.v
Wire.v
Upload.v
Completion.v
Findings.v
