(* ===== verification/Prelude.v ===== *)
(** * Plurifold: a verification library

    Plurifold joins machines into a fabric that places and runs tasks.  A
    coordinator keeps the fabric's state and hands tasks out under leases; agents
    poll for work, fetch its inputs from each other, run it and commit its
    outputs; a command line client uploads objects, submits tasks and jobs and
    waits for them.  This library models the Rust crates under src/crates/ and
    proves what they promise.  Every file opens with what it holds; this is the
    map of the whole.

    ** Files and sources

    Foundations, with no counterpart under src/:
    - [Prelude]: outcomes ([Ok], [Err], [Panic], [Diverged]), computations over a
      mutable state, u64 and u32 arithmetic with its overflow behaviour, the
      rules of [preserves], [yields] and [opost], list lemmas.
    - [Float64]: binary64 is the kernel's primitive float, with one NaN.
    - [World]: what a process reads from outside, left open: random UUIDs, the
      clock, the iteration order of hash maps.
    - [Text], [Bytes]: Rust strings and byte vectors.
    - [Program]: code with input and output as trees of calls; [run] against a
      handler, interleavings of threads, [ensures] over every answer, [makes_only]
      and [calls_only] over the calls made.
    - [Files]: the std::fs calls the program makes, on a host whose faults (failed
      and partial operations) are still to come.
    - [Samples]: inputs for examples and witnesses.

    plurifold-core/src/lib.rs: [Core].  plurifold-scheduler/src/lib.rs:
    [Scheduler].

    plurifold-runtime/src/planner.rs, in the order of its parts: [RoleGraph]
    (validate_role_graph), [Partition] (partition_bounds and the concrete
    partitions), [Placement] (select_ready_role, choose_shards), [Reduction]
    (reduction_groups, select_reduction_level), [Fusion] (graph coarsening),
    [LogicalJob] (validate_logical_job), [Planner] (plan).

    plurifold-runtime/src/lib.rs: [Fabric] (state, resources, topology, objects,
    tasks and validate_task), [Roles] (materializing, completing and reducing
    roles), [Execution] (leases and jobs).

    plurifold-coordinator/src/lib.rs, with the types of plurifold-protocol:
    [Coordinator], one definition per handler and the maintenance tick; [handle]
    serves one [Request].  [Routes]: the route of each request and the answer on
    the wire.  plurifold-coordinator/src/main.rs: [Daemon].

    plurifold-store/src/lib.rs: [Store].

    plurifold-agent/src/main.rs: [AgentCalls] (what it asks of its host and the
    network), [Operators] (built-in operations), [TaskExecution] (tasks and
    pipelines), [DataPlane] (the HTTP handlers for probes and blobs), [Agent]
    (inputs, commit, renewal, link probes), [Worker] (start-up and the worker
    loop).  plurifold-agent/src/executor.rs: [Executor].

    plurifold-cli/src/main.rs: [Cli].

    ** How the state is modelled

    A method with [&mut self] is a computation that threads the state and keeps
    the changes made before an error, as [?] does.  [Option] and [Result] are
    outcomes; an unwinding ([expect], a map indexed at an absent key, a division
    by zero, [unreachable!]) is [Panic].  Integers are [Z] with the release
    profile's wrap-around, saturation or check written where the code has it.
    HashMaps are gmaps; where the code iterates one, the order is [hash_iter], any
    permutation.  The scheduler's comparisons and sums are the IEEE operations in
    the order of the code.

    A coordinator handler holds the lock for its whole body, so it is one atomic
    step; a run is a sequence of requests, ticks among them.  [Coord] pairs the
    coordinator's state with the answers its process will get.  The agent, the
    store and the client are programs of calls instead, since their steps
    interleave with the world's: theorems quantify over every answer, or give a
    handler that plays the other side ([Renewal], [Upload], [Completion]).

    Other crates are parameters: [UuidCrate] (text of a UUID), [Sha256Crate]
    (digests of 64 lower-case hexadecimal digits; nothing else is assumed, no
    collision freedom), [SerdeJson], [CliJson] (JSON), [HttpCrate] (header values,
    status texts), [HttpServer] (what a server answers to requests without a route,
    the JSON of its answers), [ErrorTexts] (messages of the operating system).  Each has a
    concrete instance on which the witnesses evaluate.

    ** Loops and fuel

    Structural recursion where the code iterates a list.  Otherwise fuel, with a
    proof that it is enough: the resolution of a role graph has one round per role
    and one more ([validate_role_graph_correct]); the planner's loop one round per
    role and its reductions one level per input ([plan_total]); the walk along a
    fusion chain one step per role and one more, enough in reachable states
    ([requests_never_fault]); trimming runs for the length of its string.  The two
    loops that only the environment ends, the renewal of a lease and the waiting
    of the client, take a number of turns: the first is shown never to stop by
    itself ([lease_survives]), the second to stop within ten turns per second of
    time-out and one more ([waiting_ends]).

    ** What is proved

    The life of a task.  [Evolution]: exclusive work is never run twice, objects
    keep their identity.  [Leases]: granting, renewing, completing and reaping,
    exactly, on every branch.  [Ledger]: the coordinator refines an abstract lease
    service whose log each answer tells, and so acknowledges at most one
    completion of a task.  [Polling]: an assignment is work its receiver can do.
    [Daemon]: nothing outlives its lease by more than the maintenance period and
    its delay.  [Renewal]: the agent's loop keeps its lease, against maintenance
    ticks and the requests of all others.  [Completion]: a
    commit that succeeds has published what was computed.

    The life of a job.  [RoleFlow] states the invariant of the role runtime and
    [RoleSteps] carries it through every handler; [Reducers] shows that a request
    that is answered leaves no reducer outside a level.  [Dataflow] has the
    properties of every run: a role's task is an implementation of the role, field
    by field, on exactly the outputs of the roles it depends on; what a completed
    role has put out is its task's outputs, those of all its shards in order, or
    the object that reducing these level by level leaves; and completed roles and
    jobs stay as they are.  (One reservation: a request that fails because the id
    drawn for a reducer is taken may leave reducers behind, and then a reduced role
    can lose its outputs.)  [Progress]:
    a poll leaves no role waiting that could be launched, so no job waits for
    itself.

    No faults.  [Safety]: no request, after any others, makes the coordinator
    panic or run on.  [Pipelines]: [validate_task] is sound and complete for the
    typing of tasks, every stored task has passed it, and an assigned task runs at
    the agent as a total evaluation.  [Submission]: what the planner builds passes
    it.

    Planning.  [Scheduler]: the choice is the first least-cost feasible resource.
    [RoleGraph], [LogicalJob]: acceptance is well-formedness.  [Partition],
    [Placement], [Reduction]: shards tile their input, every child is placed, the
    levels of a reduction keep the order and shrink.  [Fusion], [TaskExecution]: a
    chosen fusion gains what it says it does, which is not negative: the total of a
    run of the separate chain less the total of its own; and it computes the same.
    [MapReduce]: summing shards and reducing is summing the whole.  [Planner]: a
    plan is found or a role has nowhere to run.  [Network]: the topology stays
    well formed and configured links win over measurements.

    Bytes.  [StoreConcurrency]: interleaved writers refine an abstract
    content-addressed store, readers never see part of a blob, and writers finish.
    [Agent]: inputs are what their digests say, outputs are announced once stored,
    a range read locally or from a peer is the same.  [DataPlane]: blobs and
    ranges are served exactly, and each error status has exactly its cause.  [Upload]: what the client uploads can be
    downloaded.  [Executor]: only allowed artifacts run, on exactly the task's arguments.  [Worker]: one execution
    at a time.  [Cli]: waiting ends.  [Wire]: every request that an agent or a
    client builds goes to the route of the coordinator or of a data plane that
    takes it.

    [Clock] and [Frames] hold the lemmas that carry these through the handlers: a
    relation between states that a few primitive steps respect holds of every
    operation made of them.  [Findings] replays runs in which the program does
    not do what its documentation says or its callers need.

    ** Not modelled

    Argument parsing (clap), JSON (serde), the matching of paths and transport
    (axum, reqwest, tokio's listener), tracing, memory (a request for more than
    there is aborts the process; choose_shards reserves room for a fixed shard
    count that nothing bounds), and the timers behind [select!], whose ticks are
    events that may come at any time; time-outs of single HTTP requests are errors
    of the call.  The unit tests in the sources and the scripts are not part of
    the model. *)

From Stdlib Require Export ZArith Lia Floats.
From stdpp Require Export base tactics list gmap strings pretty fin_maps sets option.
(** stdpp's list lemmas, where the Standard Library has the same name. *)
Export list_basics.list list_misc.list list_monad.list list_numbers.list
  list_relations.list list_tactics.list.

(** ** Outcomes of a computation

    [Ok]/[Err] are Rust's [Result] (an [Option] is an outcome whose error type
    is [unit], [None] being [Err tt]); [Panic] is an unwinding ([expect],
    indexing a map at an absent key, [unreachable!]); [Diverged] is the answer
    of a loop that was given too little fuel. *)
Inductive outcome (E A : Type) : Type :=
| Ok (a : A)
| Err (e : E)
| Panic
| Diverged.
Arguments Ok {E A} a.
Arguments Err {E A} e.
Arguments Panic {E A}.
Arguments Diverged {E A}.

(** A computation over a mutable state: an error keeps the mutations made
    before it, as [?] does after a [&mut self] call. *)
Definition comp (S E A : Type) : Type := S → outcome E A * S.

Declare Scope rust_scope.
Delimit Scope rust_scope with rust.

Section outcome_ops.
Context {E A B : Type}.

Definition obind (m : outcome E A) (k : A → outcome E B) : outcome E B :=
  match m with
  | Ok a => k a
  | Err e => Err e
  | Panic => Panic
  | Diverged => Diverged
  end.

(** [map_err] *)
Definition map_err {E'} (f : E → E') (m : outcome E A) : outcome E' A :=
  match m with
  | Ok a => Ok a
  | Err e => Err (f e)
  | Panic => Panic
  | Diverged => Diverged
  end.

(** [Option::ok_or] *)
Definition ok_or (e : E) (o : option A) : outcome E A :=
  match o with Some a => Ok a | None => Err e end.

(** [let Ok(x) = m else ...], [match m { Ok(x) => .., Err(_) => .. }] *)
Definition otry {E'} (m : outcome E A) : outcome E' (option A) :=
  match m with
  | Ok a => Ok (Some a)
  | Err _ => Ok None
  | Panic => Panic
  | Diverged => Diverged
  end.

(** Fault-free: neither a panic nor an exhausted loop. *)
Definition fault_free (m : outcome E A) : Prop :=
  match m with Ok _ | Err _ => True | Panic | Diverged => False end.
End outcome_ops.

Fixpoint ofold {E A B} (f : B → A → outcome E B) (b : B) (l : list A) : outcome E B :=
  match l with
  | [] => Ok b
  | a :: l' => obind (f b a) (λ b', ofold f b' l')
  end.

Section comp_ops.
Context {S E : Type}.

Definition ret {A} (a : A) : comp S E A := λ s, (Ok a, s).
Definition throw {A} (e : E) : comp S E A := λ s, (Err e, s).
Definition panic {A} : comp S E A := λ s, (Panic, s).
Definition diverge {A} : comp S E A := λ s, (Diverged, s).
Definition bind {A B} (m : comp S E A) (k : A → comp S E B) : comp S E B :=
  λ s, match m s with
       | (Ok a, s') => k a s'
       | (Err e, s') => (Err e, s')
       | (Panic, s') => (Panic, s')
       | (Diverged, s') => (Diverged, s')
       end.
Definition get : comp S E S := λ s, (Ok s, s).
Definition gets {A} (f : S → A) : comp S E A := λ s, (Ok (f s), s).
Definition put (s' : S) : comp S E unit := λ _, (Ok tt, s').
Definition modify (f : S → S) : comp S E unit := λ s, (Ok tt, f s).
(** A pure outcome inside a computation. *)
Definition lift {A} (m : outcome E A) : comp S E A := λ s, (m, s).
Definition ok_or_throw {A} (e : E) (o : option A) : comp S E A := lift (ok_or e o).
(** [expect]/[unwrap] *)
Definition expect {A} (o : option A) : comp S E A :=
  λ s, match o with Some a => (Ok a, s) | None => (Panic, s) end.

Fixpoint cfold {A B} (f : B → A → comp S E B) (b : B) (l : list A) : comp S E B :=
  match l with
  | [] => ret b
  | a :: l' => bind (f b a) (λ b', cfold f b' l')
  end.

Definition for_each {A} (f : A → comp S E unit) (l : list A) : comp S E unit :=
  cfold (λ _ a, f a) tt l.

Fixpoint cmap {A B} (f : A → comp S E B) (l : list A) : comp S E (list B) :=
  match l with
  | [] => ret []
  | a :: l' => bind (f a) (λ b, bind (cmap f l') (λ bs, ret (b :: bs)))
  end.
End comp_ops.

(** [let Some(x) = m else { ... }]: the mutations of a failing [m] stay. *)
Definition try {S E E' A} (m : comp S E A) : comp S E' (option A) :=
  λ s, let '(o, s') := m s in (otry o, s').

Definition rethrow {S E E' A} (f : E → E') (m : comp S E A) : comp S E' A :=
  λ s, let '(o, s') := m s in (map_err f o, s').

Notation "'let*' x ':=' m 'in' k" := (bind m (λ x, k))
  (at level 10, x binder, m at level 200, k at level 200) : rust_scope.
Notation "'let*' ' p ':=' m 'in' k" := (bind m (λ p, k))
  (at level 10, p strict pattern, m at level 200, k at level 200) : rust_scope.
Notation "'let?' x ':=' m 'in' k" := (obind m (λ x, k))
  (at level 10, x binder, m at level 200, k at level 200) : rust_scope.
Notation "m ';;;' k" := (bind m (λ _, k))
  (at level 100, k at level 200, right associativity) : rust_scope.
#[export] Set Warnings "-notation-overridden,-clear-no-such-hyp".
Open Scope rust_scope.
Open Scope Z_scope.

(** ** Reasoning about computations *)

(** [wp m Q s]: running [m] from [s] ends in an outcome and a state of [Q]. *)
Definition wp {S E A} (m : comp S E A) (Q : outcome E A → S → Prop) (s : S) : Prop :=
  Q (m s).1 (m s).2.

(** A relation between the states before and after, whatever the outcome. *)
Definition preserves {S E A} (R : S → S → Prop) (m : comp S E A) : Prop :=
  ∀ s, R s (m s).2.

Section wp_rules.
Context {S E : Type}.
Implicit Types s : S.

Lemma wp_ret {A} (a : A) (Q : outcome E A → S → Prop) s : wp (ret a) Q s ↔ Q (Ok a) s.
Proof. done. Qed.

Lemma wp_bind {A B} (m : comp S E A) (k : A → comp S E B) (Q : outcome E B → S → Prop) s :
  wp (bind m k) Q s ↔
  wp m (λ o s', match o with
                | Ok a => wp (k a) Q s'
                | Err e => Q (Err e) s'
                | Panic => Q Panic s'
                | Diverged => Q Diverged s'
                end) s.
Proof. unfold wp, bind. by destruct (m s) as [[]]. Qed.

Lemma wp_mono {A} (m : comp S E A) (Q Q' : outcome E A → S → Prop) s :
  wp m Q s → (∀ o s', Q o s' → Q' o s') → wp m Q' s.
Proof. unfold wp. eauto. Qed.

(** A fold keeps an invariant that each step keeps. *)
Lemma wp_cfold {A B} (f : B → A → comp S E B) (I : B → list A → S → Prop)
    (Q : outcome E B → S → Prop) l b s :
  I b l s →
  (∀ b a l' s, I b (a :: l') s →
     wp (f b a) (λ o s', match o with
                         | Ok b' => I b' l' s'
                         | Err e => Q (Err e) s'
                         | Panic => Q Panic s'
                         | Diverged => Q Diverged s'
                         end) s) →
  (∀ b s, I b [] s → Q (Ok b) s) →
  wp (cfold f b l) Q s.
Proof.
  intros HI Hstep Hend. revert b s HI.
  induction l as [|a l IH]; intros b s HI; simpl; [by apply Hend|].
  apply wp_bind. eapply wp_mono; [by apply Hstep|].
  intros [] s'; eauto.
Qed.
End wp_rules.

Create HintDb frame.

Section preserves_rules.
Context {S E : Type} (R : S → S → Prop) `{!PreOrder R}.

Lemma preserves_ret {A} (a : A) : preserves R (ret (E:=E) a).
Proof. intros s. reflexivity. Qed.
Lemma preserves_throw {A} (e : E) : preserves R (throw (A:=A) e).
Proof. intros s. reflexivity. Qed.
Lemma preserves_panic {A} : preserves R (panic (E:=E) (A:=A)).
Proof. intros s. reflexivity. Qed.
Lemma preserves_diverge {A} : preserves R (diverge (E:=E) (A:=A)).
Proof. intros s. reflexivity. Qed.
Lemma preserves_get : preserves R (get (E:=E)).
Proof. intros s. reflexivity. Qed.
Lemma preserves_gets {A} (f : S → A) : preserves R (gets (E:=E) f).
Proof. intros s. reflexivity. Qed.
Lemma preserves_lift {A} (m : outcome E A) : preserves R (lift m).
Proof. intros s. reflexivity. Qed.
Lemma preserves_expect {A} (o : option A) : preserves R (expect (E:=E) o).
Proof. intros s. destruct o; reflexivity. Qed.
Lemma preserves_modify (f : S → S) : (∀ s, R s (f s)) → preserves R (modify (E:=E) f).
Proof. intros Hf s. apply Hf. Qed.

Lemma preserves_bind {A B} (m : comp S E A) (k : A → comp S E B) :
  preserves R m → (∀ a, preserves R (k a)) → preserves R (bind m k).
Proof.
  intros Hm Hk s. unfold bind. specialize (Hm s).
  destruct (m s) as [[a|e| |] s']; simpl in *; auto.
  etrans; [exact Hm|apply Hk].
Qed.

Lemma preserves_try {E' A} (m : comp S E A) :
  preserves R m → preserves R (try (E':=E') m).
Proof. intros Hm s. unfold try. specialize (Hm s). by destruct (m s). Qed.

Lemma preserves_rethrow {E' A} (f : E → E') (m : comp S E A) :
  preserves R m → preserves R (rethrow f m).
Proof. intros Hm s. unfold rethrow. specialize (Hm s). by destruct (m s). Qed.

Lemma preserves_cfold {A B} (f : B → A → comp S E B) b l :
  (∀ b a, preserves R (f b a)) → preserves R (cfold f b l).
Proof.
  intros Hf. revert b. induction l as [|a l IH]; intros b; simpl.
  - apply preserves_ret.
  - apply preserves_bind; auto.
Qed.

Lemma preserves_for_each {A} (f : A → comp S E unit) l :
  (∀ a, preserves R (f a)) → preserves R (for_each f l).
Proof. intros. by apply preserves_cfold. Qed.

Lemma preserves_cmap {A B} (f : A → comp S E B) l :
  (∀ a, preserves R (f a)) → preserves R (cmap f l).
Proof.
  intros Hf. induction l as [|a l IH]; simpl; [apply preserves_ret|].
  apply preserves_bind; [done|]. intros b. apply preserves_bind; [done|].
  intros bs. apply preserves_ret.
Qed.
End preserves_rules.

#[export] Hint Resolve preserves_ret preserves_throw preserves_panic preserves_diverge
  preserves_get preserves_gets preserves_lift preserves_expect : frame.

(** The same at one state, for code that writes back what it read. *)
Definition preserves_at {S E A} (R : S → S → Prop) (m : comp S E A) (s : S) : Prop := R s (m s).2.

Section preserves_at_rules.
Context {S E : Type} (R : S → S → Prop) `{!PreOrder R}.

Lemma at_intro {A} (m : comp S E A) : (∀ s, preserves_at R m s) → preserves R m.
Proof. done. Qed.
Lemma at_of {A} (m : comp S E A) s : preserves R m → preserves_at R m s.
Proof. intros H. apply H. Qed.
Lemma at_assoc {A B C} (m : comp S E A) (k : A → comp S E B) (h : B → comp S E C) s :
  preserves_at R (bind m (λ a, bind (k a) h)) s → preserves_at R (bind (bind m k) h) s.
Proof. unfold preserves_at, bind. by destruct (m s) as [[] ?]. Qed.
Lemma at_bind {A B} (m : comp S E A) (k : A → comp S E B) s :
  preserves_at R m s → (∀ a, preserves R (k a)) → preserves_at R (bind m k) s.
Proof.
  unfold preserves_at, bind. intros Hm Hk. destruct (m s) as [[a|e| |] s']; simpl in *; auto.
  etrans; [exact Hm|apply Hk].
Qed.
Lemma at_gets {A B} (f : S → A) (k : A → comp S E B) s :
  preserves_at R (k (f s)) s → preserves_at R (bind (gets f) k) s.
Proof. done. Qed.
Lemma at_lift {A B} (m : outcome E A) (k : A → comp S E B) s :
  (∀ a, m = Ok a → preserves_at R (k a) s) → preserves_at R (bind (lift m) k) s.
Proof.
  unfold preserves_at, bind, lift. intros Hk. destruct m; simpl; [by apply Hk|reflexivity..].
Qed.
Lemma at_ok_or {A B} (e : E) (o : option A) (k : A → comp S E B) s :
  (∀ a, o = Some a → preserves_at R (k a) s) → preserves_at R (bind (ok_or_throw e o) k) s.
Proof. intros Hk. apply at_lift. intros a Ha. apply Hk. destruct o; simplify_eq/=; done. Qed.
Lemma at_expect {A B} (o : option A) (k : A → comp S E B) s :
  (∀ a, o = Some a → preserves_at R (k a) s) → preserves_at R (bind (expect o) k) s.
Proof. unfold preserves_at, bind, expect. intros Hk. destruct o; simpl; [by apply Hk|reflexivity]. Qed.
Lemma at_refl_ret {A} (a : A) s : preserves_at R (ret (E:=E) a) s.
Proof. unfold preserves_at. reflexivity. Qed.
Lemma at_refl_throw {A} (e : E) s : preserves_at R (throw (A:=A) e) s.
Proof. unfold preserves_at. reflexivity. Qed.
End preserves_at_rules.

(** ** Machine integers

    A [w]-bit unsigned integer is a [Z] of [0, 2^w). *)
Definition u32_max : Z := 2 ^ 32 - 1.
Definition u64_max : Z := 2 ^ 64 - 1.
Definition is_u32 (z : Z) : Prop := 0 ≤ z ≤ u32_max.
Definition is_u64 (z : Z) : Prop := 0 ≤ z ≤ u64_max.
(** Wrapping arithmetic (the release profile has no overflow checks). *)
Definition wrap32 (z : Z) : Z := z mod 2 ^ 32.
Definition wrap64 (z : Z) : Z := z mod 2 ^ 64.
Definition checked_add64 (a b : Z) : option Z :=
  if a + b <=? u64_max then Some (a + b) else None.
Definition saturating_add64 (a b : Z) : Z := Z.min (a + b) u64_max.
Definition checked_sub (a b : Z) : option Z := if b <=? a then Some (a - b) else None.

Lemma wrap64_small z : is_u64 z → wrap64 z = z.
Proof. intros [??]. apply Z.mod_small. unfold u64_max in *. lia. Qed.
Lemma wrap32_small z : is_u32 z → wrap32 z = z.
Proof. intros [??]. apply Z.mod_small. unfold u32_max in *. lia. Qed.

(** ** Iterators *)

(** [Iterator::min_by]: among equal minima the first is kept. *)
Definition min_by {A} (cmp : A → A → comparison) (l : list A) : option A :=
  match l with
  | [] => None
  | x :: l' => Some (fold_left (λ best y, match cmp best y with Gt => y | _ => best end) l' x)
  end.

(** ** Lists *)

Section lists.
Context {A B C : Type}.

Lemma forallb_decide (P : A → Prop) `{∀ a, Decision (P a)} l :
  forallb (λ a, bool_decide (P a)) l = true ↔ Forall P l.
Proof.
  induction l as [|a l IH]; simpl; [by split|].
  by rewrite Forall_cons, andb_true_iff, bool_decide_eq_true, IH.
Qed.

Lemma forallb_Forall_true (f : A → bool) l :
  forallb f l = true ↔ Forall (λ a, f a = true) l.
Proof. induction l as [|a l IH]; simpl; [by split|]. by rewrite Forall_cons, andb_true_iff, IH. Qed.

Lemma existsb_Exists_true (f : A → bool) l :
  existsb f l = true ↔ Exists (λ a, f a = true) l.
Proof.
  induction l as [|a l IH]; simpl; [by rewrite Exists_nil|].
  by rewrite Exists_cons, orb_true_iff, IH.
Qed.

Lemma Forall2_choose (P : A → B → Prop) l :
  (∀ a, a ∈ l → ∃ b, P a b) → ∃ k, Forall2 P l k.
Proof.
  induction l as [|a l IH]; intros HP; [by exists []|].
  destruct (HP a) as [b Hb]; [left|]. destruct IH as [k Hk]; [intros; apply HP; by right|].
  exists (b :: k). by constructor.
Qed.

Lemma Forall2_fmap_eq (f : B → C) (g : A → C) l k :
  Forall2 (λ a b, f b = g a) l k → f <$> k = g <$> l.
Proof. induction 1; csimpl; [done|]. by f_equal. Qed.

Lemma Forall2_Forall_r_of (P : A → B → Prop) (Q : B → Prop) l k :
  Forall2 P l k → (∀ a b, a ∈ l → P a b → Q b) → Forall Q k.
Proof.
  induction 1 as [|a b l k Hab _ IH]; intros HQ; constructor.
  - apply (HQ a); [left|done].
  - apply IH. intros a' b' Ha'. apply HQ. by right.
Qed.
End lists.

Lemma omap_middle_inv {A B} (f : A → option B) l l1 b l2 :
  omap f l = l1 ++ b :: l2 →
  ∃ k1 a k2, l = k1 ++ a :: k2 ∧ omap f k1 = l1 ∧ f a = Some b ∧ omap f k2 = l2.
Proof.
  revert l1. induction l as [|a l IH]; intros l1 Hl; csimpl in *; [by destruct l1|].
  destruct (f a) as [b'|] eqn:Ha.
  - destruct l1 as [|b1 l1]; simplify_eq/=; [by exists [], a, l|].
    destruct (IH l1) as (k1 & a' & k2 & -> & <- & ? & <-); [done|].
    exists (a :: k1), a', k2. csimpl. by rewrite Ha.
  - destruct (IH l1) as (k1 & a' & k2 & -> & <- & ? & <-); [done|].
    exists (a :: k1), a', k2. csimpl. by rewrite Ha.
Qed.

Lemma find_first {A} (f : A → bool) l a :
  List.find f l = Some a →
  ∃ l1 l2, l = l1 ++ a :: l2 ∧ f a = true ∧ Forall (λ x, f x = false) l1.
Proof.
  induction l as [|x l IH]; simpl; [done|]. destruct (f x) eqn:Hx.
  - intros [= ->]. by exists [], l.
  - intros (l1 & l2 & -> & ? & ?)%IH. exists (x :: l1), l2. split_and!; [done..|by constructor].
Qed.

(** ** Outcomes that never fault

    [opost m φ]: [m] neither panics nor diverges, and its value satisfies [φ].
    [yields m φ]: so does the computation [m], from every state. *)
Definition opost {E A} (m : outcome E A) (φ : A → Prop) : Prop :=
  match m with Ok a => φ a | Err _ => True | Panic | Diverged => False end.
Definition yields {S E A} (m : comp S E A) (φ : A → Prop) : Prop := ∀ s, opost (m s).1 φ.

Section opost_rules.
Context {E A B : Type}.
Implicit Types m : outcome E A.

Lemma opost_mono m (φ ψ : A → Prop) : opost m φ → (∀ a, φ a → ψ a) → opost m ψ.
Proof. destruct m; simpl; auto. Qed.
Lemma opost_bind m (k : A → outcome E B) φ ψ :
  opost m φ → (∀ a, φ a → opost (k a) ψ) → opost (obind m k) ψ.
Proof. destruct m; simpl; auto. Qed.
Lemma opost_otry {E'} m φ :
  opost m φ → opost (otry (E':=E') m) (λ o, match o with Some a => φ a | None => True end).
Proof. by destruct m. Qed.
Lemma opost_map_err {E'} (f : E → E') m φ : opost m φ → opost (map_err f m) φ.
Proof. by destruct m. Qed.
Lemma opost_ok_or (e : E) (o : option A) φ : (∀ a, o = Some a → φ a) → opost (ok_or e o) φ.
Proof. destruct o; simpl; auto. Qed.
Lemma opost_fault_free m φ : opost m φ → fault_free m.
Proof. by destruct m. Qed.
Lemma fault_free_opost m : fault_free m → opost m (λ _, True).
Proof. by destruct m. Qed.
End opost_rules.

(** A fold keeps an invariant, indexed by what is left of the list. *)
Lemma opost_ofold {E A B} (f : B → A → outcome E B) (I : B → list A → Prop) (ψ : B → Prop) l b :
  I b l → (∀ b a l', I b (a :: l') → opost (f b a) (λ b', I b' l')) →
  (∀ b, I b [] → ψ b) → opost (ofold f b l) ψ.
Proof.
  revert b. induction l as [|a l IH]; intros b HI Hf Hend; simpl; [auto|].
  eapply opost_bind; [by apply Hf|]. intros b' HI'. by apply IH.
Qed.


Lemma obind_Ok {E A B} (m : outcome E A) (k : A → outcome E B) b :
  obind m k = Ok b ↔ ∃ a, m = Ok a ∧ k a = Ok b.
Proof. destruct m; naive_solver. Qed.

Lemma opost_ofold_true {E A B} (f : B → A → outcome E B) l b :
  (∀ b a, a ∈ l → opost (f b a) (λ _, True)) → opost (ofold f b l) (λ _, True).
Proof.
  intros Hf. apply (opost_ofold f (λ _ l', l' ⊆ l)); [done| |done].
  intros b' a l' Hl. eapply opost_mono; [apply Hf; set_solver|]. intros. set_solver.
Qed.

Lemma ofold_unit_Ok {E A} (f : A → outcome E unit) l :
  ofold (λ _ a, f a) tt l = Ok tt ↔ Forall (λ a, f a = Ok tt) l.
Proof.
  induction l as [|a l IH]; simpl; [by split|].
  rewrite obind_Ok, Forall_cons, <- IH. split; [intros ([] & ? & ?); done|intros []; by exists tt].
Qed.

Section yields_rules.
Context {S E : Type}.

Lemma yields_ret {A} (a : A) (φ : A → Prop) : φ a → yields (ret (S:=S) (E:=E) a) φ.
Proof. intros H s. exact H. Qed.
Lemma yields_throw {A} (e : E) (φ : A → Prop) : yields (throw (S:=S) e) φ.
Proof. by intros s. Qed.
Lemma yields_lift {A} (m : outcome E A) φ : opost m φ → yields (lift (S:=S) m) φ.
Proof. intros H s. exact H. Qed.
Lemma yields_ok_or_throw {A} (e : E) (o : option A) (φ : A → Prop) :
  (∀ a, o = Some a → φ a) → yields (ok_or_throw (S:=S) e o) φ.
Proof. intros H. by apply yields_lift, opost_ok_or. Qed.
Lemma yields_expect {A} (o : option A) (φ : A → Prop) :
  (∃ a, o = Some a ∧ φ a) → yields (expect (S:=S) (E:=E) o) φ.
Proof. intros (a & -> & Ha) s. exact Ha. Qed.
Lemma yields_gets {A} (f : S → A) : yields (gets (E:=E) f) (λ _, True).
Proof. by intros s. Qed.
Lemma yields_modify (f : S → S) : yields (modify (E:=E) f) (λ _, True).
Proof. by intros s. Qed.
Lemma yields_mono {A} (m : comp S E A) (φ ψ : A → Prop) :
  yields m φ → (∀ a, φ a → ψ a) → yields m ψ.
Proof. intros Hm H s. eapply opost_mono; [apply Hm|done]. Qed.
Lemma yields_bind {A B} (m : comp S E A) (k : A → comp S E B) φ ψ :
  yields m φ → (∀ a, φ a → yields (k a) ψ) → yields (bind m k) ψ.
Proof.
  intros Hm Hk s. specialize (Hm s). unfold bind.
  destruct (m s) as [[a|e| |] s']; simpl in *; try done. by apply Hk.
Qed.
(** A result is an answer of the computation. *)
Lemma yields_answer {A} (m : comp S E A) φ : yields m φ → yields m (λ a, φ a ∧ ∃ s, (m s).1 = Ok a).
Proof. intros Hm s. specialize (Hm s). destruct (m s) as [[a|e| |] s'] eqn:E'; simpl in *; try done. split; [done|]. exists s. by rewrite E'. Qed.
Lemma yields_try {E' A} (m : comp S E A) φ :
  yields m φ → yields (try (E':=E') m) (λ o, match o with Some a => φ a | None => True end).
Proof. intros Hm s. specialize (Hm s). unfold try. by destruct (m s) as [[] ?]. Qed.
Lemma yields_rethrow {E' A} (f : E → E') (m : comp S E A) φ : yields m φ → yields (rethrow f m) φ.
Proof. intros Hm s. specialize (Hm s). unfold rethrow. by destruct (m s) as [[] ?]. Qed.
Lemma yields_cfold {A B} (f : B → A → comp S E B) (I : B → list A → Prop) (ψ : B → Prop) l b :
  I b l → (∀ b a l', I b (a :: l') → yields (f b a) (λ b', I b' l')) →
  (∀ b, I b [] → ψ b) → yields (cfold f b l) ψ.
Proof.
  revert b. induction l as [|a l IH]; intros b HI Hf Hend; simpl; [apply yields_ret; auto|].
  eapply yields_bind; [by apply Hf|]. intros b' HI'. by apply IH.
Qed.
Lemma yields_cmap {A B} (f : A → comp S E B) (P : A → B → Prop) l :
  (∀ a, a ∈ l → yields (f a) (P a)) → yields (cmap f l) (Forall2 P l).
Proof.
  induction l as [|a l IH]; intros Hf; simpl; [apply yields_ret; constructor|].
  eapply yields_bind; [apply Hf; left|]. intros b Hb.
  eapply yields_bind; [apply IH; intros; apply Hf; by right|]. intros bs Hbs.
  apply yields_ret. by constructor.
Qed.
End yields_rules.

(** [oresult m φ ε], [results m φ ε]: as above, and every error satisfies [ε]. *)
Definition oresult {E A} (m : outcome E A) (φ : A → Prop) (ε : E → Prop) : Prop :=
match m with Ok a => φ a | Err e => ε e | Panic | Diverged => False end.
Definition results {S E A} (m : comp S E A) (φ : A → Prop) (ε : E → Prop) : Prop :=
∀ s, oresult (m s).1 φ ε.

Section oresult_rules.
Context {E A B : Type}.
Lemma oresult_bind (m : outcome E A) (k : A → outcome E B) φ ψ ε :
  oresult m φ ε → (∀ a, φ a → oresult (k a) ψ ε) → oresult (obind m k) ψ ε.
Proof. destruct m; simpl; auto. Qed.
Lemma oresult_ok_or (e : E) (o : option A) (ε : E → Prop) : ε e → oresult (ok_or e o) (λ _, True) ε.
Proof. by destruct o. Qed.
Lemma oresult_opost (m : outcome E A) φ ε : oresult m φ ε → opost m φ.
Proof. by destruct m. Qed.
End oresult_rules.
Lemma oresult_ofold {E A B} (f : B → A → outcome E B) (ε : E → Prop) l b :
  (∀ b a, oresult (f b a) (λ _, True) ε) → oresult (ofold f b l) (λ _, True) ε.
Proof.
  intros Hf. revert b. induction l as [|a l IH]; intros b; simpl; [done|].
  eapply oresult_bind; [apply Hf|]. auto.
Qed.

Section results_rules.
Context {S E : Type} (ε : E → Prop).

Lemma results_ret {A} (a : A) (φ : A → Prop) : φ a → results (ret (S:=S) a) φ ε.
Proof. intros H s. exact H. Qed.
Lemma results_throw {A} (e : E) (φ : A → Prop) : ε e → results (throw (S:=S) e) φ ε.
Proof. intros H s. exact H. Qed.
Lemma results_lift {A} (m : outcome E A) φ : oresult m φ ε → results (lift (S:=S) m) φ ε.
Proof. intros H s. exact H. Qed.
Lemma results_expect {A} (o : option A) (φ : A → Prop) :
  (∃ a, o = Some a ∧ φ a) → results (expect (S:=S) o) φ ε.
Proof. intros (a & -> & Ha) s. exact Ha. Qed.
Lemma results_gets {A} (f : S → A) : results (gets f) (λ _, True) ε.
Proof. by intros s. Qed.
Lemma results_modify (f : S → S) : results (modify f) (λ _, True) ε.
Proof. by intros s. Qed.
Lemma results_mono {A} (m : comp S E A) (φ ψ : A → Prop) :
  results m φ ε → (∀ a, φ a → ψ a) → results m ψ ε.
Proof. intros Hm H s. specialize (Hm s). destruct (m s) as [[] ?]; simpl in *; auto. Qed.
Lemma results_bind {A B} (m : comp S E A) (k : A → comp S E B) φ ψ :
  results m φ ε → (∀ a, φ a → results (k a) ψ ε) → results (bind m k) ψ ε.
Proof.
  intros Hm Hk s. specialize (Hm s). unfold bind.
  destruct (m s) as [[a|e| |] s']; simpl in *; try done. by apply Hk.
Qed.
Lemma results_cfold {A B} (f : B → A → comp S E B) (I : B → list A → Prop) (ψ : B → Prop) l b :
  I b l → (∀ b a l', I b (a :: l') → results (f b a) (λ b', I b' l') ε) →
  (∀ b, I b [] → ψ b) → results (cfold f b l) ψ ε.
Proof.
  revert b. induction l as [|a l IH]; intros b HI Hf Hend; simpl; [apply results_ret; auto|].
  eapply results_bind; [by apply Hf|]. intros b' HI'. by apply IH.
Qed.
Lemma results_cmap {A B} (f : A → comp S E B) (P : A → B → Prop) l :
  (∀ a, a ∈ l → results (f a) (P a) ε) → results (cmap f l) (Forall2 P l) ε.
Proof.
  induction l as [|a l IH]; intros Hf; simpl; [apply results_ret; constructor|].
  eapply results_bind; [apply Hf; left|]. intros b Hb.
  eapply results_bind; [apply IH; intros; apply Hf; by right|]. intros bs Hbs.
  apply results_ret. by constructor.
Qed.
(** An error of [m] is replaced by one that [ε] allows. *)
Lemma results_rethrow {E' A} (f : E' → E) (m : comp S E' A) φ :
  yields m φ → (∀ e, ε (f e)) → results (rethrow f m) φ ε.
Proof. intros Hm Hf s. specialize (Hm s). unfold rethrow. destruct (m s) as [[] ?]; simpl in *; auto. Qed.
End results_rules.

(** ** Minima *)

Section min_by.
Context {A : Type} (key : A → Z).

(** [x] is the first of the least elements of [l]. *)
Definition first_least (l : list A) (x : A) : Prop :=
  ∃ l1 l2, l = l1 ++ x :: l2 ∧ Forall (λ y, key x < key y) l1 ∧ Forall (λ y, key x ≤ key y) l2.

Lemma first_least_le l x y : first_least l x → y ∈ l → key x ≤ key y.
Proof.
  intros (l1 & l2 & -> & H1 & H2). rewrite Forall_forall in H1, H2.
  rewrite elem_of_app, elem_of_cons. intros [Hy|[->|Hy]]; [apply H1 in Hy; lia|lia|by apply H2].
Qed.
Lemma first_least_elem l x : first_least l x → x ∈ l.
Proof. intros (l1 & l2 & -> & _). set_solver. Qed.

Context (cmp : A → A → comparison) (Hcmp : ∀ a b, cmp a b = Z.compare (key a) (key b)).

Lemma min_by_fold_first x l1 l2 l :
  Forall (λ y, key x < key y) l1 → Forall (λ y, key x ≤ key y) l2 →
  first_least (l1 ++ x :: l2 ++ l)
    (fold_left (λ best y, match cmp best y with Gt => y | _ => best end) l x).
Proof.
  revert x l1 l2. induction l as [|y l IH]; intros x l1 l2 H1 H2; simpl.
  { rewrite app_nil_r. by exists l1, l2. }
  rewrite Hcmp. destruct (Z.compare_spec (key x) (key y)) as [Heq|Hlt|Hgt].
  - replace (l2 ++ y :: l) with ((l2 ++ [y]) ++ l) by by rewrite <- app_assoc.
    apply IH; [done|]. apply Forall_app. split; [done|]. repeat constructor. lia.
  - replace (l2 ++ y :: l) with ((l2 ++ [y]) ++ l) by by rewrite <- app_assoc.
    apply IH; [done|]. apply Forall_app. split; [done|]. repeat constructor. lia.
  - replace (l1 ++ x :: l2 ++ y :: l) with ((l1 ++ x :: l2) ++ y :: [] ++ l)
      by (simpl; by rewrite <- app_assoc).
    apply IH; [|constructor]. apply Forall_app. split.
    + eapply Forall_impl; [exact H1|]. simpl. lia.
    + constructor; [lia|]. eapply Forall_impl; [exact H2|]. simpl. lia.
Qed.

Lemma min_by_Some l x : min_by cmp l = Some x → first_least l x.
Proof.
  destruct l as [|y l]; simpl; [done|]. intros [= <-].
  apply (min_by_fold_first y [] [] l); constructor.
Qed.
Lemma min_by_None l : min_by cmp l = None ↔ l = [].
Proof. by destruct l. Qed.
End min_by.

Lemma min_by_elem {A} (cmp : A → A → comparison) l x : min_by cmp l = Some x → x ∈ l.
Proof.
  destruct l as [|y l]; simpl; [done|]. intros [= <-]. revert y.
  induction l as [|z l IH]; intros y; simpl; [by left|].
  destruct (cmp y z); specialize (IH y) as Hy; specialize (IH z) as Hz; rewrite !elem_of_cons in *; tauto.
Qed.
