(* ===== verification/Float64.v ===== *)
(** * IEEE binary64 arithmetic as the code uses it

    [f64] is the kernel's binary64 type: [+ - * /] and the comparisons are the
    IEEE operations with round-to-nearest-even, the ones of Rust's [f64].  This
    file adds the library functions the code calls on it. *)

From S2P Require Import Prelude.
#[export] Set Warnings "-inexact-float".

Abbreviation f64 := PrimFloat.float.

(** [f64::to_bits], the sign bit aside: exponent field and significand field
    read as one integer.  Every NaN is the one quiet NaN. *)
Definition magnitude_bits (x : spec_float) : Z :=
  match x with
  | S754_zero _ => 0
  | S754_finite _ m e => (e + 1074) * 2 ^ 52 + Z.pos m
  | S754_infinity _ => 2047 * 2 ^ 52
  | S754_nan => 2047 * 2 ^ 52 + 2 ^ 51
  end.

Definition sign_bit (x : spec_float) : bool :=
  match x with
  | S754_zero s | S754_finite s _ _ | S754_infinity s => s
  | S754_nan => false
  end.

(** The signed integer [f64::total_cmp] compares. *)
Definition total_key (x : f64) : Z :=
  let s := Prim2SF x in
  if sign_bit s then -1 - magnitude_bits s else magnitude_bits s.

Definition total_cmp (x y : f64) : comparison := Z.compare (total_key x) (total_key y).

Definition f64_is_nan (x : f64) : bool := PrimFloat.is_nan x.
Definition f64_is_finite (x : f64) : bool := PrimFloat.is_finite x.

(** [f64::max]/[f64::min]: a NaN operand is ignored. *)
Definition f64_max (x y : f64) : f64 :=
  if f64_is_nan x then y else if f64_is_nan y then x
  else if (x <? y)%float then y else x.
Definition f64_min (x y : f64) : f64 :=
  if f64_is_nan x then y else if f64_is_nan y then x
  else if (y <? x)%float then y else x.
(** [f64::clamp] *)
Definition f64_clamp (x lo hi : f64) : f64 :=
  let x := if (x <? lo)%float then lo else x in
  if (hi <? x)%float then hi else x.

(** [n as f64] for an unsigned integer [n]: round to nearest even. *)
Definition f64_of_Z (n : Z) : f64 := SF2Prim (binary_normalize prec emax n 0 false).
