(* ===== verification/World.v ===== *)
(** * What the program reads from its environment

    Random UUIDs, the system clock and the iteration order of hash maps.  Each
    is left open: a [World] carries the answers still to come, and theorems
    quantify over all of them. *)

From S2P Require Import Prelude.

(** A 128-bit UUID. *)
Abbreviation Uuid := N.

(** The answers the process will get: the [n]-th [Uuid::new_v4()] and the
    [n]-th reading of [SystemTime::now()], in milliseconds since the epoch.
    Neither freshness nor a monotone clock is assumed. *)
Record World := mkWorld {
  w_uuids : nat → Uuid;
  w_clock : nat → Z;
}.

(** [Uuid::new_v4()] *)
Definition new_v4 {E} : comp World E Uuid :=
  λ w, (Ok (w_uuids w 0), mkWorld (λ n, w_uuids w (S n)) (w_clock w)).

(** [now_unix_ms()]: panics before the epoch, saturates at [u64::MAX]. *)
Definition now_unix_ms {E} : comp World E Z :=
  λ w, let t := w_clock w 0 in
       let w' := mkWorld (w_uuids w) (λ n, w_clock w (S n)) in
       if t <? 0 then (Panic, w')
       else (Ok (if t <=? u64_max then t else u64_max), w').

(** The text form of a UUID, which the [uuid] crate defines. *)
Class UuidCrate := {
  uuid_to_string : Uuid → string;
  uuid_parse_str : string → option Uuid;
}.

(** The order in which a [HashMap] is iterated is unspecified: a program run
    fixes one, of which only this is known. *)
Class HashOrder := {
  hash_iter : ∀ {K} `{Countable K} {A}, gmap K A → list (K * A);
  hash_iter_perm : ∀ {K} `{Countable K} {A} (m : gmap K A), hash_iter m ≡ₚ map_to_list m;
}.

(** One such order, for evaluating the definitions. *)
Definition trie_order : HashOrder :=
  {| hash_iter K _ _ A m := map_to_list m; hash_iter_perm K _ _ A m := Permutation_refl _ |}.

Section hash_order.
Context `{HashOrder} {K} `{Countable K} {A : Type}.
Implicit Types m : gmap K A.

(** [HashMap::values], [HashMap::keys] *)
Definition hash_values m : list A := (hash_iter m).*2.
Definition hash_keys m : list K := (hash_iter m).*1.

Lemma elem_of_hash_iter m k a : (k, a) ∈ hash_iter m ↔ m !! k = Some a.
Proof. rewrite hash_iter_perm. apply elem_of_map_to_list. Qed.

Lemma elem_of_hash_values m a : a ∈ hash_values m ↔ ∃ k, m !! k = Some a.
Proof.
  unfold hash_values. rewrite list_elem_of_fmap. split.
  - intros ([k a'] & -> & Hin). exists k. by apply elem_of_hash_iter.
  - intros [k Hk]. exists (k, a). split; [done|]. by apply elem_of_hash_iter.
Qed.

Lemma elem_of_hash_keys m k : k ∈ hash_keys m ↔ is_Some (m !! k).
Proof.
  unfold hash_keys. rewrite list_elem_of_fmap. split.
  - intros ([k' a] & -> & Hin). exists a. by apply elem_of_hash_iter.
  - intros [a Ha]. exists (k, a). split; [done|]. by apply elem_of_hash_iter.
Qed.

Lemma NoDup_hash_keys m : NoDup (hash_keys m).
Proof. unfold hash_keys. rewrite hash_iter_perm. apply NoDup_fst_map_to_list. Qed.
End hash_order.
