(* ===== verification/Text.v ===== *)
(** * Strings as the code uses them

    A Rust [str] is its UTF-8 bytes.  [trim], [trim_end_matches],
    [strip_prefix], decimal formatting and parsing. *)

From S2P Require Import Prelude.

(** ** White space ([char::is_whitespace] on UTF-8) *)

Definition utf8 (bytes : list N) : string :=
  foldr (λ b s, String (Ascii.ascii_of_N b) s) EmptyString bytes.

Definition white_space : list string :=
  utf8 <$> [[9]; [10]; [11]; [12]; [13]; [32]; [194; 133]; [194; 160]; [225; 154; 128];
            [226; 128; 128]; [226; 128; 129]; [226; 128; 130]; [226; 128; 131];
            [226; 128; 132]; [226; 128; 133]; [226; 128; 134]; [226; 128; 135];
            [226; 128; 136]; [226; 128; 137]; [226; 128; 138]; [226; 128; 168];
            [226; 128; 169]; [226; 128; 175]; [226; 129; 159]; [227; 128; 128]]%N.

(** [str::strip_prefix] *)
Fixpoint strip_prefix (p s : string) : option string :=
  match p with
  | EmptyString => Some s
  | String a p' =>
      match s with
      | EmptyString => None
      | String b s' => if Ascii.eqb a b then strip_prefix p' s' else None
      end
  end.

Lemma strip_prefix_Some p s rest : strip_prefix p s = Some rest → s = p +:+ rest.
Proof.
  revert s. induction p as [|a p IH]; intros s; simpl; [by intros [= ->]|].
  destruct s as [|b s]; [done|]. destruct (Ascii.eqb_spec a b) as [->|]; [|done].
  intros ->%IH. done.
Qed.

Lemma strip_prefix_app p s : strip_prefix p (p +:+ s) = Some s.
Proof. induction p as [|a p IH]; simpl; [done|]. by rewrite Ascii.eqb_refl. Qed.

(** [str::starts_with] *)
Definition starts_with (p s : string) : bool :=
  match strip_prefix p s with Some _ => true | None => false end.

Fixpoint first_prefix (ps : list string) (s : string) : option string :=
  match ps with
  | [] => None
  | p :: ps' => match strip_prefix p s with Some s' => Some s' | None => first_prefix ps' s end
  end.

(** Strip members of [ps] off the front; each one is at least a byte long, so
    the length of [s] is fuel enough. *)
Fixpoint strip_all (fuel : nat) (ps : list string) (s : string) : string :=
  match fuel with
  | O => s
  | S fuel' => match first_prefix ps s with Some s' => strip_all fuel' ps s' | None => s end
  end.

Definition trim_start_of (ps : list string) (s : string) : string :=
  strip_all (String.length s) ps s.

Fixpoint rev_onto (s acc : string) : string :=
  match s with EmptyString => acc | String a s' => rev_onto s' (String a acc) end.
Definition str_rev (s : string) : string := rev_onto s EmptyString.

Definition trim_end_of (ps : list string) (s : string) : string :=
  str_rev (trim_start_of (str_rev <$> ps) (str_rev s)).

(** [str::trim] *)
Definition trim (s : string) : string := trim_end_of white_space (trim_start_of white_space s).

(** [trim_end_matches('/')] *)
Definition trim_end_slashes (s : string) : string := trim_end_of ["/"%string] s.

(** ** Splitting *)

Definition comma : Ascii.ascii := Ascii.ascii_of_N 44.
Definition hyphen : Ascii.ascii := Ascii.ascii_of_N 45.
Definition slash : Ascii.ascii := Ascii.ascii_of_N 47.
Definition colon : Ascii.ascii := Ascii.ascii_of_N 58.

Definition prepend_to_head (a : Ascii.ascii) (l : list string) : list string :=
  match l with
  | [] => [String a EmptyString]
  | s :: l' => String a s :: l'
  end.
(** [str::split] at an ASCII character *)
Fixpoint split_at_char (c : Ascii.ascii) (s : string) : list string :=
  match s with
  | EmptyString => [EmptyString]
  | String a s' =>
      if Ascii.eqb a c then EmptyString :: split_at_char c s'
      else prepend_to_head a (split_at_char c s')
  end.
(** [str::split_once], at the first occurrence *)
Fixpoint split_once (c : Ascii.ascii) (s : string) : option (string * string) :=
  match s with
  | EmptyString => None
  | String a s' =>
      if Ascii.eqb a c then Some (EmptyString, s')
      else '(before, after) ← split_once c s'; Some (String a before, after)
  end.
(** [str::rsplit_once], at the last occurrence *)
Definition rsplit_once (c : Ascii.ascii) (s : string) : option (string * string) :=
  '(after, before) ← split_once c (str_rev s); Some (str_rev before, str_rev after).
(** [str::contains] of a character *)
Fixpoint contains_char (c : Ascii.ascii) (s : string) : bool :=
  match s with
  | EmptyString => false
  | String a s' => Ascii.eqb a c || contains_char c s'
  end.

Fixpoint until_white_space (s : string) : string :=
  match s with
  | EmptyString => EmptyString
  | String a s' =>
      match first_prefix white_space s with
      | Some _ => EmptyString
      | None => String a (until_white_space s')
      end
  end.
(** [split_whitespace().next()] *)
Definition first_word (s : string) : option string :=
  match until_white_space (trim_start_of white_space s) with
  | EmptyString => None
  | word => Some word
  end.

(** ** Decimal numbers *)

Definition digit_value (a : Ascii.ascii) : option N :=
  let n := Ascii.N_of_ascii a in
  if ((48 <=? n) && (n <=? 57))%N then Some (n - 48)%N else None.

(** The value of a string of decimal digits, [acc] being what stood before. *)
Fixpoint digits_value (acc : N) (s : string) : option N :=
  match s with
  | EmptyString => Some acc
  | String a s' => d ← digit_value a; digits_value (10 * acc + d)%N s'
  end.

(** [str::parse] at an unsigned type with maximum [max]: an optional [+], at
    least one digit, and no overflow. *)
Definition parse_unsigned (max : Z) (s : string) : option Z :=
  let digits := match strip_prefix "+" s with Some s' => s' | None => s end in
  match digits with
  | EmptyString => None
  | _ => n ← digits_value 0 digits; if Z.of_N n <=? max then Some (Z.of_N n) else None
  end.

(** [to_string] of an unsigned integer. *)
Definition show (z : Z) : string := pretty z.
Definition show_nat (n : nat) : string := pretty n.
