(* ===== verification/Program.v ===== *)
(** * Programs with effects

    Code that reads and writes files, talks HTTP, starts processes or sleeps is
    a tree of calls: each node names a call, and a continuation takes its
    answer.  [run] gives a program a sequential meaning against a handler of
    its calls, [pstep] one call of it, [run_schedule] an interleaving of several
    threads, and [ensures] quantifies over every answer the environment may
    give. *)

From S2P Require Import Prelude.

(** A property that every step keeps, every sequence of steps keeps. *)
Lemma rtc_keeps {A} (R : A → A → Prop) (P : A → Prop) x y :
  (∀ x y, R x y → P x → P y) → rtc R x y → P x → P y.
Proof. intros HR. induction 1; eauto. Qed.

(** [E R]: the calls whose answer is an [R]. *)
Inductive prog (E : Type → Type) (A : Type) : Type :=
| Done (a : A)
| Call (R : Type) (c : E R) (k : R → prog E A).
Arguments Done {E A} a.
Arguments Call {E A} R c k.

(** A handler of the calls, over a state [S]. *)
Definition handler (E : Type → Type) (S : Type) : Type := ∀ R, E R → S → R * S.

Section programs.
Context {E : Type → Type}.

Definition call {R} (c : E R) : prog E R := Call R c Done.
Fixpoint pbind {A B} (p : prog E A) (k : A → prog E B) : prog E B :=
  match p with
  | Done a => k a
  | Call R c k' => Call R c (λ r, pbind (k' r) k)
  end.

(** [p?]: an error of [p] is returned, converted by [f]. *)
Definition ptry {X X' A B} (f : X → X') (p : prog E (outcome X A)) (k : A → prog E (outcome X' B)) :
    prog E (outcome X' B) :=
  pbind p (λ m, match m with
                | Ok a => k a
                | Err e => Done (Err (f e))
                | Panic => Done Panic
                | Diverged => Done Diverged
                end).

Context {S : Type} (h : handler E S).

Fixpoint run {A} (p : prog E A) (s : S) : A * S :=
  match p with
  | Done a => (a, s)
  | Call R c k => let '(r, s') := h R c s in run (k r) s'
  end.

(** One call. *)
Definition pstep {A} (p : prog E A) (s : S) : prog E A * S :=
  match p with
  | Done a => (Done a, s)
  | Call R c k => let '(r, s') := h R c s in (k r, s')
  end.

(** Thread [i] makes its next call. *)
Definition thread_step {A} (i : nat) (cfg : list (prog E A) * S) : list (prog E A) * S :=
  let '(threads, s) := cfg in
  match threads !! i with
  | Some p => let '(p', s') := pstep p s in (<[i := p']> threads, s')
  | None => cfg
  end.
Definition run_schedule {A} (schedule : list nat) (cfg : list (prog E A) * S) : list (prog E A) * S :=
  fold_left (λ cfg i, thread_step i cfg) schedule cfg.

Lemma run_pbind {A B} (p : prog E A) (k : A → prog E B) s :
  run (pbind p k) s = let '(a, s') := run p s in run (k a) s'.
Proof. revert s. induction p as [a|R c k' IH]; intros s; simpl; [done|]. destruct (h R c s). apply IH. Qed.
Lemma run_ptry {X X' A B} (f : X → X') (p : prog E (outcome X A)) (k : A → prog E (outcome X' B)) s :
  run (ptry f p k) s =
  let '(m, s') := run p s in
  match m with
  | Ok a => run (k a) s'
  | Err e => (Err (f e), s')
  | Panic => (Panic, s')
  | Diverged => (Diverged, s')
  end.
Proof. unfold ptry. rewrite run_pbind. by destruct (run p s) as [[] ?]. Qed.

(** The sequential run is the one-thread schedule. *)
Lemma run_pstep {A} (p : prog E A) s : run p s = let '(p', s') := pstep p s in run p' s'.
Proof. destruct p as [|R c k]; simpl; [done|]. by destruct (h R c s). Qed.
End programs.

(** Handlers that answer alike. *)
Lemma run_ext {E S A} (h h' : handler E S) (p : prog E A) s :
  (∀ R c s, h R c s = h' R c s) → run h p s = run h' p s.
Proof. intros Hh. revert s. induction p as [a|R c k IH]; intros s; simpl; [done|]. rewrite Hh. by destruct (h' R c s). Qed.

(** [let* x] runs a program, [let? x] also returns its error. *)
Declare Scope prog_scope.
Delimit Scope prog_scope with prog.
Notation "'let*' x ':=' p 'in' k" := (pbind p (λ x, k))
  (at level 10, x binder, p at level 200, k at level 200) : prog_scope.
Notation "'let?' x ':=' p 'in' k" := (ptry id p (λ x, k))
  (at level 10, x binder, p at level 200, k at level 200) : prog_scope.

(** The calls of [E] among those of a larger signature [F]. *)
Fixpoint translate {E F : Type → Type} (f : ∀ R, E R → F R) {A} (p : prog E A) : prog F A :=
  match p with
  | Done a => Done a
  | Call R c k => Call R (f R c) (λ r, translate f (k r))
  end.

Lemma run_translate {E F S A} (f : ∀ R, E R → F R) (h : handler F S) (p : prog E A) s :
  run h (translate f p) s = run (λ R c, h R (f R c)) p s.
Proof. revert s. induction p as [|R c k IH]; intros s; simpl; [done|]. destruct (h R (f R c) s). apply IH. Qed.

(** A handler of part of the state. *)
Definition handle_part {E S T} (get_part : T → S) (set_part : S → T → T) (h : handler E S) : handler E T :=
  λ R c t, let '(r, s) := h R c (get_part t) in (r, set_part s t).

Lemma run_handle_part {E S T A} (get_part : T → S) (set_part : S → T → T) (h : handler E S)
    (p : prog E A) t :
  (∀ s t, get_part (set_part s t) = s) → (∀ t, set_part (get_part t) t = t) →
  (∀ s s' t, set_part s (set_part s' t) = set_part s t) →
  run (handle_part get_part set_part h) p t =
  let '(a, s) := run h p (get_part t) in (a, set_part s t).
Proof.
  intros Hgs Hsg Hss. revert t. induction p as [a|R c k IH]; intros t; simpl; [by rewrite Hsg|].
  unfold handle_part at 1. destruct (h R c (get_part t)) as [r s]. rewrite IH, Hgs.
  destruct (run h (k r) s). by rewrite Hss.
Qed.

(** Whatever [answers] allows the environment to reply, [p] ends in a value
    that satisfies [φ]. *)
Fixpoint ensures {E A} (answers : ∀ R, E R → R → Prop) (p : prog E A) (φ : A → Prop) : Prop :=
  match p with
  | Done a => φ a
  | Call R c k => ∀ r, answers R c r → ensures answers (k r) φ
  end.

Section ensures_rules.
Context {E : Type → Type} (answers : ∀ R, E R → R → Prop).

Lemma ensures_mono {A} (p : prog E A) (φ ψ : A → Prop) :
  ensures answers p φ → (∀ a, φ a → ψ a) → ensures answers p ψ.
Proof. induction p as [|R c k IH]; simpl; eauto. Qed.
Lemma ensures_true {A} (p : prog E A) : ensures answers p (λ _, True).
Proof. induction p as [|R c k IH]; simpl; auto. Qed.
Lemma ensures_pbind {A B} (p : prog E A) (k : A → prog E B) φ ψ :
  ensures answers p φ → (∀ a, φ a → ensures answers (k a) ψ) → ensures answers (pbind p k) ψ.
Proof. induction p as [|R c k' IH]; simpl; eauto. Qed.
Lemma ensures_ptry {X X' A B} (f : X → X') (p : prog E (outcome X A)) (k : A → prog E (outcome X' B)) φ ψ :
  ensures answers p φ →
  (∀ m, φ m → match m with
              | Ok a => ensures answers (k a) ψ
              | Err e => ψ (Err (f e))
              | Panic => ψ Panic
              | Diverged => ψ Diverged
              end) →
  ensures answers (ptry f p k) ψ.
Proof.
  intros Hp Hk. eapply ensures_pbind; [exact Hp|]. intros [] H; by apply Hk in H.
Qed.
Lemma ensures_run {S A} (h : handler E S) (p : prog E A) φ s :
  ensures answers p φ → (∀ R c s, answers R c (h R c s).1) → φ (run h p s).1.
Proof.
  intros Hp Hh. revert s. induction p as [a|R c k IH]; intros s; simpl in *; [done|].
  pose proof (Hh R c s) as Ha. destruct (h R c s) as [r s']. by apply IH, Hp.
Qed.
End ensures_rules.

(** ** Histories

    An event is a call with its answer; the latest comes first. *)
Record event (E : Type → Type) := mkEvent { ev_type : Type; ev_call : E ev_type; ev_answer : ev_type }.
Arguments mkEvent {E} ev_type ev_call ev_answer.

(** After [history], and whatever the environment answers, [p] makes only calls
    that [allowed] permits at that point, and ends in [φ]. *)
Fixpoint calls_only {E A} (allowed : list (event E) → ∀ R, E R → Prop) (history : list (event E))
    (p : prog E A) (φ : list (event E) → A → Prop) : Prop :=
  match p with
  | Done a => φ history a
  | Call R c k =>
      allowed history R c ∧ ∀ r, calls_only allowed (mkEvent R c r :: history) (k r) φ
  end.

Section calls_only_rules.
Context {E : Type → Type} (allowed : list (event E) → ∀ R, E R → Prop).

Lemma calls_only_mono {A} history (p : prog E A) (φ ψ : list (event E) → A → Prop) :
  calls_only allowed history p φ → (∀ history' a, φ history' a → ψ history' a) →
  calls_only allowed history p ψ.
Proof.
  revert history. induction p as [a|R c k IH]; simpl; [eauto|]. intros history [? Hk] Hφ. eauto.
Qed.
Lemma calls_only_pbind {A B} history (p : prog E A) (k : A → prog E B) φ ψ :
  calls_only allowed history p φ → (∀ history' a, φ history' a → calls_only allowed history' (k a) ψ) →
  calls_only allowed history (pbind p k) ψ.
Proof.
  revert history. induction p as [a|R c k' IH]; simpl; [eauto|]. intros history [? Hk] Hφ. eauto.
Qed.
(** After an error nothing more is called. *)
Lemma calls_only_ptry {X X' A B} (f : X → X') history (p : prog E (outcome X A))
    (k : A → prog E (outcome X' B)) φ ψ :
  calls_only allowed history p φ →
  (∀ history' a, φ history' (Ok a) → calls_only allowed history' (k a) ψ) →
  (∀ history' m, (∀ a, m ≠ Ok a) → ψ history' m) →
  calls_only allowed history (ptry f p k) ψ.
Proof.
  intros Hp Hk Hψ. eapply calls_only_pbind; [exact Hp|]. intros history' [] H; simpl; auto.
Qed.
End calls_only_rules.

(** ** Programs that make certain calls only *)

Fixpoint makes_only {E A} (Q : ∀ R, E R → Prop) (p : prog E A) : Prop :=
  match p with
  | Done _ => True
  | Call R c k => Q R c ∧ ∀ r, makes_only Q (k r)
  end.

Section only_rules.
Context {E : Type → Type} (Q : ∀ R, E R → Prop).

Lemma only_done {A} (a : A) : makes_only Q (Done a).
Proof. done. Qed.
Lemma only_call {R} (c : E R) : Q R c → makes_only Q (call c).
Proof. by split. Qed.
Lemma only_pbind {A B} (p : prog E A) (k : A → prog E B) :
  makes_only Q p → (∀ a, makes_only Q (k a)) → makes_only Q (pbind p k).
Proof. induction p as [a|R c k' IH]; simpl; [auto|]. intros [? ?] ?. auto. Qed.
Lemma only_ptry {X X' A B} (f : X → X') (p : prog E (outcome X A)) (k : A → prog E (outcome X' B)) :
  makes_only Q p → (∀ a, makes_only Q (k a)) → makes_only Q (ptry f p k).
Proof. intros Hp Hk. apply only_pbind; [done|]. by intros []. Qed.
Lemma only_translate {F A} (f : ∀ R, F R → E R) (p : prog F A) :
  (∀ R c, Q R (f R c)) → makes_only Q (translate f p).
Proof. intros Hf. induction p as [a|R c k IH]; simpl; auto. Qed.
Lemma calls_only_only {A} (allowed : list (event E) → ∀ R, E R → Prop) history (p : prog E A) :
  (∀ h R c, Q R c → allowed h R c) → makes_only Q p → calls_only allowed history p (λ h _, history ⊆ h).
Proof.
  intros HQ. revert history. induction p as [a|R c k IH]; intros history; simpl; [by intros _|].
  intros [Hc Hk]. split; [by apply HQ|]. intros r. eapply calls_only_mono; [by apply IH|].
  intros h' a Hsub e He. apply Hsub. by right.
Qed.
End only_rules.
Create HintDb calls.
#[export] Hint Resolve only_done only_call : calls.

(** Follow a program's structure down to its calls. *)
Ltac follow_calls :=
  repeat match goal with
  | |- makes_only _ (Done _) => exact I
  | |- makes_only _ (call _) => apply only_call
  | |- makes_only _ (pbind _ _) => apply only_pbind; [|intros]
  | |- makes_only _ (ptry _ _ _) => apply only_ptry; [|intros]
  | |- makes_only _ (translate _ _) => apply only_translate; intros
  | |- makes_only _ (match ?x with _ => _ end) => destruct x
  | |- makes_only _ (if ?x then _ else _) => destruct x
  | |- makes_only _ (let '(_, _) := ?x in _) => destruct x
  | _ => progress cbv zeta
  | _ => solve [auto with calls]
  end.
