(* ===== verification/Bytes.v ===== *)
(** * Byte strings

    Blobs are lists of bytes; a Rust [str] is a [string] of its UTF-8 bytes.
    Little-endian integers, UTF-8 validity, lines, slices, and the round trip
    of decimal numbers. *)

From Stdlib Require Import Strings.Byte.
From S2P Require Import Prelude Text.
Open Scope string_scope.
Open Scope list_scope.
Open Scope Z_scope.

Abbreviation byte := Byte.byte.
Abbreviation Bytes := (list byte).

#[export] Instance byte_eq_dec : EqDecision byte := Byte.byte_eq_dec.

(** [String::into_bytes], and back for bytes known to be UTF-8. *)
Definition to_bytes (s : string) : Bytes := String.list_byte_of_string s.
Definition of_bytes (b : Bytes) : string := String.string_of_list_byte b.

Definition byte_value (b : byte) : Z := Z.of_N (Byte.to_N b).
(** [z as u8] *)
Definition byte_of_Z (z : Z) : byte := default x00 (Byte.of_N (Z.to_N (z mod 256))).

(** ** [u64::to_le_bytes], [u64::from_le_bytes] *)

Fixpoint le_bytes (n : nat) (z : Z) : Bytes :=
  match n with
  | O => []
  | S n' => byte_of_Z z :: le_bytes n' (Z.shiftr z 8)
  end.
Definition u64_to_le_bytes (z : Z) : Bytes := le_bytes 8 z.

Fixpoint le_value (bytes : Bytes) : Z :=
  match bytes with
  | [] => 0
  | b :: bytes' => byte_value b + 256 * le_value bytes'
  end.
(** [<[u8; 8]>::try_from(slice)] and [u64::from_le_bytes] *)
Definition u64_of_le_slice (bytes : Bytes) : option Z :=
  if (length bytes =? 8)%nat then Some (le_value bytes) else None.

(** ** UTF-8 ([std::str::from_utf8]) *)

Definition in_range (lo hi : Z) (b : byte) : bool := (lo <=? byte_value b) && (byte_value b <=? hi).
Definition continuation (b : byte) : bool := in_range 128 191 b.

(** The bytes that may follow a leading byte: each by its own test; [None]
    when no character starts with it. *)
Definition utf8_tail (lead : byte) : option (list (byte → bool)) :=
  let v := byte_value lead in
  if v <=? 127 then Some []
  else if v <=? 193 then None
  else if v <=? 223 then Some [continuation]
  else if v =? 224 then Some [in_range 160 191; continuation]
  else if v =? 237 then Some [in_range 128 159; continuation]
  else if v <=? 239 then Some [continuation; continuation]
  else if v =? 240 then Some [in_range 144 191; continuation; continuation]
  else if v <=? 243 then Some [continuation; continuation; continuation]
  else if v =? 244 then Some [in_range 128 143; continuation; continuation]
  else None.

(** [expected] holds the tests of the bytes the current character still needs. *)
Fixpoint utf8_from (expected : list (byte → bool)) (bytes : Bytes) : bool :=
  match expected, bytes with
  | [], [] => true
  | _ :: _, [] => false
  | test :: expected', b :: bytes' => test b && utf8_from expected' bytes'
  | [], b :: bytes' =>
      match utf8_tail b with
      | Some expected' => utf8_from expected' bytes'
      | None => false
      end
  end.
Definition utf8_valid (bytes : Bytes) : bool := utf8_from [] bytes.

(** ** [str::lines] *)

Definition newline : byte := x0a.
Definition carriage_return : byte := x0d.

(** A line without its carriage return. *)
Definition strip_cr (line : Bytes) : Bytes :=
  match list.last line with
  | Some b => if bool_decide (b = carriage_return) then removelast line else line
  | None => line
  end.

(** [current] is what precedes, since the last newline; a carriage return is
    dropped only before a newline. *)
Fixpoint lines_from (current bytes : Bytes) : list Bytes :=
  match bytes with
  | [] => match current with [] => [] | _ => [current] end
  | b :: bytes' =>
      if bool_decide (b = newline) then strip_cr current :: lines_from [] bytes'
      else lines_from (current ++ [b]) bytes'
  end.
Definition lines (bytes : Bytes) : list string := of_bytes <$> lines_from [] bytes.

(** ** [&bytes[start..end]] *)
Definition slice {E} (bytes : Bytes) (start end_ : Z) : outcome E Bytes :=
  if (start <=? end_) && (end_ <=? Z.of_nat (length bytes))
  then Ok (take (Z.to_nat (end_ - start)) (drop (Z.to_nat start) bytes))
  else Panic.

(** The bytes of a range (offset, length). *)
Definition sub_bytes (text : Bytes) (range : Z * Z) : Bytes :=
  take (Z.to_nat range.2) (drop (Z.to_nat range.1) text).

Lemma slice_Ok {E} bytes start end_ :
  0 ≤ start → start ≤ end_ → end_ ≤ Z.of_nat (length bytes) →
  slice (E:=E) bytes start end_ = Ok (sub_bytes bytes (start, end_ - start)).
Proof.
  intros ???. unfold slice. destruct (Z.leb_spec start end_); [|lia].
  by destruct (Z.leb_spec end_ (Z.of_nat (length bytes))); [|lia].
Qed.
Lemma length_sub_bytes bytes start len :
  0 ≤ start → 0 ≤ len → start + len ≤ Z.of_nat (length bytes) →
  Z.of_nat (length (sub_bytes bytes (start, len))) = len.
Proof. intros ???. unfold sub_bytes. simpl. rewrite length_take, length_drop. lia. Qed.

(** ** Facts *)

Lemma byte_value_range b : 0 ≤ byte_value b < 256.
Proof. unfold byte_value. pose proof (Byte.to_N_bounded b). lia. Qed.
Lemma byte_value_of_Z z : byte_value (byte_of_Z z) = z mod 256.
Proof.
  unfold byte_value, byte_of_Z. pose proof (Z.mod_pos_bound z 256 ltac:(lia)).
  destruct (Byte.of_N _) as [b|] eqn:Hb.
  - apply Byte.to_of_N in Hb. simpl. lia.
  - apply Byte.of_N_None_iff in Hb. lia.
Qed.
Lemma length_le_bytes n z : length (le_bytes n z) = n.
Proof. revert z. induction n as [|n IH]; intros z; simpl; [done|]. by rewrite IH. Qed.
Lemma le_value_le_bytes n z : le_value (le_bytes n z) = z mod 256 ^ Z.of_nat n.
Proof.
  revert z. induction n as [|n IH]; intros z; simpl le_bytes; simpl le_value; [by rewrite Z.mod_1_r|].
  rewrite byte_value_of_Z, IH, Z.shiftr_div_pow2 by lia.
  replace (256 ^ Z.of_nat (S n)) with (256 * 256 ^ Z.of_nat n) by (rewrite Nat2Z.inj_succ, Z.pow_succ_r; lia).
  change (2 ^ 8) with 256. rewrite Z.rem_mul_r by (try apply Z.pow_nonzero; lia). done.
Qed.
Lemma u64_le_roundtrip z : is_u64 z → u64_of_le_slice (u64_to_le_bytes z) = Some z.
Proof.
  intros Hz. unfold u64_of_le_slice, u64_to_le_bytes. rewrite length_le_bytes. simpl.
  change (Some (le_value (le_bytes 8 z)) = Some z). rewrite le_value_le_bytes. f_equal.
  apply Z.mod_small. unfold is_u64, u64_max in Hz. change (256 ^ Z.of_nat 8) with (2 ^ 64). lia.
Qed.
Lemma le_value_range bytes : 0 ≤ le_value bytes < 256 ^ Z.of_nat (length bytes).
Proof.
  induction bytes as [|b bytes IH]; simpl length; simpl le_value; [simpl; lia|].
  rewrite Nat2Z.inj_succ, Z.pow_succ_r by lia. pose proof (byte_value_range b). lia.
Qed.
Lemma u64_of_le_slice_range bytes z : u64_of_le_slice bytes = Some z → is_u64 z.
Proof.
  unfold u64_of_le_slice. destruct (Nat.eqb_spec (length bytes) 8) as [Hl|]; [|done]. intros [= <-].
  pose proof (le_value_range bytes) as Hr. rewrite Hl in Hr. change (256 ^ Z.of_nat 8) with (2 ^ 64) in Hr.
  unfold is_u64, u64_max. lia.
Qed.

(** ** Bytes and strings *)

Lemma of_to_bytes s : of_bytes (to_bytes s) = s.
Proof. apply String.string_of_list_byte_of_string. Qed.
Lemma to_of_bytes b : to_bytes (of_bytes b) = b.
Proof. apply String.list_byte_of_string_of_list_byte. Qed.

(** ** Decimal numbers read back *)


Lemma digit_value_char n : (n < 10)%N → digit_value (pretty_N_char n) = Some n.
Proof.
  intros Hn. assert (n ∈ [0;1;2;3;4;5;6;7;8;9]%N) as Hin by (rewrite !elem_of_cons; lia).
  rewrite !elem_of_cons, elem_of_nil in Hin.
  destruct Hin as [->|[->|[->|[->|[->|[->|[->|[->|[->|[->|[]]]]]]]]]]]; reflexivity.
Qed.
Lemma digits_value_go x s : digits_value 0 (pretty_N_go x s) = digits_value x s.
Proof.
  revert s. induction (N.lt_wf_0 x) as [x _ IH]. intros s.
  destruct (decide (x = 0%N)) as [->|Hx]; [by rewrite pretty_N_go_0|].
  rewrite pretty_N_go_step by lia. rewrite IH by (apply N.div_lt; lia). simpl.
  pose proof (N.mod_lt x 10 ltac:(lia)). rewrite digit_value_char by done. simpl. f_equal.
  pose proof (N.div_mod x 10 ltac:(lia)). lia.
Qed.
Lemma show_N (n : N) : digits_value 0 (pretty n) = Some n ∧ pretty n ≠ "".
Proof.
  unfold pretty, pretty_N. destruct (decide (n = 0%N)) as [->|Hn]; [done|]. split.
  - by rewrite digits_value_go.
  - rewrite pretty_N_go_step by lia. generalize (n `div` 10)%N. intros m Hm.
    assert (∀ s, s ≠ "" → pretty_N_go m s ≠ "") as Hgo; [|by eapply Hgo in Hm].
    clear. induction (N.lt_wf_0 m) as [m _ IH]. intros s Hs.
    destruct (decide (m = 0%N)) as [->|Hm]; [by rewrite pretty_N_go_0|].
    rewrite pretty_N_go_step by lia. apply IH; [apply N.div_lt; lia|done].
Qed.
Lemma show_as_N z : 0 ≤ z → show z = pretty (Z.to_N z).
Proof. by destruct z. Qed.

(** [to_string] then [parse]. *)
Lemma parse_show max z : 0 ≤ z ≤ max → parse_unsigned max (show z) = Some z.
Proof.
  intros Hz. rewrite show_as_N by lia. destruct (show_N (Z.to_N z)) as [Hv Hne].
  unfold parse_unsigned. destruct (strip_prefix "+" _) as [s'|] eqn:Hp.
  { apply strip_prefix_Some in Hp. by rewrite Hp in Hv. }
  destruct (pretty (Z.to_N z)) eqn:Hs; [done|]. rewrite <- Hs in *. rewrite Hv. simpl.
  rewrite Z2N.id by lia. destruct (Z.leb_spec z max); [done|lia].
Qed.

Lemma parse_unsigned_range max s z : parse_unsigned max s = Some z → 0 ≤ z ≤ max.
Proof.
  unfold parse_unsigned. intros Hp. repeat case_match; simplify_eq/=; try done;
    apply bind_Some in Hp as (n & _ & Hn); destruct (Z.leb_spec (Z.of_N n) max); simplify_eq; lia.
Qed.
Lemma checked_add64_Some a b c : checked_add64 a b = Some c ↔ c = a + b ∧ c ≤ u64_max.
Proof. unfold checked_add64. destruct (Z.leb_spec (a + b) u64_max); naive_solver lia. Qed.
Lemma show_inj z z' : is_u64 z → is_u64 z' → show z = show z' → z = z'.
Proof.
  intros Hz Hz' Heq. apply (parse_show u64_max) in Hz, Hz'. congruence.
Qed.

Lemma string_app_inj_length s s' t t' :
  String.length s = String.length s' → s +:+ t = s' +:+ t' → s = s' ∧ t = t'.
Proof.
  revert s'. induction s as [|a s IH]; intros [|a' s'] Hlen Heq; simplify_eq/=; [done|].
  by destruct (IH s') as [-> ->].
Qed.
Lemma string_length_app s t : String.length (s +:+ t) = (String.length s + String.length t)%nat.
Proof. induction s as [|a s IH]; simpl; [done|]. by rewrite IH. Qed.
Lemma string_app_inv_tail s s' t : s +:+ t = s' +:+ t → s = s'.
Proof.
  intros Heq. apply string_app_inj_length in Heq as [? _]; [done|].
  apply (f_equal String.length) in Heq. rewrite !string_length_app in Heq. lia.
Qed.

(** ** Strings of digits *)

Definition all_chars (P : Ascii.ascii → bool) (s : string) : bool := forallb P (String.list_ascii_of_string s).
Lemma all_chars_app P s t : all_chars P (s +:+ t) = all_chars P s && all_chars P t.
Proof. unfold all_chars. induction s as [|a s IH]; simpl; [done|]. by rewrite IH, andb_assoc. Qed.
Lemma all_chars_impl (P Q : Ascii.ascii → bool) s :
  (∀ a, P a = true → Q a = true) → all_chars P s = true → all_chars Q s = true.
Proof.
  intros HPQ. unfold all_chars. induction s as [|a s IH]; simpl; [done|]. rewrite !andb_true_iff. naive_solver.
Qed.
Definition is_digit (a : Ascii.ascii) : bool := match digit_value a with Some _ => true | None => false end.
Lemma digits_value_digits acc s : is_Some (digits_value acc s) → all_chars is_digit s = true.
Proof.
  unfold all_chars. revert acc. induction s as [|a s IH]; intros acc; simpl; [done|]. unfold is_digit at 1.
  destruct (digit_value a); simpl; [apply IH|by intros []].
Qed.
Lemma show_digits z : 0 ≤ z → all_chars is_digit (show z) = true.
Proof. intros Hz. rewrite show_as_N by done. apply (digits_value_digits 0). by rewrite (proj1 (show_N _)). Qed.
Lemma contains_char_absent P c s : all_chars P s = true → P c = false → contains_char c s = false.
Proof.
  unfold all_chars. induction s as [|a s IH]; simpl; [done|]. intros [Ha Hs]%andb_true_iff Hc.
  rewrite IH by done. destruct (Ascii.eqb_spec a c) as [->|]; [congruence|done].
Qed.
Lemma contains_char_app c s t : contains_char c (s +:+ t) = contains_char c s || contains_char c t.
Proof. induction s as [|a s IH]; simpl; [done|]. by rewrite IH, orb_assoc. Qed.
Lemma split_once_app c s t : contains_char c s = false → split_once c (s +:+ String c t) = Some (s, t).
Proof.
  induction s as [|a s IH]; simpl; [by rewrite Ascii.eqb_refl|].
  intros [-> Hs]%orb_false_iff. by rewrite IH.
Qed.

(** ** Text cut after a newline *)

(** A newline is never inside a character. *)
Lemma utf8_tail_newline lead tests : utf8_tail lead = Some tests → Forall (λ t, t newline = false) tests.
Proof.
  unfold utf8_tail. intros Ht. repeat case_match; simplify_eq; repeat constructor.
Qed.
Lemma utf8_from_newline expected a b :
  Forall (λ t, t newline = false) expected →
  utf8_from expected (a ++ newline :: b) = utf8_from expected (a ++ [newline]) && utf8_valid b.
Proof.
  revert expected. induction a as [|x a IH]; intros expected Hexp; simpl app.
  - destruct Hexp as [|test expected Htest _]; simpl; [done|by rewrite Htest].
  - destruct Hexp as [|test expected Htest Hexp]; simpl.
    + destruct (utf8_tail x) as [tests|] eqn:Ht; [|done]. apply IH. by eapply utf8_tail_newline.
    + by rewrite IH, andb_assoc.
Qed.
Lemma lines_from_newline current a b :
  lines_from current (a ++ newline :: b) = lines_from current (a ++ [newline]) ++ lines_from [] b.
Proof.
  revert current. induction a as [|x a IH]; intros current; simpl; [done|].
  case_bool_decide; [by rewrite IH|apply IH].
Qed.

(** The text ends with a newline, or is empty. *)
Definition whole_lines (bytes : Bytes) : Prop := bytes = [] ∨ ∃ a, bytes = a ++ [newline].

Lemma utf8_valid_app a b : whole_lines a → utf8_valid (a ++ b) = utf8_valid a && utf8_valid b.
Proof.
  intros [->|[a' ->]]; [done|]. rewrite <- app_assoc. by apply utf8_from_newline.
Qed.
Lemma lines_app a b : whole_lines a → lines (a ++ b) = lines a ++ lines b.
Proof.
  intros [->|[a' ->]]; [done|]. unfold lines. rewrite <- app_assoc. simpl.
  by rewrite lines_from_newline, fmap_app.
Qed.
