(* ===== verification/Files.v ===== *)
(** * Files, as [std::fs] presents them

    The calls the program makes of the file system and of the process, with
    their effect on a [Host].  Any call may fail: the faults still to come are
    part of the host, and theorems quantify over them. *)

From Stdlib Require Import Strings.Byte.
From S2P Require Import Prelude Text Program Bytes.
Open Scope string_scope.
Open Scope list_scope.
Open Scope Z_scope.

(** The components of a path ([PathBuf], [Path::join] of plain names). *)
Abbreviation Path := (list string).

Inductive IoError := NotFound | AlreadyExists | OtherIo (code : Z).
#[export] Instance io_error_eq_dec : EqDecision IoError.
Proof. solve_decision. Defined.

Inductive Node :=
| RegularFile (bytes : Bytes)
| Directory.

(** A call that fails by [fault_error]; a write fails after [fault_written] bytes. *)
Record Fault := mkFault { fault_error : IoError; fault_written : nat }.

Record Host := mkHost {
  h_files : gmap Path Node;
  (** the process-wide [NEXT_TEMP_ID] *)
  h_next_temp : Z;
  (** [std::process::id()] *)
  h_pid : Z;
  (** the fault of the [n]-th file system call to come, if it fails *)
  h_faults : nat → option Fault;
}.

Inductive FsCall : Type → Type :=
| Exists (path : Path) : FsCall bool
| IsFile (path : Path) : FsCall bool
| IsDir (path : Path) : FsCall bool
| FetchAddTemp : FsCall Z
| ProcessId : FsCall Z
| CreateDir (path : Path) : FsCall (outcome IoError unit)
| CreateFile (path : Path) : FsCall (outcome IoError unit)
| WriteAll (path : Path) (bytes : Bytes) : FsCall (outcome IoError unit)
| ReadFile (path : Path) : FsCall (outcome IoError Bytes)
| Rename (source target : Path) : FsCall (outcome IoError unit)
| RemoveFile (path : Path) : FsCall (outcome IoError unit).

Definition set_files (files : gmap Path Node) (h : Host) : Host :=
  mkHost files (h_next_temp h) (h_pid h) (h_faults h).
Definition set_next_temp (z : Z) (h : Host) : Host :=
  mkHost (h_files h) z (h_pid h) (h_faults h).
Definition next_fault (h : Host) : Host :=
  mkHost (h_files h) (h_next_temp h) (h_pid h) (λ n, h_faults h (S n)).

(** [ENOTDIR], [EISDIR] *)
Definition not_a_directory : IoError := OtherIo 20.
Definition is_a_directory : IoError := OtherIo 21.

(** ** The file system, when no fault happens *)

Section files.
Implicit Types files : gmap Path Node.

(** The directory a new entry goes to. *)
Definition check_parent (path : Path) files : outcome IoError unit :=
  match files !! removelast path with
  | Some Directory => Ok tt
  | Some (RegularFile _) => Err not_a_directory
  | None => Err NotFound
  end.
Definition mkdir (path : Path) files : outcome IoError (gmap Path Node) :=
  let? _ := check_parent path files in
  match files !! path with
  | Some _ => Err AlreadyExists
  | None => Ok (<[path := Directory]> files)
  end.
(** [File::create]: an existing file is truncated. *)
Definition create_file (path : Path) files : outcome IoError (gmap Path Node) :=
  let? _ := check_parent path files in
  match files !! path with
  | Some Directory => Err is_a_directory
  | _ => Ok (<[path := RegularFile []]> files)
  end.
(** [write_all] to the file just created, if it is still there. *)
Definition write_all (path : Path) (bytes : Bytes) files : gmap Path Node :=
  match files !! path with
  | Some (RegularFile old) => <[path := RegularFile (old ++ bytes)]> files
  | _ => files
  end.
Definition read_file (path : Path) files : outcome IoError Bytes :=
  match files !! path with
  | Some (RegularFile bytes) => Ok bytes
  | Some Directory => Err is_a_directory
  | None => Err NotFound
  end.
(** [fs::rename] of a file: atomic, an existing target file is replaced. *)
Definition rename_file (source target : Path) files : outcome IoError (gmap Path Node) :=
  let? _ := check_parent target files in
  match files !! source, files !! target with
  | None, _ => Err NotFound
  | Some _, Some Directory => Err is_a_directory
  | Some Directory, Some (RegularFile _) => Err not_a_directory
  | Some node, _ => Ok (<[target := node]> (delete source files))
  end.
Definition remove_file (path : Path) files : outcome IoError (gmap Path Node) :=
  match files !! path with
  | Some (RegularFile _) => Ok (delete path files)
  | Some Directory => Err is_a_directory
  | None => Err NotFound
  end.
Definition is_file (path : Path) files : bool :=
  match files !! path with Some (RegularFile _) => true | _ => false end.
Definition is_dir (path : Path) files : bool :=
  match files !! path with Some Directory => true | _ => false end.
End files.

(** A call that updates the files, or fails and leaves them. *)
Definition update_files (f : gmap Path Node → outcome IoError (gmap Path Node)) (h : Host) :
    outcome IoError unit * Host :=
  match h_faults h 0 with
  | Some fault => (Err (fault_error fault), next_fault h)
  | None =>
      match f (h_files h) with
      | Ok files => (Ok tt, set_files files (next_fault h))
      | Err e => (Err e, next_fault h)
      | Panic => (Panic, next_fault h)
      | Diverged => (Diverged, next_fault h)
      end
  end.
(** [exists], [is_file], [is_dir] say no when they fail. *)
Definition ask_files (f : gmap Path Node → bool) (h : Host) : bool * Host :=
  (match h_faults h 0 with Some _ => false | None => f (h_files h) end, next_fault h).

Definition perform : handler FsCall Host := λ R c h,
  match c in FsCall R return R * Host with
  | Exists path => ask_files (λ files, bool_decide (is_Some (files !! path))) h
  | IsFile path => ask_files (is_file path) h
  | IsDir path => ask_files (is_dir path) h
  | FetchAddTemp => (h_next_temp h, set_next_temp (wrap64 (h_next_temp h + 1)) h)
  | ProcessId => (h_pid h, h)
  | CreateDir path => update_files (mkdir path) h
  | CreateFile path => update_files (create_file path) h
  | WriteAll path bytes =>
      match h_faults h 0 with
      | Some fault =>
          (Err (fault_error fault),
           set_files (write_all path (take (fault_written fault) bytes) (h_files h)) (next_fault h))
      | None => (Ok tt, set_files (write_all path bytes (h_files h)) (next_fault h))
      end
  | ReadFile path =>
      (match h_faults h 0 with
       | Some fault => Err (fault_error fault)
       | None => read_file path (h_files h)
       end, next_fault h)
  | Rename source target => update_files (rename_file source target) h
  | RemoveFile path => update_files (remove_file path) h
  end.

Abbreviation io A := (prog FsCall (outcome IoError A)).

(** [fs::write]: create or truncate, then write. *)
Definition fs_write (path : Path) (bytes : Bytes) : io unit :=
  ptry id (call (CreateFile path)) (λ _, call (WriteAll path bytes)).

(** [fs::create_dir_all] (the parent of a path is shorter, so its length is
    fuel enough): a directory another thread made is as good. *)
Fixpoint create_dir_all_from (fuel : nat) (path : Path) : io unit :=
  match fuel, path with
  | _, [] => Done (Ok tt)
  | O, _ => Done Diverged
  | S fuel', _ =>
      pbind (call (CreateDir path)) (λ made,
      match made with
      | Err NotFound =>
          ptry id (create_dir_all_from fuel' (removelast path)) (λ _,
          pbind (call (CreateDir path)) (λ made,
          match made with
          | Err e => pbind (call (IsDir path)) (λ dir, Done (if dir : bool then Ok tt else Err e))
          | m => Done m
          end))
      | Err e => pbind (call (IsDir path)) (λ dir, Done (if dir : bool then Ok tt else Err e))
      | m => Done m
      end)
  end.
Definition create_dir_all (path : Path) : io unit := create_dir_all_from (length path) path.

(** A host where no call fails by chance. *)
Definition reliable (h : Host) : Prop := ∀ n, h_faults h n = None.

(** ** Facts *)

Section facts.
Implicit Types files : gmap Path Node.

Lemma create_file_Ok path files files' :
  create_file path files = Ok files' → files' = <[path := RegularFile []]> files.
Proof. unfold create_file. intros (? & ? & ?)%obind_Ok. by repeat case_match; simplify_eq. Qed.
Lemma rename_file_Ok source target files files' :
  rename_file source target files = Ok files' →
  ∃ node, files !! source = Some node ∧ files' = <[target := node]> (delete source files).
Proof. unfold rename_file. intros (? & ? & ?)%obind_Ok. repeat case_match; simplify_eq; eauto. Qed.
Lemma remove_file_Ok path files files' :
  remove_file path files = Ok files' → files' = delete path files.
Proof. unfold remove_file. by repeat case_match; intros; simplify_eq. Qed.
Lemma read_file_Ok path files bytes :
  read_file path files = Ok bytes → files !! path = Some (RegularFile bytes).
Proof. unfold read_file. by repeat case_match; intros; simplify_eq. Qed.
Lemma read_file_fault_free path files : fault_free (read_file path files).
Proof. unfold read_file. by repeat case_match. Qed.
Lemma write_all_new path bytes files :
  files !! path = Some (RegularFile []) → write_all path bytes files = <[path := RegularFile bytes]> files.
Proof. unfold write_all. by intros ->. Qed.
End facts.
