(* ===== verification/Store.v ===== *)
(** * The content store (plurifold-store/src/lib.rs)

    Blobs are files of [<root>/sha256], named by the hexadecimal SHA-256 of
    their bytes.  [put] writes to a temporary file and renames it; [get] reads
    a blob and checks it against the digest it was asked for. *)

From Stdlib Require Import Strings.Byte.
From S2P Require Import Prelude Text Program Bytes Files.
Open Scope string_scope.
Open Scope list_scope.
Open Scope Z_scope.

(** [u8::is_ascii_hexdigit] *)
Definition is_ascii_hexdigit (a : Ascii.ascii) : bool :=
  let n := Ascii.N_of_ascii a in
  (((48 <=? n) && (n <=? 57)) || ((65 <=? n) && (n <=? 70)) || ((97 <=? n) && (n <=? 102)))%N.

(** What [path_for_digest] accepts after [sha256:]. *)
Definition is_hex_digest (s : string) : bool :=
  (String.length s =? 64)%nat && forallb is_ascii_hexdigit (String.list_ascii_of_string s).

(** [hex::encode(Sha256::digest(bytes))] of the [hex] and [sha2] crates: 64
    hexadecimal digits.  Nothing is said of collisions. *)
Class Sha256Crate := {
  sha256_hex : Bytes → string;
  sha256_hex_digits : ∀ bytes, is_hex_digest (sha256_hex bytes) = true;
}.

Inductive StoreError :=
| Io (error : IoError)
| UnsupportedDigest (digest : string)
| DigestMismatch (expected actual : string).

Record StoredObject := mkStoredObject {
  so_digest : string;
  so_size_bytes : Z;
  so_path : Path;
}.

Record LocalObjectStore := mkStore { store_root : Path }.

Section store.
Context `{Sha256Crate}.
Implicit Types self : LocalObjectStore.

Definition sha256_digest (bytes : Bytes) : string := "sha256:" +:+ sha256_hex bytes.

(** [self.root.join("sha256").join(name)] *)
Definition store_path self (name : string) : Path := store_root self ++ ["sha256"; name].

(** [LocalObjectStore::new] *)
Definition store_new (root : Path) : prog FsCall (outcome StoreError LocalObjectStore) :=
  ptry Io (create_dir_all (root ++ ["sha256"])) (λ _, Done (Ok (mkStore root))).

Definition temp_name (hex_digest : string) (pid temp_id : Z) : string :=
  "." +:+ hex_digest +:+ "." +:+ show pid +:+ "." +:+ show temp_id +:+ ".tmp".

Definition stored_object self (bytes : Bytes) : StoredObject :=
  let hex_digest := sha256_hex bytes in
  mkStoredObject ("sha256:" +:+ hex_digest) (Z.of_nat (length bytes)) (store_path self hex_digest).

(** [LocalObjectStore::put] *)
Definition store_put self (bytes : Bytes) : prog FsCall (outcome StoreError StoredObject) :=
  let hex_digest := sha256_hex bytes in
  let path := store_path self hex_digest in
  let stored := Done (Ok (stored_object self bytes)) in
  pbind (call (Exists path)) (λ exists_,
  if exists_ : bool then stored else
  pbind (call FetchAddTemp) (λ temp_id,
  pbind (call ProcessId) (λ pid,
  let tmp := store_path self (temp_name hex_digest pid temp_id) in
  ptry Io (fs_write tmp bytes) (λ _,
  pbind (call (Rename tmp path)) (λ renamed,
  match renamed with
  | Ok _ => stored
  | Err error =>
      pbind (call (Exists path)) (λ exists_,
      if exists_ : bool then pbind (call (RemoveFile tmp)) (λ _, stored)
      else Done (Err (Io error)))
  | Panic => Done Panic
  | Diverged => Done Diverged
  end))))).

(** [LocalObjectStore::path_for_digest] *)
Definition path_for_digest self (digest : string) : outcome StoreError Path :=
  let? hex_digest := ok_or (UnsupportedDigest digest) (strip_prefix "sha256:" digest) in
  if negb (String.length hex_digest =? 64)%nat
     || negb (forallb is_ascii_hexdigit (String.list_ascii_of_string hex_digest))
  then Err (UnsupportedDigest digest)
  else Ok (store_path self hex_digest).

(** [LocalObjectStore::verify] *)
Definition verify (expected : string) (bytes : Bytes) : outcome StoreError unit :=
  let actual := "sha256:" +:+ sha256_hex bytes in
  if bool_decide (actual = expected) then Ok tt else Err (DigestMismatch expected actual).

(** [LocalObjectStore::get] *)
Definition store_get self (digest : string) : prog FsCall (outcome StoreError Bytes) :=
  ptry id (Done (path_for_digest self digest)) (λ path,
  ptry Io (call (ReadFile path)) (λ bytes,
  ptry id (Done (verify digest bytes)) (λ _,
  Done (Ok bytes)))).

(** [LocalObjectStore::contains] *)
Definition store_contains self (digest : string) : prog FsCall bool :=
  match path_for_digest self digest with
  | Ok path => call (IsFile path)
  | _ => Done false
  end.

(** ** Paths and digests *)

Lemma sha256_hex_length bytes : String.length (sha256_hex bytes) = 64%nat.
Proof. pose proof (sha256_hex_digits bytes) as [H1%Nat.eqb_eq _]%andb_true_iff. done. Qed.

Lemma path_for_digest_Ok self digest path :
  path_for_digest self digest = Ok path ↔
  ∃ name, digest = "sha256:" +:+ name ∧ is_hex_digest name = true ∧ path = store_path self name.
Proof.
  unfold path_for_digest, is_hex_digest. rewrite obind_Ok. split.
  - intros (name & Hname & Hpath). destruct (strip_prefix _ digest) eqn:Hs; [|discriminate].
    apply strip_prefix_Some in Hs as ->. injection Hname as ->. exists name.
    destruct (_ =? _)%nat, (forallb _ _); simpl in Hpath; [|discriminate..]. by injection Hpath as <-.
  - intros (name & -> & Hname & ->). exists name. split; [done|].
    apply andb_true_iff in Hname as [-> ->]. done.
Qed.
Lemma path_for_digest_result self digest :
  match path_for_digest self digest with
  | Ok _ => True
  | Err e => e = UnsupportedDigest digest ∧ ∀ path, path_for_digest self digest ≠ Ok path
  | Panic | Diverged => False
  end.
Proof. unfold path_for_digest. destruct (strip_prefix _ digest); unfold ok_or, obind; [|done].
  by destruct (negb _ || _).
Qed.
Lemma path_for_own_digest self bytes :
  path_for_digest self (sha256_digest bytes) = Ok (store_path self (sha256_hex bytes)).
Proof. apply path_for_digest_Ok. eauto using sha256_hex_digits. Qed.

Lemma verify_Ok expected bytes : verify expected bytes = Ok tt ↔ expected = sha256_digest bytes.
Proof. unfold verify, sha256_digest. case_bool_decide; naive_solver. Qed.
Lemma store_path_inj self name name' : store_path self name = store_path self name' → name = name'.
Proof. intros [=]%app_inv_head. done. Qed.
Lemma parent_store_path self name : removelast (store_path self name) = store_root self ++ ["sha256"].
Proof.
  unfold store_path. rewrite removelast_app by done. done.
Qed.

(** ** The blobs a directory holds *)

(** [m] maps the names of the blobs in [files] to their bytes; nothing but
    regular files stands at those names. *)
Definition represents self (files : gmap Path Node) (m : gmap string Bytes) : Prop :=
  ∀ name, is_hex_digest name = true → files !! store_path self name = RegularFile <$> m !! name.
(** Every blob hashes to its name. *)
Definition content_addressed (m : gmap string Bytes) : Prop :=
  map_Forall (λ name bytes, sha256_hex bytes = name) m.

Lemma content_addressed_hex m name bytes :
  content_addressed m → m !! name = Some bytes → is_hex_digest name = true.
Proof. intros Hm Hname. rewrite <- (Hm _ _ Hname). apply sha256_hex_digits. Qed.
Lemma content_addressed_insert m bytes :
  content_addressed m → content_addressed (<[sha256_hex bytes := bytes]> m).
Proof. intros Hm. by apply map_Forall_insert_2. Qed.
End store.

(** ** A digest function, for evaluating the definitions *)

Definition hex_digit (n : Z) : Ascii.ascii :=
  Ascii.ascii_of_N (Z.to_N (if n <? 10 then 48 + n else 87 + n)).
(** The [n] low hexadecimal digits, lowest first. *)
Fixpoint hex_digits (n : nat) (z : Z) : string :=
  match n with
  | O => EmptyString
  | S n' => String (hex_digit (z mod 16)) (hex_digits n' (Z.shiftr z 4))
  end.
Lemma hex_digits_ok n z :
  String.length (hex_digits n z) = n ∧
  forallb is_ascii_hexdigit (String.list_ascii_of_string (hex_digits n z)) = true.
Proof.
  revert z. induction n as [|n IH]; intros z; [done|]. destruct (IH (Z.shiftr z 4)) as [Hl Hd].
  cbn [hex_digits String.length String.list_ascii_of_string forallb]. rewrite Hl, Hd, andb_true_r.
  split; [done|]. pose proof (Z.mod_pos_bound z 16 ltac:(lia)) as Hz.
  assert (z mod 16 ∈ [0;1;2;3;4;5;6;7;8;9;10;11;12;13;14;15]) as Hin by (rewrite !elem_of_cons; lia).
  clear -Hin. generalize dependent (z mod 16). intros d Hin. rewrite !elem_of_cons, elem_of_nil in Hin.
  destruct_or?; subst; done.
Qed.
(** The bytes and their number, as hexadecimal digits: collision-free on short
    contents, which is all the examples need. *)
#[program] Definition toy_sha256 : Sha256Crate :=
  {| sha256_hex bytes := hex_digits 64 (256 * le_value bytes + Z.of_nat (length bytes)) |}.
Next Obligation. 
  intros bytes. unfold is_hex_digest.
  destruct (hex_digits_ok 64 (256 * le_value bytes + Z.of_nat (length bytes))) as [Hl Hd].
  by rewrite Hl, Hd.
Qed.

(** An empty store at [/s], in a process where nothing fails. *)
Definition sample_store : LocalObjectStore := mkStore ["/"; "s"].
Definition sample_host : Host :=
  mkHost (<[["/"; "s"; "sha256"] := Directory]> (<[["/"; "s"] := Directory]> {[ ["/"] := Directory ]}))
    1 7 (λ _, None).
