(* ===== verification/StoreConcurrency.v ===== *)
(** * Concurrent writers of one content store

    Threads of one process run [put] on the same store; their calls interleave
    in any order, and any call may fail.  The abstract store is a map from
    names to bytes, to which a writer adds its bytes in one step. *)

From Stdlib Require Import Strings.Byte.
From S2P Require Import Prelude Text Program Bytes Files Store.
Open Scope string_scope.
Open Scope list_scope.
Open Scope Z_scope.

(** Where a thread stands inside [put]; [id] is its temporary file's. *)
Inductive Stage :=
| Starting
| Absent
| Numbered (id : Z)
| Creating (id : Z)
| Writing (id : Z)
| Renaming (id : Z)
| Recovering (id : Z) (error : IoError)
| Cleaning (id : Z)
| Finished (result : outcome StoreError StoredObject).

(** The temporary number a thread holds. *)
Definition stage_id (stage : Stage) : option Z :=
  match stage with
  | Numbered id | Creating id | Writing id | Renaming id | Recovering id _ | Cleaning id => Some id
  | Starting | Absent | Finished _ => None
  end.
(** The thread has yet to take its number. *)
Definition unnumbered (stage : Stage) : bool :=
  match stage with Starting | Absent => true | _ => false end.
(** How many calls are left at most. *)
Definition calls_left (stage : Stage) : nat :=
  match stage with
  | Starting => 8 | Absent => 7 | Numbered _ => 6 | Creating _ => 5 | Writing _ => 4
  | Renaming _ => 3 | Recovering _ _ => 2 | Cleaning _ => 1 | Finished _ => 0
  end.

Section writers.
Context `{Sha256Crate} (self : LocalObjectStore) (pid : Z).

Abbreviation blob bytes := (store_path self (sha256_hex bytes)).
Definition temp (bytes : Bytes) (id : Z) : Path := store_path self (temp_name (sha256_hex bytes) pid id).

(** What is left of [put] at a stage. *)
Definition put_at (bytes : Bytes) (stage : Stage) : prog FsCall (outcome StoreError StoredObject) :=
  let stored := Done (Ok (stored_object self bytes)) in
  let cleaning tmp := pbind (call (RemoveFile tmp)) (λ _, stored) in
  let recovering tmp error :=
    pbind (call (Exists (blob bytes))) (λ exists_,
      if exists_ : bool then cleaning tmp else Done (Err (Io error))) in
  let renaming tmp :=
    pbind (call (Rename tmp (blob bytes))) (λ renamed,
      match renamed with
      | Ok _ => stored
      | Err error => recovering tmp error
      | Panic => Done Panic
      | Diverged => Done Diverged
      end) in
  let creating tmp := ptry Io (fs_write tmp bytes) (λ _, renaming tmp) in
  let numbered id :=
    pbind (call ProcessId) (λ pid,
      creating (store_path self (temp_name (sha256_hex bytes) pid id))) in
  match stage with
  | Starting => store_put self bytes
  | Absent => pbind (call FetchAddTemp) numbered
  | Numbered id => numbered id
  | Creating id => creating (temp bytes id)
  | Writing id => ptry Io (call (WriteAll (temp bytes id) bytes)) (λ _, renaming (temp bytes id))
  | Renaming id => renaming (temp bytes id)
  | Recovering id error => recovering (temp bytes id) error
  | Cleaning id => cleaning (temp bytes id)
  | Finished result => Done result
  end.

(** The files and the next temporary number. *)
Abbreviation Disk := (gmap Path Node * Z)%type.
Definition disk (h : Host) : Disk := (h_files h, h_next_temp h).

(** One call of a thread, with what it does to the disk; an error that the disk
    does not explain needs a fault. *)
Inductive put_step (faulty : bool) (bytes : Bytes) : Stage → Disk → Stage → Disk → Prop :=
| step_present d : is_Some (d.1 !! blob bytes) →
    put_step faulty bytes Starting d (Finished (Ok (stored_object self bytes))) d
| step_absent d : faulty = true ∨ d.1 !! blob bytes = None →
    put_step faulty bytes Starting d Absent d
| step_number files next :
    put_step faulty bytes Absent (files, next) (Numbered next) (files, wrap64 (next + 1))
| step_pid id d : put_step faulty bytes (Numbered id) d (Creating id) d
| step_create id files files' next : create_file (temp bytes id) files = Ok files' →
    put_step faulty bytes (Creating id) (files, next) (Writing id) (files', next)
| step_create_error id d e : faulty = true ∨ create_file (temp bytes id) d.1 = Err e →
    put_step faulty bytes (Creating id) d (Finished (Err (Io e))) d
| step_write id files next :
    put_step faulty bytes (Writing id) (files, next)
      (Renaming id) (write_all (temp bytes id) bytes files, next)
| step_write_error id files next e n : faulty = true →
    put_step faulty bytes (Writing id) (files, next)
      (Finished (Err (Io e))) (write_all (temp bytes id) (take n bytes) files, next)
| step_rename id files files' next : rename_file (temp bytes id) (blob bytes) files = Ok files' →
    put_step faulty bytes (Renaming id) (files, next)
      (Finished (Ok (stored_object self bytes))) (files', next)
| step_rename_error id d e : faulty = true ∨ rename_file (temp bytes id) (blob bytes) d.1 = Err e →
    put_step faulty bytes (Renaming id) d (Recovering id e) d
| step_recover id e d : is_Some (d.1 !! blob bytes) →
    put_step faulty bytes (Recovering id e) d (Cleaning id) d
| step_fail id e d : put_step faulty bytes (Recovering id e) d (Finished (Err (Io e))) d
| step_remove id files files' next : remove_file (temp bytes id) files = Ok files' →
    put_step faulty bytes (Cleaning id) (files, next)
      (Finished (Ok (stored_object self bytes))) (files', next)
| step_keep id d :
    put_step faulty bytes (Cleaning id) d (Finished (Ok (stored_object self bytes))) d
| step_finished r d : put_step faulty bytes (Finished r) d (Finished r) d.

Lemma file_call_result path target files :
  fault_free (create_file path files) ∧ fault_free (rename_file path target files) ∧
  fault_free (remove_file path files).
Proof.
  unfold create_file, rename_file, remove_file, check_parent.
  split_and!; repeat (case_match; simpl); done.
Qed.

(** The program steps the way the stages do. *)
Lemma pstep_put bytes stage h p h' faulty :
  h_pid h = pid → (faulty = false → h_faults h 0 = None) →
  pstep perform (put_at bytes stage) h = (p, h') →
  ∃ stage', p = put_at bytes stage' ∧ put_step faulty bytes stage (disk h) stage' (disk h') ∧
            h_pid h' = pid ∧ (reliable h → reliable h').
Proof.
  intros Hpid Hfault Hstep.
  assert (reliable h → reliable (next_fault h)) as Hrel by (intros Hr n; apply (Hr (S n))).
  assert (∀ e, h_faults h 0 = Some e → faulty = true) as Hfaulty
    by (intros e He; destruct faulty; [done|]; by rewrite Hfault in He).
  destruct stage as [| |id|id|id|id|id e|id|r];
    cbn [put_at pstep store_put pbind call ptry fs_write] in Hstep;
    cbv [perform ask_files update_files] in Hstep; try rewrite Hpid in Hstep.
  - destruct (h_faults h 0) as [e|] eqn:Hf; [|case_bool_decide as Hblob]; simplify_eq.
    + exists Absent. split_and!; [done|constructor; left; by eapply Hfaulty|done..].
    + eexists (Finished _). split_and!; [done|by constructor|done..].
    + exists Absent. split_and!; [done|constructor; right; by apply eq_None_not_Some|done..].
  - simplify_eq. eexists (Numbered _). split_and!; [done|constructor|done..].
  - simplify_eq. exists (Creating id). split_and!; [done|constructor|done..].
  - pose proof (file_call_result (temp bytes id) (blob bytes) (h_files h)) as (Hok & _).
    destruct (h_faults h 0) as [e|] eqn:Hf; [|destruct (create_file _ _) eqn:Hr]; simplify_eq; try done.
    + eexists (Finished _). split_and!; [done|constructor; left; by eapply Hfaulty|done..].
    + exists (Writing id). split_and!; [done|by constructor|done..].
    + eexists (Finished _). split_and!; [done|constructor; by right|done..].
  - destruct (h_faults h 0) as [e|] eqn:Hf; simplify_eq.
    + eexists (Finished _). split_and!; [done|constructor; by eapply Hfaulty|done..].
    + exists (Renaming id). split_and!; [done|constructor|done..].
  - pose proof (file_call_result (temp bytes id) (blob bytes) (h_files h)) as (_ & Hok & _).
    destruct (h_faults h 0) as [e|] eqn:Hf; [|destruct (rename_file _ _ _) eqn:Hr]; simplify_eq; try done.
    + eexists (Recovering id _). split_and!; [done|constructor; left; by eapply Hfaulty|done..].
    + eexists (Finished _). split_and!; [done|by constructor|done..].
    + eexists (Recovering id _). split_and!; [done|constructor; by right|done..].
  - destruct (h_faults h 0) as [e'|] eqn:Hf; [|case_bool_decide as Hblob]; simplify_eq.
    + eexists (Finished _). split_and!; [done|constructor|done..].
    + exists (Cleaning id). split_and!; [done|by constructor|done..].
    + eexists (Finished _). split_and!; [done|constructor|done..].
  - pose proof (file_call_result (temp bytes id) (blob bytes) (h_files h)) as (_ & _ & Hok).
    destruct (h_faults h 0) as [e'|] eqn:Hf; [|destruct (remove_file _ _) eqn:Hr]; simplify_eq; try done.
    + eexists (Finished _). split_and!; [done|apply step_keep|done..].
    + eexists (Finished _). split_and!; [done|by apply step_remove|done..].
    + eexists (Finished _). split_and!; [done|apply step_keep|done..].
  - simplify_eq. eexists (Finished _). split_and!; [done|constructor|done..].
Qed.

(** ** Temporary names *)

Lemma temp_not_blob bytes id name : is_hex_digest name = true → temp bytes id ≠ store_path self name.
Proof.
  intros Hname Heq. apply store_path_inj in Heq as <-.
  unfold is_hex_digest, temp_name in Hname. by rewrite andb_comm in Hname.
Qed.
Lemma temp_inj bytes bytes' id id' :
  is_u64 id → is_u64 id' → temp bytes id = temp bytes' id' → id = id'.
Proof.
  intros Hid Hid' Heq. apply store_path_inj in Heq. unfold temp_name in Heq.
  apply (inj (String.append _)) in Heq.
  apply string_app_inj_length in Heq as [_ Heq]; [|by rewrite !sha256_hex_length].
  do 3 apply (inj (String.append _)) in Heq. by apply string_app_inv_tail, show_inj in Heq.
Qed.

(** ** What holds between calls *)

Definition stage_ok (d : Disk) (bytes : Bytes) (stage : Stage) : Prop :=
  (∀ id, stage_id stage = Some id → 0 ≤ id < d.2) ∧
  match stage with
  | Writing id => d.1 !! temp bytes id = Some (RegularFile [])
  | Renaming id => d.1 !! temp bytes id = Some (RegularFile bytes)
  | Cleaning _ => is_Some (d.1 !! blob bytes)
  | Finished (Ok object) => object = stored_object self bytes ∧ is_Some (d.1 !! blob bytes)
  | Finished (Err error) => ∃ e, error = Io e
  | Finished (Panic | Diverged) => False
  | _ => True
  end.

Record step_effect (bytes : Bytes) (stage : Stage) (d : Disk) (stage' : Stage) (d' : Disk) : Prop := {
  effect_ok : stage_ok d' bytes stage';
  effect_frame p : p ≠ blob bytes → (∀ id, stage_id stage = Some id → p ≠ temp bytes id) →
    d'.1 !! p = d.1 !! p;
  effect_blob : d'.1 !! blob bytes = d.1 !! blob bytes ∨ d'.1 !! blob bytes = Some (RegularFile bytes);
  effect_number :
    (d'.2 = d.2 ∧ (stage_id stage' = stage_id stage ∨ stage_id stage' = None) ∧
     (unnumbered stage' = true → unnumbered stage = true)) ∨
    (d'.2 = d.2 + 1 ∧ stage' = Numbered d.2 ∧ unnumbered stage = true ∧ d.2 + 1 ≤ u64_max);
}.

Lemma put_step_effect faulty bytes stage d stage' d' :
  put_step faulty bytes stage d stage' d' → stage_ok d bytes stage →
  0 ≤ d.2 → (unnumbered stage = true → d.2 + 1 ≤ u64_max) →
  step_effect bytes stage d stage' d'.
Proof.
  assert (∀ id, temp bytes id ≠ blob bytes) as Hne
    by (intros id; apply temp_not_blob, sha256_hex_digits).
  intros Hstep [Hid Hst] Hnext Hmax. destruct Hstep; simpl in *;
    repeat match goal with
    | H : create_file _ _ = Ok _ |- _ => apply create_file_Ok in H; subst
    | H : rename_file _ _ _ = Ok _ |- _ => apply rename_file_Ok in H as (? & ? & ->)
    | H : remove_file _ _ = Ok _ |- _ => apply remove_file_Ok in H; subst
    | H : _ !! temp _ _ = Some (RegularFile []) |- _ => rewrite ?(write_all_new _ _ _ H); clear H
    end; simplify_eq/=; split; unfold stage_ok; cbn [fst snd stage_id unnumbered];
    (* the frame *)
    try (intros p Hp Htemp; try specialize (Htemp _ eq_refl);
         by rewrite ?lookup_insert_ne, ?lookup_delete_ne by done);
    (* the blob *)
    try (left; by rewrite ?lookup_insert_ne, ?lookup_delete_ne by done);
    (* the number *)
    try (left; split_and!; by auto);
    (* a new number *)
    try (rewrite wrap64_small by (specialize (Hmax eq_refl); unfold is_u64; lia));
    try (split_and!; try done; intros; simplify_eq; rewrite ?lookup_insert_eq, ?lookup_delete_ne; by eauto).
  - split; [intros; simplify_eq; lia|done].
  - right. auto.
  - right. by rewrite lookup_insert_eq.
Qed.

(** ** All the threads *)

Abbreviation Pool := (list (Bytes * Stage)).
Implicit Types pool : Pool.

(** How many threads still need a number. *)
Definition unnumbered_count pool : nat :=
  sum_list_with (λ x, if unnumbered x.2 then 1 else 0)%nat pool.

Record pool_ok pool (d : Disk) : Prop := {
  pool_stages i bytes stage : pool !! i = Some (bytes, stage) → stage_ok d bytes stage;
  pool_ids i j x y id : pool !! i = Some x → pool !! j = Some y →
    stage_id x.2 = Some id → stage_id y.2 = Some id → i = j;
  pool_numbers : 0 ≤ d.2 ∧ d.2 + Z.of_nat (unnumbered_count pool) ≤ u64_max;
}.

Lemma unnumbered_count_insert pool i bytes stage stage' :
  pool !! i = Some (bytes, stage) →
  (unnumbered_count (<[i := (bytes, stage')]> pool) + (if unnumbered stage then 1 else 0) =
   unnumbered_count pool + (if unnumbered stage' then 1 else 0))%nat.
Proof.
  unfold unnumbered_count. revert i.
  induction pool as [|x pool IH]; intros [|i] Hi; simplify_eq/=; [lia|]. specialize (IH i Hi). lia.
Qed.

(** A thread that does not move keeps its assertion. *)
Lemma stage_ok_frame bytes stage d stage' d' bytes' other :
  step_effect bytes stage d stage' d' → 0 ≤ d.2 → d'.2 ≤ u64_max →
  stage_ok d bytes stage → stage_ok d bytes' other →
  (∀ id, stage_id stage = Some id → stage_id other ≠ Some id) → stage_ok d' bytes' other.
Proof.
  intros [_ Hframe Hblob Hnumber] Hnext Hmax [Hid _] [Hid' Hother] Hids.
  assert (d.2 ≤ d'.2) as Hgrow by (destruct Hnumber as [[-> _]|[-> _]]; lia).
  assert (∀ id, stage_id other = Some id → d'.1 !! temp bytes' id = d.1 !! temp bytes' id) as Htemp.
  { intros id Ho. apply Hframe; [apply temp_not_blob, sha256_hex_digits|].
    intros id0 Hs Heq. specialize (Hid _ Hs). specialize (Hid' _ Ho).
    apply temp_inj in Heq as ->; [|unfold is_u64; lia..]. by eapply Hids. }
  assert (is_Some (d.1 !! blob bytes') → is_Some (d'.1 !! blob bytes')) as Hkept.
  { intros Hb. destruct (decide (blob bytes' = blob bytes)) as [Heq|Hne].
    - rewrite Heq in *. destruct Hblob as [->| ->]; [done|by eexists].
    - rewrite Hframe; [done|done|]. intros id _. apply not_eq_sym, temp_not_blob, sha256_hex_digits. }
  split; [intros id Ho; specialize (Hid' _ Ho); lia|].
  destruct other as [| |id|id|id|id|id e|id|[]]; simpl in *; rewrite ?Htemp by done; naive_solver.
Qed.

Lemma pool_ok_step faulty pool d i bytes stage stage' d' :
  pool_ok pool d → pool !! i = Some (bytes, stage) → put_step faulty bytes stage d stage' d' →
  step_effect bytes stage d stage' d' ∧ pool_ok (<[i := (bytes, stage')]> pool) d'.
Proof.
  intros [Hstages Hids [Hnext Hmax]] Hi Hstep.
  pose proof (unnumbered_count_insert _ _ _ _ stage' Hi) as Hcount.
  assert (step_effect bytes stage d stage' d') as Heffect.
  { eapply put_step_effect; eauto. intros Hu.
    pose proof (unnumbered_count_insert _ _ _ _ (Finished Panic) Hi) as Hc. rewrite Hu in Hc. simpl in Hc. lia. }
  split; [done|]. pose proof Heffect as [Hok _ _ Hnumber].
  assert (d'.2 ≤ u64_max ∧ 0 ≤ d'.2 ∧
          d'.2 + Z.of_nat (unnumbered_count (<[i := (bytes, stage')]> pool)) ≤ u64_max) as (Hmax' & Hnext' & Hcount').
  { destruct Hnumber as [(-> & _ & Hu)|(-> & -> & Hu & ?)].
    - destruct (unnumbered stage'), (unnumbered stage); lia || (specialize (Hu eq_refl); done).
    - rewrite Hu in Hcount. simpl in Hcount. lia. }
  split; [| |done].
  - intros j bytes' other Hj. destruct (decide (i = j)) as [<-|Hne].
    + rewrite list_lookup_insert_eq in Hj by (by eapply lookup_lt_Some). by simplify_eq.
    + rewrite list_lookup_insert_ne in Hj by done.
      eapply stage_ok_frame; eauto.
  - assert (∀ j y id, i ≠ j → pool !! j = Some y → stage_id stage' = Some id → stage_id y.2 ≠ Some id) as Hfresh.
    { intros j [b other] id Hne Hj Hs Ho. destruct Hnumber as [(_ & [Heq|Heq] & _)|(_ & -> & _)]; simplify_eq/=.
      - rewrite Hs in Heq. by eapply Hne, Hids.
      - destruct (Hstages _ _ _ Hj) as [Hlt _]. specialize (Hlt _ Ho). lia. }
    intros j k x y id Hj Hk Hx Hy.
    destruct (decide (i = j)) as [<-|Hij], (decide (i = k)) as [<-|Hik]; [done| | |].
    + rewrite list_lookup_insert_eq in Hj by (by eapply lookup_lt_Some).
      rewrite list_lookup_insert_ne in Hk by done. simplify_eq/=. by destruct (Hfresh k y id).
    + rewrite list_lookup_insert_ne in Hj by done.
      rewrite list_lookup_insert_eq in Hk by (by eapply lookup_lt_Some). simplify_eq/=. by destruct (Hfresh j x id).
    + rewrite list_lookup_insert_ne in Hj, Hk by done. by eapply (Hids j k).
Qed.

(** ** Schedules *)

Definition programs pool : list (prog FsCall (outcome StoreError StoredObject)) :=
  (λ x, put_at x.1 x.2) <$> pool.

(** Thread [i] moves, if there is one. *)
Inductive pool_step (faulty : bool) (i : nat) pool (d : Disk) : Pool → Disk → Prop :=
| pool_move bytes stage stage' d' :
    pool !! i = Some (bytes, stage) → put_step faulty bytes stage d stage' d' →
    pool_step faulty i pool d (<[i := (bytes, stage')]> pool) d'
| pool_idle : pool !! i = None → pool_step faulty i pool d pool d.

(** The host and the threads are where [pool] says; without faults if not [faulty]. *)
Record stands (faulty : bool) pool (cfg : list (prog FsCall (outcome StoreError StoredObject)) * Host) : Prop := {
  stands_programs : cfg.1 = programs pool;
  stands_pid : h_pid cfg.2 = pid;
  stands_reliable : faulty = false → reliable cfg.2;
  stands_ok : pool_ok pool (disk cfg.2);
}.

Lemma stands_step faulty i pool cfg :
  stands faulty pool cfg →
  ∃ pool', stands faulty pool' (thread_step perform i cfg) ∧
           pool_step faulty i pool (disk cfg.2) pool' (disk (thread_step perform i cfg).2).
Proof.
  destruct cfg as [threads h]. intros [Hthreads Hpid Hrel Hok]. simpl in *. subst threads.
  unfold programs. rewrite list_lookup_fmap.
  destruct (pool !! i) as [[bytes stage]|] eqn:Hi; simpl; [|by exists pool; split; [|constructor]].
  destruct (pstep perform (put_at bytes stage) h) as [p' h'] eqn:Hstep.
  eapply pstep_put in Hstep as (stage' & -> & Hput & Hpid' & Hrel'); [|done|by intros Hf; apply Hrel].
  exists (<[i := (bytes, stage')]> pool). split; [|by eapply pool_move].
  split; simpl; [by unfold programs; rewrite list_fmap_insert|done|auto|].
  by eapply pool_ok_step.
Qed.

Lemma pool_step_contents faulty i pool d pool' d' :
  pool_step faulty i pool d pool' d' → pool'.*1 = pool.*1.
Proof.
  intros [bytes stage stage' ? Hi _|]; [|done]. rewrite list_fmap_insert. simpl.
  apply list_insert_id. by rewrite list_lookup_fmap, Hi.
Qed.

(** An invariant of what is left of the schedule, the pool and the disk. *)
Lemma stands_schedule (faulty : bool) (I : list nat → Pool → Disk → Prop) schedule pool cfg :
  (∀ i left pool d pool' d', pool_ok pool d → pool_step faulty i pool d pool' d' →
     I (i :: left) pool d → I left pool' d') →
  stands faulty pool cfg → I schedule pool (disk cfg.2) →
  ∃ pool', stands faulty pool' (run_schedule perform schedule cfg) ∧
           I [] pool' (disk (run_schedule perform schedule cfg).2) ∧ pool'.*1 = pool.*1.
Proof.
  intros HI. unfold run_schedule. revert pool cfg.
  induction schedule as [|i schedule IH]; intros pool cfg Hs Hi; simpl; [by exists pool|].
  destruct (stands_step _ i _ _ Hs) as (pool1 & Hs1 & Hstep).
  destruct (IH pool1 (thread_step perform i cfg)) as (pool2 & ? & ? & Heq); [done|eapply HI; [|exact Hstep|done]; by eapply stands_ok|].
  exists pool2. split_and!; [done..|]. rewrite Heq. by eapply pool_step_contents.
Qed.

(** ** The abstract store *)

(** A writer adds its bytes under their name. *)
Definition insert_content (contents : list Bytes) (m m' : gmap string Bytes) : Prop :=
  ∃ bytes, bytes ∈ contents ∧ m' = <[sha256_hex bytes := bytes]> m.

Lemma represents_step bytes stage d stage' d' m :
  step_effect bytes stage d stage' d' → represents self d.1 m →
  represents self d'.1 m ∨ represents self d'.1 (<[sha256_hex bytes := bytes]> m).
Proof.
  intros [_ Hframe Hblob _] Hm.
  assert (∀ name, is_hex_digest name = true → name ≠ sha256_hex bytes →
            d'.1 !! store_path self name = d.1 !! store_path self name) as Hother.
  { intros name Hname Hne. apply Hframe; [by intros Heq%store_path_inj|].
    intros id _. apply not_eq_sym. by apply temp_not_blob. }
  destruct Hblob as [Hblob|Hblob]; [left|right]; intros name Hname;
    (destruct (decide (name = sha256_hex bytes)) as [->|Hne];
     [rewrite Hblob|rewrite Hother by done]).
  - by apply Hm.
  - by apply Hm.
  - by rewrite lookup_insert_eq.
  - rewrite lookup_insert_ne by done. by apply Hm.
Qed.

Lemma refines_step contents m0 faulty i pool d pool' d' :
  pool_ok pool d → pool_step faulty i pool d pool' d' →
  (pool.*1 = contents ∧ ∃ m, represents self d.1 m ∧ content_addressed m ∧ rtc (insert_content contents) m0 m) →
  (pool'.*1 = contents ∧ ∃ m, represents self d'.1 m ∧ content_addressed m ∧ rtc (insert_content contents) m0 m).
Proof.
  intros Hok Hstep (Hc & m & Hm & Hca & Hrtc).
  split; [rewrite <- Hc; by eapply pool_step_contents|].
  destruct Hstep as [bytes stage stage' d' Hi Hput|]; [|by exists m].
  destruct (pool_ok_step _ _ _ _ _ _ _ _ Hok Hi Hput) as [Heffect _].
  destruct (represents_step _ _ _ _ _ _ Heffect Hm); [by exists m|].
  exists (<[sha256_hex bytes := bytes]> m). split_and!; [done|by apply content_addressed_insert|].
  eapply rtc_r; [done|]. exists bytes. split; [|done].
  rewrite <- Hc. apply list_elem_of_fmap. exists (bytes, stage). split; [done|by eapply list_elem_of_lookup_2].
Qed.

(** ** Without faults *)

(** The thread's temporary file is on the disk. *)
Definition owns (stage : Stage) (id : Z) : Prop := stage = Writing id ∨ stage = Renaming id.

(** The directory is there, holds files only, and each is a blob or belongs to
    a thread; no thread has failed. *)
Record tidy pool (d : Disk) : Prop := {
  tidy_dir : d.1 !! (store_root self ++ ["sha256"]) = Some Directory;
  tidy_files name : d.1 !! store_path self name ≠ Some Directory;
  tidy_owned name : is_Some (d.1 !! store_path self name) → is_hex_digest name = true ∨
    ∃ (i : nat) bytes stage id, pool !! i = Some (bytes, stage) ∧ owns stage id ∧
      store_path self name = temp bytes id;
  tidy_stages (i : nat) bytes stage : pool !! i = Some (bytes, stage) →
    match stage with Recovering _ _ | Cleaning _ | Finished (Err _) => False | _ => True end;
}.

Lemma dir_not_entry name : store_root self ++ ["sha256"] ≠ store_path self name.
Proof. by intros [=]%app_inv_head. Qed.

(** Without a fault, the call of a tidy thread succeeds. *)
Lemma tidy_call pool d i bytes stage stage' d' :
  tidy pool d → pool_ok pool d → pool !! i = Some (bytes, stage) →
  put_step false bytes stage d stage' d' →
  (stage' = Absent ∧ stage = Starting ∧ d' = d) ∨
  (∃ id, stage' = Numbered id ∧ stage = Absent ∧ d'.1 = d.1) ∨
  (∃ id, stage = Numbered id ∧ stage' = Creating id ∧ d' = d) ∨
  (∃ id, stage = Creating id ∧ stage' = Writing id ∧ d'.1 = <[temp bytes id := RegularFile []]> d.1) ∨
  (∃ id, stage = Writing id ∧ stage' = Renaming id ∧ d'.1 = <[temp bytes id := RegularFile bytes]> d.1) ∨
  (∃ id, stage = Renaming id ∧ stage' = Finished (Ok (stored_object self bytes)) ∧
     d'.1 = <[blob bytes := RegularFile bytes]> (delete (temp bytes id) d.1)) ∨
  (stage' = Finished (Ok (stored_object self bytes)) ∧ stage = Starting ∧ d' = d) ∨
  (∃ r, stage = Finished r ∧ stage' = stage ∧ d' = d).
Proof.
  intros [Hdir Hfiles _ Hstages] [Hok _ _] Hi Hstep.
  specialize (Hstages _ _ _ Hi). destruct (Hok _ _ _ Hi) as [_ Hst].
  assert (∀ name, check_parent (store_path self name) d.1 = Ok tt) as Hparent.
  { intros name. unfold check_parent. by rewrite parent_store_path, Hdir. }
  destruct Hstep as [| | | |id files files' next Hc|id d e [|Hc]|id files next|id files next e n|
                     id files files' next Hr|id d e [|Hr]| | | | |]; simpl in *; try done.
  - naive_solver.
  - naive_solver.
  - eauto 10.
  - eauto 10.
  - apply create_file_Ok in Hc as ->. eauto 10.
  - exfalso. unfold create_file, temp in Hc. rewrite Hparent in Hc. simpl in Hc.
    specialize (Hfiles (temp_name (sha256_hex bytes) pid id)). by repeat case_match.
  - rewrite (write_all_new _ _ _ Hst). eauto 10.
  - apply rename_file_Ok in Hr as (node & Hn & ->). rewrite Hst in Hn. simplify_eq. eauto 12.
  - exfalso. unfold rename_file in Hr. rewrite Hparent, Hst in Hr. simpl in Hr.
    specialize (Hfiles (sha256_hex bytes)). by repeat case_match.
  - eauto 12.
Qed.

Lemma tidy_move pool d (i : nat) bytes stage stage' d' :
  tidy pool d → pool !! i = Some (bytes, stage) →
  (match stage' with Recovering _ _ | Cleaning _ | Finished (Err _) => False | _ => True end) →
  (∀ p, d'.1 !! p = d.1 !! p ∨
    (∃ name, p = store_path self name ∧ d'.1 !! p ≠ Some Directory ∧
       (is_hex_digest name = true ∨ d'.1 !! p = None ∨ ∃ id, p = temp bytes id ∧ owns stage' id))) →
  (∀ id, owns stage id → owns stage' id ∨ d'.1 !! temp bytes id = None) →
  tidy (<[i := (bytes, stage')]> pool) d'.
Proof.
  intros [Hdir Hfiles Howned Hstages] Hi Hst Hd Hown.
  assert (<[i := (bytes, stage')]> pool !! i = Some (bytes, stage')) as Hi'
    by (apply list_lookup_insert_eq; by eapply lookup_lt_Some).
  split.
  - destruct (Hd (store_root self ++ ["sha256"])) as [->|(name & Hp & _)]; [done|].
    by destruct (dir_not_entry name).
  - intros name. destruct (Hd (store_path self name)) as [->|(? & _ & ? & _)]; [apply Hfiles|done].
  - intros name Hsome. destruct (Hd (store_path self name)) as [Heq|(name' & Hn & _ & Hcase)].
    + rewrite Heq in Hsome. destruct (Howned _ Hsome) as [?|(j & b & st & id & Hj & Ho & Hp)]; [by left|].
      destruct (decide (i = j)) as [<-|Hne].
      * simplify_eq. destruct (Hown _ Ho) as [?|Hnone]; [right; by exists i, bytes, stage', id|].
        rewrite <- Hp, Heq in Hnone. by rewrite Hnone in Hsome; destruct Hsome.
      * right. exists j, b, st, id. by rewrite list_lookup_insert_ne.
    + apply store_path_inj in Hn as <-. destruct Hcase as [?|[Hnone|(id & Hp & Ho)]]; [by left| |].
      * rewrite Hnone in Hsome. by destruct Hsome.
      * right. by exists i, bytes, stage', id.
  - intros j b st Hj. destruct (decide (i = j)) as [<-|Hne]; [by simplify_eq|].
    rewrite list_lookup_insert_ne in Hj by done. by eapply Hstages.
Qed.

Lemma tidy_step i pool d pool' d' :
  pool_ok pool d → pool_step false i pool d pool' d' → tidy pool d → tidy pool' d'.
Proof.
  intros Hok Hstep Htidy. destruct Hstep as [bytes stage stage' d' Hi Hput|]; [|done].
  pose proof (tidy_stages _ _ Htidy _ _ _ Hi) as Hst.
  eapply tidy_move; [done..| | |];
    destruct (tidy_call _ _ _ _ _ _ _ Htidy Hok Hi Hput)
      as [(->&->&->)|[(id&->&->&Hd)|[(id&->&->&->)|[(id&->&->&Hd)|[(id&->&->&Hd)|
          [(id&->&->&Hd)|[(->&->&->)|(r&->&->&->)]]]]]]]; try done; try (left; done);
    try (intros ? [?|?]; done).
  - intros p. left. by rewrite Hd.
  - intros p. rewrite Hd. destruct (decide (p = temp bytes id)) as [->|?]; [|left; by rewrite lookup_insert_ne].
    right. eexists. rewrite lookup_insert_eq. split_and!; [done..|]. right; right. exists id. split; [done|by left].
  - intros p. rewrite Hd. destruct (decide (p = temp bytes id)) as [->|?]; [|left; by rewrite lookup_insert_ne].
    right. eexists. rewrite lookup_insert_eq. split_and!; [done..|]. right; right. exists id. split; [done|by right].
  - intros p. rewrite Hd. destruct (decide (p = blob bytes)) as [->|Hne].
    { right. eexists. rewrite lookup_insert_eq. split_and!; [done..|]. left. apply sha256_hex_digits. }
    rewrite lookup_insert_ne by done.
    destruct (decide (p = temp bytes id)) as [->|?]; [|left; by rewrite lookup_delete_ne].
    right. eexists. rewrite lookup_delete_eq. split_and!; [done..|]. by right; left.
  - intros id' [[= <-]|?]; [left; by right|done].
  - intros id' [?|[= <-]]; [done|]. right. rewrite Hd, lookup_insert_ne, lookup_delete_eq; [done|].
    apply not_eq_sym, temp_not_blob, sha256_hex_digits.
Qed.

(** No thread has more calls left than the schedule gives it. *)
Definition budget (left : list nat) pool : Prop :=
  ∀ i bytes stage, pool !! i = Some (bytes, stage) → (calls_left stage ≤ count_occ Nat.eq_dec left i)%nat.

Lemma put_step_calls faulty bytes stage d stage' d' :
  put_step faulty bytes stage d stage' d' → (calls_left stage' ≤ Nat.pred (calls_left stage))%nat.
Proof. destruct 1; simpl; lia. Qed.

Lemma budget_step faulty i left pool d pool' d' :
  pool_step faulty i pool d pool' d' → budget (i :: left) pool → budget left pool'.
Proof.
  intros Hstep Hb j b st Hj. unfold budget in Hb. simpl in Hb.
  destruct Hstep as [bytes stage stage' d' Hi Hput|Hi]; destruct (decide (i = j)) as [<-|Hne].
  - rewrite list_lookup_insert_eq in Hj by (by eapply lookup_lt_Some). simplify_eq.
    apply put_step_calls in Hput. specialize (Hb _ _ _ Hi). destruct (Nat.eq_dec i i); [lia|done].
  - rewrite list_lookup_insert_ne in Hj by done. specialize (Hb _ _ _ Hj).
    destruct (Nat.eq_dec i j); [done|lia].
  - by rewrite Hi in Hj.
  - specialize (Hb _ _ _ Hj). destruct (Nat.eq_dec i j); [done|lia].
Qed.

(** ** The start *)

Lemma stands_start (faulty : bool) (contents : list Bytes) h :
  h_pid h = pid → (faulty = false → reliable h) → 0 ≤ h_next_temp h →
  h_next_temp h + Z.of_nat (length contents) ≤ u64_max →
  stands faulty ((λ bytes, (bytes, Starting)) <$> contents) (store_put self <$> contents, h).
Proof.
  intros Hpid Hrel Hnext Hmax. split; simpl; [|done|done|].
  - unfold programs. by rewrite <- list_fmap_compose.
  - assert (∀ (i : nat) x, ((λ bytes, (bytes, Starting)) <$> contents) !! i = Some x → x.2 = Starting) as Hst.
    { intros i x Hi. apply list_elem_of_lookup_2, list_elem_of_fmap in Hi as (b & -> & _). done. }
    split.
    + intros i b st Hi. apply Hst in Hi. simpl in Hi. subst st. by split.
    + intros i j x y id Hi _ Hid. by rewrite (Hst _ _ Hi) in Hid.
    + simpl. split; [done|]. replace (unnumbered_count _) with (length contents); [done|].
      clear. induction contents as [|b l IH]; csimpl; [done|]. unfold unnumbered_count in *. simpl. by rewrite <- IH.
Qed.

Lemma budget_start schedule (contents : list Bytes) :
  (∀ i, (i < length contents)%nat → (8 ≤ count_occ Nat.eq_dec schedule i)%nat) →
  budget schedule ((λ bytes, (bytes, Starting)) <$> contents).
Proof.
  intros Hfair i bytes stage Hi. assert (stage = Starting) as ->.
  { apply list_elem_of_lookup_2, list_elem_of_fmap in Hi as (b & [= _ ->] & _). done. }
  apply Hfair. apply lookup_lt_Some in Hi. by rewrite length_fmap in Hi.
Qed.
Lemma tidy_start (contents : list Bytes) h m :
  represents self (h_files h) m →
  h_files h !! (store_root self ++ ["sha256"]) = Some Directory →
  (∀ name, is_Some (h_files h !! store_path self name) → is_hex_digest name = true) →
  tidy ((λ bytes, (bytes, Starting)) <$> contents) (disk h).
Proof.
  intros Hm Hdir Hblobs. split; simpl; [done| |by auto|].
  - intros name Hd. assert (is_hex_digest name = true) as Hname by (apply Hblobs; by eexists).
    rewrite (Hm name Hname) in Hd. by destruct (m !! name).
  - intros i bytes stage Hi.
    by apply list_elem_of_lookup_2, list_elem_of_fmap in Hi as (b & [= _ ->] & _).
Qed.
End writers.

Section results.
Context `{Sha256Crate}.
Implicit Types (self : LocalObjectStore) (h : Host) (m : gmap string Bytes).

(** C11 However the calls of concurrent writers interleave, and whichever of them
    fail, the directory refines an abstract store to which a writer adds its
    bytes under their digest in one step: at every moment each blob hashes to
    its name, no reader can see half of one, and a [put] that has returned
    [Ok] has its blob in place. *)
Theorem concurrent_puts_refine self h m contents schedule threads h' :
  represents self (h_files h) m → content_addressed m →
  0 ≤ h_next_temp h → h_next_temp h + Z.of_nat (length contents) ≤ u64_max →
  run_schedule perform schedule (store_put self <$> contents, h) = (threads, h') →
  ∃ m', represents self (h_files h') m' ∧ content_addressed m' ∧
    rtc (insert_content contents) m m' ∧
    ∀ (i : nat) bytes result, contents !! i = Some bytes → threads !! i = Some (Done result) →
      match result with
      | Ok object => object = stored_object self bytes ∧ is_Some (m' !! sha256_hex bytes)
      | Err error => ∃ e, error = Io e
      | Panic | Diverged => False
      end.
Proof.
  intros Hm Hca Hnext Hmax Hrun.
  destruct (stands_schedule self (h_pid h) true
    (λ _ pool d, pool.*1 = contents ∧ ∃ m', represents self d.1 m' ∧ content_addressed m' ∧
       rtc (insert_content contents) m m') schedule
    ((λ bytes, (bytes, Starting)) <$> contents) (store_put self <$> contents, h))
    as (pool & Hstands & (Hc & m' & Hm' & Hca' & Hrtc) & _).
  - intros i left pool d pool' d' Hok Hstep HI. by eapply refines_step.
  - by apply stands_start.
  - simpl. split; [|by exists m]. rewrite <- list_fmap_compose. apply list_fmap_id.
  - rewrite Hrun in *. simpl in *. exists m'. split_and!; [done..|].
    intros i bytes result Hi Hthread. destruct Hstands as [Hprog _ _ [Hstages _ _]]. simpl in *.
    subst threads. unfold programs in Hthread. rewrite list_lookup_fmap in Hthread.
    apply fmap_Some in Hthread as ([b st] & Hpool & Hdone). simpl in *.
    assert (b = bytes) as ->.
    { rewrite <- Hc, list_lookup_fmap, Hpool in Hi. by simplify_eq/=. }
    destruct (Hstages _ _ _ Hpool) as [_ Hst]. destruct st as [| | | | | | | |r]; try done.
    injection Hdone as ->. destruct r as [object|error| |]; simpl in Hst; try done. destruct Hst as [-> Hblob]. split; [done|].
    rewrite Hm' in Hblob by apply sha256_hex_digits. by apply fmap_is_Some in Hblob.
Qed.

Lemma insert_content_dom contents m m' name :
  rtc (insert_content contents) m m' →
  (is_Some (m !! name) → is_Some (m' !! name)) ∧
  (is_Some (m' !! name) → m' !! name = m !! name ∨ ∃ bytes, bytes ∈ contents ∧ name = sha256_hex bytes ∧ m' !! name = Some bytes).
Proof.
  induction 1 as [m|m m1 m' (bytes & Hin & ->) _ [IH1 IH2]]; [by auto|].
  destruct (decide (name = sha256_hex bytes)) as [->|Hne]; rewrite ?lookup_insert_eq, ?lookup_insert_ne in * by done.
  - split; [eauto|]. intros Hs. destruct (IH2 Hs) as [Heq|?]; [|by auto]. right. by exists bytes.
  - auto.
Qed.

(** C35 Without faults, once every concurrent writer has had its eight calls,
    each has returned its object, no temporary file is left, and the directory
    holds the blobs it held before and one blob per content written. *)
Theorem writers_converge self h m contents schedule threads h' :
  represents self (h_files h) m → content_addressed m → reliable h →
  h_files h !! (store_root self ++ ["sha256"]) = Some Directory →
  (∀ name, is_Some (h_files h !! store_path self name) → is_hex_digest name = true) →
  0 ≤ h_next_temp h → h_next_temp h + Z.of_nat (length contents) ≤ u64_max →
  (∀ i, (i < length contents)%nat → (8 ≤ count_occ Nat.eq_dec schedule i)%nat) →
  run_schedule perform schedule (store_put self <$> contents, h) = (threads, h') →
  threads = (λ bytes, Done (Ok (stored_object self bytes))) <$> contents ∧
  ∀ name, is_Some (h_files h' !! store_path self name) ↔
    is_Some (h_files h !! store_path self name) ∨ ∃ bytes, bytes ∈ contents ∧ name = sha256_hex bytes.
Proof.
  intros Hm Hca Hrel Hdir Hblobs Hnext Hmax Hfair Hrun.
  destruct (stands_schedule self (h_pid h) false
    (λ left pool d, budget left pool ∧ tidy self (h_pid h) pool d ∧
       pool.*1 = contents ∧ ∃ m', represents self d.1 m' ∧ content_addressed m' ∧
       rtc (insert_content contents) m m') schedule
    ((λ bytes, (bytes, Starting)) <$> contents) (store_put self <$> contents, h))
    as (pool & Hstands & (Hbudget & Htidy & Hc & m' & Hm' & Hca' & Hrtc) & _).
  - intros i left pool d pool' d' Hok Hstep (Hb & Ht & HI). split_and!.
    + by eapply budget_step.
    + by eapply tidy_step.
    + by eapply refines_step.
    + by eapply refines_step.
  - by apply stands_start.
  - simpl. split_and!; [by apply budget_start|by eapply tidy_start| |by exists m].
    rewrite <- list_fmap_compose. apply list_fmap_id.
  - rewrite Hrun in *. destruct Hstands as [Hprog _ _ [Hstages _ _]]. simpl in *. subst threads.
    assert (∀ (i : nat) bytes stage, pool !! i = Some (bytes, stage) →
      stage = Finished (Ok (stored_object self bytes)) ∧ is_Some (m' !! sha256_hex bytes)) as Hdone.
    { intros i bytes stage Hi. specialize (Hbudget _ _ _ Hi). simpl in Hbudget.
      destruct (Hstages _ _ _ Hi) as [_ Hst]. pose proof (tidy_stages _ _ _ _ Htidy _ _ _ Hi) as Herr.
      destruct stage as [| | | | | | | |[object|error| |]]; simpl in *; try lia; try done.
      destruct Hst as [-> Hblob]. split; [done|].
      rewrite Hm' in Hblob by apply sha256_hex_digits. by apply fmap_is_Some in Hblob. }
    split.
    + rewrite <- Hc. unfold programs. rewrite <- list_fmap_compose. apply list_fmap_ext.
      intros i [bytes stage] Hi. by destruct (Hdone _ _ _ Hi) as [-> _].
    + intros name. destruct (insert_content_dom _ _ _ name Hrtc) as [Hdom1 Hdom2]. split.
      * intros Hs. assert (is_hex_digest name = true) as Hname.
        { destruct (tidy_owned _ _ _ _ Htidy name Hs) as [?|(i & bytes & stage & id & Hi & Ho & _)]; [done|].
          destruct (Hdone _ _ _ Hi) as [-> _]. by destruct Ho. }
        rewrite Hm' in Hs by done. rewrite Hm by done. apply fmap_is_Some in Hs.
        destruct (Hdom2 Hs) as [<-|(bytes & ? & -> & _)]; [left; by apply fmap_is_Some|right; by exists bytes].
      * intros [Hs|(bytes & Hin & ->)].
        { pose proof (Hblobs _ Hs) as Hname. rewrite Hm in Hs by done. rewrite Hm' by done.
          apply fmap_is_Some, Hdom1. by apply fmap_is_Some in Hs. }
        rewrite Hm' by apply sha256_hex_digits. apply fmap_is_Some.
        rewrite <- Hc in Hin. apply list_elem_of_fmap in Hin as ([b stage] & -> & Hin).
        apply list_elem_of_lookup in Hin as [i Hi]. by eapply Hdone.
Qed.

(** ** One writer *)

Lemma run_schedule_alone p h n p' h' :
  run_schedule (A:=outcome StoreError StoredObject) perform (replicate n 0%nat) ([p], h) = ([p'], h') →
  run perform p h = run perform p' h'.
Proof.
  unfold run_schedule. revert p h. induction n as [|n IH]; intros p h; simpl; [by intros [= -> ->]|].
  rewrite run_pstep. destruct (pstep perform p h) as [p1 h1]. apply IH.
Qed.

Lemma put_alone self h m bytes :
  represents self (h_files h) m → content_addressed m → 0 ≤ h_next_temp h < u64_max →
  let '(result, h') := run perform (store_put self bytes) h in
  ∃ m', represents self (h_files h') m' ∧ content_addressed m' ∧ rtc (insert_content [bytes]) m m' ∧
  match result with
  | Ok object => object = stored_object self bytes ∧ is_Some (m' !! sha256_hex bytes)
  | Err error => ∃ e, error = Io e
  | Panic | Diverged => False
  end.
Proof.
  intros Hm Hca Hnext. set (schedule := replicate 8 0%nat).
  destruct (stands_schedule self (h_pid h) true
    (λ left pool d, budget left pool ∧ pool.*1 = [bytes] ∧ ∃ m', represents self d.1 m' ∧ content_addressed m' ∧
       rtc (insert_content [bytes]) m m') schedule
    ((λ bytes, (bytes, Starting)) <$> [bytes]) (store_put self <$> [bytes], h))
    as (pool & Hstands & (Hb & Hc & m' & Hm' & Hca' & Hrtc) & _).
  - intros i left pool d pool' d' Hok Hstep [Hb HI]. split; [by eapply budget_step|by eapply refines_step].
  - apply stands_start; simpl; [done..|lia|lia].
  - split_and!; [apply budget_start; intros [|i] ?; simpl in *; lia|done|by exists m].
  - destruct (run_schedule perform schedule _) as [threads h'] eqn:Hrun.
    destruct Hstands as [Hprog _ _ [Hstages _ _]]. cbn [fst snd] in *. subst threads.
    destruct pool as [|[b stage] [|]]; [discriminate Hc| |discriminate Hc]. injection Hc as ->.
    apply run_schedule_alone in Hrun. cbn [fst snd] in Hrun.
    specialize (Hb 0%nat _ _ eq_refl). destruct (Hstages 0%nat _ _ eq_refl) as [_ Hst].
    destruct stage as [| | | | | | | |result]; try (simpl in Hb; lia).
    change (run perform (put_at self (h_pid h) bytes (Finished result)) h') with (result, h') in Hrun.
    rewrite Hrun. exists m'. split_and!; [done..|]. destruct result; try done. destruct Hst as [-> Hblob].
    split; [done|]. cbn [fst disk] in Hblob. rewrite Hm' in Hblob by apply sha256_hex_digits.
    by apply fmap_is_Some in Hblob.
Qed.

(** What was put can be got: after a [put] that returned an object, a read
    of its digest that does not fail returns bytes of that digest, and exactly
    the bytes put when the store did not already hold others under it. *)
Theorem put_get_roundtrip self h m bytes object h1 result h2 :
  represents self (h_files h) m → content_addressed m → 0 ≤ h_next_temp h < u64_max →
  run perform (store_put self bytes) h = (Ok object, h1) → h_faults h1 0 = None →
  run perform (store_get self (so_digest object)) h1 = (result, h2) →
  so_size_bytes object = Z.of_nat (length bytes) ∧
  ∃ bytes', result = Ok bytes' ∧ sha256_hex bytes' = sha256_hex bytes ∧
    ((∀ old, m !! sha256_hex bytes = Some old → old = bytes) → bytes' = bytes).
Proof.
  intros Hm Hca Hnext Hput Hfault Hget. pose proof (put_alone self h m bytes Hm Hca Hnext) as Halone.
  rewrite Hput in Halone. destruct Halone as (m' & Hm' & Hca' & Hrtc & -> & [bytes' Hb]).
  split; [done|]. exists bytes'. pose proof (Hca' _ _ Hb) as Hhash. simpl in Hhash.
  revert Hget. unfold store_get. change (so_digest (stored_object self bytes)) with (sha256_digest bytes).
  rewrite path_for_own_digest. simpl. rewrite Hfault. unfold read_file.
  rewrite Hm' by apply sha256_hex_digits. rewrite Hb. simpl. unfold sha256_digest.
  rewrite (proj2 (verify_Ok _ bytes')) by (unfold sha256_digest; congruence). simpl. intros [= <- _].
  split_and!; [done..|]. intros Hold.
  destruct (insert_content_dom _ _ _ (sha256_hex bytes) Hrtc) as [_ Hdom].
  destruct (Hdom ltac:(by eexists)) as [Heq|(b & Hin & _ & Heq)].
  - apply Hold. congruence.
  - apply list_elem_of_singleton in Hin as ->. congruence.
Qed.

(** What a read of [digest] may return, given the files. *)
Definition get_outcome self (digest : string) (h : Host) (result : outcome StoreError Bytes) : Prop :=
match result with
  | Ok bytes => digest = sha256_digest bytes ∧
      h_files h !! store_path self (sha256_hex bytes) = Some (RegularFile bytes)
  | Err (UnsupportedDigest d) => d = digest ∧ ∀ name, is_hex_digest name = true → digest ≠ "sha256:" +:+ name
  | Err (DigestMismatch expected actual) =>
      ∃ name bytes, expected = digest ∧ digest = "sha256:" +:+ name ∧ is_hex_digest name = true ∧
        h_files h !! store_path self name = Some (RegularFile bytes) ∧
        actual = sha256_digest bytes ∧ actual ≠ digest
  | Err (Io error) =>
      ∃ name, digest = "sha256:" +:+ name ∧ is_hex_digest name = true ∧
        ((∃ fault, h_faults h 0 = Some fault ∧ error = fault_error fault) ∨
         read_file (store_path self name) (h_files h) = Err error)
  | Panic | Diverged => False
  end.
Lemma run_store_get self digest h :
  let '(result, h') := run perform (store_get self digest) h in
  h_files h' = h_files h ∧ get_outcome self digest h result.
Proof.
  unfold store_get. pose proof (path_for_digest_result self digest) as Hresult.
  destruct (path_for_digest self digest) as [path|e| |] eqn:Hpath; [|destruct Hresult as [-> Hno]|done..].
  - apply path_for_digest_Ok in Hpath as (name & -> & Hname & ->). simpl.
    destruct (h_faults h 0) as [fault|] eqn:Hf; [cbn; eauto 10|].
    destruct (read_file _ _) as [bytes|e| |] eqn:Hr; cbn; [|by eauto 10|by pose proof (read_file_fault_free (store_path self name) (h_files h)) as Hff; rewrite Hr in Hff..].
    apply read_file_Ok in Hr. unfold verify. case_bool_decide as Heq; cbn; split; try done.
    + apply (inj (String.append "sha256:")) in Heq as <-. done.
    + exists name, bytes. done.
  - cbn. split_and!; [done..|]. intros name Hname ->.
    destruct (Hno (store_path self name)). rewrite <- Hpath. apply path_for_digest_Ok. eauto.
Qed.

(** C33 Whatever is on the disk and whatever fails, [get] changes nothing and
    returns only bytes that hash to the digest asked for; every other outcome
    is the error that explains it. *)
Theorem get_exact self digest h :
  let '(result, h') := run perform (store_get self digest) h in
  h_files h' = h_files h ∧
  match result with
  | Ok bytes => digest = sha256_digest bytes ∧
      h_files h !! store_path self (sha256_hex bytes) = Some (RegularFile bytes)
  | Err (UnsupportedDigest d) => d = digest ∧ ∀ name, is_hex_digest name = true → digest ≠ "sha256:" +:+ name
  | Err (DigestMismatch expected actual) =>
      ∃ name bytes, expected = digest ∧ digest = "sha256:" +:+ name ∧ is_hex_digest name = true ∧
        h_files h !! store_path self name = Some (RegularFile bytes) ∧
        actual = sha256_digest bytes ∧ actual ≠ digest
  | Err (Io error) =>
      ∃ name, digest = "sha256:" +:+ name ∧ is_hex_digest name = true ∧
        ((∃ fault, h_faults h 0 = Some fault ∧ error = fault_error fault) ∨
         read_file (store_path self name) (h_files h) = Err error)
  | Panic | Diverged => False
  end.
Proof. apply run_store_get. Qed.
End results.

(** ** Examples *)

(** Three writers of two contents, taking turns. *)
Definition sample_contents : list Bytes := to_bytes <$> ["same"; "other"; "same"].
Definition round_robin : list nat := concat (replicate 8 [0; 1; 2]%nat).

Lemma sample_entry name : h_files sample_host !! store_path sample_store name = None.
Proof.
  unfold sample_host, store_path. cbn [h_files store_root sample_store app].
  rewrite !lookup_insert_ne by (intros [=]; done). by apply lookup_singleton_ne.
Qed.
Lemma sample_represents : represents sample_store (h_files sample_host) ∅.
Proof. intros name _. by rewrite sample_entry. Qed.

Lemma concurrent_puts_refine_witness :
  let '(threads, h') :=
    run_schedule perform (take 20 round_robin)
      (store_put (H:=toy_sha256) sample_store <$> sample_contents, sample_host) in
  ∃ m', represents sample_store (h_files h') m' ∧ content_addressed (H:=toy_sha256) m' ∧
    rtc (insert_content (H:=toy_sha256) sample_contents) ∅ m'.
Proof.
  destruct (run_schedule _ _ _) as [threads h'] eqn:Hrun.
  destruct (concurrent_puts_refine (H:=toy_sha256) sample_store sample_host ∅ sample_contents
    (take 20 round_robin) threads h') as (m' & H1 & H2 & H3 & _).
  - apply sample_represents.
  - apply map_Forall_empty.
  - vm_compute. discriminate.
  - vm_compute. discriminate.
  - exact Hrun.
  - exists m'. exact (conj H1 (conj H2 H3)).
Defined.

Lemma writers_converge_witness :
  let '(threads, h') :=
    run_schedule perform round_robin
      (store_put (H:=toy_sha256) sample_store <$> sample_contents, sample_host) in
  threads = (λ bytes, Done (Ok (stored_object (H:=toy_sha256) sample_store bytes))) <$> sample_contents.
Proof.
  destruct (run_schedule _ _ _) as [threads h'] eqn:Hrun.
  apply (writers_converge (H:=toy_sha256) sample_store sample_host ∅ sample_contents round_robin threads h');
    [apply sample_represents|apply map_Forall_empty|intros n; reflexivity|vm_compute; reflexivity|
    |vm_compute; discriminate|vm_compute; discriminate| |exact Hrun].
  - intros name. rewrite sample_entry. by intros [].
  - intros [|[|[|i]]] Hi; [vm_compute; lia..|]. simpl in Hi. lia.
Defined.

Lemma sample_put :
  let '(result, h1) := run perform (store_put (H:=toy_sha256) sample_store (to_bytes "plurifold")) sample_host in
  result = Ok (stored_object (H:=toy_sha256) sample_store (to_bytes "plurifold")) ∧ h_faults h1 0 = None.
Proof. vm_compute. by split. Qed.

Lemma put_get_roundtrip_witness :
  ∃ object h1 h2,
    run perform (store_put (H:=toy_sha256) sample_store (to_bytes "plurifold")) sample_host = (Ok object, h1) ∧
    run perform (store_get (H:=toy_sha256) sample_store (so_digest object)) h1 = (Ok (to_bytes "plurifold"), h2).
Proof.
  pose proof sample_put as Hsample.
  destruct (run perform (store_put (H:=toy_sha256) sample_store (to_bytes "plurifold")) sample_host)
    as [put_result h1] eqn:Hput.
  destruct Hsample as [-> Hfault].
  set (object := stored_object (H:=toy_sha256) sample_store (to_bytes "plurifold")) in *.
  destruct (run perform (store_get (H:=toy_sha256) sample_store (so_digest object)) h1) as [result h2] eqn:Hget.
  exists object, h1, h2. split; [reflexivity|]. rewrite Hget.
  destruct (put_get_roundtrip (H:=toy_sha256) sample_store sample_host ∅ (to_bytes "plurifold") object h1 result h2)
    as (_ & bytes' & Hr & _ & Hsame); [apply sample_represents|apply map_Forall_empty
      |vm_compute; split; [discriminate|reflexivity]|exact Hput|exact Hfault|exact Hget|].
  rewrite Hr, (Hsame ltac:(intros old; rewrite lookup_empty; discriminate)). reflexivity.
Defined.
