(* ===== verification/Core.v ===== *)
(** * crates/plurifold-core: the shared data model

    Identifiers, resources, task specifications, shard partitions, logical
    jobs, object metadata, links and leases, with the methods of the crate. *)

From S2P Require Import Prelude Float64 World.

(** ** Identifiers ([opaque_id!]) *)

(** One newtype per tag; equality is that of the wrapped UUID. *)
Record OpaqueId (tag : Set) : Set := mkId { id_uuid : Uuid }.
Arguments mkId {tag} id_uuid.
Arguments id_uuid {tag} o.

Inductive TaskTag : Set := .
Inductive JobTag : Set := .
Inductive ObjectTag : Set := .
Inductive ResourceTag : Set := .
Inductive ExecutionTag : Set := .
Abbreviation TaskId := (OpaqueId TaskTag).
Abbreviation JobId := (OpaqueId JobTag).
Abbreviation ObjectId := (OpaqueId ObjectTag).
Abbreviation ResourceId := (OpaqueId ResourceTag).
Abbreviation ExecutionId := (OpaqueId ExecutionTag).

#[export] Instance OpaqueId_eq_dec tag : EqDecision (OpaqueId tag).
Proof. solve_decision. Defined.
#[export] Program Instance OpaqueId_countable tag : Countable (OpaqueId tag) :=
  inj_countable' id_uuid mkId _.
Next Obligation. by intros tag []. Qed.

(** [$name::new()] *)
Definition new_id {tag E} : comp World E (OpaqueId tag) :=
  let* u := new_v4 in ret (mkId u).

(** [Display]/[FromStr] of an identifier are those of its UUID. *)
Definition id_to_string `{UuidCrate} {tag} (self : OpaqueId tag) : string :=
  uuid_to_string (id_uuid self).
Definition id_from_str `{UuidCrate} {tag} (value : string) : option (OpaqueId tag) :=
  mkId <$> uuid_parse_str value.

(** ** Resources *)

Inductive Architecture := X86_64 | Aarch64 | RiscV64 | ArchOther (s : string).
Inductive AcceleratorKind :=
  NvidiaGpu | AmdGpu | AscendNpu | Tpu | Fpga | AccelOther (s : string).
#[export] Instance Architecture_eq_dec : EqDecision Architecture.
Proof. solve_decision. Defined.
#[export] Instance AcceleratorKind_eq_dec : EqDecision AcceleratorKind.
Proof. solve_decision. Defined.

Record Accelerator := mkAccelerator {
  acc_kind : AcceleratorKind;
  acc_count : Z;                          (* u32 *)
  acc_memory_bytes_per_device : Z;        (* u64 *)
}.

Record AcceleratorRequirement := mkAcceleratorRequirement {
  ar_kind : AcceleratorKind;
  ar_min_count : Z;
  ar_min_memory_bytes_per_device : Z;
}.

Record ResourceRequirements := mkResourceRequirements {
  req_architecture : option Architecture;
  req_min_memory_bytes : Z;
  req_accelerator : option AcceleratorRequirement;
  req_required_features : gset string;
}.

(** [ResourceRequirements::default()] *)
Definition ResourceRequirements_default : ResourceRequirements :=
  mkResourceRequirements None 0 None ∅.

Record ResourceDescriptor := mkResourceDescriptor {
  rd_id : ResourceId;
  rd_epoch : Z;                           (* u64 *)
  rd_architecture : Architecture;
  rd_cpu_cores : Z;                       (* u32 *)
  rd_memory_bytes : Z;                    (* u64 *)
  rd_accelerators : list Accelerator;
  rd_features : gset string;
  rd_performance_score : f64;
  rd_queue_delay_ms : f64;
  rd_startup_delay_ms : f64;
  rd_failure_probability : f64;
}.

Definition accelerator_matches (required : AcceleratorRequirement) (candidate : Accelerator) : bool :=
  bool_decide (acc_kind candidate = ar_kind required)
  && (ar_min_count required <=? acc_count candidate)
  && (ar_min_memory_bytes_per_device required <=? acc_memory_bytes_per_device candidate).

(** [ResourceDescriptor::supports] *)
Definition supports (self : ResourceDescriptor) (requirements : ResourceRequirements) : bool :=
  if (rd_performance_score self <=? 0)%float
     || (rd_memory_bytes self <? req_min_memory_bytes requirements) then false
  else if (match req_architecture requirements with
           | Some architecture => negb (bool_decide (rd_architecture self = architecture))
           | None => false
           end) then false
  else if negb (bool_decide (req_required_features requirements ⊆ rd_features self)) then false
  else match req_accelerator requirements with
       | Some required => existsb (accelerator_matches required) (rd_accelerators self)
       | None => true
       end.

(** ** Tasks *)

Inductive EffectSemantics := Pure | Idempotent (key : string) | Exclusive.
#[export] Instance EffectSemantics_eq_dec : EqDecision EffectSemantics.
Proof. solve_decision. Defined.

(** [EffectSemantics::automatically_retryable] *)
Definition automatically_retryable (self : EffectSemantics) : bool :=
  match self with Pure | Idempotent _ => true | Exclusive => false end.

Record CostHint := mkCostHint {
  compute_ms_on_reference : f64;
  output_bytes : Z;                       (* u64 *)
}.

Definition CostHint_default : CostHint := mkCostHint 1.0 0.

Inductive TaskShardPartition :=
| ByteRange (input : nat) (offset length total_bytes : Z)
| Records (input : nat) (record_start record_count total_records offset length total_bytes : Z).

Record TaskShard := mkTaskShard {
  sh_index : Z;                           (* u32 *)
  sh_count : Z;                           (* u32 *)
  sh_partition : option TaskShardPartition;
}.

Inductive PipelineInput := External (index : nat) | PreviousOutput.

Record TaskPipelineStage := mkTaskPipelineStage {
  stage_artifact : string;
  stage_entrypoint : string;
  stage_arguments : list string;
  stage_inputs : list PipelineInput;
}.

(** [TaskPipeline] is its list of stages. *)
Abbreviation TaskPipeline := (list TaskPipelineStage).

Record TaskSpec := mkTaskSpec {
  ts_id : TaskId;
  ts_artifact : string;
  ts_entrypoint : string;
  ts_arguments : list string;
  ts_inputs : list ObjectId;
  ts_requirements : ResourceRequirements;
  ts_effects : EffectSemantics;
  ts_cost : CostHint;
  ts_shard : option TaskShard;
  ts_pipeline : option TaskPipeline;
}.

(** [TaskShardPartition::input_byte_range] *)
Definition partition_input_byte_range (self : TaskShardPartition) (input_index : nat) : option (Z * Z) :=
  match self with
  | ByteRange input offset length _
  | Records input _ _ _ offset length _ =>
      if bool_decide (input = input_index) then Some (offset, length) else None
  end.

Definition fraction (part total : Z) : f64 :=
  if total =? 0 then 1.0%float else (f64_of_Z part / f64_of_Z total)%float.

(** [TaskShardPartition::work_fraction] *)
Definition work_fraction (self : TaskShardPartition) : f64 :=
  match self with
  | ByteRange _ _ length total_bytes => fraction length total_bytes
  | Records _ _ record_count total_records _ _ _ => fraction record_count total_records
  end.

(** [TaskShardPartition::scaled_output_bytes]: the products are [u128] (they
    cannot overflow), [start + count] is [u64], the result is cast to [u64]. *)
Definition scaled_output_bytes (self : TaskShardPartition) (total_output_bytes : Z) : Z :=
  let '(start, count, total) :=
    match self with
    | ByteRange _ offset length total_bytes => (offset, length, total_bytes)
    | Records _ record_start record_count total_records _ _ _ =>
        (record_start, record_count, total_records)
    end in
  if total =? 0 then total_output_bytes
  else
    let output_start := total_output_bytes * start / total in
    let output_end := total_output_bytes * wrap64 (start + count) / total in
    wrap64 (output_end - output_start).

(** [TaskSpec::input_byte_range] *)
Definition input_byte_range (self : TaskSpec) (input_index : nat) : option (Z * Z) :=
  shard ← ts_shard self;
  partition ← sh_partition shard;
  partition_input_byte_range partition input_index.

Record TaskTemplate := mkTaskTemplate {
  tt_artifact : string;
  tt_entrypoint : string;
  tt_arguments : list string;
  tt_inputs : list ObjectId;
  tt_requirements : ResourceRequirements;
  tt_effects : EffectSemantics;
  tt_cost : CostHint;
}.

(** The fields [TaskTemplate::instantiate] fills in, given the drawn id. *)
Definition instantiate_with (self : TaskTemplate) (dependency_inputs : list ObjectId)
    (id : TaskId) : TaskSpec :=
  mkTaskSpec id (tt_artifact self) (tt_entrypoint self) (tt_arguments self)
    (tt_inputs self ++ dependency_inputs) (tt_requirements self) (tt_effects self)
    (tt_cost self) None None.

(** [TaskTemplate::instantiate] *)
Definition instantiate {E} (self : TaskTemplate) (dependency_inputs : list ObjectId) :
    comp World E TaskSpec :=
  let* id := new_id in ret (instantiate_with self dependency_inputs id).

(** [task] runs [template]: it is the template's code with the template's
    arguments, on the template's own inputs followed by [objects]. *)
Record runs_template (template : TaskTemplate) (objects : list ObjectId) (task : TaskSpec) : Prop := {
  rt_artifact : ts_artifact task = tt_artifact template;
  rt_entrypoint : ts_entrypoint task = tt_entrypoint template;
  rt_arguments : ts_arguments task = tt_arguments template;
  rt_inputs : ts_inputs task = tt_inputs template ++ objects;
  rt_requirements : ts_requirements task = tt_requirements template;
  rt_effects : ts_effects task = tt_effects template;
  rt_pipeline : ts_pipeline task = None;
}.
(** It runs the whole of it, at the template's cost. *)
Record runs_whole (template : TaskTemplate) (objects : list ObjectId) (task : TaskSpec) : Prop := {
  rw_runs : runs_template template objects task;
  rw_cost : ts_cost task = tt_cost template;
  rw_shard : ts_shard task = None;
}.
Lemma instantiate_runs_whole template objects id :
  runs_whole template objects (instantiate_with template objects id).
Proof. by repeat split. Qed.

(** ** Jobs *)

Record CooperativeRoleSpec := mkCooperativeRoleSpec {
  cr_name : string;
  cr_task : TaskTemplate;
  cr_depends_on : list string;
}.

Record CooperativeJobSpec := mkCooperativeJobSpec {
  cj_id : JobId;
  cj_roles : list CooperativeRoleSpec;
  cj_outputs : list string;
}.

Record RoleImplementation := mkRoleImplementation {
  ri_name : string;
  ri_task : TaskTemplate;
}.

Inductive ShardPartitionSpec :=
| SpecByteRange (input : nat)
| SpecRecords (input : nat) (offsets : list Z).

Record AutoShardPolicy := mkAutoShardPolicy {
  ap_max_shards : Z;                      (* u32 *)
  ap_partition : ShardPartitionSpec;
  ap_per_shard_overhead_ms : f64;
  ap_min_gain_ratio : f64;
}.

(** [ShardPolicySpec] has the one constructor [Auto]. *)
Inductive ShardPolicy := Fixed (count : Z) | PolicyAuto (policy : AutoShardPolicy).

Definition ShardPolicy_default : ShardPolicy := Fixed 1.

Definition fixed_count (self : ShardPolicy) : option Z :=
  match self with Fixed count => Some count | PolicyAuto _ => None end.
Definition auto_policy (self : ShardPolicy) : option AutoShardPolicy :=
  match self with PolicyAuto policy => Some policy | Fixed _ => None end.
Definition may_fan_out (self : ShardPolicy) : bool :=
  match self with Fixed count => 1 <? count | PolicyAuto _ => true end.

Definition default_auto_min_gain_ratio : f64 := 0.05%float.
Definition default_reduction_max_fan_in : Z := 4.
Definition default_reduction_locality_rtt_ms : f64 := 2.0%float.

(** [ShardPartitionSpec::input] *)
Definition partition_spec_input (self : ShardPartitionSpec) : nat :=
  match self with SpecByteRange input | SpecRecords input _ => input end.

Record RoleReductionSpec := mkRoleReductionSpec {
  rr_name : string;
  rr_task : TaskTemplate;
  rr_max_fan_in : Z;                      (* u32 *)
  rr_locality_rtt_ms : f64;
}.

Record LogicalRoleSpec := mkLogicalRoleSpec {
  lr_name : string;
  lr_implementations : list RoleImplementation;
  lr_depends_on : list string;
  lr_shards : ShardPolicy;
  lr_reduction : option RoleReductionSpec;
}.

Record LogicalJobSpec := mkLogicalJobSpec {
  lj_id : JobId;
  lj_roles : list LogicalRoleSpec;
  lj_outputs : list string;
}.

Inductive JobDefinition :=
| Cooperative (spec : CooperativeJobSpec)
| Logical (spec : LogicalJobSpec).

(** ** Objects, links, leases *)

Record ObjectMetadata := mkObjectMetadata {
  om_id : ObjectId;
  om_size_bytes : Z;                      (* u64 *)
  om_digest : option string;
  om_encoding : option string;
  om_locations : list ResourceId;
  om_producer : option TaskId;
}.
#[export] Instance ObjectMetadata_eq_dec : EqDecision ObjectMetadata.
Proof. solve_decision. Defined.

(** [ObjectMetadata::is_local_to] *)
Definition is_local_to (self : ObjectMetadata) (resource : ResourceId) : bool :=
  bool_decide (resource ∈ om_locations self).

Record LinkProfile := mkLinkProfile {
  link_from : ResourceId;
  link_to : ResourceId;
  link_rtt_ms : f64;
  link_bandwidth_mbps : f64;
}.

(** [LinkProfile::transfer_time_ms] *)
Definition link_transfer_time_ms (self : LinkProfile) (bytes : Z) : option f64 :=
  (if (link_bandwidth_mbps self <=? 0) || (link_rtt_ms self <? 0) then None
   else
     let bytes_per_ms := link_bandwidth_mbps self * 1000000 / 8 / 1000 in
     Some (link_rtt_ms self + f64_of_Z bytes / bytes_per_ms))%float.

Inductive LatencyDomain := L0 | L1 | L2 | L3 | L4 | L5.

(** [LatencyDomain::from_rtt_ms] *)
Definition from_rtt_ms (rtt_ms : f64) : LatencyDomain :=
  (if rtt_ms <? 0.01 then L0
   else if rtt_ms <? 0.2 then L1
   else if rtt_ms <? 2.0 then L2
   else if rtt_ms <? 20.0 then L3
   else if rtt_ms <? 200.0 then L4
   else L5)%float.

Definition latency_domain (self : LinkProfile) : LatencyDomain := from_rtt_ms (link_rtt_ms self).

(** [TopologySnapshot] is its list of links. *)
Abbreviation TopologySnapshot := (list LinkProfile).

(** The link joins [a] and [b], in either direction. *)
Definition link_joins (a b : ResourceId) (link : LinkProfile) : bool :=
  bool_decide (link_from link = a) && bool_decide (link_to link = b)
  || bool_decide (link_from link = b) && bool_decide (link_to link = a).

(** [TopologySnapshot::link] *)
Definition topology_link (self : TopologySnapshot) (a b : ResourceId) : option LinkProfile :=
  List.find (link_joins a b) self.

(** [TopologySnapshot::transfer_time_ms] *)
Definition topology_transfer_time_ms (self : TopologySnapshot) (a b : ResourceId) (bytes : Z) :
    option f64 :=
  if bool_decide (a = b) then Some 0%float
  else link ← topology_link self a b; link_transfer_time_ms link bytes.

Record MembershipLease := mkMembershipLease {
  ml_resource_id : ResourceId;
  ml_epoch : Z;
  ml_expires_at_unix_ms : Z;
}.

Record ExecutionLease := mkExecutionLease {
  el_task_id : TaskId;
  el_execution_id : ExecutionId;
  el_resource_id : ResourceId;
  el_resource_epoch : Z;
  el_expires_at_unix_ms : Z;
}.
#[export] Instance ExecutionLease_eq_dec : EqDecision ExecutionLease.
Proof. solve_decision. Defined.

(** ** [supports], read as a conjunction *)

Definition architecture_ok (requirement : option Architecture) (architecture : Architecture) : Prop :=
  match requirement with Some a => architecture = a | None => True end.
Definition accelerator_ok (requirement : option AcceleratorRequirement)
    (accelerators : list Accelerator) : Prop :=
  match requirement with
  | Some required => Exists (λ a, acc_kind a = ar_kind required ∧
      ar_min_count required ≤ acc_count a ∧
      ar_min_memory_bytes_per_device required ≤ acc_memory_bytes_per_device a) accelerators
  | None => True
  end.

Lemma supports_spec self requirements :
  supports self requirements = true ↔
  (rd_performance_score self <=? 0)%float = false ∧
  req_min_memory_bytes requirements ≤ rd_memory_bytes self ∧
  architecture_ok (req_architecture requirements) (rd_architecture self) ∧
  req_required_features requirements ⊆ rd_features self ∧
  accelerator_ok (req_accelerator requirements) (rd_accelerators self).
Proof.
  unfold supports, architecture_ok, accelerator_ok. destruct (_ <=? 0)%float; simpl; [naive_solver|].
  destruct (Z.ltb_spec (rd_memory_bytes self) (req_min_memory_bytes requirements)); simpl; [naive_solver lia|].
  assert (Hacc : ∀ required, existsb (accelerator_matches required) (rd_accelerators self) = true ↔
    accelerator_ok (Some required) (rd_accelerators self)).
  { intros required. rewrite existsb_Exists_true. apply Exists_proper; [intros a|done].
    unfold accelerator_matches. rewrite !andb_true_iff, bool_decide_eq_true, !Z.leb_le. tauto. }
  destruct (req_architecture requirements) as [a|];
    [destruct (decide (rd_architecture self = a)); [rewrite bool_decide_true by done|
      rewrite bool_decide_false by done; simpl; naive_solver]|]; simpl;
    (destruct (decide (req_required_features requirements ⊆ rd_features self));
      [rewrite bool_decide_true by done|rewrite bool_decide_false by done; simpl; naive_solver]); simpl;
    destruct (req_accelerator requirements) as [req|]; rewrite ?Hacc; simpl; naive_solver.
Qed.

Lemma link_joins_sym a b link : link_joins a b link = link_joins b a link.
Proof. unfold link_joins. by rewrite orb_comm. Qed.

(** A topology is undirected. *)
Lemma topology_link_sym topology a b : topology_link topology a b = topology_link topology b a.
Proof.
  unfold topology_link. induction topology as [|l ls IH]; simpl; [done|].
  by rewrite link_joins_sym, IH.
Qed.

Lemma link_joins_spec a b link :
  link_joins a b link = true ↔
  (link_from link = a ∧ link_to link = b) ∨ (link_from link = b ∧ link_to link = a).
Proof. unfold link_joins. by rewrite orb_true_iff, !andb_true_iff, !bool_decide_eq_true. Qed.
