(* ===== verification/Samples.v ===== *)
(** * Sample inputs

    Resources, objects and jobs on which the definitions are evaluated and the
    theorems applied; most are those of the repository's own unit tests. *)

From S2P Require Import Prelude Float64 World Text Core.

Open Scope string_scope.
Open Scope list_scope.
Open Scope Z_scope.

Module Samples.
(** A process whose UUIDs are numbered from 1000 and whose clock stands. *)
Definition world (now : Z) : World := mkWorld (λ n, (1000 + N.of_nat n)%N) (λ _, now).

Definition resource_id (n : N) : ResourceId := mkId n.
Definition object_id (n : N) : ObjectId := mkId n.
Definition task_id (n : N) : TaskId := mkId n.
Definition job_id (n : N) : JobId := mkId n.

Definition resource (id : ResourceId) (performance startup_delay_ms : f64)
    (features : list string) : ResourceDescriptor :=
  mkResourceDescriptor id 1 X86_64 16 (64 * 2 ^ 30) [] (list_to_set features)
    performance 0 startup_delay_ms 0.

Definition features (fs : list string) : ResourceRequirements :=
  mkResourceRequirements None 0 None (list_to_set fs).

Definition template (artifact : string) (inputs : list ObjectId) (requirements : ResourceRequirements)
    (compute_ms : f64) (output : Z) : TaskTemplate :=
  mkTaskTemplate artifact "run" [] inputs requirements Pure (mkCostHint compute_ms output).

Definition implementation (name feature : string) (compute_ms : f64) (output : Z) : RoleImplementation :=
  mkRoleImplementation name (template "builtin:sleep" [] (features [feature]) compute_ms output).

Definition role (name : string) (implementations : list RoleImplementation)
    (depends_on : list string) : LogicalRoleSpec :=
  mkLogicalRoleSpec name implementations depends_on (Fixed 1) None.

Definition object (id : ObjectId) (size : Z) (locations : list ResourceId) : ObjectMetadata :=
  mkObjectMetadata id size (Some "sha256:00") None locations None.

Definition link (from to : ResourceId) (rtt_ms bandwidth_mbps : f64) : LinkProfile :=
  mkLinkProfile from to rtt_ms bandwidth_mbps.

Definition byte_policy (max_shards : Z) : AutoShardPolicy :=
  mkAutoShardPolicy max_shards (SpecByteRange 0) 0 0.
Definition record_policy (max_shards : Z) (offsets : list Z) : AutoShardPolicy :=
  mkAutoShardPolicy max_shards (SpecRecords 0 offsets) 0 0.

(** One input object of [size] bytes, on resource 1. *)
Definition one_object (size : Z) : gmap ObjectId ObjectMetadata :=
  {[ object_id 1 := object (object_id 1) size [resource_id 1] ]}.
Definition one_input : TaskTemplate :=
  template "builtin:identity" [object_id 1] ResourceRequirements_default 1000 500.

(** A stand-in for the text form of UUIDs: decimal numbers. *)
Definition uuid_text : UuidCrate :=
  {| uuid_to_string u := pretty u;
     uuid_parse_str s := Z.to_N <$> parse_unsigned (2 ^ 128 - 1) s |}.

(** A process whose clock reads [before] for its first [n] readings, then [after]. *)
Definition world_at (n : nat) (before after : Z) : World :=
  mkWorld (λ k, (1000 + N.of_nat k)%N) (λ k, if (k <? n)%nat then before else after).

Definition task (id : TaskId) (effects : EffectSemantics) : TaskSpec :=
  mkTaskSpec id "test" "run" [] [] ResourceRequirements_default effects CostHint_default None None.
End Samples.
