(* ===== verification/Scheduler.v ===== *)
(** * crates/plurifold-scheduler: topology-aware placement

    [choose] scores every compatible resource for a task and keeps the first of
    the cheapest; [evaluate] is the fusion advisor. *)

From S2P Require Import Prelude Float64 World Core Samples.

Record PlacementBreakdown := mkPlacementBreakdown {
  pb_compute_ms : f64;
  pb_input_transfer_ms : f64;
  pb_queue_ms : f64;
  pb_startup_ms : f64;
  pb_risk_penalty_ms : f64;
  pb_total_ms : f64;
}.

Record PlacementDecision := mkPlacementDecision {
  pd_resource_id : ResourceId;
  pd_cost : PlacementBreakdown;
}.

Inductive ScheduleError := MissingObject (id : ObjectId) | NoCandidate.

Record TopologyAwareScheduler := mkTopologyAwareScheduler { risk_multiplier : f64 }.
Definition TopologyAwareScheduler_default := mkTopologyAwareScheduler 1.0.

Abbreviation Objects := (gmap ObjectId ObjectMetadata).

(** Outcomes with error type [unit] are Rust's [Option]. *)
Abbreviation optional := (outcome unit).

Section scheduler.
Context (self : TopologyAwareScheduler).

(** The cheapest known source replica of [transfer_bytes] bytes of [object]. *)
Definition best_transfer (object : ObjectMetadata) (resource : ResourceId)
    (transfer_bytes : Z) (topology : TopologySnapshot) : option f64 :=
  min_by total_cmp
    (omap (λ source, topology_transfer_time_ms topology source resource transfer_bytes)
       (om_locations object)).

(** One turn of the loop over the inputs of [score_candidate]: the input's
    contribution, [0] where the code continues. *)
Definition input_transfer (task : TaskSpec) (resource : ResourceDescriptor)
    (objects : Objects) (topology : TopologySnapshot)
    (input_index : nat) (input_id : ObjectId) : optional (option f64) :=
  match objects !! input_id with
  | None => Panic
  | Some object =>
      if is_local_to object (rd_id resource) then Ok None
      else
        let? transfer_bytes :=
          match input_byte_range task input_index with
          | Some (offset, length) =>
              let? end_ := ok_or tt (checked_add64 offset length) in
              if om_size_bytes object <? end_ then Err tt else Ok length
          | None => Ok (om_size_bytes object)
          end in
        if transfer_bytes =? 0 then Ok None
        else
          let? best := ok_or tt (best_transfer object (rd_id resource) transfer_bytes topology) in
          Ok (Some best)
  end.

(** [input_transfer_ms] of [score_candidate]. *)
Definition inputs_transfer (task : TaskSpec) (resource : ResourceDescriptor)
    (objects : Objects) (topology : TopologySnapshot) : optional f64 :=
  ofold (λ acc '(input_index, input_id),
      let? contribution := input_transfer task resource objects topology input_index input_id in
      Ok (match contribution with
          | Some best => (acc + best)%float
          | None => acc
          end))
    0%float (imap pair (ts_inputs task)).

(** [TopologyAwareScheduler::score_candidate] *)
Definition score_candidate (task : TaskSpec) (resource : ResourceDescriptor)
    (objects : Objects) (topology : TopologySnapshot) : optional PlacementBreakdown :=
  let compute_ms := (compute_ms_on_reference (ts_cost task) / rd_performance_score resource)%float in
  let? input_transfer_ms := inputs_transfer task resource objects topology in
  let failure_probability := f64_clamp (rd_failure_probability resource) 0 1 in
  let risk_penalty_ms := (compute_ms * failure_probability * risk_multiplier self)%float in
  let queue_ms := f64_max (rd_queue_delay_ms resource) 0 in
  let startup_ms := f64_max (rd_startup_delay_ms resource) 0 in
  let total_ms :=
    (compute_ms + input_transfer_ms + queue_ms + startup_ms + risk_penalty_ms)%float in
  Ok (mkPlacementBreakdown compute_ms input_transfer_ms queue_ms startup_ms
        risk_penalty_ms total_ms).

(** The decisions of the candidates left by [filter] and [filter_map]. *)
Fixpoint score_candidates (task : TaskSpec) (resources : list ResourceDescriptor)
    (objects : Objects) (topology : TopologySnapshot) : outcome ScheduleError (list PlacementDecision) :=
  match resources with
  | [] => Ok []
  | resource :: resources' =>
      if supports resource (ts_requirements task) then
        let? cost := otry (score_candidate task resource objects topology) in
        let? rest := score_candidates task resources' objects topology in
        Ok (match cost with
            | Some cost => mkPlacementDecision (rd_id resource) cost :: rest
            | None => rest
            end)
      else score_candidates task resources' objects topology
  end.

Definition compare_total (a b : PlacementDecision) : comparison :=
  total_cmp (pb_total_ms (pd_cost a)) (pb_total_ms (pd_cost b)).

(** [TopologyAwareScheduler::choose] *)
Definition choose (task : TaskSpec) (resources : list ResourceDescriptor)
    (objects : Objects) (topology : TopologySnapshot) : outcome ScheduleError PlacementDecision :=
  match List.find (λ input, bool_decide (objects !! input = None)) (ts_inputs task) with
  | Some input => Err (MissingObject input)
  | None =>
      let? decisions := score_candidates task resources objects topology in
      ok_or NoCandidate (min_by compare_total decisions)
  end.
End scheduler.

(** ** Fusion advice *)

Record FusionAdvisor := mkFusionAdvisor { minimum_saved_transfer_ms : f64 }.
Definition FusionAdvisor_default := mkFusionAdvisor 20.0.

Record FusionRecommendation := mkFusionRecommendation {
  fr_should_fuse : bool;
  fr_estimated_saved_transfer_ms : f64;
}.

(** [FusionAdvisor::evaluate] *)
Definition evaluate (self : FusionAdvisor) (intermediate_bytes : Z)
    (cross_domain_link : LinkProfile) : FusionRecommendation :=
  let estimated_saved_transfer_ms :=
    default infinity (link_transfer_time_ms cross_domain_link intermediate_bytes) in
  mkFusionRecommendation
    (minimum_saved_transfer_ms self <=? estimated_saved_transfer_ms)%float
    estimated_saved_transfer_ms.

(** ** Correctness of [choose] *)

Section choose_spec.
Context (self : TopologyAwareScheduler) (task : TaskSpec) (objects : Objects)
  (topology : TopologySnapshot).

(** Every input of the task is a published object. *)
Definition inputs_known : Prop := Forall (λ i, is_Some (objects !! i)) (ts_inputs task).

(** The task can run on [resource], at [cost]. *)
Definition feasible (resource : ResourceDescriptor) (cost : PlacementBreakdown) : Prop :=
  supports resource (ts_requirements task) = true ∧
  score_candidate self task resource objects topology = Ok cost.

Definition cost_of (resource : ResourceDescriptor) : option PlacementDecision :=
  if supports resource (ts_requirements task) then
    match score_candidate self task resource objects topology with
    | Ok cost => Some (mkPlacementDecision (rd_id resource) cost)
    | _ => None
    end
  else None.

Definition decision_key (d : PlacementDecision) : Z := total_key (pb_total_ms (pd_cost d)).
Definition total_of (cost : PlacementBreakdown) : Z := total_key (pb_total_ms cost).

Lemma cost_of_Some resource d :
  cost_of resource = Some d ↔ ∃ cost, feasible resource cost ∧ d = mkPlacementDecision (rd_id resource) cost.
Proof.
  unfold cost_of, feasible. destruct (supports _ _); [|naive_solver].
  destruct (score_candidate _ _ _ _ _); naive_solver.
Qed.

Lemma inputs_transfer_fault_free resource :
  inputs_known → opost (inputs_transfer task resource objects topology) (λ _, True).
Proof.
  intros Hknown.
  apply (opost_ofold _ (λ _ l, Forall (λ '(_, i), is_Some (objects !! i)) l)).
  - apply Forall_lookup. intros k [n i]. rewrite list_lookup_imap, fmap_Some.
    intros (j & Hj & [= <- ->]). by eapply Forall_lookup_1 in Hknown.
  - intros acc [n i] l [[o Ho] Hl]%Forall_cons.
    apply opost_bind with (λ _, True); [|by intros].
    unfold input_transfer. rewrite Ho. case_match; [done|].
    apply opost_bind with (λ _, True).
    + destruct (input_byte_range task n) as [[offset len]|]; [|done].
      destruct (checked_add64 _ _); simpl; [|done]. by case_match.
    + intros bytes _. case_match; [done|].
      apply opost_bind with (λ _, True); [by apply opost_ok_or|done].
  - done.
Qed.

Lemma score_candidate_fault_free resource :
  inputs_known → fault_free (score_candidate self task resource objects topology).
Proof.
  intros Hknown. unfold score_candidate.
  apply (inputs_transfer_fault_free resource) in Hknown. by destruct (inputs_transfer _ _ _ _).
Qed.

Lemma score_candidates_omap resources :
  inputs_known →
  score_candidates self task resources objects topology = Ok (omap cost_of resources).
Proof.
  intros Hknown. induction resources as [|r rs IH]; csimpl; [done|].
  unfold cost_of at 1. destruct (supports r _); [|done].
  pose proof (score_candidate_fault_free r Hknown).
  rewrite IH. by destruct (score_candidate _ _ r _ _).
Qed.

(** [find] returns the first element that satisfies the test. *)
Lemma choose_known resources :
  inputs_known →
  choose self task resources objects topology =
    ok_or NoCandidate (min_by compare_total (omap cost_of resources)).
Proof.
  intros Hknown. unfold choose. destruct (List.find _ _) as [i|] eqn:E.
  - apply find_some in E as [Hin Hnone]. apply bool_decide_eq_true in Hnone.
    unfold inputs_known in Hknown. rewrite Forall_forall in Hknown.
    apply list_elem_of_In, Hknown in Hin as [o Ho]. congruence.
  - by rewrite score_candidates_omap.
Qed.
End choose_spec.

Lemma find_missing_None (objects : Objects) l :
  List.find (λ input, bool_decide (objects !! input = None)) l = None →
  Forall (λ i, is_Some (objects !! i)) l.
Proof.
  intros E. apply Forall_forall. intros i Hi. apply not_eq_None_Some. intros Hnone.
  apply list_elem_of_In in Hi. pose proof (find_none _ _ E i Hi) as Hf.
  by apply bool_decide_eq_false in Hf.
Qed.

Lemma choose_fault_free self task resources objects topology :
  fault_free (choose self task resources objects topology).
Proof.
  unfold choose. destruct (List.find _ _) eqn:E; [done|].
  rewrite score_candidates_omap by by apply find_missing_None. simpl.
  by destruct (min_by compare_total _).
Qed.

Lemma choose_Ok_feasible self task resources objects topology d :
  choose self task resources objects topology = Ok d →
  ∃ r, r ∈ resources ∧ rd_id r = pd_resource_id d ∧ feasible self task objects topology r (pd_cost d).
Proof.
  unfold choose. destruct (List.find _ _) eqn:E; [done|].
  rewrite score_candidates_omap by by apply find_missing_None. simpl.
  destruct (min_by compare_total _) as [d'|] eqn:Em; [|done]. intros [= ->].
  apply (min_by_Some decision_key) in Em; [|done]. apply first_least_elem, list_elem_of_omap in Em.
  destruct Em as (r & Hr & (cost & Hf & ->)%cost_of_Some). by exists r.
Qed.

(** C23 Placement is exact.  [choose] names the first input that is not
    published; otherwise it answers with a resource that supports the task and
    reaches every input, whose total cost is least among all such resources in
    the IEEE total order and strictly less than that of every earlier one, so
    ties go to the first; and it answers [NoCandidate] only when no resource is
    feasible.  It never panics: the map is indexed at checked keys only. *)
Theorem choose_correct self task resources objects topology :
  let ok := feasible self task objects topology in
  match choose self task resources objects topology with
  | Ok decision =>
      inputs_known task objects ∧
      ∃ before r after cost,
        resources = before ++ r :: after ∧ ok r cost ∧
        decision = mkPlacementDecision (rd_id r) cost ∧
        (∀ r' cost', r' ∈ before → ok r' cost' → total_of cost < total_of cost') ∧
        (∀ r' cost', r' ∈ after → ok r' cost' → total_of cost ≤ total_of cost')
  | Err (MissingObject i) =>
      ∃ before after, ts_inputs task = before ++ i :: after ∧ objects !! i = None ∧
        Forall (λ i', is_Some (objects !! i')) before
  | Err NoCandidate => inputs_known task objects ∧ ∀ r cost, r ∈ resources → ¬ ok r cost
  | Panic | Diverged => False
  end.
Proof.
  simpl. destruct (decide (inputs_known task objects)) as [Hk|Hk].
  - rewrite choose_known by done.
    destruct (min_by compare_total _) as [d|] eqn:E; simpl; (split; [done|]).
    + apply (min_by_Some decision_key) in E as (l1 & l2 & E & H1 & H2); [|done].
      apply omap_middle_inv in E as (before & r & after & -> & <- & Hr & <-).
      apply cost_of_Some in Hr as (cost & Hok & ->). exists before, r, after, cost.
      rewrite Forall_forall in H1, H2. split_and!; try done; intros r' cost' Hr' Hok'.
      * apply (H1 (mkPlacementDecision (rd_id r') cost')), list_elem_of_omap.
        exists r'. split; [done|]. apply cost_of_Some. eauto.
      * apply (H2 (mkPlacementDecision (rd_id r') cost')), list_elem_of_omap.
        exists r'. split; [done|]. apply cost_of_Some. eauto.
    + apply min_by_None in E. intros r cost Hr Hok.
      assert (mkPlacementDecision (rd_id r) cost ∈ omap (cost_of self task objects topology) resources)
        as Hin; [|rewrite E in Hin; by apply not_elem_of_nil in Hin].
      apply list_elem_of_omap. exists r. split; [done|]. apply cost_of_Some. eauto.
  - unfold choose. destruct (List.find _ _) as [i|] eqn:E.
    + apply find_first in E as (before & after & -> & Hi & Hb). simpl.
      exists before, after. split_and!; [done|by apply bool_decide_eq_true in Hi|].
      eapply Forall_impl; [exact Hb|]. intros i' Hi'%bool_decide_eq_false.
      by apply not_eq_None_Some.
    + exfalso. by apply Hk, find_missing_None.
Qed.

(** Optional capacity never hurts: a placement that exists keeps existing,
    at no greater predicted total cost, when resources are added in any order
    (the non-regression property of docs/scheduler.md). *)
Theorem choose_more_resources self task resources resources' objects topology decision
    (Hsub : resources ⊆ resources')
    (Hchoose : choose self task resources objects topology = Ok decision) :
  ∃ decision', choose self task resources' objects topology = Ok decision' ∧
    total_of (pd_cost decision') ≤ total_of (pd_cost decision).
Proof.
  assert (Hk : inputs_known task objects).
  { unfold choose in Hchoose. destruct (List.find _ _) eqn:E; [done|].
    by apply find_missing_None. }
  rewrite choose_known in * by done.
  destruct (min_by compare_total (omap _ resources)) as [d|] eqn:E; simplify_eq/=.
  apply (min_by_Some decision_key) in E; [|done]. apply first_least_elem in E.
  assert (Hin : decision ∈ omap (cost_of self task objects topology) resources').
  { apply list_elem_of_omap in E as (r & Hr & Hc). apply list_elem_of_omap. exists r. auto. }
  destruct (min_by compare_total (omap _ resources')) as [d'|] eqn:E'; simpl.
  - exists d'. split; [done|]. apply (min_by_Some decision_key) in E'; [|done].
    by apply (first_least_le decision_key _ _ _ E').
  - apply min_by_None in E'. rewrite E' in Hin. by apply not_elem_of_nil in Hin.
Qed.

(** A slow local resource, then a fast remote one that joins. *)
Definition sample_local := Samples.resource (Samples.resource_id 1) 1 0 [].
Definition sample_remote := Samples.resource (Samples.resource_id 2) 10 0 [].
Definition sample_task : TaskSpec :=
  instantiate_with Samples.one_input [] (Samples.task_id 7).
Definition sample_links : TopologySnapshot :=
  [Samples.link (Samples.resource_id 1) (Samples.resource_id 2) 5 100].

Definition decision_resource (o : outcome ScheduleError PlacementDecision) : option ResourceId :=
  match o with Ok d => Some (pd_resource_id d) | _ => None end.

Example choose_local_then_remote :
  (λ rs, decision_resource
     (choose TopologyAwareScheduler_default sample_task rs (Samples.one_object 1000) sample_links))
    <$> [[sample_local]; [sample_local; sample_remote]; []] =
  [Some (Samples.resource_id 1); Some (Samples.resource_id 2); None].
Proof. vm_compute. reflexivity. Qed.

Lemma choose_more_resources_witness :
  ∃ d, choose TopologyAwareScheduler_default sample_task [sample_local]
         (Samples.one_object 1000) sample_links = Ok d ∧
  ∃ d', choose TopologyAwareScheduler_default sample_task [sample_local; sample_remote]
          (Samples.one_object 1000) sample_links = Ok d' ∧
    total_of (pd_cost d') ≤ total_of (pd_cost d).
Proof.
  destruct (choose TopologyAwareScheduler_default sample_task [sample_local]
              (Samples.one_object 1000) sample_links) as [d| | |] eqn:E; [|by vm_compute in E..].
  exists d. split; [done|].
  apply (choose_more_resources _ _ [sample_local] [sample_local; sample_remote]); [|exact E].
  intros r Hr. apply list_elem_of_singleton in Hr as ->. left.
Defined.
