(* ===== verification/RoleGraph.v ===== *)
(** * crates/plurifold-runtime/src/planner.rs: [validate_role_graph]

    A role graph is accepted exactly when its names are distinct and not
    blank, its dependencies and outputs are names listed once, and no role
    depends on itself through others. *)

From stdpp Require Import relations.
From S2P Require Import Prelude Text.

Open Scope string_scope.
Open Scope list_scope.
Open Scope Z_scope.

Abbreviation RoleGraph := (list (string * list string)).

Definition check_names (roles : RoleGraph) : outcome string (gset string) :=
  ofold (λ names '(name, _),
      if bool_decide (trim name = "") then Err "role names cannot be empty"
      else if bool_decide (name ∈ names) then Err ("duplicate role " +:+ name)
      else Ok ({[name]} ∪ names))
    (∅ : gset string) roles.

Definition check_dependencies (names : gset string) (roles : RoleGraph) : outcome string unit :=
  ofold (λ _ '(name, dependencies),
      let? _ := ofold (λ seen dependency,
          if negb (bool_decide (dependency ∈ names)) then
            Err ("role " +:+ name +:+ " depends on unknown role " +:+ dependency)
          else if bool_decide (dependency ∈ seen) then
            Err ("role " +:+ name +:+ " lists dependency " +:+ dependency +:+ " more than once")
          else Ok ({[dependency]} ∪ seen))
        (∅ : gset string) dependencies in
      Ok tt)
    tt roles.

Definition check_outputs (names : gset string) (outputs : list string) : outcome string (gset string) :=
  ofold (λ output_names output,
      if negb (bool_decide (output ∈ names)) then Err ("unknown output role " +:+ output)
      else if bool_decide (output ∈ output_names) then
        Err ("output role " +:+ output +:+ " is listed more than once")
      else Ok ({[output]} ∪ output_names))
    (∅ : gset string) outputs.

(** One pass of the loop: roles are marked in order, so a role may be
    resolved by one marked earlier in the same pass. *)
Definition resolve_pass (roles : RoleGraph) (resolved : gset string) : gset string :=
  fold_left (λ resolved '(name, dependencies),
      if bool_decide (name ∈ resolved) then resolved
      else if forallb (λ dependency, bool_decide (dependency ∈ resolved)) dependencies
      then {[name]} ∪ resolved
      else resolved)
    roles resolved.

Fixpoint resolve_loop (fuel : nat) (roles : RoleGraph) (resolved : gset string) : outcome string unit :=
  match fuel with
  | O => Diverged
  | S fuel' =>
      let before := size resolved in
      let resolved := resolve_pass roles resolved in
      if (size resolved =? length roles)%nat then Ok tt
      else if (size resolved =? before)%nat then Err "role dependency graph contains a cycle"
      else resolve_loop fuel' roles resolved
  end.

(** [validate_role_graph]; every pass but the last resolves a role, so one
    pass more than there are roles is enough. *)
Definition validate_role_graph (roles : RoleGraph) (outputs : list string) : outcome string unit :=
  match roles with
  | [] => Err "at least one role is required"
  | _ =>
      match outputs with
      | [] => Err "at least one output role is required"
      | _ =>
          let? names := check_names roles in
          let? _ := check_dependencies names roles in
          let? _ := check_outputs names outputs in
          resolve_loop (S (length roles)) roles ∅
      end
  end.

(** ** Well-formed graphs *)

Definition graph_names (roles : RoleGraph) : list string := roles.*1.

(** [a] lists [b] as a dependency. *)
Definition dep (roles : RoleGraph) (a b : string) : Prop :=
  ∃ dependencies, (a, dependencies) ∈ roles ∧ b ∈ dependencies.

Definition acyclic (roles : RoleGraph) : Prop := ∀ name, ¬ tc (dep roles) name name.

Record graph_wf (roles : RoleGraph) (outputs : list string) : Prop := {
  wf_roles : roles ≠ [];
  wf_outputs : outputs ≠ [];
  wf_nonblank : Forall (λ name, trim name ≠ "") (graph_names roles);
  wf_unique : NoDup (graph_names roles);
  wf_dependencies : Forall (λ '(_, dependencies),
      Forall (λ d, d ∈ graph_names roles) dependencies ∧ NoDup dependencies) roles;
  wf_outputs_known : Forall (λ o, o ∈ graph_names roles) outputs;
  wf_outputs_unique : NoDup outputs;
  wf_acyclic : acyclic roles;
}.

(** *** The three scans *)

(** A scan that collects keys, rejecting bad elements and repeated keys. *)
Section collecting_scan.
Context {A E : Type} (key : A → string) (good : A → Prop).
Context (step : gset string → A → outcome E (gset string)).
Context (Hok : ∀ seen a, good a → key a ∉ seen → step seen a = Ok ({[key a]} ∪ seen)).
Context (Hko : ∀ seen a, ¬ good a ∨ key a ∈ seen → ∃ e, step seen a = Err e).
Context (Hdec : ∀ a, Decision (good a)).

Lemma scan_spec l seen :
  (ofold step seen l = Ok (list_to_set (key <$> l) ∪ seen) ∧
   Forall good l ∧ NoDup (key <$> l) ∧ Forall (λ a, key a ∉ seen) l) ∨
  ((∃ e, ofold step seen l = Err e) ∧
   ¬ (Forall good l ∧ NoDup (key <$> l) ∧ Forall (λ a, key a ∉ seen) l)).
Proof.
  revert seen. induction l as [|a l IH]; intros seen; simpl.
  { left. split; [f_equal; set_solver|]. repeat constructor. }
  destruct (decide (good a ∧ key a ∉ seen)) as [[Hg Hs]|Hn].
  - rewrite Hok by done. simpl.
    destruct (IH ({[key a]} ∪ seen)) as [(-> & Hgl & Hnd & Hseen)|[[e ->] Hnot]].
    + left. split; [f_equal; set_solver|]. rewrite !Forall_cons, NoDup_cons.
      rewrite list_elem_of_fmap. rewrite Forall_forall in Hseen.
      split_and!; try done; rewrite ?Forall_forall; set_solver.
    + right. split; [by eexists|]. rewrite !Forall_cons, NoDup_cons, list_elem_of_fmap.
      rewrite !Forall_forall in *. intros (? & [Hnin ?] & _ & ?). apply Hnot.
      split_and!; [naive_solver|done|]. intros b Hb. rewrite not_elem_of_union, not_elem_of_singleton.
      split; [|naive_solver]. intros Heq. apply Hnin. exists b. by rewrite Heq.
  - right. destruct (Hko seen a) as [e ->].
    { destruct (decide (good a)); [|by left]. right. destruct (decide (key a ∈ seen)); tauto. }
    split; [by exists e|]. rewrite !Forall_cons. tauto.
Qed.
End collecting_scan.

Lemma check_names_spec roles :
  (check_names roles = Ok (list_to_set (graph_names roles)) ∧
   Forall (λ name, trim name ≠ "") (graph_names roles) ∧ NoDup (graph_names roles)) ∨
  ((∃ e, check_names roles = Err e) ∧
   ¬ (Forall (λ name, trim name ≠ "") (graph_names roles) ∧ NoDup (graph_names roles))).
Proof.
  unfold check_names, graph_names. rewrite Forall_fmap.
  destruct (scan_spec (E:=string) (λ a : string * list string, a.1) (λ a, trim a.1 ≠ "")
    (λ names '(name, _),
      if bool_decide (trim name = "") then Err "role names cannot be empty"
      else if bool_decide (name ∈ names) then Err ("duplicate role " +:+ name)
      else Ok ({[name]} ∪ names))) with (l := roles) (seen := (∅ : gset string))
    as [(Hf & ? & ? & _)|[He Hn]].
  - intros seen [name ds] ??. simpl in *. by rewrite !bool_decide_false.
  - intros seen [name ds] [Hb|Hs]; simpl in *.
    + apply dec_stable in Hb. rewrite bool_decide_true by done. eauto.
    + case_bool_decide; [eauto|]. rewrite bool_decide_true by done. eauto.
  - apply _.
  - left. split_and!; [|done..]. rewrite Hf. f_equal. set_solver.
  - right. split; [done|]. intros [??]. apply Hn. split_and!; [done..|]. apply Forall_true. set_solver.
Qed.

Definition deps_ok (names : gset string) (dependencies : list string) : Prop :=
  Forall (λ d, d ∈ names) dependencies ∧ NoDup dependencies.

(** A scan of names that must be known and not repeated. *)
Lemma known_scan_spec (unknown repeated : string → string) (names : gset string) l :
  let scan := ofold (λ seen d,
      if negb (bool_decide (d ∈ names)) then Err (unknown d)
      else if bool_decide (d ∈ seen) then Err (repeated d)
      else Ok ({[d]} ∪ seen)) (∅ : gset string) l in
  ((∃ seen, scan = Ok seen) ∧ deps_ok names l) ∨ ((∃ e, scan = Err e) ∧ ¬ deps_ok names l).
Proof.
  unfold deps_ok.
  destruct (scan_spec (E:=string) (λ o : string, o) (λ o, o ∈ names)
    (λ seen d,
      if negb (bool_decide (d ∈ names)) then Err (unknown d)
      else if bool_decide (d ∈ seen) then Err (repeated d)
      else Ok ({[d]} ∪ seen))) with (l := l) (seen := (∅ : gset string))
    as [(Hf & ? & Hn & _)|[He Hn]].
  - intros seen o ??. by rewrite bool_decide_true, bool_decide_false.
  - intros seen o [Hb|Hs].
    + rewrite bool_decide_false by done. simpl. eauto.
    + case_bool_decide; simpl; [|eauto]. rewrite bool_decide_true by done. eauto.
  - apply _.
  - left. rewrite list_fmap_id in Hn. eauto.
  - right. split; [done|]. intros [??]. apply Hn. rewrite list_fmap_id.
    split_and!; [done..|]. apply Forall_true. set_solver.
Qed.

Lemma check_outputs_spec names outputs :
  ((∃ seen, check_outputs names outputs = Ok seen) ∧ deps_ok names outputs) ∨
  ((∃ e, check_outputs names outputs = Err e) ∧ ¬ deps_ok names outputs).
Proof.
  apply (known_scan_spec (λ output, "unknown output role " +:+ output)
           (λ output, "output role " +:+ output +:+ " is listed more than once")).
Qed.

Lemma check_dependencies_spec names roles :
  (check_dependencies names roles = Ok tt ∧ Forall (λ '(_, ds), deps_ok names ds) roles) ∨
  ((∃ e, check_dependencies names roles = Err e) ∧ ¬ Forall (λ '(_, ds), deps_ok names ds) roles).
Proof.
  unfold check_dependencies. induction roles as [|[name ds] roles IH]; simpl.
  { left. split; [done|constructor]. }
  rewrite !Forall_cons.
  destruct (known_scan_spec
    (λ d, "role " +:+ name +:+ " depends on unknown role " +:+ d)
    (λ d, "role " +:+ name +:+ " lists dependency " +:+ d +:+ " more than once") names ds) as [[[seen ->] ?]|[[e ->] ?]]; simpl.
  - destruct IH as [[-> ?]|[[e ->] ?]]; [left; done|right; split; [eauto|tauto]].
  - right. split; [eauto|tauto].
Qed.

(** *** The resolve loop *)

Lemma tc_first {A} (R : relation A) x y : tc R x y → ∃ z, R x z ∧ rtc R z y.
Proof. destruct 1 as [x y HR|x y z HR Ht]; [by exists y|]. exists y. split; [done|]. by apply tc_rtc. Qed.

Lemma tc_last {A} (R : relation A) x y : tc R x y → ∃ z, rtc R x z ∧ R z y.
Proof.
  induction 1 as [x y HR|x y z HR Ht (w & Hw & HwR)]; [by exists x|].
  exists w. split; [|done]. by apply rtc_l with y.
Qed.

Section resolve.
Context (roles : RoleGraph).

Lemma resolve_pass_mono l resolved : resolved ⊆ resolve_pass l resolved.
Proof.
  unfold resolve_pass. revert resolved. induction l as [|[name ds] l IH]; intros r; simpl; [done|].
  etrans; [|apply IH]. repeat case_match; set_solver.
Qed.

(** A role whose dependencies are resolved before the pass is resolved by it. *)
Lemma resolve_pass_takes l resolved name ds :
  (name, ds) ∈ l → Forall (λ d, d ∈ resolved) ds → name ∈ resolve_pass l resolved.
Proof.
  unfold resolve_pass. revert resolved. induction l as [|[n ds'] l IH]; intros r; simpl.
  { by intros ?%not_elem_of_nil. }
  intros [Heq|Hin]%elem_of_cons Hds.
  - simplify_eq. apply (resolve_pass_mono l). case_bool_decide; [done|].
    rewrite (proj2 (forallb_decide _ _)) by done. set_solver.
  - apply IH; [done|]. eapply Forall_impl; [exact Hds|]. intros d Hd. simpl.
    repeat case_match; set_solver.
Qed.

Hypothesis Hunique : NoDup (graph_names roles).
Hypothesis Hdeps : Forall (λ '(_, ds), deps_ok (list_to_set (graph_names roles)) ds) roles.

(** Every resolved name is a role's, and its dependency chains end. *)
Definition resolved_ok (resolved : gset string) : Prop :=
  ∀ name, name ∈ resolved → name ∈ graph_names roles ∧ sn (dep roles) name.

Lemma dep_unique name ds d : (name, ds) ∈ roles → dep roles name d → d ∈ ds.
Proof.
  intros Hin (ds' & Hin' & Hd). enough (ds' = ds) by congruence.
  apply list_elem_of_lookup in Hin as [i Hi], Hin' as [j Hj].
  enough (i = j) by congruence.
  eapply NoDup_lookup; [exact Hunique| |]; unfold graph_names; rewrite list_lookup_fmap.
  - by rewrite Hi.
  - by rewrite Hj.
Qed.

Lemma resolve_pass_ok resolved : resolved_ok resolved → resolved_ok (resolve_pass roles resolved).
Proof.
  unfold resolve_pass. cut (∀ l r, l ⊆ roles → resolved_ok r →
    resolved_ok (fold_left (λ resolved '(name, dependencies),
      if bool_decide (name ∈ resolved) then resolved
      else if forallb (λ dependency, bool_decide (dependency ∈ resolved)) dependencies
      then {[name]} ∪ resolved else resolved) l r)); [eauto|].
  clear resolved. induction l as [|[name ds] l IH]; intros r Hl Hr; simpl; [done|].
  apply IH; [set_solver|]. case_bool_decide; [done|]. case_match eqn:Hf; [|done].
  intros n [->%elem_of_singleton|]%elem_of_union; [|by apply Hr].
  assert (Hin : (name, ds) ∈ roles) by set_solver. split.
  - unfold graph_names. apply list_elem_of_fmap. by exists (name, ds).
  - constructor. intros d Hd%(dep_unique _ _ _ Hin). apply Hr.
    apply forallb_decide in Hf. rewrite Forall_forall in Hf. by apply Hf.
Qed.

(** An acyclic graph has, among its unresolved roles, one whose
    dependencies are all resolved. *)
Lemma acyclic_sn : acyclic roles → ∀ name, sn (dep roles) name.
Proof.
  intros Hac name. apply tc_finite_sn; [intros n; apply Hac|].
  exists (graph_names roles). intros d Hd. apply tc_last in Hd as (n & _ & ds & Hin & Hds).
  rewrite Forall_forall in Hdeps. destruct (Hdeps _ Hin) as [Hk _].
  rewrite Forall_forall in Hk. specialize (Hk _ Hds). set_solver.
Qed.

Lemma sn_acyclic : (∀ name, name ∈ graph_names roles → sn (dep roles) name) → acyclic roles.
Proof.
  intros Hsn name Hcycle.
  assert (Hacc : sn (dep roles) name).
  { apply Hsn. apply tc_first in Hcycle as (n & (ds & Hin & _) & _).
    unfold graph_names. apply list_elem_of_fmap. by exists (name, ds). }
  induction Hacc as [name _ IH]. apply tc_first in Hcycle as (n & Hn & Hrtc).
  apply (IH n Hn). apply (tc_rtc_l _ name); [done|by apply tc_once].
Qed.

Lemma unresolved_minimal (resolved : gset string) name :
  sn (dep roles) name → name ∈ graph_names roles → name ∉ resolved →
  ∃ n ds, (n, ds) ∈ roles ∧ (n ∉ resolved) ∧ Forall (λ d, d ∈ resolved) ds.
Proof.
  induction 1 as [name _ IH]. intros Hname Hres.
  unfold graph_names in Hname. apply list_elem_of_fmap in Hname as ([n ds] & -> & Hin).
  destruct (decide (Forall (λ d, d ∈ resolved) ds)) as [?|Hnot]; [by exists n, ds|].
  apply not_Forall_Exists in Hnot; [|apply _]. apply Exists_exists in Hnot as (d & Hd & Hdr).
  apply (IH d); [by exists ds| |done].
  rewrite Forall_forall in Hdeps. destruct (Hdeps _ Hin) as [Hk _].
  rewrite Forall_forall in Hk. specialize (Hk _ Hd). set_solver.
Qed.

Lemma resolved_ok_size resolved :
  resolved_ok resolved → ((size resolved ≤ length roles)%nat) ∧
  (size resolved = length roles ↔ Forall (λ name, name ∈ resolved) (graph_names roles)).
Proof.
  intros Hok.
  assert (Hlen : size (list_to_set (graph_names roles) : gset string) = length roles).
  { rewrite size_list_to_set by done. unfold graph_names. by rewrite length_fmap. }
  assert (Hsub : resolved ⊆ list_to_set (graph_names roles)).
  { intros n [Hn _]%Hok. set_solver. }
  split; [rewrite <- Hlen; by apply subseteq_size|]. rewrite Forall_forall. split.
  - intros Heq. assert (resolved = list_to_set (graph_names roles)) as ->.
    { apply set_subseteq_size_eq; [done|lia]. }
    intros n. by rewrite elem_of_list_to_set.
  - intros Hall. rewrite <- Hlen. f_equal. set_solver.
Qed.

(** The loop ends in at most one pass more than there are roles left, and
    accepts exactly the acyclic graphs. *)
Lemma resolve_loop_spec fuel resolved :
  resolved_ok resolved → (length roles - size resolved < fuel)%nat →
  (resolve_loop fuel roles resolved = Ok tt ∧ acyclic roles) ∨
  (resolve_loop fuel roles resolved = Err "role dependency graph contains a cycle" ∧
   ¬ acyclic roles).
Proof.
  revert resolved. induction fuel as [|fuel IH]; intros resolved Hok Hfuel; [lia|]. simpl.
  pose proof (resolve_pass_ok _ Hok) as Hok'. pose proof (resolve_pass_mono roles resolved) as Hmono.
  destruct (resolved_ok_size _ Hok') as [Hle Hall].
  destruct (Nat.eqb_spec (size (resolve_pass roles resolved)) (length roles)) as [Heq|Hne].
  { left. split; [done|]. apply sn_acyclic. intros n Hn.
    apply Hall in Heq. rewrite Forall_forall in Heq. by apply Hok', Heq. }
  destruct (Nat.eqb_spec (size (resolve_pass roles resolved)) (size resolved)) as [Hsame|Hgrew].
  - right. split; [done|]. intros Hac. apply Hne.
    assert (resolve_pass roles resolved = resolved) as Hfix.
    { symmetry. apply set_subseteq_size_eq; [done|lia]. }
    rewrite Hfix in *. apply Hall, Forall_forall. intros n Hn.
    destruct (decide (n ∈ resolved)) as [|Hnot]; [done|].
    destruct (unresolved_minimal resolved n (acyclic_sn Hac n) Hn Hnot) as (m & ds & Hin & Hm & Hds).
    exfalso. apply Hm. rewrite <- Hfix. by eapply resolve_pass_takes.
  - apply IH; [done|]. apply subseteq_size in Hmono. lia.
Qed.
End resolve.

Lemma deps_ok_names roles ds :
  deps_ok (list_to_set (graph_names roles)) ds ↔
  Forall (λ d, d ∈ graph_names roles) ds ∧ NoDup ds.
Proof. unfold deps_ok. by setoid_rewrite elem_of_list_to_set. Qed.

(** Every answer of [validate_role_graph]. *)
Lemma validate_role_graph_spec roles outputs :
  (validate_role_graph roles outputs = Ok tt ∧ graph_wf roles outputs) ∨
  ((∃ e, validate_role_graph roles outputs = Err e) ∧ ¬ graph_wf roles outputs).
Proof.
  unfold validate_role_graph. destruct roles as [|r rs] eqn:Er; [right; split; [eauto|by intros []]|].
  rewrite <- Er. assert (Hne : roles ≠ []) by (by subst). clear r rs Er.
  destruct outputs as [|o os] eqn:Eo; [right; split; [eauto|by intros []]|].
  rewrite <- Eo. assert (Hno : outputs ≠ []) by (by subst). clear o os Eo.
  destruct (check_names_spec roles) as [(-> & Hblank & Hunique)|[[e ->] Hn]]; simpl;
    [|right; split; [eauto|]; intros []; tauto].
  assert (Hds : Forall (λ '(_, ds), Forall (λ d, d ∈ graph_names roles) ds ∧ NoDup ds) roles ↔
    Forall (λ '(_, ds), deps_ok (list_to_set (graph_names roles)) ds) roles).
  { apply Forall_iff. intros [n ds]. by rewrite deps_ok_names. }
  destruct (check_dependencies_spec (list_to_set (graph_names roles)) roles) as [[-> Hd]|[[e ->] Hd]];
    simpl; [|right; split; [eauto|]; intros []; tauto].
  destruct (check_outputs_spec (list_to_set (graph_names roles)) outputs) as [[[? ->] Ho]|[[e ->] Ho]];
    rewrite deps_ok_names in Ho; simpl; [|right; split; [eauto|]; intros []; tauto].
  destruct (resolve_loop_spec roles Hunique Hd (S (length roles)) ∅) as [[Hl Hac]|[Hl Hac]];
    [set_solver|lia| |]; simpl in Hl; rewrite Hl.
  - left. split; [done|]. split; tauto.
  - right. split; [eauto|]. intros []. tauto.
Qed.

(** C21 The validator of role graphs decides well-formedness, for cooperative
    and logical jobs alike: it accepts a graph exactly when there is a role and
    an output, the names are distinct and not blank, dependencies and outputs
    are known names listed once, and no role depends on itself through others.
    It always answers: the resolve loop needs at most one pass more than there
    are roles. *)
Theorem validate_role_graph_correct roles outputs :
  (validate_role_graph roles outputs = Ok tt ↔ graph_wf roles outputs) ∧
  fault_free (validate_role_graph roles outputs).
Proof.
  destruct (validate_role_graph_spec roles outputs) as [[-> ?]|[[e ->] ?]]; [done|].
  split; [|done]. by split.
Qed.
