(* ===== verification/Partition.v ===== *)
(** * crates/plurifold-runtime/src/planner.rs: partitioning a role's input

    How an auto-sharded role is cut: [partition_bounds] cuts [0, total) into
    [count] ranges, [concrete_partition] turns a partition policy into the
    byte or record range of one child. *)

From S2P Require Import Prelude Float64 World Core Scheduler Samples.

(** [partition_bounds]: [u128] products, casts back to [u64]; [index + 1] is
    [u32]; dividing by [count = 0] panics. *)
Definition partition_bounds (total index count : Z) : optional (Z * Z) :=
  if count =? 0 then Panic
  else
    let start := wrap64 (total * index / count) in
    let end_ := wrap64 (total * wrap32 (index + 1) / count) in
    Ok (start, wrap64 (end_ - start)).

(** [slice.windows(2).all(|pair| pair[0] < pair[1])] *)
Fixpoint strictly_increasing (l : list Z) : bool :=
  match l with
  | a :: (b :: _) as l' => (a <? b) && strictly_increasing l'
  | _ => true
  end.

Definition valid_record_offsets (offsets : list Z) (total_bytes : Z) : bool :=
  (2 <=? length offsets)%nat
  && bool_decide (head offsets = Some 0)
  && bool_decide (list.last offsets = Some total_bytes)
  && strictly_increasing offsets.

(** [partition_units]: how many shards can be non-empty. *)
Definition partition_units (role : LogicalRoleSpec) (partition : ShardPartitionSpec)
    (objects : Objects) : option Z :=
  implementation ← head (lr_implementations role);
  object_id ← tt_inputs (ri_task implementation) !! partition_spec_input partition;
  object ← objects !! object_id;
  match partition with
  | SpecByteRange _ => Some (om_size_bytes object)
  | SpecRecords _ offsets =>
      if valid_record_offsets offsets (om_size_bytes object)
      then Some (Z.of_nat (length offsets) - 1) else None
  end.

(** [concrete_partition]; [usize] is 64 bits, so [usize::try_from] succeeds. *)
Definition concrete_partition (template : TaskTemplate) (partition : ShardPartitionSpec)
    (index count : Z) (objects : Objects) : optional TaskShardPartition :=
  match partition with
  | SpecByteRange input =>
      let? object_id := ok_or tt (tt_inputs template !! input) in
      let? object := ok_or tt (objects !! object_id) in
      let total_bytes := om_size_bytes object in
      let? '(offset, length) := partition_bounds total_bytes index count in
      Ok (ByteRange input offset length total_bytes)
  | SpecRecords input offsets =>
      let? object_id := ok_or tt (tt_inputs template !! input) in
      let? object := ok_or tt (objects !! object_id) in
      let total_bytes := om_size_bytes object in
      if negb (valid_record_offsets offsets total_bytes) then Err tt
      else
        let total_records := Z.of_nat (length offsets) - 1 in
        let? '(record_start, record_count) := partition_bounds total_records index count in
        let? last := ok_or tt (checked_add64 record_start record_count) in
        let? offset := ok_or tt (offsets !! Z.to_nat record_start) in
        let? end_ := ok_or tt (offsets !! Z.to_nat last) in
        let? length := ok_or tt (checked_sub end_ offset) in
        Ok (Records input record_start record_count total_records offset length total_bytes)
  end.

(** [scale_auto_shard_cost]: the cost hint of one child. *)
Definition scale_auto_shard_cost (cost : CostHint) (partition : TaskShardPartition)
    (policy : AutoShardPolicy) : CostHint :=
  mkCostHint
    (compute_ms_on_reference cost * work_fraction partition + ap_per_shard_overhead_ms policy)
    (scaled_output_bytes partition (output_bytes cost)).

Definition with_cost (task : TaskSpec) (cost : CostHint) : TaskSpec :=
  mkTaskSpec (ts_id task) (ts_artifact task) (ts_entrypoint task) (ts_arguments task)
    (ts_inputs task) (ts_requirements task) (ts_effects task) cost (ts_shard task)
    (ts_pipeline task).
Definition with_shard (task : TaskSpec) (shard : TaskShard) : TaskSpec :=
  mkTaskSpec (ts_id task) (ts_artifact task) (ts_entrypoint task) (ts_arguments task)
    (ts_inputs task) (ts_requirements task) (ts_effects task) (ts_cost task) (Some shard)
    (ts_pipeline task).

(** [instantiate_shard_task] *)
Definition instantiate_shard_task (template : TaskTemplate) (dependency_inputs : list ObjectId)
    (index count : Z) (auto : option AutoShardPolicy) (objects : Objects) :
    comp World unit TaskSpec :=
  let* task := instantiate template dependency_inputs in
  match auto with
  | Some policy =>
      let* partition := lift (concrete_partition template (ap_partition policy) index count objects) in
      let task := with_cost task (scale_auto_shard_cost (ts_cost task) partition policy) in
      ret (with_shard task (mkTaskShard index count (Some partition)))
  | None => ret (with_shard task (mkTaskShard index count None))
  end.

(** ** Cutting an interval

    [tiles lo hi ranges]: the ranges (start, length) follow each other without
    gap or overlap from [lo] to [hi]. *)
Fixpoint tiles (lo hi : Z) (ranges : list (Z * Z)) : Prop :=
  match ranges with
  | [] => lo = hi
  | (start, len) :: ranges' => start = lo ∧ 0 ≤ len ∧ tiles (lo + len) hi ranges'
  end.

(** The range between two successive cut points. *)
Definition cut_range (cut : Z → Z) (index : Z) : Z * Z := (cut index, cut (index + 1) - cut index).

Definition sum_Z (l : list Z) : Z := foldr Z.add 0 l.

(** The range of bytes and, for records, of records a partition denotes. *)
Definition byte_range (partition : TaskShardPartition) : Z * Z :=
  match partition with
  | ByteRange _ offset len _ | Records _ _ _ _ offset len _ => (offset, len)
  end.
Definition unit_range (partition : TaskShardPartition) : Z * Z :=
  match partition with
  | ByteRange _ offset len _ => (offset, len)
  | Records _ record_start record_count _ _ _ _ => (record_start, record_count)
  end.
Definition partition_total (partition : TaskShardPartition) : Z :=
  match partition with
  | ByteRange _ _ _ total_bytes => total_bytes
  | Records _ _ _ total_records _ _ _ => total_records
  end.

(** Where shard [index] of [count] starts in [total] units. *)
Definition cut_point (total count index : Z) : Z := total * index / count.

Section cuts.
Context (cut : Z → Z).

Lemma tiles_cuts (n : nat) lo :
  (∀ i, lo ≤ i < lo + Z.of_nat n → cut i ≤ cut (i + 1)) →
  tiles (cut lo) (cut (lo + Z.of_nat n)) (cut_range cut <$> seqZ lo (Z.of_nat n)).
Proof.
  revert lo. induction n as [|n IH]; intros lo Hmono.
  - simpl. by rewrite Z.add_0_r.
  - rewrite seqZ_cons by lia. simpl. split; [done|]. split; [specialize (Hmono lo); lia|].
    replace (cut lo + (cut (lo + 1) - cut lo)) with (cut (Z.succ lo)) by (unfold Z.succ; lia).
    replace (lo + Z.of_nat (S n)) with (Z.succ lo + Z.of_nat n) by lia.
    replace (Z.pred (Z.of_nat (S n))) with (Z.of_nat n) by lia.
    apply IH. intros i Hi. apply Hmono. lia.
Qed.

Lemma sum_cuts (n : nat) lo :
  sum_Z ((λ i, cut (i + 1) - cut i) <$> seqZ lo (Z.of_nat n)) = cut (lo + Z.of_nat n) - cut lo.
Proof.
  revert lo. induction n as [|n IH]; intros lo.
  - simpl. rewrite Z.add_0_r. lia.
  - rewrite seqZ_cons by lia. simpl.
    replace (Z.pred (Z.of_nat (S n))) with (Z.of_nat n) by lia. rewrite IH.
    replace (Z.succ lo + Z.of_nat n) with (lo + Z.of_nat (S n)) by lia.
    unfold Z.succ. lia.
Qed.
End cuts.

Section cut_points.
Context (total count : Z) (Htotal : is_u64 total) (Hcount : 0 < count ≤ u32_max).

Lemma cut_point_0 : cut_point total count 0 = 0.
Proof. unfold cut_point. by rewrite Z.mul_0_r, Z.div_0_l by lia. Qed.
Lemma cut_point_count : cut_point total count count = total.
Proof. unfold cut_point. apply Z.div_mul. lia. Qed.
Lemma cut_point_mono i j : i ≤ j → cut_point total count i ≤ cut_point total count j.
Proof. intros. destruct Htotal. unfold cut_point. apply Z.div_le_mono; nia. Qed.
Lemma cut_point_bounds i : 0 ≤ i ≤ count → 0 ≤ cut_point total count i ≤ total.
Proof.
  intros [??]. pose proof (cut_point_mono 0 i). pose proof (cut_point_mono i count).
  rewrite cut_point_0, cut_point_count in *. lia.
Qed.
Lemma cut_point_step i : count ≤ total → cut_point total count i < cut_point total count (i + 1).
Proof.
  intros. destruct Htotal. unfold cut_point.
  replace (total * (i + 1)) with (total * i + total) by lia.
  assert (total * i / count + 1 ≤ (total * i + total) / count); [|lia].
  rewrite <- Z.div_add by lia. apply Z.div_le_mono; lia.
Qed.
(** Ranges differ in length by at most one. *)
Lemma cut_point_balanced i :
  total / count ≤ cut_point total count (i + 1) - cut_point total count i ≤ total / count + 1.
Proof.
  destruct Htotal. unfold cut_point. replace (total * (i + 1)) with (total * i + total) by lia.
  pose proof (Z.div_mod (total * i) count). pose proof (Z.mod_pos_bound (total * i) count).
  pose proof (Z.div_mod total count). pose proof (Z.mod_pos_bound total count).
  pose proof (Z.div_mod (total * i + total) count).
  pose proof (Z.mod_pos_bound (total * i + total) count). nia.
Qed.

Lemma partition_bounds_cuts i : 0 ≤ i < count →
  partition_bounds total i count = Ok (cut_range (cut_point total count) i).
Proof.
  intros Hi. unfold partition_bounds, cut_range.
  rewrite (proj2 (Z.eqb_neq count 0)) by lia.
  rewrite (wrap32_small (i + 1)) by (unfold is_u32; lia).
  pose proof (cut_point_bounds i ltac:(lia)). pose proof (cut_point_bounds (i + 1) ltac:(lia)).
  pose proof (cut_point_mono i (i + 1) ltac:(lia)). destruct Htotal.
  unfold cut_point in *. rewrite !wrap64_small; unfold is_u64; try lia; [done|].
  rewrite ?wrap64_small; unfold is_u64; lia.
Qed.
End cut_points.

(** ** What [concrete_partition] returns *)

(** The template's partition input is published and can be cut into [units]
    pieces, of which piece [i] starts at byte [unit_offset partition i]. *)
Definition splittable (template : TaskTemplate) (partition : ShardPartitionSpec)
    (objects : Objects) (object : ObjectMetadata) (units : Z) : Prop :=
  ∃ object_id,
    tt_inputs template !! partition_spec_input partition = Some object_id ∧
    objects !! object_id = Some object ∧
    is_u64 (om_size_bytes object) ∧ is_u64 units ∧
    match partition with
    | SpecByteRange _ => units = om_size_bytes object
    | SpecRecords _ offsets =>
        valid_record_offsets offsets (om_size_bytes object) = true ∧
        units = Z.of_nat (length offsets) - 1
    end.

Definition unit_offset (partition : ShardPartitionSpec) (unit_index : Z) : Z :=
  match partition with
  | SpecByteRange _ => unit_index
  | SpecRecords _ offsets => default 0 (offsets !! Z.to_nat unit_index)
  end.

Definition partition_input (partition : TaskShardPartition) : nat :=
  match partition with ByteRange input _ _ _ | Records input _ _ _ _ _ _ => input end.
Definition partition_bytes (partition : TaskShardPartition) : Z :=
  match partition with ByteRange _ _ _ total | Records _ _ _ _ _ _ total => total end.

Lemma strictly_increasing_lookup l i j a b :
  strictly_increasing l = true → l !! i = Some a → l !! j = Some b → (i < j)%nat → a < b.
Proof.
  revert i j a. induction l as [|x l IH]; intros i j a Hl Hi Hj Hij; [done|].
  destruct j as [|j]; [lia|]. simpl in Hj.
  destruct l as [|y l]; [done|].
  simpl in Hl. apply andb_prop in Hl as [Hxy Hl]. apply Z.ltb_lt in Hxy.
  destruct i as [|i]; simpl in Hi; simplify_eq.
  - destruct j as [|j]; simpl in Hj; simplify_eq; [done|].
    trans y; [done|]. eapply (IH 0%nat (S j)); simpl; eauto. lia.
  - eapply (IH i j); eauto. lia.
Qed.

Lemma valid_record_offsets_spec offsets total :
  valid_record_offsets offsets total = true ↔
  (2 <= length offsets)%nat ∧ offsets !! 0%nat = Some 0 ∧
  offsets !! (length offsets - 1)%nat = Some total ∧ strictly_increasing offsets = true.
Proof.
  unfold valid_record_offsets. rewrite !andb_true_iff, !bool_decide_eq_true, Nat.leb_le.
  rewrite head_lookup, last_lookup, Nat.sub_1_r. tauto.
Qed.

Section record_offsets.
Context offsets total (Hvalid : valid_record_offsets offsets total = true).
Let units := Z.of_nat (length offsets) - 1.
Let start i := unit_offset (SpecRecords 0 offsets) i.

Lemma unit_offset_lookup i : 0 ≤ i ≤ units → offsets !! Z.to_nat i = Some (start i).
Proof.
  intros Hi. unfold start, unit_offset.
  destruct (offsets !! Z.to_nat i) eqn:E; [done|].
  apply lookup_ge_None in E. lia.
Qed.
Lemma unit_offset_lt i j : 0 ≤ i → i < j ≤ units → start i < start j.
Proof.
  intros Hi Hj. destruct (proj1 (valid_record_offsets_spec _ _) Hvalid) as (_ & _ & _ & Hinc).
  eapply strictly_increasing_lookup; [done|apply unit_offset_lookup; lia..|lia].
Qed.
Lemma unit_offset_mono i j : 0 ≤ i → i ≤ j ≤ units → start i ≤ start j.
Proof.
  intros Hi Hj. destruct (decide (i = j)) as [->|]; [lia|].
  apply Z.lt_le_incl, unit_offset_lt; lia.
Qed.
Lemma unit_offset_ends : start 0 = 0 ∧ start units = total.
Proof.
  destruct (proj1 (valid_record_offsets_spec _ _) Hvalid) as (? & H0 & Hn & _).
  pose proof (unit_offset_lookup 0 ltac:(lia)) as E0.
  pose proof (unit_offset_lookup units ltac:(lia)) as En.
  unfold units in *. replace (Z.to_nat (Z.of_nat (length offsets) - 1))
    with (length offsets - 1)%nat in En by lia.
  change (Z.to_nat 0) with 0%nat in E0. rewrite H0 in E0. rewrite Hn in En.
  split; [by injection E0|by injection En].
Qed.
End record_offsets.

Section concrete_partitions.
Context (template : TaskTemplate) (partition : ShardPartitionSpec) (objects : Objects)
  (object : ObjectMetadata) (units count : Z)
  (Hsplit : splittable template partition objects object units)
  (Hcount : 0 < count ≤ u32_max).
Let unit_cut := cut_point units count.
Let byte_cut i := unit_offset partition (unit_cut i).

Lemma splittable_units : is_u64 units.
Proof. by destruct Hsplit as (? & ? & ? & ? & ? & ?). Qed.

Lemma byte_cut_mono i : 0 ≤ i < count → byte_cut i ≤ byte_cut (i + 1).
Proof.
  intros Hi. unfold byte_cut, unit_cut. pose proof splittable_units as Hu.
  pose proof (cut_point_mono units count Hu Hcount i (i + 1)).
  pose proof (cut_point_bounds units count Hu Hcount i).
  pose proof (cut_point_bounds units count Hu Hcount (i + 1)).
  destruct Hsplit as (? & _ & _ & _ & _ & Hp).
  destruct partition as [|n offsets]; simpl; [lia|].
  destruct Hp as [Hv ->]. apply (unit_offset_mono _ _ Hv); lia.
Qed.

(** Child [i] gets the units between its two cut points, and their bytes. *)
Lemma concrete_partition_cuts i : 0 ≤ i < count →
  ∃ p, concrete_partition template partition i count objects = Ok p ∧
    unit_range p = cut_range unit_cut i ∧ byte_range p = cut_range byte_cut i ∧
    partition_total p = units ∧ partition_input p = partition_spec_input partition ∧
    partition_bytes p = om_size_bytes object.
Proof.
  intros Hi. pose proof splittable_units as Hu. pose proof (byte_cut_mono i Hi) as Hb.
  pose proof (cut_point_bounds units count Hu Hcount i ltac:(lia)) as Hc.
  pose proof (cut_point_bounds units count Hu Hcount (i + 1) ltac:(lia)) as Hc'.
  pose proof (partition_bounds_cuts units count Hu Hcount i Hi) as Hbounds.
  destruct Hsplit as (oid & Hin & Hobj & Hsize & _ & Hp). unfold byte_cut, unit_cut in *.
  destruct partition as [n|n offsets]; simpl in *; rewrite Hin; simpl; rewrite Hobj; simpl.
  - rewrite <- Hp, Hbounds. simpl. eexists; split; [done|]. done.
  - destruct Hp as [Hv Hunits]. rewrite Hv. simpl. rewrite <- Hunits, Hbounds. simpl.
    unfold checked_add64. rewrite (proj2 (Z.leb_le _ _)) by (destruct Hu; lia). simpl.
    pose proof (unit_offset_lookup offsets (cut_point units count i) ltac:(lia)) as ->.
    replace (cut_point units count i + (cut_point units count (i + 1) - cut_point units count i))
      with (cut_point units count (i + 1)) by lia.
    pose proof (unit_offset_lookup offsets (cut_point units count (i + 1)) ltac:(lia)) as ->. simpl.
    unfold checked_sub. rewrite (proj2 (Z.leb_le _ _)) by lia. simpl.
    eexists; split; [done|]. done.
Qed.

Lemma byte_cut_lt i : 0 ≤ i < count → count ≤ units → byte_cut i < byte_cut (i + 1).
Proof.
  intros Hi Hle. unfold byte_cut, unit_cut. pose proof splittable_units as Hu.
  pose proof (cut_point_step units count Hu Hcount i Hle).
  pose proof (cut_point_bounds units count Hu Hcount i).
  pose proof (cut_point_bounds units count Hu Hcount (i + 1)).
  destruct Hsplit as (? & _ & _ & _ & _ & Hp).
  destruct partition as [|n offsets]; simpl; [lia|].
  destruct Hp as [Hv ->]. apply (unit_offset_lt _ _ Hv); lia.
Qed.

Lemma byte_cut_bounds i : 0 ≤ i ≤ count → 0 ≤ byte_cut i ≤ om_size_bytes object.
Proof.
  intros Hi. unfold byte_cut, unit_cut. pose proof splittable_units as Hu.
  pose proof (cut_point_bounds units count Hu Hcount i Hi).
  destruct Hsplit as (? & _ & _ & _ & _ & Hp).
  destruct partition as [|n offsets]; simpl; [lia|].
  destruct Hp as [Hv Hunits]. destruct (unit_offset_ends _ _ Hv) as [H0 Hn].
  pose proof (unit_offset_mono _ _ Hv 0 (cut_point units count i) ltac:(lia) ltac:(lia)).
  pose proof (unit_offset_mono _ _ Hv (cut_point units count i) (Z.of_nat (length offsets) - 1)
    ltac:(lia) ltac:(lia)).
  simpl in *. lia.
Qed.

Lemma byte_cut_ends : byte_cut 0 = 0 ∧ byte_cut count = om_size_bytes object.
Proof.
  unfold byte_cut, unit_cut. rewrite cut_point_0, cut_point_count by done.
  destruct Hsplit as (? & _ & _ & _ & _ & Hp).
  destruct partition as [|n offsets]; simpl; [done|].
  destruct Hp as [Hv ->]. apply (unit_offset_ends _ _ Hv).
Qed.

(** What the partition of child [i] is. *)
Definition is_child (i : Z) (p : TaskShardPartition) : Prop :=
  concrete_partition template partition i count objects = Ok p ∧
  unit_range p = cut_range (cut_point units count) i ∧
  byte_range p = cut_range (λ i, unit_offset partition (cut_point units count i)) i ∧
  partition_total p = units ∧ partition_input p = partition_spec_input partition ∧
  partition_bytes p = om_size_bytes object.

Lemma children_exist : ∃ ps, Forall2 is_child (seqZ 0 count) ps.
Proof.
  apply Forall2_choose. intros i Hi%elem_of_seqZ. apply concrete_partition_cuts. lia.
Qed.
End concrete_partitions.

Lemma tiles_seqZ cut count lo hi :
  cut 0 = lo → cut count = hi → 0 ≤ count → (∀ i, 0 ≤ i < count → cut i ≤ cut (i + 1)) →
  tiles lo hi (cut_range cut <$> seqZ 0 count).
Proof.
  intros <- <- Hc Hmono. pose proof (tiles_cuts cut (Z.to_nat count) 0) as Ht.
  rewrite Z2Nat.id, Z.add_0_l in Ht by done. by apply Ht.
Qed.

(** ** Properties of a split *)

Lemma scaled_output_of_cut p total count i output :
  is_u64 total → 0 < total → 0 < count ≤ u32_max → 0 ≤ i < count → is_u64 output →
  partition_total p = total → unit_range p = cut_range (cut_point total count) i →
  scaled_output_bytes p output =
    (cut_range (λ j, output * cut_point total count j / total) i).2.
Proof.
  intros Hu Hpos Hcount Hi Hout Ht Hr.
  pose proof (cut_point_bounds total count Hu Hcount i ltac:(lia)) as Hc.
  pose proof (cut_point_bounds total count Hu Hcount (i + 1) ltac:(lia)) as Hc'.
  pose proof (cut_point_mono total count Hu Hcount i (i + 1) ltac:(lia)) as Hm.
  assert (Hscaled : scaled_output_bytes p output =
    wrap64 (output * wrap64 ((unit_range p).1 + (unit_range p).2) / total
            - output * (unit_range p).1 / total)).
  { unfold scaled_output_bytes. destruct p; simpl in *; subst;
      (rewrite (proj2 (Z.eqb_neq _ 0)) by lia; done). }
  rewrite Hscaled, Hr. unfold cut_range. simpl.
  replace (cut_point total count i + (cut_point total count (i + 1) - cut_point total count i))
    with (cut_point total count (i + 1)) by lia.
  destruct Hu as [_ Hu], Hout as [Ho Ho'].
  rewrite (wrap64_small (cut_point total count (i + 1))) by (unfold is_u64; lia).
  assert (0 ≤ output * cut_point total count i / total
          ≤ output * cut_point total count (i + 1) / total).
  { split; [apply Z.div_pos; nia|apply Z.div_le_mono; nia]. }
  assert (output * cut_point total count (i + 1) / total ≤ output).
  { apply Z.div_le_upper_bound; nia. }
  apply wrap64_small. unfold is_u64. lia.
Qed.

(** C24 The children of an auto-sharded role cut its input exactly: for every
    policy and every child count that fits [u32], each child gets a concrete
    partition, the unit ranges (bytes, or records) tile [0, units) and the byte
    ranges tile the object, so no byte is processed twice or dropped; lengths
    differ by at most one unit; and when there are at most as many children as
    units no child is empty, in units or in bytes. *)
Theorem shards_tile_input template partition objects object units count
    (Hsplit : splittable template partition objects object units)
    (Hcount : 0 < count ≤ u32_max) :
  ∃ ps, Forall2 (λ i p, concrete_partition template partition i count objects = Ok p)
          (seqZ 0 count) ps ∧
    tiles 0 units (unit_range <$> ps) ∧
    tiles 0 (om_size_bytes object) (byte_range <$> ps) ∧
    Forall (λ p, units / count ≤ (unit_range p).2 ≤ units / count + 1) ps ∧
    (count ≤ units → Forall (λ p, 0 < (unit_range p).2 ∧ 0 < (byte_range p).2) ps).
Proof.
  pose proof (splittable_units _ _ _ _ _ Hsplit) as Hu.
  destruct (byte_cut_ends _ _ _ _ _ _ Hsplit Hcount) as [H0 Hn].
  destruct (children_exist _ _ _ _ _ _ Hsplit Hcount) as [ps Hps]. exists ps. split_and!.
  - eapply Forall2_impl; [exact Hps|]. by intros ?? [? _].
  - rewrite (Forall2_fmap_eq _ (cut_range (cut_point units count)) (seqZ 0 count)).
    + apply tiles_seqZ; [by apply cut_point_0|by apply cut_point_count|lia|].
      intros. apply cut_point_mono; [done..|lia].
    + eapply Forall2_impl; [exact Hps|]. by intros ?? (_ & ? & _).
  - rewrite (Forall2_fmap_eq _ (cut_range (λ i, unit_offset partition (cut_point units count i)))
      (seqZ 0 count)).
    + apply tiles_seqZ; [done..|lia|]. intros. by eapply byte_cut_mono.
    + eapply Forall2_impl; [exact Hps|]. by intros ?? (_ & _ & ? & _).
  - eapply Forall2_Forall_r_of; [exact Hps|]. intros i p _ (_ & -> & _). by apply cut_point_balanced.
  - intros Hle. eapply Forall2_Forall_r_of; [exact Hps|].
    intros i p Hi%elem_of_seqZ (_ & -> & -> & _). unfold cut_range. cbn [snd].
    pose proof (cut_point_step units count Hu Hcount i Hle).
    split; [lia|]. apply Z.lt_0_sub, (byte_cut_lt _ _ _ _ _ _ Hsplit Hcount i); lia.
Qed.

(** Splitting conserves the predicted output: whatever the size hint of the
    role, the hints of its children ([scaled_output_bytes], computed in [u128]
    and cast back) add up to it exactly, no rounding loss accumulating. *)
Theorem shard_outputs_conserved template partition objects object units count output ps
    (Hsplit : splittable template partition objects object units)
    (Hunits : 0 < units) (Hcount : 0 < count ≤ u32_max) (Houtput : is_u64 output)
    (Hps : Forall2 (λ i p, concrete_partition template partition i count objects = Ok p)
             (seqZ 0 count) ps) :
  sum_Z ((λ p, scaled_output_bytes p output) <$> ps) = output.
Proof.
  pose proof (splittable_units _ _ _ _ _ Hsplit) as Hu.
  rewrite (Forall2_fmap_eq _ (λ i, (cut_range (λ j, output * cut_point units count j / units) i).2)
             (seqZ 0 count)).
  - pose proof (sum_cuts (λ j, output * cut_point units count j / units) (Z.to_nat count) 0) as Hs.
    rewrite Z2Nat.id, Z.add_0_l in Hs by lia. unfold cut_range. cbn [snd]. rewrite Hs.
    rewrite cut_point_0, cut_point_count, Z.mul_0_r, Z.div_0_l, Z.div_mul by (done || lia). lia.
  - apply Forall2_same_length_lookup. split; [by eapply Forall2_length|].
    intros k i p Hi Hp. pose proof (Forall2_lookup_lr _ _ _ _ _ _ Hps Hi Hp) as Hip.
    apply list_elem_of_lookup_2, elem_of_seqZ in Hi.
    destruct (concrete_partition_cuts _ _ _ _ _ _ Hsplit Hcount i ltac:(lia))
      as (p' & Hp' & Hr & _ & Ht & _). assert (p' = p) as -> by congruence.
    apply scaled_output_of_cut; auto with lia.
Qed.

(** The record offsets {0, 2, 8, 9, 12} of a 12-byte object, cut in two. *)
Lemma sample_splittable :
  splittable Samples.one_input (SpecRecords 0 [0; 2; 8; 9; 12]) (Samples.one_object 12)
    (Samples.object (Samples.object_id 1) 12 [Samples.resource_id 1]) 4.
Proof.
  exists (Samples.object_id 1). split_and!; try done; unfold is_u64, u64_max; simpl; lia.
Qed.

Lemma shards_tile_input_witness :
  ∃ ps, Forall2 (λ i p, concrete_partition Samples.one_input (SpecRecords 0 [0; 2; 8; 9; 12]) i 2
                          (Samples.one_object 12) = Ok p) (seqZ 0 2) ps ∧
    tiles 0 4 (unit_range <$> ps) ∧ tiles 0 12 (byte_range <$> ps) ∧
    Forall (λ p, 4 / 2 ≤ (unit_range p).2 ≤ 4 / 2 + 1) ps ∧
    (2 ≤ 4 → Forall (λ p, 0 < (unit_range p).2 ∧ 0 < (byte_range p).2) ps).
Proof.
  apply (shards_tile_input _ _ _ _ _ _ sample_splittable). unfold u32_max. lia.
Defined.

Lemma shard_outputs_conserved_witness :
  sum_Z ((λ p, scaled_output_bytes p 500) <$>
    [Records 0 0 2 4 0 8 12; Records 0 2 2 4 8 4 12]) = 500.
Proof.
  apply (shard_outputs_conserved Samples.one_input (SpecRecords 0 [0; 2; 8; 9; 12])
           (Samples.one_object 12) _ 4 2 500 _ sample_splittable);
    unfold is_u64, u64_max, u32_max; try lia.
  repeat constructor; vm_compute; reflexivity.
Defined.
