(* ===== verification/Placement.v ===== *)
(** * crates/plurifold-runtime/src/planner.rs: choosing placements

    Selecting an implementation and a resource for a ready role, for the
    children of a sharded role and for the groups of a reduction level. *)

From S2P Require Import Prelude Float64 World Core Scheduler Partition.

Record ReadyRoleSelection := mkReadyRoleSelection {
  rrs_implementation : string;
  rrs_task : TaskSpec;
  rrs_resource_id : ResourceId;
  rrs_cost : PlacementBreakdown;
}.

Record ReadyShardSelection := mkReadyShardSelection {
  rss_index : Z;
  rss_implementation : string;
  rss_task : TaskSpec;
  rss_resource_id : ResourceId;
  rss_start_ms : f64;
  rss_cost : PlacementBreakdown;
}.

Record ReadyReductionSelection := mkReadyReductionSelection {
  rds_input_count : nat;
  rds_task : TaskSpec;
  rds_resource_id : ResourceId;
  rds_start_ms : f64;
  rds_cost : PlacementBreakdown;
}.

Inductive ReadyReductionItem :=
| RCarry (object : ObjectId)
| RReduce (selection : ReadyReductionSelection).

(** [ShardPlanningContext] *)
Record PlanningContext := mkPlanningContext {
  ctx_scheduler : TopologyAwareScheduler;
  ctx_resources : list ResourceDescriptor;
  ctx_objects : Objects;
  ctx_topology : TopologySnapshot;
}.

(** The [&mut HashMap<ResourceId, f64>] of predicted availability. *)
Abbreviation Availability := (gmap ResourceId f64).

(** Planning state: the availability map and the environment. *)
Record PlanState := mkPlanState {
  ps_available : Availability;
  ps_world : World;
}.

Definition in_world {E A} (m : comp World E A) : comp PlanState E A :=
  λ s, let '(o, w) := m (ps_world s) in (o, mkPlanState (ps_available s) w).
Definition get_available {E} : comp PlanState E Availability := gets ps_available.
Definition set_available {E} (a : Availability) : comp PlanState E unit :=
  modify (λ s, mkPlanState a (ps_world s)).

(** [placement_cost]: [choose] restricted to one resource. *)
Definition placement_cost (scheduler : TopologyAwareScheduler) (task : TaskSpec)
    (resource : ResourceDescriptor) (objects : Objects) (topology : TopologySnapshot) :
    optional PlacementBreakdown :=
  match choose scheduler task [resource] objects topology with
  | Ok decision => Ok (pd_cost decision)
  | Err (MissingObject _) | Err NoCandidate => Err tt
  | Panic => Panic
  | Diverged => Diverged
  end.

Definition placement_cost_in (context : PlanningContext) (task : TaskSpec)
    (resource : ResourceDescriptor) : optional PlacementBreakdown :=
  placement_cost (ctx_scheduler context) task resource (ctx_objects context) (ctx_topology context).

(** [select_ready_role] *)
Definition select_ready_role (role : LogicalRoleSpec) (dependency_inputs : list ObjectId)
    (scheduler : TopologyAwareScheduler) (resources : list ResourceDescriptor)
    (objects : Objects) (topology : TopologySnapshot) : comp World unit ReadyRoleSelection :=
  let* best := cfold (λ best implementation,
      let* task := instantiate (ri_task implementation) dependency_inputs in
      let* decision := try (lift (choose scheduler task resources objects topology)) in
      match decision with
      | None => ret best
      | Some decision =>
          let replace := match best with
                         | Some current =>
                             (pb_total_ms (pd_cost decision) <? pb_total_ms (rrs_cost current))%float
                         | None => true
                         end in
          ret (if replace : bool then
                 Some (mkReadyRoleSelection (ri_name implementation) task
                         (pd_resource_id decision) (pd_cost decision))
               else best)
      end)
    None (lr_implementations role) in
  ok_or_throw tt best.

(** A candidate (start, cost) replaces the current one when it finishes
    earlier, or at the same time and costs less. *)
Definition earlier_finish (start_ms : f64) (cost : PlacementBreakdown)
    (current_start_ms : f64) (current_cost : PlacementBreakdown) : bool :=
  match total_cmp (start_ms + pb_total_ms cost) (current_start_ms + pb_total_ms current_cost) with
  | Lt => true
  | Eq => (pb_total_ms cost <? pb_total_ms current_cost)%float
  | Gt => false
  end.

Definition earliest_start (dependency_ready_ms : f64) (available : Availability)
    (resource : ResourceDescriptor) : f64 :=
  f64_max dependency_ready_ms (default 0%float (available !! rd_id resource)).

(** The loop over resources of [choose_shards] for one child and one
    implementation. *)
Definition consider_shard_resources (context : PlanningContext) (dependency_ready_ms : f64)
    (available : Availability) (index : Z) (implementation : string) (task : TaskSpec)
    (best : option ReadyShardSelection) : optional (option ReadyShardSelection) :=
  ofold (λ best resource,
      let? cost := otry (placement_cost_in context task resource) in
      match cost with
      | None => Ok best
      | Some cost =>
          let start_ms := earliest_start dependency_ready_ms available resource in
          let replace := match best with
                         | Some current =>
                             earlier_finish start_ms cost (rss_start_ms current) (rss_cost current)
                         | None => true
                         end in
          Ok (if replace : bool then
                Some (mkReadyShardSelection index implementation task (rd_id resource) start_ms cost)
              else best)
      end)
    best (ctx_resources context).

(** One turn of the loop over children of [choose_shards]. *)
Definition choose_one_shard (role : LogicalRoleSpec) (dependency_inputs : list ObjectId)
    (shard_count : Z) (auto : option AutoShardPolicy) (dependency_ready_ms : f64)
    (context : PlanningContext) (index : Z) : comp PlanState unit ReadyShardSelection :=
  let* available := get_available in
  let* best := cfold (λ best implementation,
      let* task := in_world (instantiate_shard_task (ri_task implementation) dependency_inputs
                               index shard_count auto (ctx_objects context)) in
      lift (consider_shard_resources context dependency_ready_ms available index
              (ri_name implementation) task best))
    None (lr_implementations role) in
  let* selected := ok_or_throw tt best in
  set_available (<[rss_resource_id selected :=
      (rss_start_ms selected + pb_total_ms (rss_cost selected))%float]> available);;;
  ret selected.

(** [choose_shards].  The room the code reserves beforehand for [shard_count]
    selections is memory, which is not modelled. *)
Definition choose_shards (role : LogicalRoleSpec) (dependency_inputs : list ObjectId)
    (shard_count : Z) (auto : option AutoShardPolicy) (dependency_ready_ms : f64)
    (context : PlanningContext) : comp PlanState unit (list ReadyShardSelection) :=
  cmap (choose_one_shard role dependency_inputs shard_count auto dependency_ready_ms context)
    (seqZ 0 shard_count).

Definition shard_finish (selection : ReadyShardSelection) : f64 :=
  (rss_start_ms selection + pb_total_ms (rss_cost selection))%float.

(** Whether a larger shard count replaces the current best. *)
Definition auto_replaces (policy : AutoShardPolicy) (incremental_ms : f64) (count : nat)
    (current_incremental : f64) (current_count : nat) : bool :=
  match total_cmp incremental_ms current_incremental with
  | Lt =>
      let gain_ratio := (if current_incremental <=? 0 then 0
                         else (current_incremental - incremental_ms) / current_incremental)%float in
      (ap_min_gain_ratio policy <=? gain_ratio)%float
  | Eq => (count <? current_count)%nat
  | Gt => false
  end.

(** [choose_auto_shards]: [partition_units.min(u32::MAX as u64) as u32] *)
Definition max_auto_shards (policy : AutoShardPolicy) (units : Z) : Z :=
  if units =? 0 then 1 else Z.min (ap_max_shards policy) (Z.min units u32_max).

Definition choose_auto_shards (role : LogicalRoleSpec) (dependency_inputs : list ObjectId)
    (policy : AutoShardPolicy) (dependency_ready_ms : f64) (context : PlanningContext) :
    comp PlanState unit (list ReadyShardSelection) :=
  let* units := ok_or_throw tt (partition_units role (ap_partition policy) (ctx_objects context)) in
  let* base_availability := get_available in
  let* best := cfold (λ best count,
      set_available base_availability;;;
      let* selections := try (choose_shards role dependency_inputs count (Some policy)
                                dependency_ready_ms context) in
      let* candidate_availability := get_available in
      match selections with
      | None => ret best
      | Some selections =>
          let finish_ms := fold_left f64_max (shard_finish <$> selections) dependency_ready_ms in
          let incremental_ms := f64_max (finish_ms - dependency_ready_ms) 0 in
          let replace :=
            match best with
            | Some (current, _, current_incremental) =>
                auto_replaces policy incremental_ms (length selections)
                  current_incremental (length current)
            | None => true
            end in
          ret (if replace : bool then Some (selections, candidate_availability, incremental_ms)
               else best)
      end)
    None (seqZ 1 (max_auto_shards policy units)) in
  set_available base_availability;;;
  let* '(selections, availability, _) := ok_or_throw tt best in
  set_available availability;;;
  ret selections.

(** [choose_role_shards] *)
Definition choose_role_shards (role : LogicalRoleSpec) (dependency_inputs : list ObjectId)
    (dependency_ready_ms : f64) (context : PlanningContext) :
    comp PlanState unit (list ReadyShardSelection) :=
  match lr_shards role with
  | Fixed count => choose_shards role dependency_inputs count None dependency_ready_ms context
  | PolicyAuto policy => choose_auto_shards role dependency_inputs policy dependency_ready_ms context
  end.

(** A planning computation run with an empty availability map. *)
Definition with_fresh_availability {E A} (m : comp PlanState E A) : comp World E A :=
  λ w, let '(o, s) := m (mkPlanState ∅ w) in (o, ps_world s).

(** [select_ready_shards] *)
Definition select_ready_shards (role : LogicalRoleSpec) (dependency_inputs : list ObjectId)
    (context : PlanningContext) : comp World unit (list ReadyShardSelection) :=
  with_fresh_availability (choose_role_shards role dependency_inputs 0 context).

(** ** Placements are made on resources that can run the task *)

Lemma placement_cost_fault_free scheduler task resource objects topology :
  fault_free (placement_cost scheduler task resource objects topology).
Proof.
  unfold placement_cost.
  pose proof (choose_fault_free scheduler task [resource] objects topology) as H.
  by destruct (choose _ _ _ _ _) as [|[]| |].
Qed.

(** [task] runs on resource [id] of the context at [cost]. *)
Definition placed_at (context : PlanningContext) (task : TaskSpec) (id : ResourceId)
    (cost : PlacementBreakdown) : Prop :=
  ∃ resource, resource ∈ ctx_resources context ∧ rd_id resource = id ∧
    placement_cost_in context task resource = Ok cost.

Lemma yields_new_id {tag E} : yields (new_id (tag:=tag) (E:=E)) (λ _, True).
Proof. by intros w. Qed.

Lemma yields_instantiate {E} template inputs :
  yields (instantiate (E:=E) template inputs) (λ task, ∃ id, task = instantiate_with template inputs id).
Proof. intros w. simpl. eauto. Qed.

Lemma yields_in_world {E A} (m : comp World E A) φ : yields m φ → yields (in_world m) φ.
Proof. intros H s. unfold in_world. specialize (H (ps_world s)). by destruct (m _). Qed.

Lemma yields_with_fresh_availability {E A} (m : comp PlanState E A) φ :
  yields m φ → yields (with_fresh_availability m) φ.
Proof. intros H w. unfold with_fresh_availability. specialize (H (mkPlanState ∅ w)). by destruct (m _). Qed.

(** ** The children of a sharded role *)

(** The task of child [index]: the template with its shard context and, for an
    auto-sharded role, its share of the work. *)
Definition shard_task (template : TaskTemplate) (dependency_inputs : list ObjectId)
    (index count : Z) (share : option (AutoShardPolicy * TaskShardPartition)) (id : TaskId) : TaskSpec :=
  let task := instantiate_with template dependency_inputs id in
  match share with
  | Some (policy, partition) =>
      with_shard (with_cost task (scale_auto_shard_cost (ts_cost task) partition policy))
        (mkTaskShard index count (Some partition))
  | None => with_shard task (mkTaskShard index count None)
  end.

(** The share of child [index] is what [concrete_partition] computes. *)
Definition share_ok (template : TaskTemplate) (index count : Z) (auto : option AutoShardPolicy)
    (objects : Objects) (share : option (AutoShardPolicy * TaskShardPartition)) : Prop :=
  match auto with
  | Some policy =>
      ∃ p, share = Some (policy, p) ∧
        concrete_partition template (ap_partition policy) index count objects = Ok p
  | None => share = None
  end.

Lemma partition_bounds_fault_free total index count :
  count ≠ 0 → fault_free (partition_bounds total index count).
Proof. intros ?. unfold partition_bounds. by rewrite (proj2 (Z.eqb_neq _ _)). Qed.

Lemma concrete_partition_fault_free template partition index count objects :
  count ≠ 0 → fault_free (concrete_partition template partition index count objects).
Proof.
  intros Hc. destruct partition as [n|n offsets]; simpl;
    (destruct (tt_inputs template !! n) as [i|]; simpl; [|done]);
    (destruct (objects !! i) as [o|]; simpl; [|done]).
  - pose proof (partition_bounds_fault_free (om_size_bytes o) index count Hc).
    by destruct (partition_bounds _ _ _) as [[??]| | |].
  - destruct (negb _); [done|].
    pose proof (partition_bounds_fault_free (Z.of_nat (length offsets) - 1) index count Hc).
    destruct (partition_bounds _ _ _) as [[s c]| | |]; simpl; try done.
    destruct (checked_add64 s c) as [e|]; simpl; [|done].
    destruct (offsets !! Z.to_nat s) as [a|]; simpl; [|done].
    destruct (offsets !! Z.to_nat e) as [b|]; simpl; [|done].
    by destruct (checked_sub b a).
Qed.

Lemma instantiate_shard_task_ok template dependency_inputs index count auto objects :
  count ≠ 0 →
  yields (instantiate_shard_task template dependency_inputs index count auto objects)
    (λ task, ∃ id share, task = shard_task template dependency_inputs index count share id ∧
       share_ok template index count auto objects share).
Proof.
  intros Hc. unfold instantiate_shard_task.
  eapply yields_bind; [apply yields_instantiate|]. intros task [id ->].
  destruct auto as [policy|]; [|apply yields_ret; by exists id, None].
  pose proof (concrete_partition_fault_free template (ap_partition policy) index count objects Hc).
  eapply yields_bind with (λ p, concrete_partition template (ap_partition policy) index count objects = Ok p).
  { apply yields_lift. by destruct (concrete_partition _ _ _ _ _). }
  intros p Hp. apply yields_ret. exists id, (Some (policy, p)). split; [done|]. by exists p.
Qed.

(** Child [index] of [count] runs one of the role's implementations on its own
    share, on a resource of the snapshot that can run it. *)
Definition shard_ok (role : LogicalRoleSpec) (dependency_inputs : list ObjectId) (count : Z)
    (auto : option AutoShardPolicy) (context : PlanningContext)
    (index : Z) (selection : ReadyShardSelection) : Prop :=
  rss_index selection = index ∧
  placed_at context (rss_task selection) (rss_resource_id selection) (rss_cost selection) ∧
  ∃ implementation id share,
    implementation ∈ lr_implementations role ∧
    rss_implementation selection = ri_name implementation ∧
    rss_task selection = shard_task (ri_task implementation) dependency_inputs index count share id ∧
    share_ok (ri_task implementation) index count auto (ctx_objects context) share.

Section shards.
Context (role : LogicalRoleSpec) (dependency_inputs : list ObjectId)
  (auto : option AutoShardPolicy) (ready : f64) (context : PlanningContext).

(** The best child so far is a good one. *)
Definition best_ok (count index : Z) (best : option ReadyShardSelection) : Prop :=
  ∀ sel, best = Some sel → shard_ok role dependency_inputs count auto context index sel.

Lemma consider_shard_resources_ok count index available implementation task best :
  (∃ id share, task = shard_task (ri_task implementation) dependency_inputs index count share id ∧
     share_ok (ri_task implementation) index count auto (ctx_objects context) share) →
  implementation ∈ lr_implementations role →
  best_ok count index best →
  opost (consider_shard_resources context ready available index (ri_name implementation) task best)
    (best_ok count index).
Proof.
  intros (id & share & Htask & Hshare) Himpl Hbest.
  apply (opost_ofold _ (λ best l, l ⊆ ctx_resources context ∧ best_ok count index best));
    [by split| |by intros b [_ ?]].
  clear best Hbest. intros best r l [Hl Hbest].
  pose proof (placement_cost_fault_free (ctx_scheduler context) task r (ctx_objects context)
    (ctx_topology context)) as Hff. fold (placement_cost_in context task r) in Hff.
  assert (Hr : r ∈ ctx_resources context) by set_solver.
  destruct (placement_cost_in context task r) as [cost| | |] eqn:Hc; simpl; try done;
    (split; [set_solver|]); [|done].
  intros sel. case_match; [|apply Hbest]. intros [= <-]. split_and!; [done|by exists r|].
  by exists implementation, id, share.
Qed.

Lemma choose_one_shard_ok count index :
  count ≠ 0 →
  yields (choose_one_shard role dependency_inputs count auto ready context index)
    (shard_ok role dependency_inputs count auto context index).
Proof.
  intros Hc. unfold choose_one_shard.
  eapply yields_bind; [apply yields_gets|]. intros available _.
  eapply yields_bind.
  { apply (yields_cfold _ (λ best l, l ⊆ lr_implementations role ∧ best_ok count index best)
             (best_ok count index)); [done| |by intros b [_ ?]].
    intros best impl l [Hl Hbest]. eapply yields_bind.
    { by apply yields_in_world, instantiate_shard_task_ok. }
    intros task Htask. apply yields_lift. eapply opost_mono.
    - apply consider_shard_resources_ok; [exact Htask|set_solver|done].
    - intros b Hb. split; [set_solver|done]. }
  intros best Hbest. eapply yields_bind; [apply yields_ok_or_throw, Hbest|].
  intros sel Hsel. eapply yields_bind; [apply yields_modify|]. intros _ _. by apply yields_ret.
Qed.

(** The children are numbered from 0, in order. *)
Definition shards_ok (count : Z) (selections : list ReadyShardSelection) : Prop :=
  Forall2 (shard_ok role dependency_inputs count auto context) (seqZ 0 count) selections.

Lemma choose_shards_ok count :
  yields (choose_shards role dependency_inputs count auto ready context) (shards_ok count).
Proof.
  apply yields_cmap. intros index Hi%elem_of_seqZ. apply choose_one_shard_ok. lia.
Qed.
End shards.

Lemma shards_ok_length role deps auto context count sels :
  0 ≤ count → shards_ok role deps auto context count sels → Z.of_nat (length sels) = count.
Proof. intros ? Hs%Forall2_length. rewrite length_seqZ in Hs. lia. Qed.

(** The number of children a policy allows. *)
Definition shard_count_ok (role : LogicalRoleSpec) (objects : Objects) (count : Z) : Prop :=
  match lr_shards role with
  | Fixed c => count = c
  | PolicyAuto policy =>
      ∃ units, partition_units role (ap_partition policy) objects = Some units ∧
        1 ≤ count ≤ max_auto_shards policy units
  end.

Lemma choose_auto_shards_ok role deps policy ready context units :
  partition_units role (ap_partition policy) (ctx_objects context) = Some units →
  yields (choose_auto_shards role deps policy ready context) (λ sels,
    ∃ count, 1 ≤ count ≤ max_auto_shards policy units ∧
      shards_ok role deps (Some policy) context count sels).
Proof.
  intros Hu. unfold choose_auto_shards.
  eapply yields_bind with (λ u, u = units); [apply yields_ok_or_throw; congruence|]. intros _ ->.
  eapply yields_bind; [apply yields_gets|]. intros base _.
  set (ok := λ sels, ∃ count, 1 ≤ count ≤ max_auto_shards policy units ∧
    shards_ok role deps (Some policy) context count sels).
  set (best_good := λ best : option (list ReadyShardSelection * Availability * f64),
    ∀ sels a i, best = Some (sels, a, i) → ok sels).
  eapply yields_bind.
  { apply (yields_cfold _ (λ best l, l ⊆ seqZ 1 (max_auto_shards policy units) ∧ best_good best)
             best_good); [by split| |by intros b [_ ?]].
    intros best count l [Hl Hbest].
    assert (Hc : count ∈ seqZ 1 (max_auto_shards policy units)) by set_solver.
    apply elem_of_seqZ in Hc.
    eapply yields_bind; [apply yields_modify|]. intros _ _.
    eapply yields_bind; [apply yields_try, choose_shards_ok|]. intros [sels|] Hsels;
      (eapply yields_bind; [apply yields_gets|]); intros candidate _.
    - apply yields_ret. split; [set_solver|]. intros sels' a i. case_match; [|apply Hbest].
      intros [= <- _ _]. exists count. split; [lia|done].
    - apply yields_ret. split; [set_solver|done]. }
  intros best Hbest. eapply yields_bind; [apply yields_modify|]. intros _ _.
  eapply yields_bind with (λ b, ok b.1.1).
  { apply yields_ok_or_throw. intros [[sels a] i] Heq. by eapply Hbest. }
  intros [[sels a] i] Hok. eapply yields_bind; [apply yields_modify|]. intros _ _.
  by apply yields_ret.
Qed.

(** What the placed children of a role are. *)
Definition role_shards_ok (role : LogicalRoleSpec) (deps : list ObjectId) (context : PlanningContext)
    (sels : list ReadyShardSelection) : Prop :=
  ∃ count, shard_count_ok role (ctx_objects context) count ∧
    shards_ok role deps (auto_policy (lr_shards role)) context count sels.

Lemma choose_role_shards_ok role deps ready context :
  yields (choose_role_shards role deps ready context) (role_shards_ok role deps context).
Proof.
  unfold choose_role_shards, role_shards_ok, shard_count_ok.
  destruct (lr_shards role) as [count|policy]; simpl.
  - eapply yields_mono; [apply choose_shards_ok|]. intros sels Hs. by exists count.
  - destruct (partition_units role (ap_partition policy) (ctx_objects context)) as [units|] eqn:Hu.
    + eapply yields_mono; [by apply choose_auto_shards_ok|].
      intros sels (count & Hc & Hs). exists count. split; [by exists units|done].
    + intros s. unfold choose_auto_shards. by rewrite Hu.
Qed.

Lemma select_ready_shards_ok role deps context :
  yields (select_ready_shards role deps context) (role_shards_ok role deps context).
Proof. apply yields_with_fresh_availability, choose_role_shards_ok. Qed.

(** C40 Placing a sharded role always answers, and answers with a complete set
    of children: as many as the fixed count, or for an auto policy at least one
    and at most [max_shards] and the number of units of the input; child [i] is
    the [i]-th, runs one of the role's implementations on its own share of the
    work ([concrete_partition] at [i]), and sits on a resource of the snapshot
    that supports its task and reaches its inputs.  In particular the partial
    searches never leave a count half placed. *)
Theorem shard_placement_complete role deps context w :
  match (select_ready_shards role deps context w).1 with
  | Ok sels =>
      ∃ count, shard_count_ok role (ctx_objects context) count ∧
        Forall2 (shard_ok role deps count (auto_policy (lr_shards role)) context)
          (seqZ 0 count) sels
  | Err _ => True
  | Panic | Diverged => False
  end.
Proof. apply (select_ready_shards_ok role deps context w). Qed.

(** ** Selecting an implementation *)

(** [task] is what the selected implementation becomes, placed where it runs. *)
Definition role_selection_ok (role : LogicalRoleSpec) (deps : list ObjectId)
    (scheduler : TopologyAwareScheduler) (resources : list ResourceDescriptor) (objects : Objects)
    (topology : TopologySnapshot) (sel : ReadyRoleSelection) : Prop :=
  ∃ implementation id,
    implementation ∈ lr_implementations role ∧ rrs_implementation sel = ri_name implementation ∧
    rrs_task sel = instantiate_with (ri_task implementation) deps id ∧
    choose scheduler (rrs_task sel) resources objects topology =
      Ok (mkPlacementDecision (rrs_resource_id sel) (rrs_cost sel)).

Lemma select_ready_role_ok role deps scheduler resources objects topology :
  yields (select_ready_role role deps scheduler resources objects topology)
    (role_selection_ok role deps scheduler resources objects topology).
Proof.
  set (ok := role_selection_ok role deps scheduler resources objects topology).
  unfold select_ready_role. eapply yields_bind.
  { apply (yields_cfold _ (λ best l, l ⊆ lr_implementations role ∧ ∀ sel, best = Some sel → ok sel)
             (λ best, ∀ sel, best = Some sel → ok sel)); [by split| |by intros b [_ ?]].
    intros best impl l [Hl Hbest]. eapply yields_bind; [apply yields_instantiate|].
    intros task [id ->]. set (task := instantiate_with _ _ _).
    pose proof (choose_fault_free scheduler task resources objects topology) as Hff.
    eapply yields_bind.
    { apply yields_try, (yields_lift _ (λ d, choose scheduler task resources objects topology = Ok d)).
      by destruct (choose _ _ _ _ _). }
    intros [d|] Hd; apply yields_ret; (split; [set_solver|]); [|done].
    intros sel. case_match; [|apply Hbest]. intros [= <-].
    exists impl, id. split_and!; [set_solver|done|done|]. simpl. fold task. by rewrite Hd; destruct d. }
  intros best Hbest. by apply yields_ok_or_throw.
Qed.
