(* ===== verification/Reduction.v ===== *)
(** * crates/plurifold-runtime/src/planner.rs: reduction levels

    Grouping the ordered outputs of a sharded role by network locality and
    placing one reducer per group. *)

From S2P Require Import Prelude Float64 World Core Samples Scheduler Partition Placement.

(** [reduction_inputs_are_local] *)
Definition reduction_inputs_are_local (left right : ObjectId) (locality_rtt_ms : f64)
    (objects : Objects) (topology : TopologySnapshot) : bool :=
  match objects !! left, objects !! right with
  | Some left_object, Some right_object =>
      existsb (λ left_resource,
          existsb (λ right_resource,
              bool_decide (left_resource = right_resource)
              || match topology_link topology left_resource right_resource with
                 | Some link => (link_rtt_ms link <=? locality_rtt_ms)%float
                 | None => false
                 end)
            (om_locations right_object))
        (om_locations left_object)
  | _, _ => false
  end.

(** The scan of [reduction_groups]: [current] is the group being built. *)
Fixpoint scan_groups (max_fan_in : nat) (local : ObjectId → ObjectId → bool)
    (current : list ObjectId) (inputs : list ObjectId) : list (list ObjectId) :=
  match inputs with
  | [] => match current with [] => [] | _ => [current] end
  | input :: inputs' =>
      match current with
      | [] => scan_groups max_fan_in local [input] inputs'
      | _ =>
          if (length current <? max_fan_in)%nat && forallb (λ existing, local existing input) current
          then scan_groups max_fan_in local (current ++ [input]) inputs'
          else current :: scan_groups max_fan_in local [input] inputs'
      end
  end.

(** [slice.chunks(n)] for [n > 0]; the list is its own fuel. *)
Fixpoint chunks_aux {A} (fuel : nat) (n : nat) (l : list A) : list (list A) :=
  match fuel, l with
  | S fuel', _ :: _ => take n l :: chunks_aux fuel' n (drop n l)
  | _, _ => []
  end.
Definition chunks {A} (n : nat) (l : list A) : list (list A) := chunks_aux (length l) n l.

(** [reduction_groups]; [chunks(0)] panics. *)
Definition reduction_groups (inputs : list ObjectId) (max_fan_in : nat) (locality_rtt_ms : f64)
    (objects : Objects) (topology : TopologySnapshot) : optional (list (list ObjectId)) :=
  let local_groups :=
    scan_groups max_fan_in
      (λ existing input, reduction_inputs_are_local existing input locality_rtt_ms objects topology)
      [] inputs in
  if existsb (λ group, (1 <? length group)%nat) local_groups then Ok local_groups
  else if (max_fan_in =? 0)%nat then Panic
  else Ok (chunks max_fan_in inputs).

(** The loop over resources of [select_reduction_level] for one group. *)
Definition consider_reduction_resources (context : PlanningContext) (dependency_ready_ms : f64)
    (available : Availability) (input_count : nat) (task : TaskSpec) :
    optional (option ReadyReductionSelection) :=
  ofold (λ best resource,
      let? cost := otry (placement_cost_in context task resource) in
      match cost with
      | None => Ok best
      | Some cost =>
          let start_ms := earliest_start dependency_ready_ms available resource in
          let replace := match best with
                         | Some current =>
                             earlier_finish start_ms cost (rds_start_ms current) (rds_cost current)
                         | None => true
                         end in
          Ok (if replace : bool then
                Some (mkReadyReductionSelection input_count task (rd_id resource) start_ms cost)
              else best)
      end)
    None (ctx_resources context).

(** One group of a level: a singleton is carried, a larger one is reduced. *)
Definition reduce_group (reduction : RoleReductionSpec) (dependency_ready_ms : f64)
    (context : PlanningContext) (group : list ObjectId) : comp PlanState unit ReadyReductionItem :=
  match group with
  | [object] => ret (RCarry object)
  | _ =>
      let* task := in_world (instantiate (rr_task reduction) group) in
      let* available := get_available in
      let* best := lift (consider_reduction_resources context dependency_ready_ms available
                           (length group) task) in
      let* selected := ok_or_throw tt best in
      set_available (<[rds_resource_id selected :=
          (rds_start_ms selected + pb_total_ms (rds_cost selected))%float]> available);;;
      ret (RReduce selected)
  end.

(** [select_reduction_level] *)
Definition select_reduction_level (reduction : RoleReductionSpec) (inputs : list ObjectId)
    (dependency_ready_ms : f64) (context : PlanningContext) :
    comp PlanState unit (list ReadyReductionItem) :=
  if (length inputs <=? 1)%nat then ret (RCarry <$> inputs)
  else if (rr_max_fan_in reduction <? 2)
          || negb (f64_is_finite (rr_locality_rtt_ms reduction))
          || (rr_locality_rtt_ms reduction <? 0)%float
  then throw tt
  else
    let* groups := lift (reduction_groups inputs (Z.to_nat (rr_max_fan_in reduction))
                           (rr_locality_rtt_ms reduction) (ctx_objects context)
                           (ctx_topology context)) in
    cmap (reduce_group reduction dependency_ready_ms context) groups.

(** ** The groups of a level *)

(** Every two members of a group are near each other. *)
Abbreviation pairwise_local local := (ForallOrdPairs (λ a b : ObjectId, local a b = true)).

Lemma ForallOrdPairs_snoc {A} (R : A → A → Prop) l x :
  ForallOrdPairs R l → Forall (λ a, R a x) l → ForallOrdPairs R (l ++ [x]).
Proof.
  induction 1 as [|a l Ha _ IH]; intros Hx; simpl; [repeat constructor|].
  apply Forall_cons in Hx as [? ?]. constructor; [|auto]. apply Forall_app. auto.
Qed.

(** The groups are the inputs, cut into non-empty runs of at most [n]. *)
Definition grouping {A} (n : nat) (inputs : list A) (groups : list (list A)) : Prop :=
  concat groups = inputs ∧ Forall (λ g, (1 <= length g <= n)%nat) groups.

Lemma scan_groups_spec n local current inputs :
  (1 <= n)%nat → (length current <= n)%nat → pairwise_local local current →
  grouping n (current ++ inputs) (scan_groups n local current inputs) ∧
  Forall (pairwise_local local) (scan_groups n local current inputs).
Proof.
  intros Hn. revert current. induction inputs as [|i inputs IH]; intros current Hlen Hloc.
  - simpl. destruct current as [|c cs]; [by repeat constructor|].
    rewrite app_nil_r. unfold grouping. simpl. rewrite app_nil_r.
    split_and!; [done|apply Forall_singleton; simpl in *; lia|by apply Forall_singleton].
  - destruct current as [|c cs].
    { apply (IH [i]); [simpl; lia|repeat constructor]. }
    remember (c :: cs) as cur eqn:Hcur.
    assert (scan_groups n local cur (i :: inputs) =
      if (length cur <? n)%nat && forallb (λ existing, local existing i) cur
      then scan_groups n local (cur ++ [i]) inputs
      else cur :: scan_groups n local [i] inputs) as -> by by subst.
    destruct ((length cur <? n)%nat && _) eqn:E.
    + apply andb_prop in E as [Hl Hall]. apply Nat.ltb_lt in Hl. apply forallb_Forall_true in Hall.
      replace (cur ++ i :: inputs) with ((cur ++ [i]) ++ inputs) by by rewrite <- app_assoc.
      apply IH; [rewrite length_app; simpl; lia|]. by apply ForallOrdPairs_snoc.
    + destruct (IH [i]) as [[Hcat Hsz] Hpl]; [simpl; lia|repeat constructor|].
      unfold grouping. simpl. rewrite Hcat. split_and!; [done| |]; constructor; try done.
      subst. simpl in *. lia.
Qed.

Lemma chunks_grouping {A} n (l : list A) : (1 <= n)%nat → grouping n l (chunks n l).
Proof.
  intros Hn. unfold chunks. enough (∀ fuel (l : list A), (length l <= fuel)%nat →
    grouping n l (chunks_aux fuel n l)) by auto.
  clear l. induction fuel as [|fuel IH]; intros l Hl.
  { destruct l; simpl in *; [by repeat constructor|lia]. }
  destruct l as [|a l]; [by repeat constructor|].
  destruct (IH (drop n (a :: l))) as [Hcat Hsz].
  { rewrite length_drop. simpl in *. lia. }
  simpl chunks_aux. split; cbn [concat]; [by rewrite Hcat, take_drop|].
  constructor; [|done]. rewrite length_take. simpl. lia.
Qed.

(** One group too few to be all singletons. *)
Lemma grouping_progress {A} n (inputs : list A) groups :
  grouping n inputs groups → Exists (λ g, (2 <= length g)%nat) groups →
  (length groups < length inputs)%nat.
Proof.
  intros [<- Hsz]. induction 1 as [g gs Hg|g gs _ IH]; simpl; rewrite length_app;
    apply Forall_cons in Hsz as [? Hsz].
  - enough (length gs <= length (concat gs))%nat by lia.
    induction Hsz; simpl; rewrite ?length_app; lia.
  - specialize (IH Hsz). lia.
Qed.

Section groups.
Context (inputs : list ObjectId) (max_fan_in : nat) (locality_rtt_ms : f64)
  (objects : Objects) (topology : TopologySnapshot).
Context (Hfan : (2 <= max_fan_in)%nat) (Hinputs : (2 <= length inputs)%nat).
Let local a b := reduction_inputs_are_local a b locality_rtt_ms objects topology.

Lemma reduction_groups_ok :
  ∃ groups, reduction_groups inputs max_fan_in locality_rtt_ms objects topology = Ok groups ∧
    grouping max_fan_in inputs groups ∧ (length groups < length inputs)%nat ∧
    (Forall (pairwise_local local) groups ∨ groups = chunks max_fan_in inputs).
Proof.
  unfold reduction_groups. fold local.
  destruct (scan_groups_spec max_fan_in local [] inputs) as [Hg Hl]; [lia|simpl; lia|constructor|].
  destruct (existsb _ _) eqn:E.
  - eexists. split; [done|]. split_and!; [done| |by left].
    apply (grouping_progress max_fan_in); [done|]. apply existsb_Exists_true in E.
    eapply Exists_impl; [exact E|]. intros g Hlt%Nat.ltb_lt. lia.
  - rewrite (proj2 (Nat.eqb_neq _ 0)) by lia.
    pose proof (chunks_grouping max_fan_in inputs) as Hc.
    eexists. split; [done|]. split_and!; [apply Hc; lia| |by right].
    apply (grouping_progress max_fan_in); [apply Hc; lia|].
    unfold chunks. destruct inputs as [|a [|b l]]; simpl in *; [lia..|].
    apply Exists_cons_hd. rewrite length_take. simpl. lia.
Qed.
End groups.

(** One level of a reduction keeps every partial output exactly once and in
    order, and makes progress: for two inputs or more and a fan-in of at least
    two, [reduction_groups] answers with groups whose concatenation is the
    inputs, each non-empty and no larger than the fan-in, fewer than the
    inputs; and the groups are either pairwise local (same resource, or a link
    within the RTT bound, between replicas of every two members) or, when no
    two neighbours are local, plain chunks. *)
Theorem reduction_groups_correct inputs max_fan_in locality_rtt_ms objects topology
    (Hfan : (2 <= max_fan_in)%nat) (Hinputs : (2 <= length inputs)%nat) :
  ∃ groups, reduction_groups inputs max_fan_in locality_rtt_ms objects topology = Ok groups ∧
    concat groups = inputs ∧ Forall (λ g, (1 <= length g <= max_fan_in)%nat) groups ∧
    (length groups < length inputs)%nat ∧
    (Forall (pairwise_local (λ a b, reduction_inputs_are_local a b locality_rtt_ms objects topology))
       groups ∨
     groups = chunks max_fan_in inputs).
Proof.
  destruct (reduction_groups_ok inputs max_fan_in locality_rtt_ms objects topology Hfan Hinputs)
    as (groups & ? & [? ?] & ? & ?). by exists groups.
Qed.

(** ** The reducers of a level *)

(** The inputs of the level an item stands for: a reducer's task takes the
    static inputs of its template first. *)
Definition item_inputs (reduction : RoleReductionSpec) (item : ReadyReductionItem) : list ObjectId :=
  match item with
  | RCarry object => [object]
  | RReduce selection =>
      drop (length (tt_inputs (rr_task reduction))) (ts_inputs (rds_task selection))
  end.

(** A reducer runs the reduction's template on its group of two or more, where
    it can. *)
Definition item_ok (reduction : RoleReductionSpec) (context : PlanningContext)
    (group : list ObjectId) (item : ReadyReductionItem) : Prop :=
  item_inputs reduction item = group ∧
  match item with
  | RCarry _ => True
  | RReduce selection =>
      (2 <= length group)%nat ∧ rds_input_count selection = length group ∧
      (∃ id, rds_task selection = instantiate_with (rr_task reduction) group id) ∧
      placed_at context (rds_task selection) (rds_resource_id selection) (rds_cost selection)
  end.

Lemma consider_reduction_resources_ok context ready available n task :
  opost (consider_reduction_resources context ready available n task)
    (λ best, ∀ sel, best = Some sel →
       rds_input_count sel = n ∧ rds_task sel = task ∧
       placed_at context task (rds_resource_id sel) (rds_cost sel)).
Proof.
  apply (opost_ofold _ (λ best l, l ⊆ ctx_resources context ∧ ∀ sel, best = Some sel →
       rds_input_count sel = n ∧ rds_task sel = task ∧
       placed_at context task (rds_resource_id sel) (rds_cost sel))); [done| |naive_solver].
  intros best r l [Hl Hbest].
  pose proof (placement_cost_fault_free (ctx_scheduler context) task r (ctx_objects context)
    (ctx_topology context)) as Hff. fold (placement_cost_in context task r) in Hff.
  assert (Hr : r ∈ ctx_resources context) by set_solver.
  destruct (placement_cost_in context task r) as [cost| | |] eqn:Hc; simpl; try done;
    (split; [set_solver|]); [|done].
  intros sel. case_match; [|apply Hbest].
  intros [= <-]. simpl. split_and!; [done..|]. by exists r.
Qed.

Lemma reduce_group_ok reduction ready context group :
  (1 <= length group)%nat →
  yields (reduce_group reduction ready context group) (item_ok reduction context group).
Proof.
  intros Hne. destruct group as [|a [|b group]]; [simpl in Hne; lia|by apply yields_ret|].
  unfold reduce_group. eapply yields_bind.
  { apply yields_in_world, yields_instantiate. }
  intros task [id Htask]. eapply yields_bind; [apply yields_gets|]. intros available _.
  eapply yields_bind; [apply yields_lift, consider_reduction_resources_ok|]. intros best Hbest.
  eapply yields_bind; [apply yields_ok_or_throw, Hbest|]. intros sel (Hn & Ht & Hp).
  eapply yields_bind; [apply yields_modify|]. intros _ _. apply yields_ret.
  split; [|split; [simpl; lia|by rewrite Ht; eauto]]. unfold item_inputs. by rewrite Ht, Htask; simpl; rewrite drop_app_length.
Qed.

Lemma concat_item_inputs reduction context groups items :
  Forall2 (item_ok reduction context) groups items → items ≫= item_inputs reduction = concat groups.
Proof. induction 1 as [|g item gs items [Hi _] _ IH]; csimpl; [done|]. by rewrite Hi, IH. Qed.

(** What a level's items are, whenever a placement exists. *)
Lemma select_reduction_level_ok reduction inputs ready context :
  yields (select_reduction_level reduction inputs ready context) (λ items,
    items ≫= item_inputs reduction = inputs ∧
    ((2 <= length inputs)%nat → (length items < length inputs)%nat) ∧
    Forall (λ item, ∃ group, item_ok reduction context group item) items).
Proof.
  unfold select_reduction_level. case_match eqn:Hlen.
  { apply Nat.leb_le in Hlen. apply yields_ret. split_and!; [|lia|].
    - induction inputs as [|i rest IH]; csimpl; [done|]. f_equal. apply IH. simpl in *. lia.
    - apply Forall_fmap, Forall_true. intros o. by exists [o]. }
  apply Nat.leb_gt in Hlen. case_match eqn:Hbad; [apply yields_throw|].
  apply orb_false_elim in Hbad as [Hbad _]. apply orb_false_elim in Hbad as [Hfan _]. apply Z.ltb_ge in Hfan.
  destruct (reduction_groups_ok inputs (Z.to_nat (rr_max_fan_in reduction))
    (rr_locality_rtt_ms reduction) (ctx_objects context) (ctx_topology context))
    as (groups & -> & [Hcat Hsz] & Hless & _); [lia..|].
  eapply yields_bind with (λ gs, gs = groups); [by apply yields_lift|]. intros _ ->.
  eapply yields_mono.
  { apply yields_cmap. intros g Hg. apply reduce_group_ok.
    rewrite Forall_forall in Hsz. by apply Hsz. }
  intros items Hitems. split_and!.
  - by rewrite (concat_item_inputs _ _ _ _ Hitems).
  - intros _. by rewrite <- (Forall2_length _ _ _ Hitems).
  - eapply Forall2_Forall_r_of; [exact Hitems|]. eauto.
Qed.

(** C28 Placing a reduction level is order-preserving and makes progress: it
    never panics, and whenever it answers, reading its items from first to last
    (carried objects, and the inputs of each reducer) gives back the level's
    inputs exactly, there are fewer items than inputs when there were at least
    two, and every reducer runs the reduction's own template on a resource of
    the snapshot that supports it and reaches its inputs. *)
Theorem reduction_level_preserves_order reduction inputs ready context s :
  match (select_reduction_level reduction inputs ready context s).1 with
  | Ok items =>
      items ≫= item_inputs reduction = inputs ∧
      ((2 <= length inputs)%nat → (length items < length inputs)%nat) ∧
      Forall (λ item, ∃ group, item_ok reduction context group item) items
  | Err _ => True
  | Panic | Diverged => False
  end.
Proof. apply (select_reduction_level_ok reduction inputs ready context s). Qed.

Lemma reduction_groups_correct_witness :
  let ids := Samples.object_id <$> [1; 2; 3]%N in
  let objects : Objects := list_to_map
    [(Samples.object_id 1, Samples.object (Samples.object_id 1) 8 [Samples.resource_id 1]);
     (Samples.object_id 2, Samples.object (Samples.object_id 2) 8 [Samples.resource_id 2]);
     (Samples.object_id 3, Samples.object (Samples.object_id 3) 8 [Samples.resource_id 3])] in
  let topology := [Samples.link (Samples.resource_id 1) (Samples.resource_id 2) 1 1000;
                   Samples.link (Samples.resource_id 2) (Samples.resource_id 3) 80 100] in
  reduction_groups ids 2 2 objects topology =
    Ok [Samples.object_id <$> [1; 2]%N; [Samples.object_id 3]] ∧
  ∃ groups, reduction_groups ids 2 2 objects topology = Ok groups ∧
    concat groups = ids ∧ Forall (λ g, (1 <= length g <= 2)%nat) groups ∧
    (length groups < length ids)%nat ∧
    (Forall (pairwise_local (λ a b, reduction_inputs_are_local a b 2 objects topology)) groups ∨
     groups = chunks 2 ids).
Proof.
  simpl. split; [vm_compute; reflexivity|]. apply reduction_groups_correct; simpl; lia.
Defined.
