(* ===== verification/Fusion.v ===== *)
(** * crates/plurifold-runtime/src/planner.rs: graph coarsening

    Estimating the separate execution of a linear chain of roles by dynamic
    programming, enumerating fused prefixes, and building the pipeline task. *)

From S2P Require Import Prelude Float64 World Text Core Scheduler Partition Placement.

Open Scope string_scope.
Open Scope list_scope.
Open Scope Z_scope.

Record ReadyFusionSelection := mkReadyFusionSelection {
  rfs_implementations : list string;
  rfs_task : TaskSpec;
  rfs_resource_id : ResourceId;
  rfs_cost : PlacementBreakdown;
  rfs_estimated_avoided_transfer_ms : f64;
  rfs_estimated_vs_separate_ms : f64;
}.

Record SeparateChainState := mkSeparateChainState {
  scs_implementation_index : Z;           (* usize; [usize::MAX] is a sentinel *)
  scs_resource_id : ResourceId;
  scs_output_bytes : Z;
  scs_total_ms : f64;
  scs_cross_transfer_ms : f64;
  scs_has_cross_resource_edge : bool;
  scs_has_fusion_trigger_edge : bool;
}.

Record SeparateChainPaths := mkSeparateChainPaths {
  scp_best : SeparateChainState;
  scp_best_cross_resource : option SeparateChainState;
}.

Record FusedImplementationChoice := mkFusedImplementationChoice {
  fic_names : list string;
  fic_tasks : list TaskTemplate;
  fic_requirements : ResourceRequirements;
}.

(** [FusionContext]: a planning context and the advisor. *)
Record FusionContext := mkFusionContext {
  fc_context : PlanningContext;
  fc_advisor : FusionAdvisor;
}.

(** ** Combining requirements *)

Definition combine_architecture (left_ right_ : option Architecture) : option (option Architecture) :=
  match left_, right_ with
  | Some l, Some r => if bool_decide (l = r) then Some (Some l) else None
  | Some value, None | None, Some value => Some (Some value)
  | None, None => Some None
  end.

Definition combine_accelerator (left_ right_ : option AcceleratorRequirement) :
    option (option AcceleratorRequirement) :=
  match left_, right_ with
  | Some l, Some r =>
      if bool_decide (ar_kind l = ar_kind r) then
        Some (Some (mkAcceleratorRequirement (ar_kind l)
                      (Z.max (ar_min_count l) (ar_min_count r))
                      (Z.max (ar_min_memory_bytes_per_device l) (ar_min_memory_bytes_per_device r))))
      else None
  | Some value, None | None, Some value => Some (Some value)
  | None, None => Some None
  end.

Definition combine_requirements (left_ right_ : ResourceRequirements) : option ResourceRequirements :=
  architecture ← combine_architecture (req_architecture left_) (req_architecture right_);
  accelerator ← combine_accelerator (req_accelerator left_) (req_accelerator right_);
  Some (mkResourceRequirements architecture
          (Z.max (req_min_memory_bytes left_) (req_min_memory_bytes right_))
          accelerator
          (req_required_features left_ ∪ req_required_features right_)).

(** [fusable_template] *)
Definition fusable_template (task : TaskTemplate) : bool :=
  bool_decide (tt_effects task = Pure) && starts_with "builtin:" (tt_artifact task).

(** [fused_implementation_choices]: the choices for the first role, extended
    role by role while their requirements combine. *)
Definition first_choice (implementation : RoleImplementation) : FusedImplementationChoice :=
  mkFusedImplementationChoice [ri_name implementation] [ri_task implementation]
    (tt_requirements (ri_task implementation)).

Definition extend_choice (choice : FusedImplementationChoice) (implementation : RoleImplementation) :
    option FusedImplementationChoice :=
  requirements ← combine_requirements (fic_requirements choice)
                   (tt_requirements (ri_task implementation));
  Some (mkFusedImplementationChoice (fic_names choice ++ [ri_name implementation])
          (fic_tasks choice ++ [ri_task implementation]) requirements).

Definition fused_implementation_choices (chain : list LogicalRoleSpec) : list FusedImplementationChoice :=
  match chain with
  | [] => []
  | first :: rest =>
      fold_left (λ previous role,
          previous ≫= λ choice, omap (extend_choice choice) (lr_implementations role))
        rest (first_choice <$> lr_implementations first)
  end.

(** ** The pipeline task *)

(** [pipeline_external_bindings], threading [external_inputs] and
    [external_indexes]. *)
Abbreviation ExternalTable := (list ObjectId * gmap ObjectId nat)%type.

Fixpoint pipeline_external_bindings (object_ids : list ObjectId) (table : ExternalTable) :
    list PipelineInput * ExternalTable :=
  match object_ids with
  | [] => ([], table)
  | object_id :: object_ids' =>
      let '(external_inputs, external_indexes) := table in
      let '(index, table') :=
        match external_indexes !! object_id with
        | Some index => (index, table)
        | None =>
            let index := length external_inputs in
            (index, (external_inputs ++ [object_id], <[object_id := index]> external_indexes))
        end in
      let '(bindings, table'') := pipeline_external_bindings object_ids' table' in
      (External index :: bindings, table'')
  end.

(** The stages after the first: static inputs, then the previous output. *)
Fixpoint fused_later_stages (tasks : list TaskTemplate) (table : ExternalTable) :
    list TaskPipelineStage * ExternalTable :=
  match tasks with
  | [] => ([], table)
  | task :: tasks' =>
      let '(inputs, table') := pipeline_external_bindings (tt_inputs task) table in
      let '(stages, table'') := fused_later_stages tasks' table' in
      (mkTaskPipelineStage (tt_artifact task) (tt_entrypoint task) (tt_arguments task)
         (inputs ++ [PreviousOutput]) :: stages, table'')
  end.

Definition fused_stages (first : TaskTemplate) (rest : list TaskTemplate)
    (dependency_inputs : list ObjectId) : TaskPipeline * list ObjectId :=
  let '(first_inputs, table) :=
    pipeline_external_bindings (tt_inputs first ++ dependency_inputs) ([], ∅) in
  let '(stages, (external_inputs, _)) := fused_later_stages rest table in
  (mkTaskPipelineStage (tt_artifact first) (tt_entrypoint first) (tt_arguments first) first_inputs
     :: stages, external_inputs).

(** [fused_pipeline_task]: two ids are drawn, for the instantiated first task
    (discarded) and for the pipeline task; no task at all panics. *)
Definition fused_pipeline_task {E} (tasks : list TaskTemplate) (dependency_inputs : list ObjectId)
    (requirements : ResourceRequirements) : comp World E TaskSpec :=
  match tasks with
  | [] => panic
  | first :: rest =>
      let* _ := instantiate first dependency_inputs in
      let '(stages, external_inputs) := fused_stages first rest dependency_inputs in
      let* id := new_id in
      ret (mkTaskSpec id "plurifold:pipeline" "run" [] external_inputs requirements Pure
             (mkCostHint
                (fold_left PrimFloat.add (compute_ms_on_reference ∘ tt_cost <$> tasks) (-0)%float)
                (default 0 (output_bytes ∘ tt_cost <$> list.last tasks)))
             None (Some stages))
  end.

(** ** Separate execution of a chain, by dynamic programming *)

Abbreviation ChainKey := (Z * ResourceId * bool * bool)%type.
Abbreviation ChainStates := (gmap ChainKey SeparateChainState).

Definition chain_key (state : SeparateChainState) : ChainKey :=
  (scs_implementation_index state, scs_resource_id state,
   scs_has_cross_resource_edge state, scs_has_fusion_trigger_edge state).

(** [insert_better_chain_state] *)
Definition insert_better_chain_state (states : ChainStates) (candidate : SeparateChainState) : ChainStates :=
  let replace :=
    match states !! chain_key candidate with
    | Some current =>
        ((scs_total_ms candidate <? scs_total_ms current)
         || ((scs_total_ms candidate =? scs_total_ms current)
             && (scs_cross_transfer_ms current <? scs_cross_transfer_ms candidate)))%float
    | None => true
    end in
  if replace : bool then <[chain_key candidate := candidate]> states else states.

Section fusion.
Context `{HashOrder} (context : FusionContext).

Definition fc_cost (task : TaskSpec) (resource : ResourceDescriptor) (objects : Objects) :
    optional PlacementBreakdown :=
  placement_cost (ctx_scheduler (fc_context context)) task resource objects
    (ctx_topology (fc_context context)).

(** The step from [previous] to one implementation on one resource. *)
Definition chain_transition (previous : SeparateChainState) (implementation_index : Z)
    (implementation : RoleImplementation) (resource : ResourceDescriptor)
    (cost : PlacementBreakdown) : optional SeparateChainState :=
  let? '(cross_transfer_ms, has_cross, has_trigger) :=
    if bool_decide (scs_resource_id previous = rd_id resource) then
      Ok (scs_cross_transfer_ms previous, scs_has_cross_resource_edge previous,
          scs_has_fusion_trigger_edge previous)
    else
      let? link := ok_or tt (topology_link (ctx_topology (fc_context context))
                               (scs_resource_id previous) (rd_id resource)) in
      let recommendation := evaluate (fc_advisor context) (scs_output_bytes previous) link in
      Ok ((scs_cross_transfer_ms previous + fr_estimated_saved_transfer_ms recommendation)%float,
          true, scs_has_fusion_trigger_edge previous || fr_should_fuse recommendation) in
  Ok (mkSeparateChainState implementation_index (rd_id resource)
        (output_bytes (tt_cost (ri_task implementation)))
        (scs_total_ms previous + pb_total_ms cost)%float
        cross_transfer_ms has_cross has_trigger).

(** The predicted intermediate object of a state. *)
Definition intermediate_object (intermediate : ObjectId) (previous : SeparateChainState) : ObjectMetadata :=
  mkObjectMetadata intermediate (scs_output_bytes previous) None None [scs_resource_id previous] None.

Definition advance_one_state (role : LogicalRoleSpec) (next_states : ChainStates)
    (previous : SeparateChainState) : comp World unit ChainStates :=
  let* intermediate := new_id in
  let predicted_objects :=
    <[intermediate := intermediate_object intermediate previous]> (ctx_objects (fc_context context)) in
  cfold (λ next_states '(implementation_index, implementation),
      let* task := instantiate (ri_task implementation) [intermediate] in
      lift (ofold (λ next_states resource,
          let? cost := otry (fc_cost task resource predicted_objects) in
          match cost with
          | None => Ok next_states
          | Some cost =>
              let? state := chain_transition previous (Z.of_nat implementation_index)
                              implementation resource cost in
              Ok (insert_better_chain_state next_states state)
          end)
        next_states (ctx_resources (fc_context context))))
    next_states (imap pair (lr_implementations role)).

(** [advance_chain_states] *)
Definition advance_chain_states (states : ChainStates) (role : LogicalRoleSpec) :
    comp World unit ChainStates :=
  let* next_states := cfold (advance_one_state role) ∅ (hash_values states) in
  if bool_decide (next_states = ∅) then throw tt else ret next_states.

Definition compare_chain_total (a b : SeparateChainState) : comparison :=
  total_cmp (scs_total_ms a) (scs_total_ms b).

(** The states after the first role of [separate_chain_paths]. *)
Definition first_chain_states (first : LogicalRoleSpec) (dependency_inputs : list ObjectId) :
    comp World unit ChainStates :=
  cfold (λ states '(implementation_index, implementation),
      let* task := instantiate (ri_task implementation) dependency_inputs in
      lift (ofold (λ states resource,
          let? cost := otry (fc_cost task resource (ctx_objects (fc_context context))) in
          match cost with
          | None => Ok states
          | Some cost =>
              Ok (insert_better_chain_state states
                    (mkSeparateChainState (Z.of_nat implementation_index) (rd_id resource)
                       (output_bytes (tt_cost (ri_task implementation)))
                       (pb_total_ms cost) 0 false false))
          end)
        states (ctx_resources (fc_context context))))
    ∅ (imap pair (lr_implementations first)).

(** [separate_chain_paths] *)
Definition separate_chain_paths (chain : list LogicalRoleSpec) (dependency_inputs : list ObjectId) :
    comp World unit SeparateChainPaths :=
  match chain with
  | [] => throw tt
  | first :: rest =>
      let* states := first_chain_states first dependency_inputs in
      if bool_decide (states = ∅) then throw tt
      else
        let* states := cfold advance_chain_states states rest in
        let* best := ok_or_throw tt (min_by compare_chain_total (hash_values states)) in
        ret (mkSeparateChainPaths best
               (min_by compare_chain_total
                  (List.filter scs_has_cross_resource_edge (hash_values states))))
  end.

(** [best_chain_tail_total] *)
Definition best_chain_tail_total (tail : list LogicalRoleSpec) (previous_output_bytes : Z)
    (previous_resource : ResourceId) (initial_total_ms : f64) : comp World unit f64 :=
  let seed := mkSeparateChainState u64_max previous_resource previous_output_bytes
                initial_total_ms 0 false false in
  let* states := cfold advance_chain_states
                   {[ (u64_max, previous_resource, false, false) := seed ]} tail in
  ok_or_throw tt (min_by total_cmp (scs_total_ms <$> hash_values states)).

(** [fusion_candidate_is_better] *)
Definition fusion_candidate_is_better (candidate : ReadyFusionSelection)
    (current : option ReadyFusionSelection) : bool :=
  match current with
  | None => true
  | Some current =>
      match total_cmp (rfs_estimated_vs_separate_ms candidate)
              (rfs_estimated_vs_separate_ms current) with
      | Gt => true
      | Lt => false
      | Eq =>
          match total_cmp (rfs_estimated_avoided_transfer_ms candidate)
                  (rfs_estimated_avoided_transfer_ms current) with
          | Gt => true
          | Lt => false
          | Eq => (length (rfs_implementations current) <? length (rfs_implementations candidate))%nat
          end
      end
  end.

(** One fused choice of a prefix: [None] where the code continues. *)
Definition fusion_candidate (chain : list LogicalRoleSpec) (prefix_len : nat)
    (dependency_inputs : list ObjectId) (full_separate : SeparateChainPaths)
    (cross_resource : SeparateChainState) (choice : FusedImplementationChoice) :
    comp World unit (option ReadyFusionSelection) :=
  let* task := fused_pipeline_task (fic_tasks choice) dependency_inputs (fic_requirements choice) in
  let planning := fc_context context in
  let* decision := try (lift (choose (ctx_scheduler planning) task (ctx_resources planning)
                                (ctx_objects planning) (ctx_topology planning))) in
  match decision with
  | None => ret None
  | Some decision =>
      let* projected :=
        if (prefix_len =? length chain)%nat then ret (Some (pb_total_ms (pd_cost decision)))
        else
          let* last_task := expect (list.last (fic_tasks choice)) in
          try (best_chain_tail_total (drop prefix_len chain) (output_bytes (tt_cost last_task))
                 (pd_resource_id decision) (pb_total_ms (pd_cost decision))) in
      match projected with
      | None => ret None
      | Some projected_total_ms =>
          let estimated_vs_separate_ms :=
            (scs_total_ms (scp_best full_separate) - projected_total_ms)%float in
          if (estimated_vs_separate_ms <? 0)%float then ret None
          else ret (Some (mkReadyFusionSelection (fic_names choice) task (pd_resource_id decision)
                            (pd_cost decision) (scs_cross_transfer_ms cross_resource)
                            estimated_vs_separate_ms))
      end
  end.

(** One prefix length of [select_ready_fusion]. *)
Definition fusion_prefix (chain : list LogicalRoleSpec) (dependency_inputs : list ObjectId)
    (full_separate : SeparateChainPaths) (best : option ReadyFusionSelection) (prefix_len : nat) :
    comp World unit (option ReadyFusionSelection) :=
  let prefix := take prefix_len chain in
  let* separate := separate_chain_paths prefix dependency_inputs in
  match scp_best_cross_resource separate with
  | None => ret best
  | Some cross_resource =>
      if negb (scs_has_fusion_trigger_edge cross_resource) then ret best
      else
        cfold (λ best choice,
            let* candidate := fusion_candidate chain prefix_len dependency_inputs full_separate
                                cross_resource choice in
            ret (match candidate with
                 | Some candidate =>
                     if fusion_candidate_is_better candidate best then Some candidate else best
                 | None => best
                 end))
          best (fused_implementation_choices prefix)
  end.

(** The length of the longest prefix all of whose implementations fuse. *)
Fixpoint fusable_prefix_len (chain : list LogicalRoleSpec) : nat :=
  match chain with
  | role :: chain' =>
      if forallb (λ implementation, fusable_template (ri_task implementation))
           (lr_implementations role)
      then S (fusable_prefix_len chain') else 0
  | [] => 0
  end.

(** [select_ready_fusion] *)
Definition select_ready_fusion (chain : list LogicalRoleSpec) (dependency_inputs : list ObjectId) :
    comp World unit ReadyFusionSelection :=
  let fusable := fusable_prefix_len chain in
  if (fusable <? 2)%nat then throw tt
  else
    let* full_separate := separate_chain_paths chain dependency_inputs in
    let* best := cfold (fusion_prefix chain dependency_inputs full_separate) None
                   (seq 2 (fusable - 1)) in
    ok_or_throw tt best.
End fusion.

(** ** Combined requirements *)

Lemma combine_architecture_ok l r c architecture :
  combine_architecture l r = Some c →
  architecture_ok c architecture ↔ architecture_ok l architecture ∧ architecture_ok r architecture.
Proof.
  destruct l as [l|], r as [r|]; simpl; try case_bool_decide; intros; simplify_eq/=; naive_solver.
Qed.
Lemma combine_architecture_None l r architecture :
  combine_architecture l r = None → ¬ (architecture_ok l architecture ∧ architecture_ok r architecture).
Proof. destruct l as [l|], r as [r|]; simpl; try case_bool_decide; naive_solver. Qed.

Lemma combine_accelerator_ok l r c accelerators :
  combine_accelerator l r = Some c → accelerator_ok c accelerators →
  accelerator_ok l accelerators ∧ accelerator_ok r accelerators.
Proof.
  destruct l as [l|], r as [r|]; simpl; try case_bool_decide; intros; simplify_eq/=; [|done..].
  split; (eapply Exists_impl; [eassumption|]); simpl; intros a (? & ? & ?); split_and!; lia || congruence.
Qed.

Lemma combine_requirements_ok l r c resource :
  combine_requirements l r = Some c → supports resource c = true →
  supports resource l = true ∧ supports resource r = true.
Proof.
  unfold combine_requirements.
  destruct (combine_architecture _ _) as [architecture|] eqn:Harch; simpl; [|done].
  destruct (combine_accelerator _ _) as [accelerator|] eqn:Hacc; simpl; [|done]. intros [= <-].
  rewrite !supports_spec. simpl. intros (? & ? & Ha & Hf & Hc).
  rewrite (combine_architecture_ok _ _ _ _ Harch) in Ha.
  apply (combine_accelerator_ok _ _ _ _ Hacc) in Hc.
  split_and!; try tauto; try lia; set_solver.
Qed.

(** A resource that satisfies the combined requirements of a fused chain
    satisfies those of each stage, so a pipeline never lands where one of its
    stages could not run: architecture, memory, every feature and the
    accelerator.  And when requirements do not combine, either no resource at
    all satisfies both, or they ask for accelerators of different kinds. *)
Theorem combine_requirements_sound left_ right_ :
  match combine_requirements left_ right_ with
  | Some combined =>
      ∀ resource, supports resource combined = true →
        supports resource left_ = true ∧ supports resource right_ = true
  | None =>
      (∀ resource, ¬ (supports resource left_ = true ∧ supports resource right_ = true)) ∨
      (∃ a b, req_accelerator left_ = Some a ∧ req_accelerator right_ = Some b ∧ ar_kind a ≠ ar_kind b)
  end.
Proof.
  destruct (combine_requirements left_ right_) as [combined|] eqn:E.
  { intros resource. by apply combine_requirements_ok. }
  unfold combine_requirements in E.
  destruct (combine_architecture _ _) as [architecture|] eqn:Harch; simpl in E.
  - destruct (combine_accelerator _ _) as [accelerator|] eqn:Hacc; simpl in E; [done|].
    right. destruct (req_accelerator left_) as [l|], (req_accelerator right_) as [r|];
      simpl in Hacc; try done. case_bool_decide; [done|]. by exists l, r.
  - left. intros resource. rewrite !supports_spec. intros [(_ & _ & Hl & _) (_ & _ & Hr & _)].
    by apply (combine_architecture_None _ _ (rd_architecture resource) Harch).
Qed.

(** ** The stages of a pipeline task *)

(** What a binding denotes, given the task's inputs: [Some (Some o)] for the
    object [o], [Some None] for the previous stage's output. *)
Definition resolve_binding (inputs : list ObjectId) (binding : PipelineInput) : option (option ObjectId) :=
  match binding with
  | External index => Some <$> inputs !! index
  | PreviousOutput => Some None
  end.

(** The table lists each object once, and its index maps back to it. *)
Definition table_ok (table : ExternalTable) : Prop :=
  ∀ o i, table.2 !! o = Some i ↔ table.1 !! i = Some o.

Lemma table_ok_NoDup table : table_ok table → NoDup table.1.
Proof.
  intros Hok. apply NoDup_alt. intros i j o Hi%Hok Hj%Hok. congruence.
Qed.

Lemma resolve_binding_mono inputs more bindings objects :
  mapM (resolve_binding inputs) bindings = Some objects →
  mapM (resolve_binding (inputs ++ more)) bindings = Some objects.
Proof.
  rewrite !mapM_Some. intros H. eapply Forall2_impl; [exact H|].
  intros [i|] o; simpl; [|done]. rewrite !fmap_Some. intros (x & Hx & ->).
  exists x. split; [by apply lookup_app_l_Some|done].
Qed.

(** Binding a list of objects extends the table by those not yet in it. *)
Lemma pipeline_external_bindings_ok objects table bindings table' :
  table_ok table → pipeline_external_bindings objects table = (bindings, table') →
  table_ok table' ∧ (∃ more, table'.1 = table.1 ++ more ∧ more ⊆ objects) ∧
  mapM (resolve_binding table'.1) bindings = Some (Some <$> objects).
Proof.
  revert table bindings table'. induction objects as [|o os IH]; intros [ext idx] bindings table' Hok; simpl.
  { intros [= <- <-]. split_and!; [done| |done]. exists []. by rewrite app_nil_r. }
  destruct (idx !! o) as [i|] eqn:Ho.
  - destruct (pipeline_external_bindings os (ext, idx)) as [bs t] eqn:E. intros [= <- <-].
    destruct (IH _ _ _ Hok E) as (Hok' & (more & Hm & Hsub) & Hres). split_and!; [done| |].
    + exists more. split; [done|set_solver].
    + apply Hok in Ho. rewrite mapM_Some in *. csimpl. constructor; [|done].
      simpl in *. by rewrite Hm, (lookup_app_l_Some _ _ _ _ Ho).
  - set (table1 := (ext ++ [o], <[o:=length ext]> idx)).
    destruct (pipeline_external_bindings os table1) as [bs t] eqn:E. intros [= <- <-].
    assert (Hok1 : table_ok table1).
    { intros o' i. simpl. destruct (decide (o' = o)) as [->|Hne].
      - rewrite lookup_insert_eq. rewrite lookup_snoc_Some. split.
        + intros [= <-]. right. done.
        + intros [[_ Hi]|[-> _]]; [|done]. apply (Hok o i) in Hi. simpl in Hi. congruence.
      - rewrite lookup_insert_ne by done. rewrite (Hok o' i). simpl. rewrite lookup_snoc_Some.
        split; [|intros [[_ ?]|[_ ?]]; congruence].
        intros Hi. left. split; [by eapply lookup_lt_Some|done]. }
    destruct (IH _ _ _ Hok1 E) as (Hok' & (more & Hm & Hsub) & Hres). split_and!; [done| |].
    + exists (o :: more). simpl in Hm. rewrite Hm, <- app_assoc. split; [done|set_solver].
    + assert (Hlen : t.1 !! length ext = Some o).
      { rewrite Hm. apply lookup_app_l_Some. simpl. by apply list_lookup_middle. }
      rewrite mapM_Some in *. csimpl. constructor; [|done]. simpl. by rewrite Hlen.
Qed.

(** [stage] runs [template], its bindings denoting [objects]. *)
Definition stage_runs (inputs : list ObjectId) (template : TaskTemplate)
    (objects : list (option ObjectId)) (stage : TaskPipelineStage) : Prop :=
  stage_artifact stage = tt_artifact template ∧ stage_entrypoint stage = tt_entrypoint template ∧
  stage_arguments stage = tt_arguments template ∧
  mapM (resolve_binding inputs) (stage_inputs stage) = Some objects.

(** A later stage reads its static inputs, then the previous output. *)
Definition later_stage_runs (inputs : list ObjectId) (template : TaskTemplate) : TaskPipelineStage → Prop :=
  stage_runs inputs template ((Some <$> tt_inputs template) ++ [None]).

Lemma stage_runs_mono inputs more template objects stage :
  stage_runs inputs template objects stage → stage_runs (inputs ++ more) template objects stage.
Proof. intros (? & ? & ? & ?). split_and!; [done..|]. by apply resolve_binding_mono. Qed.

Lemma fused_later_stages_ok tasks table stages table' :
  table_ok table → fused_later_stages tasks table = (stages, table') →
  table_ok table' ∧ (∃ more, table'.1 = table.1 ++ more ∧ more ⊆ tasks ≫= tt_inputs) ∧
  Forall2 (later_stage_runs table'.1) tasks stages.
Proof.
  revert table stages table'. induction tasks as [|t ts IH]; intros table stages table' Hok; simpl.
  { intros [= <- <-]. split_and!; [done| |constructor]. exists []. by rewrite app_nil_r. }
  destruct (pipeline_external_bindings (tt_inputs t) table) as [bs t1] eqn:E1.
  destruct (fused_later_stages ts t1) as [ss t2] eqn:E2. intros [= <- <-].
  destruct (pipeline_external_bindings_ok _ _ _ _ Hok E1) as (Hok1 & (m1 & Hm1 & Hs1) & Hres).
  destruct (IH _ _ _ Hok1 E2) as (Hok2 & (m2 & Hm2 & Hs2) & Hss). split_and!; [done| |].
  - exists (m1 ++ m2). rewrite Hm2, Hm1, app_assoc. split; [done|]. csimpl. set_solver.
  - constructor; [|done]. split_and!; [done..|]. simpl. rewrite Hm2.
    apply (resolve_binding_mono _ m2) in Hres. rewrite mapM_Some in *.
    apply Forall2_app; [done|]. by repeat constructor.
Qed.

Lemma fused_stages_ok first rest deps stages inputs :
  fused_stages first rest deps = (stages, inputs) →
  NoDup inputs ∧ inputs ⊆ (tt_inputs first ++ deps) ++ (rest ≫= tt_inputs) ∧
  ∃ stage later, stages = stage :: later ∧
    stage_runs inputs first (Some <$> tt_inputs first ++ deps) stage ∧
    Forall2 (later_stage_runs inputs) rest later.
Proof.
  unfold fused_stages.
  destruct (pipeline_external_bindings (tt_inputs first ++ deps) ([], ∅)) as [bs t1] eqn:E1.
  destruct (fused_later_stages rest t1) as [ss [ext idx]] eqn:E2. intros [= <- <-].
  assert (Hok0 : table_ok ([], ∅)).
  { intros o i. simpl. rewrite lookup_empty, lookup_nil. by split. }
  destruct (pipeline_external_bindings_ok _ _ _ _ Hok0 E1)
    as (Hok1 & (m1 & Hm1 & Hs1) & Hres).
  destruct (fused_later_stages_ok _ _ _ _ Hok1 E2) as (Hok2 & (m2 & Hm2 & Hs2) & Hss).
  simpl in *. split_and!.
  - by apply (table_ok_NoDup (ext, idx)).
  - rewrite Hm2, Hm1. set_solver.
  - eexists _, ss. split; [done|]. split; [|done]. rewrite Hm2. apply stage_runs_mono.
    by split_and!.
Qed.

(** Fusing a chain preserves what every stage computes on: the pipeline task
    has one stage per template, with its artifact, entrypoint and arguments;
    read through the task's deduplicated input list, the first stage's bindings
    denote the template's static inputs followed by the dependencies, and each
    later stage's denote its own static inputs followed by the previous stage's
    output; the inputs are exactly objects some stage reads, each listed once;
    and the task is Pure, under the given requirements, with the last
    template's output size. *)
Theorem fused_pipeline_correct first rest deps requirements w :
  match (fused_pipeline_task (E:=unit) (first :: rest) deps requirements w).1 with
  | Ok task =>
      (∃ stage later, ts_pipeline task = Some (stage :: later) ∧
        stage_runs (ts_inputs task) first (Some <$> tt_inputs first ++ deps) stage ∧
        Forall2 (later_stage_runs (ts_inputs task)) rest later) ∧
      NoDup (ts_inputs task) ∧
      ts_inputs task ⊆ (tt_inputs first ++ deps) ++ (rest ≫= tt_inputs) ∧
      ts_requirements task = requirements ∧ ts_effects task = Pure ∧
      Some (output_bytes (ts_cost task)) = output_bytes ∘ tt_cost <$> list.last (first :: rest)
  | _ => False
  end.
Proof.
  unfold fused_pipeline_task, bind, instantiate, new_id, new_v4, ret. simpl.
  destruct (fused_stages first rest deps) as [stages inputs] eqn:E.
  destruct (fused_stages_ok _ _ _ _ _ E) as (Hnd & Hsub & stage & later & -> & Hfirst & Hlater). simpl.
  split_and!; [by exists stage, later|done..|].
  destruct (list.last (first :: rest)) eqn:Hl; [done|]. by apply last_None in Hl.
Qed.

(** ** The choices for a prefix *)

(** One implementation per role of the chain, whose requirements are met
    wherever the combined ones are. *)
Definition choice_ok (chain : list LogicalRoleSpec) (choice : FusedImplementationChoice) : Prop :=
  ∃ implementations,
    Forall2 (λ role i, i ∈ lr_implementations role) chain implementations ∧
    fic_names choice = ri_name <$> implementations ∧
    fic_tasks choice = ri_task <$> implementations ∧
    ∀ resource, supports resource (fic_requirements choice) = true →
      Forall (λ i, supports resource (tt_requirements (ri_task i)) = true) implementations.

Lemma extend_choice_ok chain role choice implementation choice' :
  choice_ok chain choice → implementation ∈ lr_implementations role →
  extend_choice choice implementation = Some choice' → choice_ok (chain ++ [role]) choice'.
Proof.
  intros (impls & His & Hn & Ht & Hs) Hin. unfold extend_choice. rewrite bind_Some.
  intros (req & Hreq & [= <-]). exists (impls ++ [implementation]). simpl. split_and!.
  - apply Forall2_app; [done|]. by repeat constructor.
  - by rewrite Hn, fmap_app.
  - by rewrite Ht, fmap_app.
  - intros resource [Hl Hr]%(combine_requirements_ok _ _ _ _ Hreq).
    apply Forall_app. split; [by apply Hs|by apply Forall_singleton].
Qed.

Lemma fused_implementation_choices_ok chain :
  Forall (choice_ok chain) (fused_implementation_choices chain).
Proof.
  destruct chain as [|first rest]; simpl; [constructor|].
  cut (∀ done choices, Forall (choice_ok done) choices → Forall (choice_ok (done ++ rest))
    (fold_left (λ previous role, previous ≫= λ choice, omap (extend_choice choice) (lr_implementations role))
      rest choices)).
  { intros H. apply (H [first]), Forall_fmap, Forall_forall. intros i Hi. exists [i].
    simpl. split_and!; [by repeat constructor|done|done|]. intros r Hr. by apply Forall_singleton. }
  induction rest as [|role rest IH]; intros chain choices Hc; simpl; [by rewrite app_nil_r|].
  replace (chain ++ role :: rest) with ((chain ++ [role]) ++ rest) by by rewrite <- app_assoc.
  apply IH, Forall_forall. intros choice' Hin.
  apply list_elem_of_bind in Hin as (choice & (i & Hi & He)%list_elem_of_omap & Hch).
  rewrite Forall_forall in Hc. eapply extend_choice_ok; eauto.
Qed.

(** ** Selecting a fusion always answers *)

Section fusion_total.
Context `{HashOrder} (context : FusionContext).

Lemma fc_cost_fault_free task resource objects : fault_free (fc_cost context task resource objects).
Proof. apply placement_cost_fault_free. Qed.







End fusion_total.

(** ** Executing a chain's roles one by one

    What the dynamic program searches, without its maps: one implementation and
    one resource after the other, each role's task placed when the output of the
    one before it lies where that ran. *)

Section separate_runs.
Context (context : FusionContext).
Let resources := ctx_resources (fc_context context).
Let objects := ctx_objects (fc_context context).
Implicit Types previous state : SeparateChainState.

(** [role] runs first, on [inputs]: its cost is the total. *)
Definition runs_first (role : LogicalRoleSpec) (inputs : list ObjectId) state : Prop :=
  ∃ index implementation resource task cost,
    lr_implementations role !! index = Some implementation ∧ resource ∈ resources ∧
    runs_whole (ri_task implementation) inputs task ∧ fc_cost context task resource objects = Ok cost ∧
    state = mkSeparateChainState (Z.of_nat index) (rd_id resource)
              (output_bytes (tt_cost (ri_task implementation))) (pb_total_ms cost) 0 false false.

(** The output of [previous] crosses to another resource, or stays: the saved
    transfer, that it crossed, and that the advisor would fuse there. *)
Definition crosses previous (resource : ResourceId) (saved : f64) (crossed trigger : bool) : Prop :=
  (scs_resource_id previous = resource ∧ saved = scs_cross_transfer_ms previous ∧
    crossed = scs_has_cross_resource_edge previous ∧ trigger = scs_has_fusion_trigger_edge previous) ∨
  (scs_resource_id previous ≠ resource ∧ ∃ link,
    topology_link (ctx_topology (fc_context context)) (scs_resource_id previous) resource = Some link ∧
    let advice := evaluate (fc_advisor context) (scs_output_bytes previous) link in
    saved = (scs_cross_transfer_ms previous + fr_estimated_saved_transfer_ms advice)%float ∧
    crossed = true ∧ trigger = scs_has_fusion_trigger_edge previous || fr_should_fuse advice).

(** [role] runs next, on the output of [previous]: its cost is added. *)
Definition runs_next (role : LogicalRoleSpec) previous state : Prop :=
  ∃ index implementation resource intermediate task cost saved crossed trigger,
    lr_implementations role !! index = Some implementation ∧ resource ∈ resources ∧
    runs_whole (ri_task implementation) [intermediate] task ∧
    fc_cost context task resource
      (<[intermediate := mkObjectMetadata intermediate (scs_output_bytes previous) None None
                           [scs_resource_id previous] None]> objects) = Ok cost ∧
    crosses previous (rd_id resource) saved crossed trigger ∧
    state = mkSeparateChainState (Z.of_nat index) (rd_id resource)
              (output_bytes (tt_cost (ri_task implementation)))
              (scs_total_ms previous + pb_total_ms cost)%float saved crossed trigger.

(** The roles run one after the other. *)
Inductive runs_on : SeparateChainState → list LogicalRoleSpec → SeparateChainState → Prop :=
| runs_on_nil state : runs_on state [] state
| runs_on_cons previous role roles next state :
    runs_next role previous next → runs_on next roles state → runs_on previous (role :: roles) state.
Definition separate_run (chain : list LogicalRoleSpec) (inputs : list ObjectId) state : Prop :=
  ∃ role rest first, chain = role :: rest ∧ runs_first role inputs first ∧ runs_on first rest state.

Lemma runs_on_snoc previous roles role next state :
  runs_on previous roles next → runs_next role next state → runs_on previous (roles ++ [role]) state.
Proof. induction 1; simpl; intros; eapply runs_on_cons; eauto using runs_on_nil. Qed.

Abbreviation all_states P := (map_Forall (λ (_ : ChainKey) (state : SeparateChainState), P state)).
Implicit Types P : SeparateChainState → Prop.

Lemma insert_better_all P (states : ChainStates) candidate :
  all_states P states → P candidate → all_states P (insert_better_chain_state states candidate).
Proof. intros Hall HP. unfold insert_better_chain_state. destruct (match _ with Some _ => _ | None => _ end); [by apply map_Forall_insert_2|done]. Qed.

Lemma chain_transition_next role previous index implementation resource intermediate task cost :
  lr_implementations role !! index = Some implementation → resource ∈ resources →
  runs_whole (ri_task implementation) [intermediate] task →
  fc_cost context task resource (<[intermediate := intermediate_object intermediate previous]> objects) = Ok cost →
  opost (chain_transition context previous (Z.of_nat index) implementation resource cost) (runs_next role previous).
Proof.
  intros Himpl Hres Htask Hcost. unfold chain_transition.
  case_bool_decide as Hsame; cbn [obind].
  - exists index, implementation, resource, intermediate, task, cost. eexists _, _, _.
    split_and!; [done..| |reflexivity]. by left.
  - destruct (topology_link _ _ _) as [link|] eqn:Hlink; cbn; [|done].
    exists index, implementation, resource, intermediate, task, cost. eexists _, _, _.
    split_and!; [done..| |reflexivity]. right. split; [done|]. by exists link.
Qed.

(** A loop over a list keeps what every element keeps. *)
Lemma yields_cfold_in {S E A B} (f : B → A → comp S E B) (I : B → Prop) l b :
  I b → (∀ b a, a ∈ l → I b → yields (f b a) I) → yields (cfold f b l) I.
Proof.
  intros Hb Hf. apply (yields_cfold f (λ b l', l' ⊆ l ∧ I b)); [by split| |by intros ? []].
  intros b' a l' [Hl HI]. eapply yields_mono; [apply Hf; [set_solver|done]|]. intros b'' HI''. split; [set_solver|done].
Qed.
Lemma opost_ofold_in {E A B} (f : B → A → outcome E B) (I : B → Prop) l b :
  I b → (∀ b a, a ∈ l → I b → opost (f b a) I) → opost (ofold f b l) I.
Proof.
  intros Hb Hf. apply (opost_ofold f (λ b l', l' ⊆ l ∧ I b)); [by split| |by intros ? []].
  intros b' a l' [Hl HI]. eapply opost_mono; [apply Hf; [set_solver|done]|]. intros b'' HI''. split; [set_solver|done].
Qed.

Lemma opost_otry_cost {B} task resource known (k : option PlacementBreakdown → optional B) φ :
  (∀ cost, fc_cost context task resource known = Ok cost → opost (k (Some cost)) φ) → opost (k None) φ →
  opost (obind (otry (fc_cost context task resource known)) k) φ.
Proof.
  intros Hk Hnone. pose proof (fc_cost_fault_free context task resource known).
  destruct (fc_cost _ _ _ _); simpl; auto; done.
Qed.

(** The loop shared by both steps of the dynamic program: all implementations
    of a role on all resources. *)
Lemma advance_one_state_runs P (role : LogicalRoleSpec) (states : ChainStates) previous :
  all_states P states → (∀ state, runs_next role previous state → P state) →
  yields (advance_one_state context role states previous) (all_states P).
Proof.
  intros Hall HP. unfold advance_one_state. eapply yields_bind; [apply yields_new_id|]. intros intermediate _.
  apply yields_cfold_in; [done|]. intros sts [index implementation] Hin Hsts.
  apply elem_of_lookup_imap in Hin as (i & impl & [= -> ->] & Himpl).
  eapply yields_bind; [apply yields_instantiate|]. intros task [id ->].
  apply yields_lift, opost_ofold_in; [done|]. intros sts' resource Hres Hsts'.
  apply opost_otry_cost; [|done]. intros cost Hcost.
  eapply opost_bind; [eapply chain_transition_next; [exact Himpl|done|apply instantiate_runs_whole|exact Hcost]|].
  intros state Hstate. apply insert_better_all; auto.
Qed.
Lemma first_chain_states_run role inputs :
  yields (first_chain_states context role inputs) (all_states (runs_first role inputs)).
Proof.
  unfold first_chain_states. apply yields_cfold_in; [by apply map_Forall_empty|].
  intros sts [index implementation] Hin Hsts. apply elem_of_lookup_imap in Hin as (i & impl & [= -> ->] & Himpl).
  eapply yields_bind; [apply yields_instantiate|]. intros task [id ->].
  apply yields_lift, opost_ofold_in; [done|]. intros sts' resource Hres Hsts'.
  apply opost_otry_cost; [|done]. intros cost Hcost. apply insert_better_all; [done|].
  eexists i, impl, resource, _, cost. split_and!; [done|done|apply instantiate_runs_whole|done|done].
Qed.

Context `{HashOrder}.

Lemma all_hash_values P (states : ChainStates) : all_states P states → Forall P (hash_values states).
Proof. intros Hall. apply Forall_forall. intros s [k Hk]%elem_of_hash_values. by eapply Hall. Qed.

(** A state reached from one that satisfies [Q]. *)
Definition reached (Q : SeparateChainState → Prop) (roles : list LogicalRoleSpec) state : Prop :=
  ∃ seed, Q seed ∧ runs_on seed roles state.

Lemma advance_chain_states_reached Q before states role :
  all_states (reached Q before) states →
  yields (advance_chain_states context states role) (all_states (reached Q (before ++ [role]))).
Proof.
  intros Hall. unfold advance_chain_states. eapply yields_bind with (all_states (reached Q (before ++ [role]))).
  - apply yields_cfold_in; [by apply map_Forall_empty|]. intros sts previous Hin Hsts.
    apply all_hash_values in Hall. rewrite Forall_forall in Hall. destruct (Hall _ Hin) as (seed & HQ & Hruns).
    apply advance_one_state_runs; [done|]. intros state Hstate. exists seed. split; [done|]. by eapply runs_on_snoc.
  - intros sts Hsts. case_bool_decide; [apply yields_throw|by apply yields_ret].
Qed.
Lemma advance_chain_reached Q before roles states :
  all_states (reached Q before) states →
  yields (cfold (advance_chain_states context) states roles) (all_states (reached Q (before ++ roles))).
Proof.
  revert before states. induction roles as [|role roles IH]; intros before states Hall; simpl.
  - rewrite app_nil_r. by apply yields_ret.
  - eapply yields_bind; [by apply advance_chain_states_reached|]. intros sts Hsts.
    replace (before ++ role :: roles) with ((before ++ [role]) ++ roles) by by rewrite <- app_assoc. by apply IH.
Qed.

(** The paths found for a chain are ways to execute it, the second one across
    resources. *)
Lemma separate_chain_paths_run chain inputs :
  yields (separate_chain_paths context chain inputs) (λ paths,
    separate_run chain inputs (scp_best paths) ∧
    ∀ cross, scp_best_cross_resource paths = Some cross →
      separate_run chain inputs cross ∧ scs_has_cross_resource_edge cross = true).
Proof.
  destruct chain as [|first rest]; simpl; [apply yields_throw|].
  eapply yields_bind; [apply first_chain_states_run|]. intros states Hfirst.
  case_bool_decide; [apply yields_throw|].
  eapply yields_bind with (all_states (separate_run (first :: rest) inputs)).
  { eapply yields_mono; [apply (advance_chain_reached (runs_first first inputs) [])|].
    - intros k s Hs. exists s. split; [by eapply Hfirst|constructor].
    - intros sts Hsts k s Hs. destruct (Hsts _ _ Hs) as (seed & HQ & Hruns). by exists first, rest, seed. }
  intros sts Hsts%all_hash_values. rewrite Forall_forall in Hsts.
  eapply yields_bind; [apply yields_ok_or_throw; intros best; apply min_by_elem|]. intros best Hbest.
  apply yields_ret. split; [by apply Hsts|]. intros cross Hcross%min_by_elem. 
  apply list_elem_of_In, List.filter_In in Hcross as [Hin%list_elem_of_In Htrue]. split; [by apply Hsts|done].
Qed.

(** The total of a tail is that of a way to execute it. *)
Definition seed_state (resource : ResourceId) (bytes : Z) (total : f64) : SeparateChainState :=
  mkSeparateChainState u64_max resource bytes total 0 false false.
Lemma best_chain_tail_total_run tail bytes resource total :
  yields (best_chain_tail_total context tail bytes resource total) (λ projected,
    ∃ state, runs_on (seed_state resource bytes total) tail state ∧ projected = scs_total_ms state).
Proof.
  unfold best_chain_tail_total. eapply yields_bind.
  { apply (advance_chain_reached (λ seed, seed = seed_state resource bytes total) []).
    apply map_Forall_singleton. eexists. split; [done|constructor]. }
  intros sts Hsts%all_hash_values. apply yields_ok_or_throw. intros projected Hmin%min_by_elem.
  apply list_elem_of_fmap in Hmin as (state & -> & Hin). rewrite Forall_forall in Hsts.
  destruct (Hsts _ Hin) as (seed & -> & Hruns). by exists state.
Qed.
End separate_runs.

(** ** What a selected fusion is *)

(** The pipeline task of [implementations], for the ids drawn from some world. *)
Definition fused_task_of (implementations : list RoleImplementation) (deps : list ObjectId)
    (requirements : ResourceRequirements) (task : TaskSpec) : Prop :=
  ∃ w, (fused_pipeline_task (E:=unit) (ri_task <$> implementations) deps requirements w).1 = Ok task.

Section fusion_ok.
Context `{HashOrder} (context : FusionContext).

(** What a fused prefix that ends in [last] and runs on [resource] for [cost]
    costs, projected to the end of the chain: the rest of the chain is executed
    role by role from there, as cheaply as the search finds. *)
Definition projected_total (tail : list LogicalRoleSpec) (last : RoleImplementation) (resource : ResourceId)
    (cost projected : f64) : Prop :=
  (tail = [] → projected = cost) ∧
  (tail ≠ [] → ∃ w, (best_chain_tail_total context tail (output_bytes (tt_cost (ri_task last))) resource cost w).1
                     = Ok projected) ∧
  ∃ state, runs_on context (seed_state resource (output_bytes (tt_cost (ri_task last))) cost) tail state ∧
    projected = scs_total_ms state.

(** The selection against separate execution.  [full] is what the search finds
    for the whole chain and [prefix] what it finds for the fused roles alone:
    both are totals of ways to execute those roles one by one.  The gain is the
    first total less the selection's projected one, and not negative; the
    transfers avoided are those of a way across resources that has a transfer
    at which the advisor would fuse. *)
Definition beats_separate (chain : list LogicalRoleSpec) (deps : list ObjectId) (n : nat)
    (last : RoleImplementation) (sel : ReadyFusionSelection) : Prop :=
  ∃ full prefix cross projected,
    (∃ w, (separate_chain_paths context chain deps w).1 = Ok full) ∧
    separate_run context chain deps (scp_best full) ∧
    projected_total (drop n chain) last (rfs_resource_id sel) (pb_total_ms (rfs_cost sel)) projected ∧
    rfs_estimated_vs_separate_ms sel = (scs_total_ms (scp_best full) - projected)%float ∧
    (scs_total_ms (scp_best full) - projected <? 0)%float = false ∧
    (∃ w, (separate_chain_paths context (take n chain) deps w).1 = Ok prefix) ∧
    scp_best_cross_resource prefix = Some cross ∧
    separate_run context (take n chain) deps cross ∧
    scs_has_cross_resource_edge cross = true ∧ scs_has_fusion_trigger_edge cross = true ∧
    rfs_estimated_avoided_transfer_ms sel = scs_cross_transfer_ms cross.

Definition fusion_ok (chain : list LogicalRoleSpec) (deps : list ObjectId)
    (sel : ReadyFusionSelection) : Prop :=
  ∃ n implementations,
    (2 <= n <= fusable_prefix_len chain)%nat ∧
    Forall2 (λ role i, i ∈ lr_implementations role) (take n chain) implementations ∧
    rfs_implementations sel = ri_name <$> implementations ∧
    fused_task_of implementations deps (ts_requirements (rfs_task sel)) (rfs_task sel) ∧
    (∃ resource, resource ∈ ctx_resources (fc_context context) ∧
      rd_id resource = rfs_resource_id sel ∧
      Forall (λ i, supports resource (tt_requirements (ri_task i)) = true) implementations ∧
      placement_cost_in (fc_context context) (rfs_task sel) resource = Ok (rfs_cost sel)) ∧
    ∃ last, list.last implementations = Some last ∧ beats_separate chain deps n last sel.
End fusion_ok.

Lemma fused_pipeline_task_runs tasks deps requirements w :
  tasks ≠ [] →
  ∃ task, (fused_pipeline_task (E:=unit) tasks deps requirements w).1 = Ok task ∧
    ts_requirements task = requirements.
Proof.
  intros Hne. destruct tasks as [|first rest]; [done|].
  unfold fused_pipeline_task, bind, instantiate, new_id, new_v4, ret. simpl.
  destruct (fused_stages first rest deps) as [stages inputs]. simpl. by eexists.
Qed.

Lemma placement_cost_feasible scheduler task resource objects topology cost :
  inputs_known task objects → feasible scheduler task objects topology resource cost →
  placement_cost scheduler task resource objects topology = Ok cost.
Proof.
  intros Hk [Hs Hc]. unfold placement_cost. rewrite choose_known by done. csimpl.
  unfold cost_of. by rewrite Hs, Hc.
Qed.

Lemma choose_Ok_known self task resources objects topology d :
  choose self task resources objects topology = Ok d → inputs_known task objects.
Proof. unfold choose. destruct (List.find _ _) eqn:E; [done|]. intros _. by apply find_missing_None. Qed.

Lemma fusable_prefix_len_le chain : (fusable_prefix_len chain <= length chain)%nat.
Proof. induction chain as [|r c IH]; simpl; [lia|]. case_match; lia. Qed.

Section fusion_selection.
Context `{HashOrder} (context : FusionContext) (chain : list LogicalRoleSpec) (deps : list ObjectId).

Lemma fused_pipeline_task_yields implementations requirements :
  implementations ≠ [] →
  yields (fused_pipeline_task (E:=unit) (ri_task <$> implementations) deps requirements)
    (λ task, fused_task_of implementations deps requirements task ∧ ts_requirements task = requirements).
Proof.
  intros Hne w. unfold fused_task_of.
  destruct (fused_pipeline_task_runs (ri_task <$> implementations) deps requirements w) as (task & E & ?).
  { by destruct implementations. }
  rewrite E. simpl. eauto.
Qed.

(** The searches whose answers a candidate is compared with. *)
Definition searched (n : nat) (full prefix : SeparateChainPaths) (cross : SeparateChainState) : Prop :=
  (separate_run context chain deps (scp_best full) ∧ ∃ w, (separate_chain_paths context chain deps w).1 = Ok full) ∧
  (∃ w, (separate_chain_paths context (take n chain) deps w).1 = Ok prefix) ∧
  scp_best_cross_resource prefix = Some cross ∧ separate_run context (take n chain) deps cross ∧
  scs_has_cross_resource_edge cross = true ∧ scs_has_fusion_trigger_edge cross = true.

(** The projected total of a candidate. *)
Lemma projected_total_yields n last d :
  (n <= length chain)%nat →
  yields (if (n =? length chain)%nat then ret (Some (pb_total_ms (pd_cost d)))
          else
            let* last_task := expect (Some (ri_task last)) in
            try (E':=unit) (best_chain_tail_total context (drop n chain) (output_bytes (tt_cost last_task))
                   (pd_resource_id d) (pb_total_ms (pd_cost d))))
    (λ o, ∀ projected, o = Some projected →
       projected_total context (drop n chain) last (pd_resource_id d) (pb_total_ms (pd_cost d)) projected).
Proof.
  intros Hn. destruct (Nat.eqb_spec n (length chain)) as [->|Hne].
  - apply yields_ret. intros projected [= <-]. rewrite drop_all. split_and!; [done|done|].
    eexists. split; [constructor|done].
  - eapply yields_bind with (λ t, t = ri_task last); [apply yields_expect; by eexists|]. intros t ->.
    eapply yields_mono; [apply yields_try, yields_answer, best_chain_tail_total_run|].
    intros [p|] Ho; [|done]. intros projected [= <-]. destruct Ho as [Hrun Hanswer]. split_and!; [|done|done].
    intros Hnil%(f_equal length). rewrite length_drop in Hnil. simpl in Hnil. lia.
Qed.

Lemma fusion_candidate_ok n full prefix cross choice :
  (2 <= n <= fusable_prefix_len chain)%nat → choice_ok (take n chain) choice → searched n full prefix cross →
  yields (fusion_candidate context chain n deps full cross choice)
    (λ o, ∀ sel, o = Some sel → fusion_ok context chain deps sel).
Proof.
  intros Hn (impls & His & Hnames & Htasks & Hsup) Hsearched. unfold fusion_candidate.
  pose proof (fusable_prefix_len_le chain) as Hfus.
  assert (Hlen : length impls = n).
  { rewrite <- (Forall2_length _ _ _ His), length_take. lia. }
  destruct (list.last impls) as [last|] eqn:Hlast; [|apply last_None in Hlast; subst; simpl in Hn; lia].
  rewrite Htasks. eapply yields_bind.
  { apply fused_pipeline_task_yields. intros ->. simpl in Hlen. lia. }
  intros task [Htask Hreq].
  eapply yields_bind.
  { apply yields_try, (yields_lift _ (λ d, choose (ctx_scheduler (fc_context context)) task
      (ctx_resources (fc_context context)) (ctx_objects (fc_context context))
      (ctx_topology (fc_context context)) = Ok d)).
    pose proof (choose_fault_free (ctx_scheduler (fc_context context)) task
      (ctx_resources (fc_context context)) (ctx_objects (fc_context context))
      (ctx_topology (fc_context context))). by destruct (choose _ _ _ _ _). }
  intros [d|] Hd; [|by apply yields_ret].
  eapply yields_bind; [rewrite fmap_last, Hlast; apply (projected_total_yields n last d); lia|].
  intros [projected|] Hprojected; [|by apply yields_ret].
  case_match eqn:Hneg; apply yields_ret; [done|]. intros sel [= <-].
  destruct Hsearched as ((Hfull & Hfull') & Hprefix & Hcross & Hrun & Hedge & Htrigger).
  exists n, impls. simpl. split_and!; try done; [lia|lia|by rewrite Hreq| |].
  - destruct (choose_Ok_feasible _ _ _ _ _ _ Hd) as (r & Hr & Hid & Hf).
    exists r. split_and!; [done|done| |].
    + apply Hsup. destruct Hf as [Hf _]. by rewrite Hreq in Hf.
    + apply placement_cost_feasible; [|done]. by eapply choose_Ok_known.
  - exists last. split; [done|]. exists full, prefix, cross, projected. simpl. auto 20.
Qed.

Lemma select_ready_fusion_ok :
  yields (select_ready_fusion context chain deps) (fusion_ok context chain deps).
Proof.
  unfold select_ready_fusion. case_match eqn:Hlt; [apply yields_throw|]. apply Nat.ltb_ge in Hlt.
  eapply yields_bind; [apply yields_answer, separate_chain_paths_run|]. intros full [[Hfull _] Hfull'].
  eapply yields_bind with (λ best, ∀ sel, best = Some sel → fusion_ok context chain deps sel).
  { apply (yields_cfold _ (λ best l, l ⊆ seq 2 (fusable_prefix_len chain - 1) ∧
      ∀ sel, best = Some sel → fusion_ok context chain deps sel)); [by split| |by intros b [_ ?]].
    intros best n l [Hl Hbest].
    assert (Hn : n ∈ seq 2 (fusable_prefix_len chain - 1)) by set_solver.
    apply elem_of_seq in Hn.
    eapply yields_mono with (λ best, ∀ sel, best = Some sel → fusion_ok context chain deps sel);
      [|intros b Hb; split; [set_solver|done]].
    unfold fusion_prefix. eapply yields_bind; [apply yields_answer, separate_chain_paths_run|].
    intros sep [[_ Hcrosses] Hsep].
    destruct (scp_best_cross_resource sep) as [cross|] eqn:Hcross; [|by apply yields_ret].
    destruct (scs_has_fusion_trigger_edge cross) eqn:Htrigger; simpl; [|by apply yields_ret].
    assert (searched n full sep cross) as Hsearched by (destruct (Hcrosses _ eq_refl); by split_and!).
    apply (yields_cfold _ (λ best l, l ⊆ fused_implementation_choices (take n chain) ∧
      ∀ sel, best = Some sel → fusion_ok context chain deps sel)); [by split| |by intros b [_ ?]].
    clear best Hbest. intros best choice l' [Hl' Hbest].
    assert (Hc : choice ∈ fused_implementation_choices (take n chain)) by set_solver.
    pose proof (fused_implementation_choices_ok (take n chain)) as Hall. rewrite Forall_forall in Hall.
    eapply yields_bind; [eapply fusion_candidate_ok; [lia|by apply Hall|done]|]. intros cand Hcand.
    apply yields_ret. split; [set_solver|]. destruct cand as [cand|]; [|done].
    intros sel. case_match; [|apply Hbest]. intros [= <-]. by apply Hcand. }
  intros best Hbest. by apply yields_ok_or_throw.
Qed.
End fusion_selection.

(** C38 Fusion is selected soundly: the search always answers, whatever order
    the hash maps of the dynamic program iterate in; and a selected fusion is a
    prefix of at least two roles of the chain all of whose implementations are
    fusable, one implementation per role, run as their pipeline task on a
    resource of the snapshot that meets the requirements of every stage and
    reaches every input.  Its gain over separate execution is the total the
    search finds for running the whole chain role by role, less the selection's
    cost together with running the rest of the chain from there, and is not
    negative; both totals are those of ways to run those roles one by one, each
    role's task placed when the output before it lies where that ran, and the
    saved transfer is that of a way to run the fused roles in which a transfer
    between resources occurs at which the advisor would fuse. *)
Theorem fusion_selection_sound `{HashOrder} context chain deps w :
  match (select_ready_fusion context chain deps w).1 with
  | Ok sel => fusion_ok context chain deps sel
  | Err _ => True
  | Panic | Diverged => False
  end.
Proof. apply (select_ready_fusion_ok context chain deps w). Qed.
