(* ===== verification/LogicalJob.v ===== *)
(** * crates/plurifold-runtime/src/planner.rs: accepting logical jobs

    [validate_logical_job] checks a logical job on its own,
    [validate_logical_job_objects] against the published objects. *)

From S2P Require Import Prelude Float64 World Text Core Scheduler RoleGraph Partition.

Open Scope string_scope.
Open Scope list_scope.
Open Scope Z_scope.

Inductive PlanError :=
| InvalidLogicalJob (message : string)
| NoFeasibleImplementation (role : string).

Definition MAX_AUTO_SHARDS : Z := 256.
Definition MAX_REDUCTION_FAN_IN : Z := 64.

Definition logical_graph (spec : LogicalJobSpec) : RoleGraph :=
  (λ role, (lr_name role, lr_depends_on role)) <$> lj_roles spec.

(** An early return with an error when a condition holds. *)
Definition reject_if (condition : bool) (message : string) : outcome PlanError unit :=
  if condition then Err (InvalidLogicalJob message) else Ok tt.

(** The [match &role.shards] of [validate_logical_job]. *)
Definition validate_shards (role : LogicalRoleSpec) : outcome PlanError unit :=
  let name := lr_name role in
  match lr_shards role with
  | Fixed count =>
      reject_if (count =? 0) ("role " +:+ name +:+ " must request at least one shard")
  | PolicyAuto policy =>
      let? _ := reject_if ((ap_max_shards policy =? 0) || (MAX_AUTO_SHARDS <? ap_max_shards policy))
        ("role " +:+ name +:+ " auto max_shards must be between 1 and " +:+ show MAX_AUTO_SHARDS) in
      let? _ := reject_if (negb (f64_is_finite (ap_per_shard_overhead_ms policy))
                           || (ap_per_shard_overhead_ms policy <? 0)%float)
        ("role " +:+ name +:+ " auto per_shard_overhead_ms must be finite and non-negative") in
      reject_if (negb (f64_is_finite (ap_min_gain_ratio policy))
                 || (ap_min_gain_ratio policy <? 0)%float
                 || (1 <=? ap_min_gain_ratio policy)%float)
        ("role " +:+ name +:+ " auto min_gain_ratio must be in [0, 1)")
  end.

(** The [if let Some(reduction)] of [validate_logical_job]. *)
Definition validate_reduction (role : LogicalRoleSpec) : outcome PlanError unit :=
  let name := lr_name role in
  match lr_reduction role with
  | None => Ok tt
  | Some reduction =>
      let? _ := reject_if (bool_decide (fixed_count (lr_shards role) = Some 1))
        ("role " +:+ name +:+ " cannot reduce an unsharded fixed role") in
      let? _ := reject_if (bool_decide (trim (rr_name reduction) = ""))
        ("role " +:+ name +:+ " reduction name cannot be empty") in
      let? _ := reject_if ((rr_max_fan_in reduction <? 2)
                           || (MAX_REDUCTION_FAN_IN <? rr_max_fan_in reduction))
        ("role " +:+ name +:+ " reduction max_fan_in must be between 2 and "
           +:+ show MAX_REDUCTION_FAN_IN) in
      let? _ := reject_if (negb (f64_is_finite (rr_locality_rtt_ms reduction))
                           || (rr_locality_rtt_ms reduction <? 0)%float)
        ("role " +:+ name +:+ " reduction locality_rtt_ms must be finite and non-negative") in
      let? _ := reject_if (negb (bool_decide (tt_inputs (rr_task reduction) = [])))
        ("role " +:+ name +:+ " reduction task cannot declare static inputs") in
      reject_if (negb (bool_decide (tt_effects (rr_task reduction) = Pure)))
        ("role " +:+ name +:+ " reduction task must be Pure")
  end.

(** The [if let Some(policy) = role.shards.auto()] of [validate_logical_job];
    it indexes the first implementation. *)
Definition validate_partition (role : LogicalRoleSpec) : outcome PlanError unit :=
  let name := lr_name role in
  match auto_policy (lr_shards role) with
  | None => Ok tt
  | Some policy =>
      let input_index := partition_spec_input (ap_partition policy) in
      let? _ :=
        match ap_partition policy with
        | SpecRecords _ offsets =>
            reject_if ((length offsets <? 2)%nat
                       || negb (bool_decide (head offsets = Some 0))
                       || negb (strictly_increasing offsets))
              ("role " +:+ name +:+ " record offsets must start at 0 and be strictly increasing")
        | SpecByteRange _ => Ok tt
        end in
      match lr_implementations role with
      | [] => Panic
      | first :: _ =>
          let? expected_input :=
            ok_or (InvalidLogicalJob
                     ("role " +:+ name +:+ " auto partition input " +:+ show_nat input_index
                        +:+ " is not an explicit TaskTemplate input"))
              (tt_inputs (ri_task first) !! input_index) in
          reject_if (existsb (λ implementation,
                         negb (bool_decide (tt_inputs (ri_task implementation) !! input_index
                                            = Some expected_input)))
                       (lr_implementations role))
            ("role " +:+ name +:+ " auto partition input " +:+ show_nat input_index
               +:+ " must reference the same Object across implementations")
      end
  end.

Definition validate_implementation_names (role : LogicalRoleSpec) : outcome PlanError (gset string) :=
  ofold (λ implementation_names implementation,
      let? _ := reject_if (bool_decide (trim (ri_name implementation) = ""))
        ("role " +:+ lr_name role +:+ " has an implementation with an empty name") in
      let? _ := reject_if (bool_decide (ri_name implementation ∈ implementation_names))
        ("role " +:+ lr_name role +:+ " has duplicate implementation " +:+ ri_name implementation) in
      Ok ({[ri_name implementation]} ∪ implementation_names))
    (∅ : gset string) (lr_implementations role).

Definition validate_role (role : LogicalRoleSpec) : outcome PlanError unit :=
  let? _ := validate_shards role in
  let? _ := validate_reduction role in
  let? _ := reject_if (bool_decide (length (lr_implementations role) = 0%nat))
    ("role " +:+ lr_name role +:+ " has no implementations") in
  let? _ := validate_partition role in
  let? _ := validate_implementation_names role in
  Ok tt.

(** [validate_logical_job] *)
Definition validate_logical_job (spec : LogicalJobSpec) : outcome PlanError unit :=
  let? _ := map_err InvalidLogicalJob (validate_role_graph (logical_graph spec) (lj_outputs spec)) in
  ofold (λ _ role, validate_role role) tt (lj_roles spec).

(** One role of [validate_logical_job_objects]. *)
Definition validate_role_objects `{UuidCrate} (role : LogicalRoleSpec) (objects : Objects) :
    outcome PlanError unit :=
  match auto_policy (lr_shards role) with
  | Some policy =>
      match ap_partition policy with
      | SpecRecords input offsets =>
          let? object_id :=
            ok_or (InvalidLogicalJob
                     ("role " +:+ lr_name role +:+ " record partition input " +:+ show_nat input
                        +:+ " is missing"))
              (implementation ← head (lr_implementations role);
               tt_inputs (ri_task implementation) !! input) in
          let? object :=
            ok_or (InvalidLogicalJob
                     ("role " +:+ lr_name role +:+ " record partition requires published object "
                        +:+ id_to_string object_id))
              (objects !! object_id) in
          reject_if (negb (valid_record_offsets offsets (om_size_bytes object)))
            ("role " +:+ lr_name role +:+ " record offsets must end at object size "
               +:+ show (om_size_bytes object))
      | SpecByteRange _ => Ok tt
      end
  | None => Ok tt
  end.

(** [validate_logical_job_objects] *)
Definition validate_logical_job_objects `{UuidCrate} (spec : LogicalJobSpec) (objects : Objects) :
    outcome PlanError unit :=
  ofold (λ _ role, validate_role_objects role objects) tt (lj_roles spec).

(** ** Accepted jobs *)

Definition finite_nonnegative (x : f64) : Prop := f64_is_finite x = true ∧ (x <? 0)%float = false.

Definition shards_wf (policy : ShardPolicy) : Prop :=
  match policy with
  | Fixed count => count ≠ 0
  | PolicyAuto p =>
      ap_max_shards p ≠ 0 ∧ ap_max_shards p ≤ MAX_AUTO_SHARDS ∧
      finite_nonnegative (ap_per_shard_overhead_ms p) ∧
      finite_nonnegative (ap_min_gain_ratio p) ∧ (1 <=? ap_min_gain_ratio p)%float = false
  end.

Definition reduction_wf (policy : ShardPolicy) (reduction : RoleReductionSpec) : Prop :=
  policy ≠ Fixed 1 ∧ trim (rr_name reduction) ≠ "" ∧
  2 ≤ rr_max_fan_in reduction ≤ MAX_REDUCTION_FAN_IN ∧
  finite_nonnegative (rr_locality_rtt_ms reduction) ∧
  tt_inputs (rr_task reduction) = [] ∧ tt_effects (rr_task reduction) = Pure.

(** The partition input is one object, the same in every implementation. *)
Definition partition_wf (implementations : list RoleImplementation) (partition : ShardPartitionSpec) : Prop :=
  (∃ object, Forall (λ i, tt_inputs (ri_task i) !! partition_spec_input partition = Some object)
               implementations) ∧
  match partition with
  | SpecRecords _ offsets =>
      (2 <= length offsets)%nat ∧ head offsets = Some 0 ∧ strictly_increasing offsets = true
  | SpecByteRange _ => True
  end.

Record role_wf (role : LogicalRoleSpec) : Prop := {
  rw_shards : shards_wf (lr_shards role);
  rw_reduction : ∀ reduction, lr_reduction role = Some reduction → reduction_wf (lr_shards role) reduction;
  rw_implementations : lr_implementations role ≠ [];
  rw_partition : ∀ policy, lr_shards role = PolicyAuto policy →
    partition_wf (lr_implementations role) (ap_partition policy);
  rw_names : Forall (λ i, trim (ri_name i) ≠ "") (lr_implementations role);
  rw_unique : NoDup (ri_name <$> lr_implementations role);
}.

Lemma reject_if_Ok condition message : reject_if condition message = Ok tt ↔ condition = false.
Proof. by destruct condition. Qed.
Lemma reject_if_bind {B} condition message (k : unit → outcome PlanError B) b :
  obind (reject_if condition message) k = Ok b ↔ condition = false ∧ k tt = Ok b.
Proof. destruct condition; simpl; naive_solver. Qed.

(** Validation neither faults nor gives another error than an invalid job. *)
Definition is_invalid (e : PlanError) : Prop := ∃ message, e = InvalidLogicalJob message.
Abbreviation validates m := (oresult m (λ _, True) is_invalid).
Lemma reject_if_post condition message : validates (reject_if condition message).
Proof. destruct condition; simpl; [by eexists|done]. Qed.

Lemma validate_shards_Ok role : validate_shards role = Ok tt ↔ shards_wf (lr_shards role).
Proof.
  unfold validate_shards, shards_wf, finite_nonnegative. destruct (lr_shards role).
  - by rewrite reject_if_Ok, Z.eqb_neq.
  - rewrite !reject_if_bind, reject_if_Ok, !orb_false_iff, !negb_false_iff, Z.eqb_neq, Z.ltb_ge. tauto.
Qed.

Lemma validate_reduction_Ok role :
  validate_reduction role = Ok tt ↔
  ∀ reduction, lr_reduction role = Some reduction → reduction_wf (lr_shards role) reduction.
Proof.
  unfold validate_reduction, reduction_wf, finite_nonnegative.
  destruct (lr_reduction role) as [red|]; [|naive_solver].
  rewrite !reject_if_bind, reject_if_Ok, !orb_false_iff, !negb_false_iff, !Z.ltb_ge,
    !bool_decide_eq_false, !bool_decide_eq_true.
  assert (fixed_count (lr_shards role) ≠ Some 1 ↔ lr_shards role ≠ Fixed 1) as ->
    by (destruct (lr_shards role); simpl; naive_solver).
  split; [intros ? ? [= <-]; tauto|intros Hr; specialize (Hr _ eq_refl); tauto].
Qed.

Lemma validate_partition_Ok role :
  lr_implementations role ≠ [] →
  validate_partition role = Ok tt ↔
  ∀ policy, lr_shards role = PolicyAuto policy →
    partition_wf (lr_implementations role) (ap_partition policy).
Proof.
  intros Hne. unfold validate_partition, partition_wf.
  destruct (lr_shards role) as [c|policy]; simpl; [naive_solver|].
  rewrite obind_Ok. transitivity (match ap_partition policy with
    | SpecRecords _ offsets =>
        (2 <= length offsets)%nat ∧ head offsets = Some 0 ∧ strictly_increasing offsets = true
    | SpecByteRange _ => True end ∧
    ∃ object, Forall (λ i, tt_inputs (ri_task i) !! partition_spec_input (ap_partition policy) = Some object)
               (lr_implementations role)); [|naive_solver].
  destruct (lr_implementations role) as [|first rest] eqn:Himpl; [done|].
  set (n := partition_spec_input (ap_partition policy)).
  assert (Hinputs : obind (ok_or (InvalidLogicalJob ("role " +:+ lr_name role +:+ " auto partition input "
        +:+ show_nat n +:+ " is not an explicit TaskTemplate input")) (tt_inputs (ri_task first) !! n))
      (λ expected, reject_if (existsb (λ i, negb (bool_decide (tt_inputs (ri_task i) !! n = Some expected)))
         (first :: rest)) ("role " +:+ lr_name role +:+ " auto partition input " +:+ show_nat n
           +:+ " must reference the same Object across implementations")) = Ok tt ↔
    ∃ object, Forall (λ i, tt_inputs (ri_task i) !! n = Some object) (first :: rest)).
  { destruct (tt_inputs (ri_task first) !! n) as [o|] eqn:Ho; cbn [ok_or obind].
    - rewrite reject_if_Ok, <- not_true_iff_false, existsb_Exists_true.
      rewrite <- Forall_Exists_neg. setoid_rewrite negb_true_iff.
      setoid_rewrite bool_decide_eq_false.
      split.
      + intros Hall. exists o. eapply Forall_impl; [exact Hall|]. intros i. apply dec_stable.
      + intros [o' Hall]. pose proof (Forall_inv Hall) as Hf. simpl in Hf.
        eapply Forall_impl; [exact Hall|]. simpl. intros i Hi. rewrite Hi. congruence.
    - split; [done|]. intros [o Hall]. pose proof (Forall_inv Hall). simpl in *. congruence. }
  destruct (ap_partition policy) as [k|k offsets] eqn:Hp.
  - split; [intros (? & _ & H)|intros [_ H]]; [split; [done|]; by apply Hinputs|exists tt; split; [done|]; by apply Hinputs].
  - assert (Hoff : (length offsets <? 2)%nat || negb (bool_decide (head offsets = Some 0))
        || negb (strictly_increasing offsets) = false ↔
      (2 <= length offsets)%nat ∧ head offsets = Some 0 ∧ strictly_increasing offsets = true).
    { rewrite !orb_false_iff, !negb_false_iff, bool_decide_eq_true, Nat.ltb_ge. tauto. }
    split.
    + intros ([] & Hr%reject_if_Ok & H). split; [by apply Hoff|by apply Hinputs].
    + intros [H1 H2]. exists tt. split; [by apply reject_if_Ok, Hoff|by apply Hinputs].
Qed.

Lemma validate_implementation_names_spec role :
  ((∃ names, validate_implementation_names role = Ok names) ∧
   Forall (λ i, trim (ri_name i) ≠ "") (lr_implementations role) ∧
   NoDup (ri_name <$> lr_implementations role)) ∨
  ((∃ e, validate_implementation_names role = Err e) ∧
   ¬ (Forall (λ i, trim (ri_name i) ≠ "") (lr_implementations role) ∧
      NoDup (ri_name <$> lr_implementations role))).
Proof.
  unfold validate_implementation_names.
  destruct (scan_spec (E:=PlanError) ri_name (λ i, trim (ri_name i) ≠ "")
    (λ implementation_names implementation,
      let? _ := reject_if (bool_decide (trim (ri_name implementation) = ""))
        ("role " +:+ lr_name role +:+ " has an implementation with an empty name") in
      let? _ := reject_if (bool_decide (ri_name implementation ∈ implementation_names))
        ("role " +:+ lr_name role +:+ " has duplicate implementation " +:+ ri_name implementation) in
      Ok ({[ri_name implementation]} ∪ implementation_names)))
    with (l := lr_implementations role) (seen := (∅ : gset string)) as [(Hf & ? & ? & _)|[He Hn]].
  - intros seen i ??. by rewrite !bool_decide_false.
  - intros seen i [Hb|Hs].
    + apply dec_stable in Hb. rewrite bool_decide_true by done. simpl. eauto.
    + case_bool_decide; simpl; [eauto|]. rewrite bool_decide_true by done. simpl. eauto.
  - apply _.
  - left. eauto.
  - right. split; [done|]. intros [??]. apply Hn. split_and!; [done..|]. apply Forall_true. set_solver.
Qed.

Lemma validate_role_Ok role : validate_role role = Ok tt ↔ role_wf role.
Proof.
  unfold validate_role. rewrite obind_Ok. setoid_rewrite obind_Ok. setoid_rewrite reject_if_bind.
  setoid_rewrite obind_Ok. setoid_rewrite obind_Ok.
  assert (Hu : ∀ (P : unit → Prop), (∃ u, P u) ↔ P tt) by (intros; split; [intros [[] ?]; done|eauto]).
  rewrite Hu, validate_shards_Ok, Hu, validate_reduction_Ok, Hu, bool_decide_eq_false.
  split.
  - intros (? & ? & Hlen & Hp & names & Hn & _).
    assert (lr_implementations role ≠ []) by (by destruct (lr_implementations role)).
    rewrite validate_partition_Ok in Hp by done.
    destruct (validate_implementation_names_spec role) as [(_ & ? & ?)|[[e He] _]]; [|congruence].
    by split.
  - intros [? ? ? ? ? ?]. split_and!; [done..| |by apply validate_partition_Ok|].
    + by destruct (lr_implementations role).
    + destruct (validate_implementation_names_spec role) as [[[names ?] _]|[_ Hn]]; [eauto|].
      exfalso. by apply Hn.
Qed.

Lemma validate_role_validates role : validates (validate_role role).
Proof.
  unfold validate_role. eapply oresult_bind with (λ _, True).
  { unfold validate_shards. case_match; [apply reject_if_post|].
    do 2 (eapply oresult_bind; [apply reject_if_post|intros _ _]). apply reject_if_post. }
  intros _ _. eapply oresult_bind with (λ _, True).
  { unfold validate_reduction. case_match; [|done].
    do 4 (eapply oresult_bind; [apply reject_if_post|intros _ _]).
    eapply oresult_bind; [apply reject_if_post|intros _ _]. apply reject_if_post. }
  intros _ _. eapply oresult_bind with (λ _, lr_implementations role ≠ []).
  { case_bool_decide; simpl; [by eexists|]. by destruct (lr_implementations role). }
  intros _ Hne. eapply oresult_bind with (λ _, True).
  { unfold validate_partition. case_match; [|done]. eapply oresult_bind with (λ _, True).
    { case_match; [done|apply reject_if_post]. }
    intros _ _. destruct (lr_implementations role); [done|].
    eapply oresult_bind; [apply oresult_ok_or; by eexists|]. intros; apply reject_if_post. }
  intros _ _. eapply oresult_bind with (λ _, True); [|done].
  apply oresult_ofold. intros names i. do 2 (eapply oresult_bind; [apply reject_if_post|intros _ _]). done.
Qed.

(** A logical job the fabric accepts. *)
Definition logical_job_wf (spec : LogicalJobSpec) : Prop :=
  graph_wf (logical_graph spec) (lj_outputs spec) ∧ Forall role_wf (lj_roles spec).

Lemma validate_logical_job_spec spec :
  (validate_logical_job spec = Ok tt ↔ logical_job_wf spec) ∧
  validates (validate_logical_job spec).
Proof.
  unfold validate_logical_job, logical_job_wf.
  destruct (validate_role_graph_spec (logical_graph spec) (lj_outputs spec)) as [[-> ?]|[[e ->] ?]]; simpl.
  - split; [|apply oresult_ofold; intros; apply validate_role_validates].
    rewrite ofold_unit_Ok. setoid_rewrite validate_role_Ok. tauto.
  - split; [|by eexists]. split; [done|tauto].
Qed.

Lemma validate_logical_job_objects_validates `{UuidCrate} spec objects :
  validates (validate_logical_job_objects spec objects).
Proof.
  apply oresult_ofold. intros _ role. unfold validate_role_objects.
  case_match; [|done]. case_match; [done|].
  do 2 (eapply oresult_bind; [apply oresult_ok_or; by eexists|]; intros ? _). apply reject_if_post.
Qed.

(** C37 Logical jobs are validated exactly: the validator always answers (it
    never indexes a missing implementation), and accepts a job precisely when
    its role graph is well formed and every role is: counts, overheads and gain
    ratios in range, at least one implementation, distinct names, one and the
    same partition object across implementations, record offsets from 0
    strictly increasing, and reductions Pure, without static inputs, of fan-in
    2 to 64, and only of roles that can fan out. *)
Theorem validate_logical_job_correct spec :
  (validate_logical_job spec = Ok tt ↔ logical_job_wf spec) ∧ fault_free (validate_logical_job spec).
Proof.
  destruct (validate_logical_job_spec spec) as [? H]. split; [done|].
  by eapply opost_fault_free, oresult_opost.
Qed.
