(* ===== verification/Planner.v ===== *)
(** * crates/plurifold-runtime/src/planner.rs: [plan]

    The snapshot plan of a logical job: roles in dependency order, shards and
    reduction levels placed against predicted availability and objects. *)

From stdpp Require Import relations.
From S2P Require Import Prelude Float64 World Text Core Scheduler RoleGraph Partition Placement Reduction LogicalJob.

Open Scope string_scope.
Open Scope list_scope.
Open Scope Z_scope.

Record PlannedPlacement := mkPlannedPlacement {
  pp_resource_id : ResourceId;
  pp_start_ms : f64;
  pp_finish_ms : f64;
  pp_cost : PlacementBreakdown;
}.

Record PlannedShard := mkPlannedShard {
  ps_index : Z;
  ps_implementation : string;
  ps_partition : option TaskShardPartition;
  ps_placement : PlannedPlacement;
}.

Record PlannedReduction := mkPlannedReduction {
  pr_input_count : nat;
  pr_placement : PlannedPlacement;
}.

Record PlannedReductionLevel := mkPlannedReductionLevel {
  prl_level : Z;
  prl_reducer : string;
  prl_reductions : list PlannedReduction;
}.

Record PlannedRole := mkPlannedRole {
  pr_name : string;
  pr_shards : list PlannedShard;
  pr_reductions : list PlannedReductionLevel;
}.

Record CooperativePlan := mkCooperativePlan {
  plan_roles : list PlannedRole;
  estimated_makespan_ms : f64;
}.

Record SelectedRole := mkSelectedRole {
  sel_outputs : list ObjectId;
  sel_finish_ms : f64;
}.

(** The local variables of [plan]'s main loop. *)
Record PlanLoop := mkPlanLoop {
  pl_objects : Objects;                          (* predicted_objects *)
  pl_selected : gmap string SelectedRole;
  pl_roles : gmap string PlannedRole;            (* planned_roles *)
}.

(** A predicted object produced on [resource]. *)
Definition predicted_object (output : ObjectId) (size : Z) (resource : ResourceId) : ObjectMetadata :=
  mkObjectMetadata output size None None [resource] None.

Section plan.
Context `{UuidCrate}.
Context (scheduler : TopologyAwareScheduler) (resources : list ResourceDescriptor)
  (topology : TopologySnapshot).

Definition context_of (objects : Objects) : PlanningContext :=
  mkPlanningContext scheduler resources objects topology.

(** [feasible_candidate_count] *)
Definition feasible_candidate_count (role : LogicalRoleSpec) (objects : Objects)
    (selected : gmap string SelectedRole) : comp World PlanError nat :=
  let dependency_inputs :=
    lr_depends_on role ≫= λ dependency,
      match selected !! dependency with Some s => sel_outputs s | None => [] end in
  cfold (λ total implementation,
      let* task := instantiate (ri_task implementation) dependency_inputs in
      let* count := lift (ofold (λ count resource,
          let? cost := otry (placement_cost scheduler task resource objects topology) in
          Ok (match cost with Some _ => S count | None => count end))
        0%nat resources) in
      ret (total + count)%nat)
    0%nat (lr_implementations role).

Definition is_ready (selected : gmap string SelectedRole) (role : LogicalRoleSpec) : bool :=
  bool_decide (selected !! lr_name role = None)
  && forallb (λ dependency, bool_decide (is_Some (selected !! dependency))) (lr_depends_on role).

(** The ready role with the fewest feasible candidates, the first of them. *)
Definition next_role (spec : LogicalJobSpec) (loop : PlanLoop) :
    comp World PlanError (option LogicalRoleSpec) :=
  let* keyed := cmap (λ role,
      let* key := feasible_candidate_count role (pl_objects loop) (pl_selected loop) in
      ret (key, role))
    (List.filter (is_ready (pl_selected loop)) (lj_roles spec)) in
  ret (snd <$> min_by (λ a b, Nat.compare (fst a) (fst b)) keyed).

(** Publish the predicted output of each selected shard. *)
Definition plan_shard '(objects, outputs, planned, finish_ms) (shard : ReadyShardSelection) :
    comp PlanState PlanError (Objects * list ObjectId * list PlannedShard * f64) :=
  let shard_finish_ms := shard_finish shard in
  let* output := in_world new_id in
  ret (<[output := predicted_object output (output_bytes (ts_cost (rss_task shard)))
           (rss_resource_id shard)]> objects,
       outputs ++ [output],
       planned ++ [mkPlannedShard (rss_index shard) (rss_implementation shard)
                     (ts_shard (rss_task shard) ≫= sh_partition)
                     (mkPlannedPlacement (rss_resource_id shard) (rss_start_ms shard)
                        shard_finish_ms (rss_cost shard))],
       f64_max finish_ms shard_finish_ms).

(** One item of a reduction level. *)
Definition plan_reduction_item '(objects, next_outputs, reductions, level_finish_ms)
    (item : ReadyReductionItem) :
    comp PlanState PlanError (Objects * list ObjectId * list PlannedReduction * f64) :=
  match item with
  | RCarry object => ret (objects, next_outputs ++ [object], reductions, level_finish_ms)
  | RReduce selection =>
      let reduction_finish_ms := (rds_start_ms selection + pb_total_ms (rds_cost selection))%float in
      let* output := in_world new_id in
      ret (<[output := predicted_object output (output_bytes (ts_cost (rds_task selection)))
               (rds_resource_id selection)]> objects,
           next_outputs ++ [output],
           reductions ++ [mkPlannedReduction (rds_input_count selection)
                            (mkPlannedPlacement (rds_resource_id selection)
                               (rds_start_ms selection) reduction_finish_ms (rds_cost selection))],
           f64_max level_finish_ms reduction_finish_ms)
  end.

(** The [while outputs.len() > 1] loop over reduction levels. *)
Fixpoint plan_reductions (fuel : nat) (role : LogicalRoleSpec) (reduction : RoleReductionSpec)
    (level : Z) (objects : Objects) (outputs : list ObjectId) (finish_ms : f64)
    (planned : list PlannedReductionLevel) :
    comp PlanState PlanError (Objects * list ObjectId * f64 * list PlannedReductionLevel) :=
  if (length outputs <=? 1)%nat then ret (objects, outputs, finish_ms, planned)
  else
    match fuel with
    | O => diverge
    | S fuel' =>
        let* items := rethrow (λ _, NoFeasibleImplementation (lr_name role))
                        (select_reduction_level reduction outputs finish_ms (context_of objects)) in
        let* '(objects, next_outputs, reductions, level_finish_ms) :=
          cfold plan_reduction_item (objects, [], [], finish_ms) items in
        if (length outputs <=? length next_outputs)%nat then
          throw (InvalidLogicalJob ("role " +:+ lr_name role +:+ " reduction made no progress"))
        else
          plan_reductions fuel' role reduction (wrap32 (level + 1)) objects next_outputs
            level_finish_ms
            (planned ++ [mkPlannedReductionLevel level (rr_name reduction) reductions])
    end.

(** [selected[dependency]] for every dependency: indexing panics. *)
Definition selected_dependencies (role : LogicalRoleSpec) (selected : gmap string SelectedRole) :
    comp PlanState PlanError (list SelectedRole) :=
  cmap (λ dependency, expect (selected !! dependency)) (lr_depends_on role).

(** The body of the main loop after a role has been chosen. *)
Definition plan_role (role : LogicalRoleSpec) (loop : PlanLoop) : comp PlanState PlanError PlanLoop :=
  let* dependencies := selected_dependencies role (pl_selected loop) in
  let dependency_inputs := dependencies ≫= sel_outputs in
  let dependency_ready_ms := fold_left f64_max (sel_finish_ms <$> dependencies) 0%float in
  let* shards := rethrow (λ _, NoFeasibleImplementation (lr_name role))
                   (choose_role_shards role dependency_inputs dependency_ready_ms
                      (context_of (pl_objects loop))) in
  let* '(objects, outputs, planned_shards, finish_ms) :=
    cfold plan_shard (pl_objects loop, [], [], dependency_ready_ms) shards in
  let* '(objects, outputs, finish_ms, planned_reductions) :=
    match lr_reduction role with
    | Some reduction =>
        plan_reductions (length outputs) role reduction 0 objects outputs finish_ms []
    | None => ret (objects, outputs, finish_ms, [])
    end in
  ret (mkPlanLoop objects
         (<[lr_name role := mkSelectedRole outputs finish_ms]> (pl_selected loop))
         (<[lr_name role := mkPlannedRole (lr_name role) planned_shards planned_reductions]>
            (pl_roles loop))).

(** The [while selected.len() < spec.roles.len()] loop. *)
Fixpoint plan_loop (fuel : nat) (spec : LogicalJobSpec) (loop : PlanLoop) :
    comp PlanState PlanError PlanLoop :=
  if (length (lj_roles spec) <=? size (pl_selected loop))%nat then ret loop
  else
    match fuel with
    | O => diverge
    | S fuel' =>
        let* role := in_world (next_role spec loop) in
        match role with
        | None => throw (InvalidLogicalJob "role dependency graph contains a cycle")
        | Some role =>
            let* loop := plan_role role loop in
            plan_loop fuel' spec loop
        end
    end.

(** [plan] *)
Definition plan (spec : LogicalJobSpec) (objects : Objects) : comp World PlanError CooperativePlan :=
  lift (validate_logical_job spec);;;
  lift (validate_logical_job_objects spec objects);;;
  with_fresh_availability (
    let* loop := plan_loop (length (lj_roles spec)) spec (mkPlanLoop objects ∅ ∅) in
    let* finishes := cmap (λ role, expect (sel_finish_ms <$> pl_selected loop !! role))
                       (lj_outputs spec) in
    let* roles := cmap (λ role, expect (pl_roles loop !! lr_name role)) (lj_roles spec) in
    ret (mkCooperativePlan roles (fold_left f64_max finishes 0%float))).
End plan.

(** ** The loops of [plan] end and find every role *)

(** The error of a role no resource can run. *)
Definition infeasible (spec : LogicalJobSpec) (e : PlanError) : Prop :=
  ∃ role, role ∈ lr_name <$> lj_roles spec ∧ e = NoFeasibleImplementation role.

Lemma results_in_world {E A} (m : comp World E A) φ ε : results m φ ε → results (in_world m) φ ε.
Proof. intros H s. unfold in_world. specialize (H (ps_world s)). by destruct (m _). Qed.
Lemma results_new_id {tag E} (ε : E → Prop) : results (new_id (tag:=tag)) (λ _, True) ε.
Proof. by intros w. Qed.
Lemma results_instantiate {E} (ε : E → Prop) template inputs :
  results (instantiate template inputs) (λ _, True) ε.
Proof. by intros w. Qed.
Lemma results_with_fresh_availability {E A} (m : comp PlanState E A) φ ε :
  results m φ ε → results (with_fresh_availability m) φ ε.
Proof. intros H w. unfold with_fresh_availability. specialize (H (mkPlanState ∅ w)). by destruct (m _). Qed.

Section plan_proofs.
Context `{UuidCrate}.
Context (scheduler : TopologyAwareScheduler) (resources : list ResourceDescriptor)
  (topology : TopologySnapshot) (ε : PlanError → Prop).

Lemma feasible_candidate_count_results role objects selected :
  results (feasible_candidate_count scheduler resources topology role objects selected) (λ _, True) ε.
Proof.
  apply (results_cfold _ _ (λ _ _, True)); [done| |done]. intros total impl l _.
  eapply results_bind; [apply results_instantiate|]. intros task _.
  eapply results_bind with (λ _, True); [|by intros; apply results_ret]. apply results_lift.
  generalize 0%nat. induction resources as [|r rs IH]; intros n; simpl; [done|].
  pose proof (placement_cost_fault_free scheduler task r objects topology) as Hff.
  by destruct (placement_cost scheduler task r objects topology); simpl; auto.
Qed.

Lemma next_role_results spec loop :
  results (next_role scheduler resources topology spec loop)
    (λ o, match o with
          | Some role => role ∈ lj_roles spec ∧ is_ready (pl_selected loop) role = true
          | None => List.filter (is_ready (pl_selected loop)) (lj_roles spec) = []
          end) ε.
Proof.
  unfold next_role. eapply results_bind.
  { apply (results_cmap _ _ (λ role k, k.2 = role)). intros role _.
    eapply results_bind; [apply feasible_candidate_count_results|]. intros k _. by apply results_ret. }
  intros keyed Hkeyed. apply results_ret.
  destruct (min_by _ keyed) as [[k role]|] eqn:E; simpl.
  - apply (min_by_Some (λ a, Z.of_nat a.1)) in E.
    + apply first_least_elem, list_elem_of_lookup in E as [i Hi].
      destruct (Forall2_lookup_r _ _ _ _ _ Hkeyed Hi) as (role' & Hr & Heq). simpl in Heq. subst.
      apply list_elem_of_lookup_2, list_elem_of_In, filter_In in Hr as [Hin Hready].
      split; [by apply list_elem_of_In|done].
    + intros [a ?] [b ?]. simpl. by rewrite <- Nat2Z.inj_compare.
  - apply min_by_None in E. subst. by inversion Hkeyed.
Qed.

(** Folding the items of a level produces one output per item. *)
Lemma plan_reduction_items_results items objects finish :
  results (cfold plan_reduction_item (objects, [], [], finish) items)
    (λ r, length r.1.1.2 = length items) ε.
Proof.
  apply (results_cfold _ _ (λ r l, (length r.1.1.2 + length l)%nat = length items)); [done| |].
  - intros [[[objs outs] reds] f] item l Hlen. simpl in *. destruct item as [o|sel].
    + apply results_ret. simpl. rewrite length_app. simpl. lia.
    + eapply results_bind; [apply results_in_world, results_new_id|]. intros id _.
      apply results_ret. simpl. rewrite length_app. simpl. lia.
  - intros r Hr. simpl in Hr. lia.
Qed.

(** The loop over reduction levels ends with at most one output; its progress
    error is never raised. *)
Lemma plan_reductions_results fuel role reduction level objects outputs finish planned :
  (length outputs <= fuel)%nat → ε (NoFeasibleImplementation (lr_name role)) →
  results (plan_reductions scheduler resources topology fuel role reduction level objects outputs finish planned)
    (λ r, (length r.1.1.2 <= 1)%nat) ε.
Proof.
  revert level objects outputs finish planned.
  induction fuel as [|fuel IH]; intros level objects outputs finish planned Hfuel He; simpl;
    (destruct (Nat.leb_spec (length outputs) 1) as [Hle|Hgt]; [by apply results_ret|]); [lia|].
  eapply results_bind.
  { apply results_rethrow; [apply select_reduction_level_ok|done]. }
  intros items (_ & Hless & _). specialize (Hless Hgt).
  eapply results_bind; [apply plan_reduction_items_results|].
  intros [[[objs outs] reds] f] Hlen. simpl in Hlen. rewrite (proj2 (Nat.leb_gt _ _)) by lia.
  apply IH; [lia|done].
Qed.

(** One planned shard per selected one, with its index. *)
Lemma plan_shards_results sels objects finish :
  results (cfold plan_shard (objects, [], [], finish) sels)
    (λ r, ps_index <$> r.1.2 = rss_index <$> sels) ε.
Proof.
  apply (results_cfold _ _ (λ r l, (ps_index <$> r.1.2) ++ (rss_index <$> l) = rss_index <$> sels)); [done| |].
  - intros [[[objs outs] ps] f] sel l Hps. simpl in *.
    eapply results_bind; [apply results_in_world, results_new_id|]. intros id _.
    apply results_ret. simpl. by rewrite fmap_app, <- app_assoc.
  - intros r Hr. by rewrite app_nil_r in Hr.
Qed.

(** What the plan of a role is. *)
Definition planned_ok (role : LogicalRoleSpec) (planned : PlannedRole) : Prop :=
  pr_name planned = lr_name role ∧
  ps_index <$> pr_shards planned = seqZ 0 (Z.of_nat (length (pr_shards planned))) ∧
  match lr_shards role with
  | Fixed count => 0 ≤ count → Z.of_nat (length (pr_shards planned)) = count
  | PolicyAuto policy => 1 ≤ Z.of_nat (length (pr_shards planned)) ≤ Z.max 1 (ap_max_shards policy)
  end.

Lemma shards_ok_indexes role deps auto context count sels :
  shards_ok role deps auto context count sels → rss_index <$> sels = seqZ 0 count.
Proof.
  intros Hs. rewrite <- (list_fmap_id (seqZ 0 count)). apply Forall2_fmap_eq.
  eapply Forall2_impl; [exact Hs|]. by intros i sel [? _].
Qed.

Lemma role_shards_planned role deps context sels planned reds :
  role_shards_ok role deps context sels → ps_index <$> planned = rss_index <$> sels →
  planned_ok role (mkPlannedRole (lr_name role) planned reds).
Proof.
  intros (count & Hcount & Hsels) Hidx. pose proof (shards_ok_indexes _ _ _ _ _ _ Hsels) as Hi.
  rewrite Hi in Hidx.
  pose proof (f_equal length Hidx) as Hlen. rewrite length_fmap, length_seqZ in Hlen.
  split; [done|]. simpl. rewrite Hlen. split.
  - rewrite Hidx. destruct (Z_le_gt_dec 0 count); [by rewrite Z2Nat.id|].
    replace (Z.to_nat count) with 0%nat by lia. by rewrite seqZ_nil by lia.
  - unfold shard_count_ok in Hcount. destruct (lr_shards role) as [c|policy]; [subst; lia|].
    destruct Hcount as (units & _ & Hc). unfold max_auto_shards in Hc. case_match; lia.
Qed.

(** What the loop has done: the planned roles are those selected, and each is
    planned as it should. *)
Definition loop_ok (spec : LogicalJobSpec) (loop : PlanLoop) : Prop :=
  dom (pl_roles loop) = dom (pl_selected loop) ∧
  (∀ name, name ∈ dom (pl_selected loop) → name ∈ lr_name <$> lj_roles spec) ∧
  (∀ role planned, role ∈ lj_roles spec → pl_roles loop !! lr_name role = Some planned →
     planned_ok role planned).

Lemma role_by_name spec role role' :
  NoDup (lr_name <$> lj_roles spec) → role ∈ lj_roles spec → role' ∈ lj_roles spec →
  lr_name role = lr_name role' → role = role'.
Proof.
  intros Hnd [i Hi]%list_elem_of_lookup [j Hj]%list_elem_of_lookup Heq.
  enough (i = j) by congruence. eapply NoDup_lookup; [exact Hnd| |].
  - by rewrite list_lookup_fmap, Hi.
  - by rewrite list_lookup_fmap, Hj, Heq.
Qed.

Lemma plan_role_results spec role loop :
  NoDup (lr_name <$> lj_roles spec) → role ∈ lj_roles spec → loop_ok spec loop →
  is_ready (pl_selected loop) role = true → ε (NoFeasibleImplementation (lr_name role)) →
  results (plan_role scheduler resources topology role loop)
    (λ loop', loop_ok spec loop' ∧
       dom (pl_selected loop') = {[lr_name role]} ∪ dom (pl_selected loop)) ε.
Proof.
  intros Hnd Hrole (Hdom & Hsub & Hplanned) [Hnew Hdeps]%andb_prop He.
  apply forallb_decide in Hdeps. rewrite Forall_forall in Hdeps.
  unfold plan_role. eapply results_bind.
  { apply (results_cmap _ _ (λ _ _, True)). intros d Hd. apply results_expect.
    destruct (Hdeps d Hd) as [sel Hsel]. by exists sel. }
  intros dependencies _. eapply results_bind.
  { apply results_rethrow; [apply choose_role_shards_ok|done]. }
  intros sels Hsels. eapply results_bind; [apply plan_shards_results|].
  intros [[[objs outs] ps] f] Hps. simpl in Hps.
  eapply results_bind with (λ _, True).
  { destruct (lr_reduction role); [|by apply results_ret].
    eapply results_mono; [by apply plan_reductions_results|done]. }
  intros [[[objs' outs'] f'] reds] _. apply results_ret. unfold loop_ok. simpl.
  rewrite !dom_insert_L. split_and!; [by rewrite Hdom| | |done].
  - intros n [->%elem_of_singleton|?]%elem_of_union; [|auto]. apply list_elem_of_fmap. eauto.
  - intros role' planned Hrole'. destruct (decide (lr_name role' = lr_name role)) as [Heq|Hne].
    + rewrite Heq, lookup_insert_eq. intros [= <-].
      rewrite (role_by_name spec role' role Hnd Hrole' Hrole Heq).
      by eapply role_shards_planned.
    + rewrite lookup_insert_ne by done. by apply Hplanned.
Qed.

Lemma logical_graph_names spec : graph_names (logical_graph spec) = lr_name <$> lj_roles spec.
Proof. unfold graph_names, logical_graph. by rewrite <- list_fmap_compose. Qed.

(** Until every role is selected, an accepted job has a ready role. *)
Lemma ready_role_exists spec selected :
  graph_wf (logical_graph spec) (lj_outputs spec) →
  (size selected < length (lj_roles spec))%nat →
  (∀ name, name ∈ dom selected → name ∈ lr_name <$> lj_roles spec) →
  List.filter (is_ready selected) (lj_roles spec) ≠ [].
Proof.
  intros [_ _ _ Hnd0 Hdeps _ _ Hac] Hsize Hsub. pose proof Hnd0 as Hnd. rewrite logical_graph_names in Hnd.
  assert (Hd : Forall (λ '(_, ds), deps_ok (list_to_set (graph_names (logical_graph spec))) ds)
                 (logical_graph spec)).
  { eapply Forall_impl; [exact Hdeps|]. intros [n ds]. by rewrite deps_ok_names. }
  assert (∃ name, name ∈ lr_name <$> lj_roles spec ∧ (name ∉ (dom selected : gset string)))
    as (name & Hname & Hnot).
  { destruct (decide (Forall (λ n, n ∈ dom selected) (lr_name <$> lj_roles spec))) as [Hall|Hn].
    - exfalso. rewrite Forall_forall in Hall.
      assert (list_to_set (lr_name <$> lj_roles spec) ⊆ dom selected) as Hle%subseteq_size by set_solver.
      rewrite size_list_to_set, length_fmap, size_dom in Hle by done. lia.
    - apply not_Forall_Exists in Hn; [|apply _]. by apply Exists_exists in Hn. }
  rewrite <- logical_graph_names in Hname.
  destruct (unresolved_minimal _ Hnd0 Hd _ name (acyclic_sn _ Hnd0 Hd Hac name) Hname Hnot)
    as (n & ds & Hin & Hn & Hds).
  unfold logical_graph in Hin. apply list_elem_of_fmap in Hin as (role & [= -> ->] & Hrole).
  intros Hnil. assert (In role (List.filter (is_ready selected) (lj_roles spec))) as Hf;
    [|by rewrite Hnil in Hf].
  apply filter_In. split; [by apply list_elem_of_In|]. unfold is_ready.
  rewrite bool_decide_true by by apply not_elem_of_dom. simpl. apply forallb_decide.
  eapply Forall_impl; [exact Hds|]. intros d Hd'. simpl. by apply elem_of_dom.
Qed.

Lemma plan_loop_results fuel spec loop :
  graph_wf (logical_graph spec) (lj_outputs spec) → loop_ok spec loop →
  (length (lj_roles spec) - size (pl_selected loop) <= fuel)%nat → (∀ e, infeasible spec e → ε e) →
  results (plan_loop scheduler resources topology fuel spec loop)
    (λ loop', loop_ok spec loop' ∧ (length (lj_roles spec) <= size (pl_selected loop'))%nat) ε.
Proof.
  intros Hwf. pose proof (wf_unique _ _ Hwf) as Hnd. rewrite logical_graph_names in Hnd.
  revert loop. induction fuel as [|fuel IH]; intros loop Hok Hfuel He; simpl;
    (destruct (Nat.leb_spec (length (lj_roles spec)) (size (pl_selected loop))) as [Hle|Hgt];
      [by apply results_ret|]); [lia|].
  eapply results_bind; [apply results_in_world, next_role_results|]. intros [role|].
  - intros [Hrole Hready]. eapply results_bind.
    + apply (plan_role_results spec); [done..|]. apply He. exists (lr_name role). split; [|done].
      apply list_elem_of_fmap. eauto.
    + intros loop' [Hok' Hdom]. apply IH; [done| |done].
      apply andb_prop in Hready as [Hnew _]. apply bool_decide_eq_true, not_elem_of_dom in Hnew.
      assert (size (pl_selected loop') = S (size (pl_selected loop))) as ->; [|lia].
      rewrite <- !size_dom, Hdom, size_union, size_singleton by set_solver. done.
  - intros Hnil. exfalso. destruct Hok as (_ & Hsub & _). by eapply ready_role_exists.
Qed.

(** Once as many roles are selected as there are, all are. *)
Lemma loop_ok_complete spec loop name :
  NoDup (lr_name <$> lj_roles spec) → loop_ok spec loop →
  (length (lj_roles spec) <= size (pl_selected loop))%nat →
  name ∈ lr_name <$> lj_roles spec → name ∈ dom (pl_selected loop).
Proof.
  intros Hnd (_ & Hsub & _) Hsize Hname.
  assert (dom (pl_selected loop) = list_to_set (lr_name <$> lj_roles spec)) as ->; [|set_solver].
  apply set_subseteq_size_eq; [set_solver|].
  rewrite size_list_to_set, length_fmap, size_dom by done. lia.
Qed.
End plan_proofs.

(** The plan has one entry per role, in the order of the job. *)
Lemma plan_after_validation `{UuidCrate} scheduler resources topology spec objects w :
  logical_job_wf spec → validate_logical_job_objects spec objects = Ok tt →
  oresult (plan scheduler resources topology spec objects w).1
    (λ p, Forall2 planned_ok (lj_roles spec) (plan_roles p)) (infeasible spec).
Proof.
  intros Hwf Hobj. unfold plan. unfold bind at 1 2, lift.
  rewrite (proj2 (proj1 (validate_logical_job_spec spec)) Hwf), Hobj.
  destruct Hwf as [Hwf _]. pose proof (wf_unique _ _ Hwf) as Hnd. rewrite logical_graph_names in Hnd.
  revert w. apply results_with_fresh_availability. eapply results_bind.
  { apply plan_loop_results; [done| |simpl; lia|done].
    split_and!; simpl; [by rewrite !dom_empty_L|set_solver|]. intros. by rewrite lookup_empty in *. }
  intros loop [Hok Hsize]. pose proof (loop_ok_complete spec loop) as Hall.
  eapply results_bind.
  { apply (results_cmap _ _ (λ _ _, True)). intros o Ho. apply results_expect.
    pose proof (wf_outputs_known _ _ Hwf) as Hk. rewrite Forall_forall in Hk. apply Hk in Ho.
    rewrite logical_graph_names in Ho.
    destruct (proj1 (elem_of_dom _ _) (Hall o Hnd Hok Hsize Ho)) as [sel ->]. by eexists. }
  intros finishes _. eapply results_bind.
  { apply (results_cmap _ _ planned_ok). intros role Hrole. apply results_expect.
    assert (lr_name role ∈ dom (pl_roles loop)) as [planned Hp]%elem_of_dom.
    { destruct Hok as (Hdom & Hrest). rewrite Hdom. apply Hall; [done|by split|done|].
      apply list_elem_of_fmap. eauto. }
    exists planned. split; [done|]. destruct Hok as (_ & _ & Hpl). by apply Hpl. }
  intros roles Hroles. by apply results_ret.
Qed.

