(* ===== verification/Fabric.v ===== *)
(** * crates/plurifold-runtime/src/lib.rs: the fabric's state

    [Fabric] and the operations on its resources, topology, objects and
    tasks; the role runtime is in [Roles], execution leases in [Execution]. *)

From S2P Require Import Prelude Float64 World Text Core Scheduler LogicalJob.

Open Scope string_scope.
Open Scope list_scope.
Open Scope Z_scope.

(** ** State *)

Inductive TaskStatus :=
| Pending
| Running (lease : ExecutionLease)
| TaskCompleted (outputs : list ObjectId)
| TaskUncertain.
#[export] Instance TaskStatus_eq_dec : EqDecision TaskStatus.
Proof. solve_decision. Defined.

Inductive CooperativeRoleStatus :=
| Waiting
| Ready
| Submitted (task : TaskId)
| Sharded (tasks : list TaskId) (completed : nat)
| Reducing (tasks : list TaskId) (completed : nat) (level : Z)
| RoleCompleted (outputs : list ObjectId)
| RoleUncertain.
#[export] Instance CooperativeRoleStatus_eq_dec : EqDecision CooperativeRoleStatus.
Proof. solve_decision. Defined.

Inductive CooperativeJobStatus :=
| JobRunning
| JobCompleted (outputs : list ObjectId)
| JobUncertain.

Record RoleFusionView := mkRoleFusionView {
  rfv_chain_roles : list string;
  rfv_stage_index : nat;
  rfv_estimated_avoided_transfer_ms : f64;
  rfv_estimated_vs_separate_ms : f64;
}.

Record RoleShardView := mkRoleShardView {
  rsv_index : Z;
  rsv_task_id : TaskId;
  rsv_implementation : string;
  rsv_planned_resource : ResourceId;
  rsv_estimated_total_ms : f64;
  rsv_partition : option TaskShardPartition;
  rsv_status : TaskStatus;
}.

Record CooperativeRoleView := mkCooperativeRoleView {
  crv_name : string;
  crv_depends_on : list string;
  crv_status : CooperativeRoleStatus;
  crv_implementation : option string;
  crv_planned_resource : option ResourceId;
  crv_estimated_total_ms : option f64;
  crv_fusion : option RoleFusionView;
  crv_shards : list RoleShardView;
}.

Record RegisteredResource := mkRegisteredResource {
  reg_descriptor : ResourceDescriptor;
  reg_expires_at_unix_ms : Z;
}.

Record TaskRecord := mkTaskRecord {
  tr_spec : TaskSpec;
  tr_status : TaskStatus;
}.

Record ShardSelection := mkShardSelection {
  ss_index : Z;
  ss_task_id : TaskId;
  ss_implementation : string;
  ss_planned_resource : ResourceId;
  ss_estimated_total_ms : f64;
}.

Inductive RoleSelection :=
| SelSingle (implementation : string) (planned_resource : ResourceId)
    (estimated_total_ms : f64) (fusion : option RoleFusionView)
| SelSharded (selections : list ShardSelection).

Inductive ReductionItem := ItemCarry (object : ObjectId) | ItemTask (task : TaskId).

Record ActiveReduction := mkActiveReduction {
  red_level : Z;                          (* u32 *)
  red_inputs : list ObjectId;
  red_items : list ReductionItem;
}.

Record CooperativeJobRecord := mkCooperativeJobRecord {
  job_definition : JobDefinition;
  job_roles : gmap string CooperativeRoleStatus;
  job_selections : gmap string RoleSelection;
  job_reductions : gmap string ActiveReduction;
}.

Inductive TaskRoleBinding :=
| BindSingle (job_id : JobId) (role_name : string)
| BindFusedChain (job_id : JobId) (role_names : list string)
| BindShard (job_id : JobId) (role_name : string)
| BindReduction (job_id : JobId) (role_name : string).

Inductive FabricError :=
| ResourceNotActive (id : ResourceId)
| StaleResourceEpoch (id : ResourceId)
| UnknownTask (id : TaskId)
| UnknownObject (id : ObjectId)
| ObjectConflict (id : ObjectId)
| DuplicateTask (id : TaskId)
| InvalidTask (message : string)
| UnknownJob (id : JobId)
| DuplicateJob (id : JobId)
| InvalidCooperativeJob (message : string)
| FabricInvalidLogicalJob (message : string)
| TaskNotPending (id : TaskId)
| StaleExecution
| ExecutionExpired
| Scheduling (error : ScheduleError).

Record Fabric := mkFabric {
  f_resources : gmap ResourceId RegisteredResource;
  f_objects : Objects;
  f_tasks : gmap TaskId TaskRecord;
  f_jobs : gmap JobId CooperativeJobRecord;
  f_task_roles : gmap TaskId TaskRoleBinding;
  f_topology : TopologySnapshot;
  f_scheduler : TopologyAwareScheduler;
  f_membership_ttl_ms : Z;
  f_execution_ttl_ms : Z;
}.

(** [Fabric::new] *)
Definition Fabric_new (membership_ttl_ms execution_ttl_ms : Z) : Fabric :=
  mkFabric ∅ ∅ ∅ ∅ ∅ [] TopologyAwareScheduler_default membership_ttl_ms execution_ttl_ms.
Definition Fabric_default : Fabric := Fabric_new 15000 60000.

Section setters.
Context (f : Fabric).
Definition set_resources v := mkFabric v (f_objects f) (f_tasks f) (f_jobs f) (f_task_roles f)
  (f_topology f) (f_scheduler f) (f_membership_ttl_ms f) (f_execution_ttl_ms f).
Definition set_objects v := mkFabric (f_resources f) v (f_tasks f) (f_jobs f) (f_task_roles f)
  (f_topology f) (f_scheduler f) (f_membership_ttl_ms f) (f_execution_ttl_ms f).
Definition set_tasks v := mkFabric (f_resources f) (f_objects f) v (f_jobs f) (f_task_roles f)
  (f_topology f) (f_scheduler f) (f_membership_ttl_ms f) (f_execution_ttl_ms f).
Definition set_jobs v := mkFabric (f_resources f) (f_objects f) (f_tasks f) v (f_task_roles f)
  (f_topology f) (f_scheduler f) (f_membership_ttl_ms f) (f_execution_ttl_ms f).
Definition set_task_roles v := mkFabric (f_resources f) (f_objects f) (f_tasks f) (f_jobs f) v
  (f_topology f) (f_scheduler f) (f_membership_ttl_ms f) (f_execution_ttl_ms f).
Definition set_links v := mkFabric (f_resources f) (f_objects f) (f_tasks f) (f_jobs f)
  (f_task_roles f) v (f_scheduler f) (f_membership_ttl_ms f) (f_execution_ttl_ms f).
End setters.

(** ** Computations of the fabric *)

Record Node := mkNode { nd_fabric : Fabric; nd_world : World }.
Abbreviation fab A := (comp Node FabricError A).

Definition fget {E A} (g : Fabric → A) : comp Node E A := gets (λ n, g (nd_fabric n)).
Definition fmod {E} (g : Fabric → Fabric) : comp Node E unit :=
  modify (λ n, mkNode (g (nd_fabric n)) (nd_world n)).
Definition fworld {E A} (m : comp World E A) : comp Node E A :=
  λ n, let '(o, w) := m (nd_world n) in (o, mkNode (nd_fabric n) w).

Definition set_task {E} (id : TaskId) (record : TaskRecord) : comp Node E unit :=
  fmod (λ f, set_tasks f (<[id := record]> (f_tasks f))).
Definition set_task_role {E} (id : TaskId) (binding : TaskRoleBinding) : comp Node E unit :=
  fmod (λ f, set_task_roles f (<[id := binding]> (f_task_roles f))).
Definition set_job {E} (id : JobId) (job : CooperativeJobRecord) : comp Node E unit :=
  fmod (λ f, set_jobs f (<[id := job]> (f_jobs f))).

(** ** Topology *)

Definition set_topology {E} (topology : TopologySnapshot) : comp Node E unit :=
  fmod (λ f, set_links f topology).

Definition remove_link_from (from to : ResourceId) (links : TopologySnapshot) : TopologySnapshot :=
  List.filter (λ existing, negb (link_joins from to existing)) links.

(** [Fabric::remove_link] *)
Definition remove_link {E} (from to : ResourceId) : comp Node E unit :=
  fmod (λ f, set_links f (remove_link_from from to (f_topology f))).

(** [Fabric::upsert_link] *)
Definition upsert_link {E} (link : LinkProfile) : comp Node E unit :=
  remove_link (link_from link) (link_to link);;;
  fmod (λ f, set_links f (f_topology f ++ [link])).

(** ** Resources *)

Definition with_epoch (descriptor : ResourceDescriptor) (epoch : Z) : ResourceDescriptor :=
  mkResourceDescriptor (rd_id descriptor) epoch (rd_architecture descriptor)
    (rd_cpu_cores descriptor) (rd_memory_bytes descriptor) (rd_accelerators descriptor)
    (rd_features descriptor) (rd_performance_score descriptor) (rd_queue_delay_ms descriptor)
    (rd_startup_delay_ms descriptor) (rd_failure_probability descriptor).

Definition next_epoch (f : Fabric) (descriptor : ResourceDescriptor) : Z :=
  match f_resources f !! rd_id descriptor with
  | Some existing => wrap64 (rd_epoch (reg_descriptor existing) + 1)
  | None => Z.max (rd_epoch descriptor) 1
  end.

(** [Fabric::register_resource] *)
Definition register_resource {E} (descriptor : ResourceDescriptor) : comp Node E MembershipLease :=
  let* epoch := fget (λ f, next_epoch f descriptor) in
  let descriptor := with_epoch descriptor epoch in
  let* now := fworld now_unix_ms in
  let* ttl := fget f_membership_ttl_ms in
  let expires_at_unix_ms := saturating_add64 now ttl in
  fmod (λ f, set_resources f (<[rd_id descriptor :=
      mkRegisteredResource descriptor expires_at_unix_ms]> (f_resources f)));;;
  ret (mkMembershipLease (rd_id descriptor) (rd_epoch descriptor) expires_at_unix_ms).

(** [Fabric::heartbeat] *)
Definition heartbeat (resource_id : ResourceId) (epoch : Z) : fab MembershipLease :=
  let* resources := fget f_resources in
  let* registered := ok_or_throw (ResourceNotActive resource_id) (resources !! resource_id) in
  if negb (rd_epoch (reg_descriptor registered) =? epoch) then throw (StaleResourceEpoch resource_id)
  else
    let* now := fworld now_unix_ms in
    let* ttl := fget f_membership_ttl_ms in
    let expires_at_unix_ms := saturating_add64 now ttl in
    fmod (λ f, set_resources f (<[resource_id :=
        mkRegisteredResource (reg_descriptor registered) expires_at_unix_ms]> (f_resources f)));;;
    ret (mkMembershipLease resource_id epoch expires_at_unix_ms).

Definition drop_location (resource_id : ResourceId) (object : ObjectMetadata) : ObjectMetadata :=
  mkObjectMetadata (om_id object) (om_size_bytes object) (om_digest object) (om_encoding object)
    (List.filter (λ location, negb (bool_decide (location = resource_id))) (om_locations object))
    (om_producer object).

(** [Fabric::remove_resource] *)
Definition remove_resource_from (resource_id : ResourceId) (f : Fabric) : Fabric :=
  let f := set_resources f (delete resource_id (f_resources f)) in
  let f := set_objects f (drop_location resource_id <$> f_objects f) in
  set_links f (List.filter (λ link, negb (bool_decide (link_from link = resource_id))
                                   && negb (bool_decide (link_to link = resource_id)))
                 (f_topology f)).
Definition remove_resource {E} (resource_id : ResourceId) : comp Node E unit :=
  fmod (remove_resource_from resource_id).

(** [Fabric::unregister_resource] *)
Definition unregister_resource {E} (resource_id : ResourceId) : comp Node E unit :=
  remove_resource resource_id.

(** [Fabric::expire_resources_at] *)
Definition expire_resources_at `{HashOrder} {E} (unix_ms : Z) : comp Node E (list ResourceId) :=
  let* resources := fget f_resources in
  let expired := (List.filter (λ '(_, resource), reg_expires_at_unix_ms resource <=? unix_ms)
                    (hash_iter resources)).*1 in
  for_each remove_resource expired;;;
  ret expired.

(** The membership test shared by [begin_execution], [renew_execution] ... *)
Definition active_at (now : Z) (resource : RegisteredResource) : bool :=
  now <? reg_expires_at_unix_ms resource.

Definition find_active (resource_id : ResourceId) (now : Z) : fab RegisteredResource :=
  let* resources := fget f_resources in
  match resources !! resource_id with
  | Some resource => if active_at now resource then ret resource else throw (ResourceNotActive resource_id)
  | None => throw (ResourceNotActive resource_id)
  end.

(** [Fabric::active_resources] *)
Definition active_resources `{HashOrder} {E} : comp Node E (list ResourceDescriptor) :=
  let* now := fworld now_unix_ms in
  let* resources := fget f_resources in
  ret (reg_descriptor <$> List.filter (active_at now) (hash_values resources)).

(** [Fabric::active_resource_count] *)
Definition active_resource_count `{HashOrder} {E} : comp Node E nat :=
  let* now := fworld now_unix_ms in
  let* resources := fget f_resources in
  ret (length (List.filter (active_at now) (hash_values resources))).

(** [Fabric::resource_epoch] *)
Definition resource_epoch {E} (resource_id : ResourceId) : comp Node E (option Z) :=
  let* now := fworld now_unix_ms in
  let* resources := fget f_resources in
  ret (match resources !! resource_id with
       | Some resource =>
           if active_at now resource then Some (rd_epoch (reg_descriptor resource)) else None
       | None => None
       end).

(** The resources some unexpired execution lease names. *)
Definition busy_at `{HashOrder} (now : Z) (tasks : gmap TaskId TaskRecord) : gset ResourceId :=
  list_to_set (omap (λ task,
      match tr_status task with
      | Running lease =>
          if now <? el_expires_at_unix_ms lease then Some (el_resource_id lease) else None
      | _ => None
      end) (hash_values tasks)).

(** [Fabric::schedulable_resources] *)
Definition schedulable_resources `{HashOrder} {E} : comp Node E (list ResourceDescriptor) :=
  let* now := fworld now_unix_ms in
  let* f := fget id in
  let busy_resources := busy_at now (f_tasks f) in
  ret (reg_descriptor <$>
         List.filter (λ resource, active_at now resource
                        && negb (bool_decide (rd_id (reg_descriptor resource) ∈ busy_resources)))
           (hash_values (f_resources f))).

(** ** Objects *)

(** [same_object_identity] *)
Definition same_object_identity (left_ right_ : ObjectMetadata) : bool :=
  bool_decide (om_id left_ = om_id right_)
  && (om_size_bytes left_ =? om_size_bytes right_)
  && bool_decide (om_digest left_ = om_digest right_)
  && bool_decide (om_encoding left_ = om_encoding right_)
  && bool_decide (om_producer left_ = om_producer right_).

Definition with_locations (object : ObjectMetadata) (locations : list ResourceId) : ObjectMetadata :=
  mkObjectMetadata (om_id object) (om_size_bytes object) (om_digest object) (om_encoding object)
    locations (om_producer object).

(** [if !locations.contains(&location) { locations.push(location) }] *)
Definition push_location (locations : list ResourceId) (location : ResourceId) : list ResourceId :=
  if bool_decide (location ∈ locations) then locations else locations ++ [location].

(** [Fabric::publish_object] *)
Definition publish_object (object : ObjectMetadata) : fab unit :=
  let* objects := fget f_objects in
  match objects !! om_id object with
  | Some existing =>
      if negb (same_object_identity existing object) then throw (ObjectConflict (om_id object))
      else
        let locations := fold_left push_location (om_locations object) (om_locations existing) in
        fmod (λ f, set_objects f (<[om_id object := with_locations existing locations]> (f_objects f)))
  | None => fmod (λ f, set_objects f (<[om_id object := object]> (f_objects f)))
  end.

(** [Fabric::add_object_location] *)
Definition add_object_location (object_id : ObjectId) (resource_id : ResourceId) : fab unit :=
  let* objects := fget f_objects in
  let* object := ok_or_throw (UnknownObject object_id) (objects !! object_id) in
  fmod (λ f, set_objects f (<[object_id :=
      with_locations object (push_location (om_locations object) resource_id)]> (f_objects f))).

(** [Fabric::object_metadata] *)
Definition object_metadata (f : Fabric) (object_id : ObjectId) : option ObjectMetadata :=
  f_objects f !! object_id.

(** ** Tasks *)

Definition is_previous_output (input : PipelineInput) : bool :=
  match input with PreviousOutput => true | External _ => false end.

Definition invalid_if (condition : bool) (message : string) : outcome FabricError unit :=
  if condition then Err (InvalidTask message) else Ok tt.

(** The partition checks of [validate_task]. *)
Definition validate_task_partition (inputs : nat) (partition : TaskShardPartition) : outcome FabricError unit :=
  match partition with
  | ByteRange input offset length total_bytes =>
      invalid_if ((inputs <=? input)%nat
                  || bool_decide (checked_add64 offset length = None)
                  || (total_bytes <? saturating_add64 offset length))
        "invalid shard byte-range partition"
  | Records input record_start record_count total_records offset length total_bytes =>
      invalid_if ((inputs <=? input)%nat
                  || bool_decide (checked_add64 record_start record_count = None)
                  || (total_records <? saturating_add64 record_start record_count)
                  || bool_decide (checked_add64 offset length = None)
                  || (total_bytes <? saturating_add64 offset length))
        "invalid shard record partition"
  end.

Definition validate_task_shard (inputs : nat) (shard : TaskShard) : outcome FabricError unit :=
  let? _ := invalid_if ((sh_count shard =? 0) || (sh_count shard <=? sh_index shard))
    ("invalid shard context " +:+ show (sh_index shard) +:+ "/" +:+ show (sh_count shard)) in
  match sh_partition shard with
  | Some partition => validate_task_partition inputs partition
  | None => Ok tt
  end.

(** One pipeline stage of [validate_task]. *)
Definition validate_stage (inputs : nat) (stage_index : nat) (stage : TaskPipelineStage) :
    outcome FabricError unit :=
  let prefix := "pipeline stage " +:+ show_nat stage_index in
  let? _ := invalid_if (negb (starts_with "builtin:" (stage_artifact stage)))
    (prefix +:+ " uses unsupported artifact family " +:+ stage_artifact stage) in
  let? _ := invalid_if (negb (bool_decide (stage_entrypoint stage = "run")))
    (prefix +:+ " requires entrypoint run") in
  let previous_count := length (List.filter is_previous_output (stage_inputs stage)) in
  let? _ := invalid_if ((stage_index =? 0)%nat && negb (previous_count =? 0)%nat
                        || (0 <? stage_index)%nat && negb (previous_count =? 1)%nat)
    (prefix +:+ " has invalid previous-output bindings") in
  ofold (λ _ input,
      match input with
      | External index =>
          invalid_if (inputs <=? index)%nat
            (prefix +:+ " references external input index " +:+ show_nat index
               +:+ ", but the task has " +:+ show_nat inputs +:+ " inputs")
      | PreviousOutput => Ok tt
      end)
    tt (stage_inputs stage).

Definition validate_pipeline (task : TaskSpec) (pipeline : TaskPipeline) : outcome FabricError unit :=
  let? _ := invalid_if (negb (bool_decide (ts_artifact task = "plurifold:pipeline"))
                        || negb (bool_decide (ts_entrypoint task = "run")))
    "pipeline tasks require artifact plurifold:pipeline and entrypoint run" in
  let? _ := invalid_if (negb (bool_decide (ts_effects task = Pure)))
    "pipeline tasks currently require Pure effect semantics" in
  let? _ := invalid_if (length pipeline <? 2)%nat "pipeline tasks require at least two stages" in
  ofold (λ _ '(stage_index, stage), validate_stage (length (ts_inputs task)) stage_index stage)
    tt (imap pair pipeline).

(** [validate_task] *)
Definition validate_task (task : TaskSpec) : outcome FabricError unit :=
  let? _ := match ts_shard task with
            | Some shard => validate_task_shard (length (ts_inputs task)) shard
            | None => Ok tt
            end in
  match ts_pipeline task with
  | None => Ok tt
  | Some pipeline => validate_pipeline task pipeline
  end.

(** [Fabric::submit] *)
Definition submit (task : TaskSpec) : fab TaskId :=
  lift (validate_task task);;;
  let id := ts_id task in
  let* tasks := fget f_tasks in
  match tasks !! id with
  | Some _ => throw (DuplicateTask id)
  | None => set_task id (mkTaskRecord task Pending);;; ret id
  end.

(** [Fabric::task_status], [Fabric::task_spec] *)
Definition task_status (f : Fabric) (task_id : TaskId) : option TaskStatus :=
  tr_status <$> f_tasks f !! task_id.
Definition task_spec (f : Fabric) (task_id : TaskId) : option TaskSpec :=
  tr_spec <$> f_tasks f !! task_id.

(** [Fabric::pending_task_ids] *)
Definition pending_task_ids `{HashOrder} (f : Fabric) : list TaskId :=
  omap (λ '(id, record), if bool_decide (tr_status record = Pending) then Some id else None)
    (hash_iter (f_tasks f)).

Definition schedule_error (e : ScheduleError) : FabricError := Scheduling e.

(** [Fabric::schedule_task] *)
Definition schedule_task `{HashOrder} (task_id : TaskId) : fab PlacementDecision :=
  let* tasks := fget f_tasks in
  let* record := ok_or_throw (UnknownTask task_id) (tasks !! task_id) in
  if negb (bool_decide (tr_status record = Pending)) then throw (TaskNotPending task_id)
  else
    let* active := schedulable_resources in
    let* f := fget id in
    lift (map_err schedule_error
            (choose (f_scheduler f) (tr_spec record) active (f_objects f) (f_topology f))).
