(* ===== verification/Submission.v ===== *)
(** * Tasks the planner builds pass the fabric's checks

    [validate_task] guards [submit].  The tasks of single roles, of shards, of
    reducers and of fused chains meet it; the last only when every stage has
    the entrypoint the fabric asks of pipeline stages. *)

From S2P Require Import Prelude Float64 World Text Core Samples Scheduler Partition Placement Reduction Fusion LogicalJob Fabric.

Open Scope string_scope.
Open Scope list_scope.
Open Scope Z_scope.

(** Object sizes are [u64]. *)
Definition sizes_u64 (objects : Objects) : Prop :=
  ∀ id object, objects !! id = Some object → is_u64 (om_size_bytes object).

(** ** Plain tasks *)

Lemma instantiate_valid template deps id : validate_task (instantiate_with template deps id) = Ok tt.
Proof. done. Qed.

(** ** Shards *)

(** Records are at least a byte long, so there are at most as many as bytes. *)
Lemma strictly_increasing_length offsets a b :
  strictly_increasing offsets = true → head offsets = Some a → list.last offsets = Some b →
  a + (Z.of_nat (length offsets) - 1) ≤ b.
Proof.
  revert a. induction offsets as [|x offsets IH]; intros a Hinc Ha Hb; simplify_eq/=.
  destruct offsets as [|y offsets]; [simplify_eq/=; lia|].
  apply andb_prop in Hinc as [Hxy%Z.ltb_lt Hinc]. specialize (IH y Hinc eq_refl Hb).
  simpl length in *. lia.
Qed.

Lemma concrete_partition_splittable template partition index count objects p :
  sizes_u64 objects → concrete_partition template partition index count objects = Ok p →
  ∃ object units, splittable template partition objects object units.
Proof.
  intros Hu. destruct partition as [n|n offsets]; simpl;
    (destruct (tt_inputs template !! n) as [oid|] eqn:Hin; simpl; [|done]);
    (destruct (objects !! oid) as [o|] eqn:Ho; simpl; [|done]); pose proof (Hu _ _ Ho) as Hsize.
  - intros _. exists o, (om_size_bytes o), oid. by split_and!.
  - destruct (valid_record_offsets offsets (om_size_bytes o)) eqn:Hv; simpl; [|done]. intros _.
    exists o, (Z.of_nat (length offsets) - 1), oid. split_and!; try done.
    pose proof (proj1 (valid_record_offsets_spec _ _) Hv) as (Hlen & H0 & Hn & Hinc).
    rewrite <- head_lookup in H0. rewrite Nat.sub_1_r, <- last_lookup in Hn.
    pose proof (strictly_increasing_length _ _ _ Hinc H0 Hn). destruct Hsize. split; lia.
Qed.

Lemma range_ok start len total :
  0 ≤ start → 0 ≤ len → start + len ≤ total → total ≤ u64_max →
  bool_decide (checked_add64 start len = None) = false ∧ (total <? saturating_add64 start len) = false.
Proof.
  intros. unfold checked_add64, saturating_add64. rewrite (proj2 (Z.leb_le _ _)) by lia.
  split; [done|]. apply Z.ltb_ge. lia.
Qed.

(** The range [start, start + len) lies in [0, total), all of [u64]. *)
Definition range_in (range : Z * Z) (total : Z) : Prop :=
  0 ≤ range.1 ∧ 0 ≤ range.2 ∧ range.1 + range.2 ≤ total ∧ total ≤ u64_max.

Lemma range_in_cut cut i total :
  0 ≤ cut i → cut i ≤ cut (i + 1) → cut (i + 1) ≤ total → total ≤ u64_max →
  range_in (cut_range cut i) total.
Proof. unfold range_in, cut_range. simpl. lia. Qed.

Lemma range_in_checks start len total :
  range_in (start, len) total →
  bool_decide (checked_add64 start len = None) = false ∧ (total <? saturating_add64 start len) = false.
Proof.
  intros (? & ? & ? & ?). simpl in *. unfold checked_add64, saturating_add64.
  rewrite (proj2 (Z.leb_le _ _)) by lia. split; [done|]. apply Z.ltb_ge. lia.
Qed.

Lemma validate_task_partition_ok inputs p :
  (partition_input p < inputs)%nat → range_in (unit_range p) (partition_total p) →
  range_in (byte_range p) (partition_bytes p) → validate_task_partition inputs p = Ok tt.
Proof.
  intros Hin%Nat.leb_gt Hu Hb. destruct p; simpl in *; rewrite Hin;
    destruct (range_in_checks _ _ _ Hu) as [-> ->]; [done|].
  by destruct (range_in_checks _ _ _ Hb) as [-> ->].
Qed.

Lemma shard_partition_valid template partition objects object units count index p inputs :
  splittable template partition objects object units → 0 < count ≤ u32_max → 0 ≤ index < count →
  concrete_partition template partition index count objects = Ok p →
  (length (tt_inputs template) <= inputs)%nat →
  validate_task_partition inputs p = Ok tt.
Proof.
  intros Hsplit Hcount Hi Hp Hinputs.
  pose proof (splittable_units _ _ _ _ _ Hsplit) as Hu.
  destruct (concrete_partition_cuts _ _ _ _ _ _ Hsplit Hcount index Hi)
    as (p' & Hp' & Hr & Hb & Ht & Hin & Hbytes).
  assert (p' = p) as -> by congruence.
  apply validate_task_partition_ok.
  - destruct Hsplit as (oid & Hlook%lookup_lt_Some & _). rewrite Hin. lia.
  - rewrite Hr, Ht. pose proof (cut_point_bounds units count Hu Hcount index ltac:(lia)).
    pose proof (cut_point_bounds units count Hu Hcount (index + 1) ltac:(lia)).
    pose proof (cut_point_mono units count Hu Hcount index (index + 1) ltac:(lia)).
    destruct Hu. apply range_in_cut; lia.
  - rewrite Hb, Hbytes. pose proof (byte_cut_bounds _ _ _ _ _ _ Hsplit Hcount index ltac:(lia)) as [? _].
    pose proof (byte_cut_bounds _ _ _ _ _ _ Hsplit Hcount (index + 1) ltac:(lia)) as [_ ?].
    apply range_in_cut; [done| |done|].
    + by apply (byte_cut_mono _ _ _ _ _ _ Hsplit Hcount index).
    + by destruct Hsplit as (? & ? & ? & [] & ? & ?).
Qed.

Lemma shard_task_valid template deps index count share id auto objects :
  sizes_u64 objects → 0 < count ≤ u32_max → 0 ≤ index < count →
  share_ok template index count auto objects share →
  validate_task (shard_task template deps index count share id) = Ok tt.
Proof.
  intros Hu Hcount Hi Hshare.
  assert (Hctx : (count =? 0) || (count <=? index) = false).
  { by rewrite (proj2 (Z.eqb_neq _ _)), (proj2 (Z.leb_gt _ _)) by lia. }
  destruct auto as [policy|]; simpl in Hshare.
  - destruct Hshare as (p & -> & Hp). unfold validate_task. simpl.
    unfold validate_task_shard. simpl. rewrite Hctx. simpl.
    destruct (concrete_partition_splittable _ _ _ _ _ _ Hu Hp) as (object & units & Hsplit).
    rewrite (shard_partition_valid _ _ _ _ _ _ _ _ _ Hsplit Hcount Hi Hp); [done|].
    rewrite length_app. lia.
  - subst. unfold validate_task. simpl. unfold validate_task_shard. simpl. by rewrite Hctx.
Qed.

(** Counts that fit their [u32] field. *)
Definition policy_u32 (policy : ShardPolicy) : Prop :=
  match policy with
  | Fixed count => 0 ≤ count ≤ u32_max
  | PolicyAuto p => 0 ≤ ap_max_shards p ≤ u32_max
  end.

Lemma shard_count_u32 role objects count :
  policy_u32 (lr_shards role) → shard_count_ok role objects count → 0 ≤ count ≤ u32_max.
Proof.
  unfold policy_u32, shard_count_ok. destruct (lr_shards role) as [c|p]; [by intros ? ->|].
  intros Hp (units & _ & Hc). unfold max_auto_shards in Hc. unfold u32_max in *. case_match; lia.
Qed.

(** C39 Every child of a sharded role is accepted by the fabric: whatever the
    policy, the partition of the input and the shard count chosen, each placed
    child task passes [validate_task], because its shard index is below its
    count and its byte and record ranges stay inside the published object
    without overflowing [u64]. *)
Theorem planned_shards_valid role deps context w sels w'
    (Hobjects : sizes_u64 (ctx_objects context)) (Hpolicy : policy_u32 (lr_shards role))
    (Hselect : select_ready_shards role deps context w = (Ok sels, w')) :
  Forall (λ sel, validate_task (rss_task sel) = Ok tt) sels.
Proof.
  pose proof (select_ready_shards_ok role deps context w) as Hok. rewrite Hselect in Hok. simpl in Hok.
  destruct Hok as (count & Hcount & Hsels).
  pose proof (shard_count_u32 _ _ _ Hpolicy Hcount) as Hu32.
  eapply Forall2_Forall_r_of; [exact Hsels|].
  intros i sel Hi%elem_of_seqZ (_ & _ & impl & id & share & _ & _ & -> & Hshare).
  eapply shard_task_valid; [exact Hobjects|lia|lia|exact Hshare].
Qed.

(** ** Fused chains *)

Lemma resolve_binding_in_range inputs bindings objects :
  mapM (resolve_binding inputs) bindings = Some objects →
  Forall (λ b, match b with External i => (i < length inputs)%nat | PreviousOutput => True end) bindings.
Proof.
  rewrite mapM_Some. induction 1 as [|b o bs os Hb _ IH]; constructor; [|done].
  destruct b as [i|]; simpl in Hb; [|done]. apply fmap_Some in Hb as (x & Hx & _).
  by eapply lookup_lt_Some.
Qed.

(** The object read is the previous stage's output. *)
Definition is_previous (object : option ObjectId) : bool :=
  match object with None => true | Some _ => false end.

Lemma resolve_binding_previous inputs bindings objects :
  mapM (resolve_binding inputs) bindings = Some objects →
  length (List.filter is_previous_output bindings) = length (List.filter is_previous objects).
Proof.
  rewrite mapM_Some. induction 1 as [|b o bs os Hb _ IH]; simpl; [done|].
  destruct b as [i|]; simpl in Hb.
  - apply fmap_Some in Hb as (x & _ & ->). done.
  - injection Hb as <-. simpl. by rewrite IH.
Qed.

Lemma filter_Some_nil (l : list ObjectId) :
  List.filter is_previous (Some <$> l) = [].
Proof. by induction l. Qed.

(** A stage passes when its artifact and entrypoint are those of a built-in
    and it reads the previous output exactly when it is not the first. *)
Lemma validate_stage_ok n index template objects stage inputs :
  length inputs = n → stage_runs inputs template objects stage →
  starts_with "builtin:" (tt_artifact template) = true → tt_entrypoint template = "run" →
  length (List.filter is_previous objects) = (if (index =? 0)%nat then 0 else 1)%nat →
  validate_stage n index stage = Ok tt.
Proof.
  intros <- (Ha & He & _ & Hb) Hbuiltin Hrun Hprev. unfold validate_stage.
  rewrite Ha, Hbuiltin. simpl. rewrite He, Hrun. rewrite bool_decide_true by done. simpl.
  rewrite (resolve_binding_previous _ _ _ Hb), Hprev.
  assert ((index =? 0)%nat && negb ((if (index =? 0)%nat then 0 else 1) =? 0)%nat
    || (0 <? index)%nat && negb ((if (index =? 0)%nat then 0 else 1) =? 1)%nat = false) as ->
    by by destruct index.
  simpl. apply resolve_binding_in_range in Hb. induction Hb as [|b bs Hb _ IH]; simpl; [done|].
  destruct b as [i|]; simpl; [|done]. by rewrite (proj2 (Nat.leb_gt _ _)).
Qed.

(** The templates of a fused chain, all built-ins run by [run]. *)
Definition pipeline_template (template : TaskTemplate) : Prop :=
  fusable_template template = true ∧ tt_entrypoint template = "run".

Lemma pipeline_template_artifact template :
  pipeline_template template → starts_with "builtin:" (tt_artifact template) = true.
Proof. intros [Hf _]. unfold fusable_template in Hf. by apply andb_prop in Hf as [_ ?]. Qed.

Lemma validate_later_stages n inputs rest stages index :
  length inputs = n → Forall pipeline_template rest → (0 < index)%nat →
  Forall2 (later_stage_runs inputs) rest stages →
  ofold (λ _ '(i, stage), validate_stage n i stage) tt (imap (λ i stage, (index + i, stage)%nat) stages) = Ok tt.
Proof.
  intros Hn Hrest Hidx Hall. revert index Hidx Hrest.
  induction Hall as [|t stage rest stages Ht _ IH]; intros index Hidx Hrest; [done|].
  apply Forall_cons in Hrest as [Htpl Hrest]. rewrite imap_cons. cbn [ofold].
  rewrite (validate_stage_ok n (index + 0) t _ stage inputs Hn Ht).
  - simpl. rewrite <- (IH (S index)); [|lia|done]. f_equal. apply imap_ext. intros. simpl.
    by rewrite Nat.add_succ_r.
  - by apply pipeline_template_artifact.
  - apply Htpl.
  - rewrite List.filter_app, filter_Some_nil. by destruct index; [lia|].
Qed.

Lemma fused_task_valid implementations deps requirements task :
  (2 <= length implementations)%nat → Forall (λ i, pipeline_template (ri_task i)) implementations →
  fused_task_of implementations deps requirements task → validate_task task = Ok tt.
Proof.
  intros Hlen Hall [w Htask]. destruct implementations as [|first [|second rest]]; simpl in Hlen; [lia..|].
  unfold fused_pipeline_task, bind, instantiate, new_id, new_v4, ret in Htask. csimpl in Htask.
  destruct (fused_stages _ _ deps) as [stages inputs] eqn:E. simpl in Htask. injection Htask as <-.
  destruct (fused_stages_ok _ _ _ _ _ E) as (_ & _ & stage & later & -> & Hfirst & Hlater).
  apply Forall_cons in Hall as [Ht Hrest].
  apply (Forall_fmap ri_task pipeline_template (second :: rest)) in Hrest. csimpl in Hrest.
  unfold validate_task, validate_pipeline.
  cbn [ts_shard ts_pipeline ts_artifact ts_entrypoint ts_effects ts_inputs obind].
  rewrite !bool_decide_true by done. cbn [negb orb].
  assert (Hl : (length (stage :: later) <? 2)%nat = false).
  { apply Nat.ltb_ge. apply Forall2_length in Hlater. simpl in *. lia. }
  rewrite Hl. cbn [invalid_if obind]. rewrite imap_cons. cbn [ofold].
  rewrite (validate_stage_ok (length inputs) 0 _ _ stage inputs eq_refl Hfirst).
  - cbn [obind]. apply (validate_later_stages (length inputs) inputs _ later 1 eq_refl Hrest); [lia|done].
  - by apply pipeline_template_artifact.
  - apply Ht.
  - by rewrite filter_Some_nil.
Qed.

Lemma fusable_prefix_fusable chain n impls :
  (n <= fusable_prefix_len chain)%nat →
  Forall2 (λ role i, i ∈ lr_implementations role) (take n chain) impls →
  Forall (λ i, fusable_template (ri_task i) = true) impls.
Proof.
  revert n impls. induction chain as [|role chain IH]; intros n impls Hn Hall.
  { rewrite take_nil in Hall. inversion_clear Hall. constructor. }
  destruct n as [|n]; [inversion_clear Hall; constructor|]. simpl in *.
  destruct (forallb _ _) eqn:Hf; [|lia]. apply forallb_Forall_true in Hf. rewrite Forall_forall in Hf.
  apply Forall2_cons_inv_l in Hall as (i & impls' & Hi & Hrest & ->). constructor; [by apply Hf|].
  apply (IH n); [lia|done].
Qed.

(** A selected fusion is accepted by the fabric when the implementations of
    the chain all use the entrypoint [run]: the pipeline task then passes
    [validate_task] (built-in stages, Pure, at least two of them, the first
    reading no previous output and each later one exactly one, every external
    index in range).  The hypothesis is needed: fusability does not check the
    entrypoint. *)
Theorem fused_selection_valid `{HashOrder} context chain deps w sel w'
    (Hrun : Forall (λ role, Forall (λ i, tt_entrypoint (ri_task i) = "run") (lr_implementations role)) chain)
    (Hselect : select_ready_fusion context chain deps w = (Ok sel, w')) :
  validate_task (rfs_task sel) = Ok tt.
Proof.
  pose proof (select_ready_fusion_ok context chain deps w) as Hok. rewrite Hselect in Hok.
  destruct Hok as (n & impls & Hn & Hall & _ & Htask & _).
  eapply fused_task_valid; [| |exact Htask].
  - rewrite <- (Forall2_length _ _ _ Hall), length_take. pose proof (fusable_prefix_len_le chain). lia.
  - pose proof (fusable_prefix_fusable chain n impls ltac:(lia) Hall) as Hf.
    rewrite Forall_forall in Hf. apply Forall_forall. intros i Hi.
    split; [by apply Hf|]. apply list_elem_of_lookup in Hi as [k Hk].
    destruct (Forall2_lookup_r _ _ _ _ _ Hall Hk) as (role & Hrole & Hin).
    pose proof (Forall_take _ n _ Hrun) as Hrun'. pose proof (Forall_lookup_1 _ _ _ _ Hrun' Hrole) as Hr.
    cbn beta in Hr. rewrite Forall_forall in Hr. by apply Hr.
Qed.

(** *** Applications *)

Definition sample_context : PlanningContext :=
  mkPlanningContext TopologyAwareScheduler_default
    [Samples.resource (Samples.resource_id 1) 1 0 []; Samples.resource (Samples.resource_id 2) 1 0 []]
    (Samples.one_object 12)
    [Samples.link (Samples.resource_id 1) (Samples.resource_id 2) 1 1000].
Definition sample_sharded_role : LogicalRoleSpec :=
  mkLogicalRoleSpec "map" [mkRoleImplementation "id" Samples.one_input] []
    (PolicyAuto (Samples.record_policy 2 [0; 2; 8; 9; 12])) None.

Lemma planned_shards_valid_witness :
  ∃ sels w', select_ready_shards sample_sharded_role [] sample_context (Samples.world 0) = (Ok sels, w') ∧
    length sels = 2%nat ∧ Forall (λ sel, validate_task (rss_task sel) = Ok tt) sels.
Proof.
  destruct (select_ready_shards sample_sharded_role [] sample_context (Samples.world 0))
    as [[sels| | |] w'] eqn:E; [|by vm_compute in E..].
  exists sels, w'. split; [done|]. split; [by vm_compute in E; injection E as <- _|].
  apply (planned_shards_valid sample_sharded_role [] sample_context (Samples.world 0) sels w'); [| |exact E].
  - intros id o Ho. simpl in Ho. unfold Samples.one_object in Ho. apply lookup_singleton_Some in Ho as [_ <-].
    unfold is_u64, u64_max. simpl. lia.
  - unfold policy_u32, u32_max. simpl. lia.
Defined.

(** The producer/consumer chain of the runtime's fusion test. *)
Definition fusion_template (artifact entrypoint : string) (feature : string) (output : Z) : TaskTemplate :=
  mkTaskTemplate artifact entrypoint [] [] (Samples.features [feature]) Pure (mkCostHint 100 output).
Definition fusion_roles (entrypoint : string) : list LogicalRoleSpec :=
  [Samples.role "producer" [mkRoleImplementation "producer-builtin"
     (fusion_template "builtin:echo" entrypoint "fusion:producer" 106250)] [];
   Samples.role "consumer" [mkRoleImplementation "consumer-builtin"
     (fusion_template "builtin:identity" entrypoint "fusion:consumer" 106250)] ["producer"]].
Definition fusion_resources : list ResourceDescriptor :=
  [Samples.resource (Samples.resource_id 1) 1 500 ["fusion:producer"; "fusion:consumer"];
   Samples.resource (Samples.resource_id 2) 10 0 ["fusion:consumer"]].
Definition fusion_links : TopologySnapshot :=
  [Samples.link (Samples.resource_id 1) (Samples.resource_id 2) 100 1].
Definition fusion_sample : FusionContext :=
  mkFusionContext (mkPlanningContext TopologyAwareScheduler_default fusion_resources ∅ fusion_links)
    FusionAdvisor_default.

Lemma fused_selection_valid_witness :
  let run := select_ready_fusion (H := trie_order) fusion_sample (fusion_roles "run") [] (Samples.world 0) in
  ∃ sel w', run = (Ok sel, w') ∧ rfs_implementations sel = ["producer-builtin"; "consumer-builtin"] ∧
    validate_task (rfs_task sel) = Ok tt.
Proof.
  intros run. destruct run as [[sel| | |] w'] eqn:E; [|by vm_compute in E..].
  exists sel, w'. split; [done|]. split; [by vm_compute in E; injection E as <- _|].
  apply (fused_selection_valid (H := trie_order) fusion_sample (fusion_roles "run") [] (Samples.world 0) sel w');
    [|exact E].
  repeat constructor.
Defined.

(** With another entrypoint the same chain is fused all the same, and the
    fabric rejects the pipeline task it is given. *)
Example fused_entrypoint_rejected :
  ∃ sel w', select_ready_fusion (H := trie_order) fusion_sample (fusion_roles "main") [] (Samples.world 0)
      = (Ok sel, w') ∧
    validate_task (rfs_task sel) = Err (InvalidTask "pipeline stage 0 requires entrypoint run").
Proof.
  destruct (select_ready_fusion (H := trie_order) fusion_sample (fusion_roles "main") [] (Samples.world 0))
    as [[sel| | |] w'] eqn:E; [|by vm_compute in E..].
  exists sel, w'. split; [done|]. vm_compute in E. injection E as <- _. by vm_compute.
Qed.
