(* ===== verification/Roles.v ===== *)
(** * crates/plurifold-runtime/src/lib.rs: the role runtime

    Materializing ready roles as tasks, completing them, and running the
    reduction levels of sharded roles. *)

From S2P Require Import Prelude Float64 World Text Core Scheduler RoleGraph Partition Placement Reduction Fusion LogicalJob Fabric.

Open Scope string_scope.
Open Scope list_scope.
Open Scope Z_scope.

(** ** Reading a job definition *)

(** [logical_role_reduction] *)
Definition logical_role_reduction (definition : JobDefinition) (role_name : string) : option RoleReductionSpec :=
  match definition with
  | Logical spec =>
      role ← List.find (λ role, bool_decide (lr_name role = role_name)) (lj_roles spec);
      lr_reduction role
  | Cooperative _ => None
  end.

(** [job_outputs], [job_roles] *)
Definition job_outputs (definition : JobDefinition) : list string :=
  match definition with Cooperative spec => cj_outputs spec | Logical spec => lj_outputs spec end.
Definition definition_roles (definition : JobDefinition) : list (string * list string) :=
  match definition with
  | Cooperative spec => (λ role, (cr_name role, cr_depends_on role)) <$> cj_roles spec
  | Logical spec => (λ role, (lr_name role, lr_depends_on role)) <$> lj_roles spec
  end.

Abbreviation RoleStatuses := (gmap string CooperativeRoleStatus).

(** [dependency_outputs]: [None] until every dependency is completed. *)
Fixpoint dependency_outputs (statuses : RoleStatuses) (dependencies : list string) : option (list ObjectId) :=
  match dependencies with
  | [] => Some []
  | dependency :: dependencies' =>
      match statuses !! dependency with
      | Some (RoleCompleted outputs) =>
          inputs ← dependency_outputs statuses dependencies'; Some (outputs ++ inputs)
      | _ => None
      end
  end.

Definition depends_on_role (name : string) (candidate : LogicalRoleSpec) : bool :=
  existsb (λ dependency, bool_decide (dependency = name)) (lr_depends_on candidate).

(** The loop of [fusion_chain] from [current]: the roles pushed after it. *)
Fixpoint fusion_chain_from (fuel : nat) (spec : LogicalJobSpec) (statuses : RoleStatuses)
    (current : LogicalRoleSpec) : outcome FabricError (list LogicalRoleSpec) :=
  match fuel with
  | O => Diverged
  | S fuel' =>
      if bool_decide (lr_name current ∈ lj_outputs spec) then Ok []
      else
        match List.filter (depends_on_role (lr_name current)) (lj_roles spec) with
        | [consumer] =>
            if negb (bool_decide (fixed_count (lr_shards consumer) = Some 1))
               || negb (bool_decide (lr_depends_on consumer = [lr_name current]))
               || negb (bool_decide (statuses !! lr_name consumer = Some Waiting))
            then Ok []
            else
              let? rest := fusion_chain_from fuel' spec statuses consumer in
              Ok (consumer :: rest)
        | _ => Ok []
        end
  end.

(** [fusion_chain]: a chain visits a role at most once when the graph is
    acyclic, so one turn more than there are roles is enough. *)
Definition fusion_chain (spec : LogicalJobSpec) (statuses : RoleStatuses) (first : LogicalRoleSpec) :
    outcome FabricError (list LogicalRoleSpec) :=
  if negb (bool_decide (fixed_count (lr_shards first) = Some 1)) then Ok [first]
  else
    let? rest := fusion_chain_from (S (length (lj_roles spec))) spec statuses first in
    Ok (first :: rest).

(** ** Updating a job's roles *)

Definition with_roles (job : CooperativeJobRecord) (roles : RoleStatuses) : CooperativeJobRecord :=
  mkCooperativeJobRecord (job_definition job) roles (job_selections job) (job_reductions job).
Definition with_selections (job : CooperativeJobRecord) (selections : gmap string RoleSelection) :
    CooperativeJobRecord :=
  mkCooperativeJobRecord (job_definition job) (job_roles job) selections (job_reductions job).
Definition with_reductions (job : CooperativeJobRecord) (reductions : gmap string ActiveReduction) :
    CooperativeJobRecord :=
  mkCooperativeJobRecord (job_definition job) (job_roles job) (job_selections job) reductions.

Definition find_job (job_id : JobId) : fab CooperativeJobRecord :=
  let* jobs := fget f_jobs in ok_or_throw (UnknownJob job_id) (jobs !! job_id).
(** [self.jobs.get_mut(&job_id).expect(...)] *)
Definition expect_job (job_id : JobId) : fab CooperativeJobRecord :=
  let* jobs := fget f_jobs in expect (jobs !! job_id).

(** [job.roles.insert(role, status)] *)
Definition insert_role (job_id : JobId) (job : CooperativeJobRecord) (role_name : string)
    (status : CooperativeRoleStatus) : fab unit :=
  set_job job_id (with_roles job (<[role_name := status]> (job_roles job))).

(** [*job.roles.get_mut(role).ok_or_else(error)? = status] *)
Definition assign_role (job_id : JobId) (role_name : string) (status : CooperativeRoleStatus)
    (error : FabricError) : fab unit :=
  let* job := find_job job_id in
  let* _ := ok_or_throw error (job_roles job !! role_name) in
  insert_role job_id job role_name status.

Definition missing (what : string) (role_name : string) : FabricError :=
  FabricInvalidLogicalJob ("runtime state is missing " +:+ what +:+ " " +:+ role_name).

Definition insert_selection (job_id : JobId) (role_name : string) (selection : RoleSelection) : fab unit :=
  let* job := expect_job job_id in
  set_job job_id (with_selections job (<[role_name := selection]> (job_selections job))).

Section role_runtime.
Context `{HashOrder}.

(** The planning context of the current fabric. *)
Definition planning_context (resources : list ResourceDescriptor) : fab PlanningContext :=
  let* f := fget id in
  ret (mkPlanningContext (f_scheduler f) resources (f_objects f) (f_topology f)).

(** ** [materialize_ready_roles] *)

Inductive ReadyRole :=
| ReadyCooperative (name : string) (task : TaskSpec)
| ReadyLogical (name : string) (role : LogicalRoleSpec) (dependency_inputs : list ObjectId)
    (fusion_chain : list LogicalRoleSpec).

(** The roles found ready, in the order of the specification. *)
Definition ready_cooperative (statuses : RoleStatuses) (role : CooperativeRoleSpec) : fab (option ReadyRole) :=
  if bool_decide (statuses !! cr_name role = Some Waiting) then
    match dependency_outputs statuses (cr_depends_on role) with
    | Some inputs =>
        let* task := fworld (instantiate (cr_task role) inputs) in
        ret (Some (ReadyCooperative (cr_name role) task))
    | None => ret None
    end
  else ret None.

Definition ready_logical (spec : LogicalJobSpec) (statuses : RoleStatuses) (role : LogicalRoleSpec) :
    fab (option ReadyRole) :=
  if bool_decide (statuses !! lr_name role = Some Waiting)
     || bool_decide (statuses !! lr_name role = Some Ready) then
    match dependency_outputs statuses (lr_depends_on role) with
    | Some inputs =>
        let* chain := lift (fusion_chain spec statuses role) in
        ret (Some (ReadyLogical (lr_name role) role inputs chain))
    | None => ret None
    end
  else ret None.

Definition ready_roles (job : CooperativeJobRecord) : fab (list ReadyRole) :=
  let* found :=
    match job_definition job with
    | Cooperative spec => cmap (ready_cooperative (job_roles job)) (cj_roles spec)
    | Logical spec => cmap (ready_logical spec (job_roles job)) (lj_roles spec)
    end in
  ret (omap id found).

(** The roles' status when no placement is feasible. *)
Definition mark_ready (job_id : JobId) (name : string) : fab unit :=
  let* job := expect_job job_id in insert_role job_id job name Ready.

(** Submit the children of a sharded role. *)
Definition submit_shard (job_id : JobId) (name : string) (selected : ReadyShardSelection) :
    fab ShardSelection :=
  let task_id := ts_id (rss_task selected) in
  let* _ := submit (rss_task selected) in
  set_task_role task_id (BindShard job_id name);;;
  ret (mkShardSelection (rss_index selected) task_id (rss_implementation selected)
         (rss_resource_id selected) (pb_total_ms (rss_cost selected))).

Definition materialize_sharded (job_id : JobId) (name : string) (role : LogicalRoleSpec)
    (dependency_inputs : list ObjectId) (resources : list ResourceDescriptor) : fab unit :=
  let* context := planning_context resources in
  let* selected_shards := fworld (try (select_ready_shards role dependency_inputs context)) in
  match selected_shards with
  | None => mark_ready job_id name
  | Some selected_shards =>
      let* selections := cmap (submit_shard job_id name) selected_shards in
      let* job := expect_job job_id in
      insert_role job_id job name (Sharded (ss_task_id <$> selections) 0);;;
      insert_selection job_id name (SelSharded selections)
  end.

(** Submit a fused prefix and point its roles at the pipeline task. *)
Definition mark_fused (job_id : JobId) (selected : ReadyFusionSelection) (role_names : list string)
    (task_id : TaskId) '(stage_index, (role_name, implementation)) : fab unit :=
  let* job := expect_job job_id in
  insert_role job_id job role_name (Submitted task_id);;;
  insert_selection job_id role_name
    (SelSingle implementation (rfs_resource_id selected) (pb_total_ms (rfs_cost selected))
       (Some (mkRoleFusionView role_names stage_index
                (rfs_estimated_avoided_transfer_ms selected)
                (rfs_estimated_vs_separate_ms selected)))).

Definition materialize_fused (job_id : JobId) (selected : ReadyFusionSelection)
    (chain : list LogicalRoleSpec) : fab unit :=
  let role_names := lr_name <$> take (length (rfs_implementations selected)) chain in
  let task_id := ts_id (rfs_task selected) in
  let* _ := submit (rfs_task selected) in
  set_task_role task_id (BindFusedChain job_id role_names);;;
  for_each (mark_fused job_id selected role_names task_id)
    (imap pair (zip role_names (rfs_implementations selected))).

(** The tail of the loop body, shared by cooperative roles and unfused
    logical roles. *)
Definition materialize_single (job_id : JobId) (role_name : string) (task : TaskSpec)
    (selection : option RoleSelection) : fab unit :=
  let task_id := ts_id task in
  let* _ := submit task in
  set_task_role task_id (BindSingle job_id role_name);;;
  let* job := expect_job job_id in
  insert_role job_id job role_name (Submitted task_id);;;
  match selection with
  | Some selection => insert_selection job_id role_name selection
  | None => ret tt
  end.

Definition materialize_logical (job_id : JobId) (name : string) (role : LogicalRoleSpec)
    (dependency_inputs : list ObjectId) (chain : list LogicalRoleSpec) : fab unit :=
  let* resources := schedulable_resources in
  if may_fan_out (lr_shards role) then
    materialize_sharded job_id name role dependency_inputs resources
  else
    let* context := planning_context resources in
    let* fused := fworld (try (select_ready_fusion (mkFusionContext context FusionAdvisor_default)
                                 chain dependency_inputs)) in
    match fused with
    | Some selected => materialize_fused job_id selected chain
    | None =>
        let* selected := fworld (try (select_ready_role role dependency_inputs
            (ctx_scheduler context) resources (ctx_objects context) (ctx_topology context))) in
        match selected with
        | None => mark_ready job_id name
        | Some selected =>
            materialize_single job_id name (rrs_task selected)
              (Some (SelSingle (rrs_implementation selected) (rrs_resource_id selected)
                       (pb_total_ms (rrs_cost selected)) None))
        end
    end.

Definition materialize_role (job_id : JobId) (ready_role : ReadyRole) : fab unit :=
  match ready_role with
  | ReadyCooperative name task => materialize_single job_id name task None
  | ReadyLogical name role dependency_inputs chain =>
      materialize_logical job_id name role dependency_inputs chain
  end.

(** [Fabric::materialize_ready_roles] *)
Definition materialize_ready_roles (job_id : JobId) : fab unit :=
  let* job := find_job job_id in
  let* ready := ready_roles job in
  for_each (materialize_role job_id) ready.

(** ** Reductions *)

Definition find_reduction_state (job : CooperativeJobRecord) (role_name : string) : fab ActiveReduction :=
  ok_or_throw (missing "reduction state for role" role_name) (job_reductions job !! role_name).

(** Submit the reducer of one item of a level. *)
Definition submit_reduction_item (job_id : JobId) (role_name : string) (item : ReadyReductionItem) :
    fab ReductionItem :=
  match item with
  | RCarry object => ret (ItemCarry object)
  | RReduce selected =>
      let task_id := ts_id (rds_task selected) in
      let* _ := submit (rds_task selected) in
      set_task_role task_id (BindReduction job_id role_name);;;
      ret (ItemTask task_id)
  end.

Definition item_tasks (items : list ReductionItem) : list TaskId :=
  omap (λ item, match item with ItemTask id => Some id | ItemCarry _ => None end) items.

(** A level of one object, or none, is the role's result. *)
Definition finish_reduction (job_id : JobId) (role_name : string) (inputs : list ObjectId) : fab unit :=
  let* job := find_job job_id in
  let job := with_reductions job (delete role_name (job_reductions job)) in
  insert_role job_id job role_name (RoleCompleted inputs);;;
  materialize_ready_roles job_id.

(** [Fabric::materialize_reduction_level] *)
Definition materialize_reduction_level (job_id : JobId) (role_name : string) : fab unit :=
  let* job := find_job job_id in
  let* reduction := ok_or_throw (missing "reduction spec for role" role_name)
                      (logical_role_reduction (job_definition job) role_name) in
  let* state := find_reduction_state job role_name in
  let level := red_level state in
  let inputs := red_inputs state in
  if negb (bool_decide (length (red_items state) = 0%nat)) then ret tt
  else if (length inputs <=? 1)%nat then finish_reduction job_id role_name inputs
  else
    let* resources := schedulable_resources in
    let* context := planning_context resources in
    let* selected := fworld (try (with_fresh_availability
                                    (select_reduction_level reduction inputs 0 context))) in
    match selected with
    | None =>
        let* job := find_job job_id in
        insert_role job_id job role_name (Reducing [] 0 level)
    | Some selected =>
        let* items := cmap (submit_reduction_item job_id role_name) selected in
        let task_ids := item_tasks items in
        if bool_decide (task_ids = []) then
          throw (FabricInvalidLogicalJob
                   ("reduction level for role " +:+ role_name +:+ " made no progress"))
        else
          let* job := find_job job_id in
          let* state := find_reduction_state job role_name in
          let job := with_reductions job
                       (<[role_name := mkActiveReduction (red_level state) (red_inputs state) items]>
                          (job_reductions job)) in
          insert_role job_id job role_name (Reducing task_ids 0 level)
    end.

(** [Fabric::start_role_reduction] *)
Definition start_role_reduction (job_id : JobId) (role_name : string) (inputs : list ObjectId) : fab unit :=
  let* job := find_job job_id in
  let job := with_reductions job
               (<[role_name := mkActiveReduction 0 inputs []]> (job_reductions job)) in
  insert_role job_id job role_name (Reducing [] 0 0);;;
  materialize_reduction_level job_id role_name.

(** The scan of [advance_reduction_level] over the items of a level:
    (next_inputs, task_ids, completed, all_complete). *)
Definition scan_reduction_item `{UuidCrate} (f : Fabric) (role_name : string)
    '(next_inputs, task_ids, completed, all_complete) (item : ReductionItem) :
    outcome FabricError (list ObjectId * list TaskId * nat * bool) :=
  match item with
  | ItemCarry object => Ok (next_inputs ++ [object], task_ids, completed, all_complete)
  | ItemTask task_id =>
      let task_ids := task_ids ++ [task_id] in
      match task_status f task_id with
      | Some (TaskCompleted [output]) =>
          Ok (next_inputs ++ [output], task_ids, S completed, all_complete)
      | Some (TaskCompleted _) =>
          Err (FabricInvalidLogicalJob
                 ("reduction task " +:+ id_to_string task_id +:+ " for role " +:+ role_name
                    +:+ " produced an invalid output count"))
      | _ => Ok (next_inputs, task_ids, completed, false)
      end
  end.

(** [Fabric::advance_reduction_level] *)
Definition advance_reduction_level `{UuidCrate} (job_id : JobId) (role_name : string) : fab unit :=
  let* job := find_job job_id in
  let* state := find_reduction_state job role_name in
  let level := red_level state in
  let* f := fget id in
  let* '(next_inputs, task_ids, completed, all_complete) :=
    lift (ofold (scan_reduction_item f role_name) ([], [], 0%nat, true) (red_items state)) in
  if negb all_complete then
    let* job := find_job job_id in
    insert_role job_id job role_name (Reducing task_ids completed level)
  else
    let* job := find_job job_id in
    let* state := find_reduction_state job role_name in
    set_job job_id (with_reductions job
        (<[role_name := mkActiveReduction (wrap32 (red_level state + 1)) next_inputs []]>
           (job_reductions job)));;;
    materialize_reduction_level job_id role_name.

(** [Fabric::refresh_reductions] *)
Definition refresh_reductions : fab unit :=
  let* jobs := fget f_jobs in
  let pending :=
    hash_iter jobs ≫= λ '(job_id, job),
      omap (λ '(role_name, state),
          if (1 <? length (red_inputs state))%nat && bool_decide (length (red_items state) = 0%nat)
          then Some (job_id, role_name) else None)
        (hash_iter (job_reductions job)) in
  for_each (λ '(job_id, role_name), materialize_reduction_level job_id role_name) pending.

(** [Fabric::refresh_ready_roles] *)
Definition refresh_ready_roles : fab unit :=
  refresh_reductions;;;
  let* jobs := fget f_jobs in
  for_each materialize_ready_roles (hash_keys jobs).

(** ** Completing roles *)

(** Completed outputs of the children, in shard order: (completed, outputs). *)
Definition shard_outputs (f : Fabric) (task_ids : list TaskId) : nat * list ObjectId :=
  fold_left (λ '(completed, all_outputs) shard_task,
      match task_status f shard_task with
      | Some (TaskCompleted outputs) => (S completed, all_outputs ++ outputs)
      | _ => (completed, all_outputs)
      end)
    task_ids (0%nat, []).

Definition complete_fused_chain (job_id : JobId) (role_names : list string)
    (outputs : list ObjectId) : fab unit :=
  let* _ := find_job job_id in
  match list.last role_names with
  | None => throw (FabricInvalidLogicalJob "runtime state contains an empty fused chain")
  | Some last_role =>
      for_each (λ role_name, assign_role job_id role_name (RoleCompleted [])
                               (missing "fused role" role_name))
        (removelast role_names);;;
      assign_role job_id last_role (RoleCompleted outputs) (missing "fused role" last_role)
  end.

(** The [Shard] arm of [complete_cooperative_role]; [true] when the job's
    ready roles must then be materialized. *)
Definition complete_shard (job_id : JobId) (role_name : string) : fab bool :=
  let* jobs := fget f_jobs in
  match job ← jobs !! job_id; job_roles job !! role_name with
  | Some (Sharded task_ids _) =>
      let* f := fget id in
      let '(completed, all_outputs) := shard_outputs f task_ids in
      let all_done := (completed =? length task_ids)%nat in
      let* reduces :=
        (if all_done then
           let* job := find_job job_id in
           ret (bool_decide (is_Some (logical_role_reduction (job_definition job) role_name))
                && (1 <? length all_outputs)%nat)
         else ret false) in
      if reduces : bool then
        start_role_reduction job_id role_name all_outputs;;;
        ret false
      else
        assign_role job_id role_name
          (if all_done then RoleCompleted all_outputs else Sharded task_ids completed)
          (missing "sharded role" role_name);;;
        ret true
  | Some RoleUncertain => ret false
  | _ => throw (missing "sharded role" role_name)
  end.

(** [Fabric::complete_cooperative_role] *)
Definition complete_cooperative_role `{UuidCrate} (task_id : TaskId) (outputs : list ObjectId) : fab unit :=
  let* task_roles := fget f_task_roles in
  match task_roles !! task_id with
  | None => ret tt
  | Some (BindSingle job_id role_name) =>
      assign_role job_id role_name (RoleCompleted outputs)
        (InvalidCooperativeJob ("runtime state is missing role " +:+ role_name));;;
      materialize_ready_roles job_id
  | Some (BindFusedChain job_id role_names) =>
      complete_fused_chain job_id role_names outputs;;;
      materialize_ready_roles job_id
  | Some (BindShard job_id role_name) =>
      let* continue := complete_shard job_id role_name in
      if continue : bool then materialize_ready_roles job_id else ret tt
  | Some (BindReduction job_id role_name) =>
      if negb (length outputs =? 1)%nat then
        throw (FabricInvalidLogicalJob
                 ("reduction task for role " +:+ role_name +:+ " must produce exactly one output"))
      else advance_reduction_level job_id role_name
  end.

(** [if let Some(status) = job.roles.get_mut(role) { *status = Uncertain }] *)
Definition mark_role_uncertain (job_id : JobId) (role_name : string) : fab unit :=
  let* jobs := fget f_jobs in
  match jobs !! job_id with
  | Some job =>
      match job_roles job !! role_name with
      | Some _ => insert_role job_id job role_name RoleUncertain
      | None => ret tt
      end
  | None => ret tt
  end.

(** [Fabric::mark_cooperative_role_uncertain] *)
Definition mark_cooperative_role_uncertain (task_id : TaskId) : fab unit :=
  let* task_roles := fget f_task_roles in
  match task_roles !! task_id with
  | None => ret tt
  | Some (BindSingle job_id role_name)
  | Some (BindShard job_id role_name)
  | Some (BindReduction job_id role_name) => mark_role_uncertain job_id role_name
  | Some (BindFusedChain job_id role_names) => for_each (mark_role_uncertain job_id) role_names
  end.
End role_runtime.
