(* ===== verification/Execution.v ===== *)
(** * crates/plurifold-runtime/src/lib.rs: execution leases and jobs

    [begin_execution], [renew_execution], [complete_execution] and the reaper
    of expired leases; submission and inspection of jobs. *)

From S2P Require Import Prelude Float64 World Text Core Scheduler RoleGraph Partition Placement Reduction Fusion LogicalJob Planner Fabric Roles.

Open Scope string_scope.
Open Scope list_scope.
Open Scope Z_scope.

Section execution.
Context `{HashOrder} `{UuidCrate}.

(** [Fabric::begin_execution] *)
Definition begin_execution (task_id : TaskId) (resource_id : ResourceId) : fab ExecutionLease :=
  let* now := fworld now_unix_ms in
  let* resource := find_active resource_id now in
  let* tasks := fget f_tasks in
  let* record := ok_or_throw (UnknownTask task_id) (tasks !! task_id) in
  if negb (bool_decide (tr_status record = Pending)) then throw (TaskNotPending task_id)
  else
    let* execution_id := fworld new_id in
    let* ttl := fget f_execution_ttl_ms in
    let lease := mkExecutionLease task_id execution_id resource_id
                   (rd_epoch (reg_descriptor resource)) (saturating_add64 now ttl) in
    set_task task_id (mkTaskRecord (tr_spec record) (Running lease));;;
    ret lease.

(** The lease of a running record whose execution is that of [lease]. *)
Definition current_lease (record : TaskRecord) (lease : ExecutionLease) : option ExecutionLease :=
  match tr_status record with
  | Running current =>
      if bool_decide (el_execution_id current = el_execution_id lease) then Some current else None
  | _ => None
  end.

Definition same_owner (current lease : ExecutionLease) : bool :=
  bool_decide (el_resource_id current = el_resource_id lease)
  && (el_resource_epoch current =? el_resource_epoch lease).

(** The guards [renew_execution] and [complete_execution] share, in order:
    the resource is active, its epoch is the lease's, the task exists, it
    runs this execution, the lease has not expired and has the same owner. *)
Definition check_lease (lease : ExecutionLease) (now : Z) : fab (TaskRecord * ExecutionLease) :=
  let* resource := find_active (el_resource_id lease) now in
  if negb (rd_epoch (reg_descriptor resource) =? el_resource_epoch lease) then
    throw (StaleResourceEpoch (el_resource_id lease))
  else
    let* tasks := fget f_tasks in
    let* record := ok_or_throw (UnknownTask (el_task_id lease)) (tasks !! el_task_id lease) in
    let* current := ok_or_throw StaleExecution (current_lease record lease) in
    if el_expires_at_unix_ms current <=? now then throw ExecutionExpired
    else if negb (same_owner current lease) then throw StaleExecution
    else ret (record, current).

(** [Fabric::renew_execution] *)
Definition renew_execution (lease : ExecutionLease) : fab ExecutionLease :=
  let* now := fworld now_unix_ms in
  let* '(record, current) := check_lease lease now in
  let* ttl := fget f_execution_ttl_ms in
  let renewed := mkExecutionLease (el_task_id current) (el_execution_id current)
                   (el_resource_id current) (el_resource_epoch current)
                   (saturating_add64 now ttl) in
  set_task (el_task_id lease) (mkTaskRecord (tr_spec record) (Running renewed));;;
  ret renewed.

Definition is_reduction_binding (binding : option TaskRoleBinding) : bool :=
  match binding with Some (BindReduction _ _) => true | _ => false end.

(** The identity check of the outputs against the published objects. *)
Definition check_output (objects : Objects) (output : ObjectMetadata) : outcome FabricError unit :=
  match objects !! om_id output with
  | Some existing =>
      if same_object_identity existing output then Ok tt else Err (ObjectConflict (om_id output))
  | None => Ok tt
  end.

(** [Fabric::complete_execution] *)
Definition complete_execution (lease : ExecutionLease) (outputs : list ObjectMetadata) : fab unit :=
  let* now := fworld now_unix_ms in
  let* _ := check_lease lease now in
  let* f := fget id in
  if is_reduction_binding (f_task_roles f !! el_task_id lease)
     && negb (length outputs =? 1)%nat then
    throw (FabricInvalidLogicalJob "reduction tasks must produce exactly one output")
  else
    lift (ofold (λ _ output, check_output (f_objects f) output) tt outputs);;;
    let output_ids := om_id <$> outputs in
    let* record := expect (f_tasks f !! el_task_id lease) in
    set_task (el_task_id lease) (mkTaskRecord (tr_spec record) (TaskCompleted output_ids));;;
    for_each publish_object outputs;;;
    complete_cooperative_role (el_task_id lease) output_ids.

(** The expired leases [reap_expired_executions_at] finds. *)
Definition expired_at (unix_ms : Z) (record : TaskRecord) : bool :=
  match tr_status record with
  | Running lease => el_expires_at_unix_ms lease <=? unix_ms
  | _ => false
  end.

Definition reaped_status (record : TaskRecord) : TaskStatus :=
  if automatically_retryable (ts_effects (tr_spec record)) then Pending else TaskUncertain.

Definition reap_record (unix_ms : Z) (record : TaskRecord) : TaskRecord :=
  if expired_at unix_ms record then mkTaskRecord (tr_spec record) (reaped_status record) else record.

(** [Fabric::reap_expired_executions_at] *)
Definition reap_expired_executions_at (unix_ms : Z) : fab (list TaskId) :=
  let* tasks := fget f_tasks in
  let expired := List.filter (λ '(_, record), expired_at unix_ms record) (hash_iter tasks) in
  let uncertain := List.filter (λ '(_, record),
      negb (automatically_retryable (ts_effects (tr_spec record)))) expired in
  fmod (λ f, set_tasks f (reap_record unix_ms <$> f_tasks f));;;
  for_each mark_cooperative_role_uncertain uncertain.*1;;;
  ret expired.*1.

(** ** Jobs *)

Definition waiting_roles (names : list string) : RoleStatuses :=
  list_to_map ((λ name, (name, Waiting)) <$> names).

Definition insert_new_job (job_id : JobId) (definition : JobDefinition) (names : list string) : fab unit :=
  set_job job_id (mkCooperativeJobRecord definition (waiting_roles names) ∅ ∅).

Definition cooperative_graph (job : CooperativeJobSpec) : RoleGraph :=
  (λ role, (cr_name role, cr_depends_on role)) <$> cj_roles job.

(** [validate_cooperative_job] *)
Definition validate_cooperative_job (job : CooperativeJobSpec) : outcome FabricError unit :=
  map_err InvalidCooperativeJob (validate_role_graph (cooperative_graph job) (cj_outputs job)).

(** [Fabric::submit_cooperative] *)
Definition submit_cooperative (job : CooperativeJobSpec) : fab JobId :=
  lift (validate_cooperative_job job);;;
  let job_id := cj_id job in
  let* jobs := fget f_jobs in
  match jobs !! job_id with
  | Some _ => throw (DuplicateJob job_id)
  | None =>
      insert_new_job job_id (Cooperative job) (cr_name <$> cj_roles job);;;
      materialize_ready_roles job_id;;;
      ret job_id
  end.

(** [submit_logical]'s conversion of a validation error: placing is not
    part of validation, so the other error is unreachable. *)
Definition validation_error {A} (m : outcome PlanError A) : outcome FabricError A :=
  match m with
  | Ok a => Ok a
  | Err (InvalidLogicalJob message) => Err (FabricInvalidLogicalJob message)
  | Err (NoFeasibleImplementation _) => Panic
  | Panic => Panic
  | Diverged => Diverged
  end.

(** [Fabric::submit_logical] *)
Definition submit_logical (job : LogicalJobSpec) : fab JobId :=
  lift (validation_error (validate_logical_job job));;;
  let* objects := fget f_objects in
  lift (validation_error (validate_logical_job_objects job objects));;;
  let job_id := lj_id job in
  let* jobs := fget f_jobs in
  match jobs !! job_id with
  | Some _ => throw (DuplicateJob job_id)
  | None =>
      insert_new_job job_id (Logical job) (lr_name <$> lj_roles job);;;
      materialize_ready_roles job_id;;;
      ret job_id
  end.

Definition is_completed_role (status : CooperativeRoleStatus) : bool :=
  match status with RoleCompleted _ => true | _ => false end.

(** [Fabric::job_definition] *)
Definition fabric_job_definition (f : Fabric) (job_id : JobId) : option JobDefinition :=
  job_definition <$> f_jobs f !! job_id.

(** [Fabric::cooperative_job_status] *)
Definition cooperative_job_status (f : Fabric) (job_id : JobId) : option CooperativeJobStatus :=
  record ← f_jobs f !! job_id;
  let statuses := hash_values (job_roles record) in
  Some (if existsb (λ status, bool_decide (status = RoleUncertain)) statuses then JobUncertain
        else if negb (forallb is_completed_role statuses) then JobRunning
        else JobCompleted
               (job_outputs (job_definition record) ≫= λ role_name,
                  match job_roles record !! role_name with
                  | Some (RoleCompleted outputs) => outputs
                  | _ => []
                  end)).

(** One shard of [cooperative_role_views]. *)
Definition shard_view (f : Fabric) (selection : ShardSelection) : outcome FabricError RoleShardView :=
  match f_tasks f !! ss_task_id selection with
  | None => Panic
  | Some task =>
      Ok (mkRoleShardView (ss_index selection) (ss_task_id selection)
            (ss_implementation selection) (ss_planned_resource selection)
            (ss_estimated_total_ms selection)
            (ts_shard (tr_spec task) ≫= sh_partition) (tr_status task))
  end.

Definition role_view (f : Fabric) (record : CooperativeJobRecord)
    '(name, depends_on) : outcome FabricError CooperativeRoleView :=
  let? '(implementation, planned_resource, estimated_total_ms, fusion, shards) :=
    match job_selections record !! name with
    | Some (SelSingle implementation planned_resource estimated_total_ms fusion) =>
        Ok (Some implementation, Some planned_resource, Some estimated_total_ms, fusion, [])
    | Some (SelSharded selections) =>
        let? shards := ofold (λ views selection,
            let? view := shard_view f selection in Ok (views ++ [view])) [] selections in
        Ok (None, None, None, None, shards)
    | None => Ok (None, None, None, None, [])
    end in
  match job_roles record !! name with
  | None => Panic
  | Some status =>
      Ok (mkCooperativeRoleView name depends_on status implementation planned_resource
            estimated_total_ms fusion shards)
  end.

(** [Fabric::cooperative_role_views] *)
Definition cooperative_role_views (f : Fabric) (job_id : JobId) :
    outcome FabricError (option (list CooperativeRoleView)) :=
  match f_jobs f !! job_id with
  | None => Ok None
  | Some record =>
      let? views := ofold (λ views role,
          let? view := role_view f record role in Ok (views ++ [view]))
        [] (definition_roles (job_definition record)) in
      Ok (Some views)
  end.

(** [Fabric::plan_logical_job] *)
Definition plan_logical_job (spec : LogicalJobSpec) : comp Node PlanError CooperativePlan :=
  let* resources := schedulable_resources in
  let* f := fget id in
  fworld (plan (f_scheduler f) resources (f_topology f) spec (f_objects f)).
End execution.
