(* ===== verification/Coordinator.v ===== *)
(** * crates/plurifold-coordinator: the control plane

    The coordinator's state behind its mutex, one definition per HTTP handler,
    and the maintenance tick.  A handler holds the lock for its whole body, so
    a handler is one atomic step. *)

From S2P Require Import Prelude Float64 World Text Core Scheduler LogicalJob Planner Fabric Roles Execution.

Open Scope string_scope.
Open Scope list_scope.
Open Scope Z_scope.

(** ** Errors *)

(** The status codes of the [http] crate the handlers use. *)
Inductive StatusCode :=
  NO_CONTENT | BAD_REQUEST | NOT_FOUND | CONFLICT | UNPROCESSABLE_ENTITY.

Record ApiError := mkApiError { api_status : StatusCode; api_message : string }.

Definition bad_request (message : string) : ApiError := mkApiError BAD_REQUEST message.
Definition not_found (message : string) : ApiError := mkApiError NOT_FOUND message.
Definition conflict (message : string) : ApiError := mkApiError CONFLICT message.

Section errors.
Context `{UuidCrate}.

(** [Display] of the error types ([thiserror]). *)
Definition schedule_error_to_string (error : ScheduleError) : string :=
  match error with
  | MissingObject id => "task references unknown object " +:+ id_to_string id
  | NoCandidate => "no compatible resource has reachable inputs"
  end.

Definition fabric_error_to_string (error : FabricError) : string :=
  match error with
  | ResourceNotActive id => "resource " +:+ id_to_string id +:+ " is not active"
  | StaleResourceEpoch id =>
      "resource " +:+ id_to_string id +:+ " epoch does not match current incarnation"
  | UnknownTask id => "task " +:+ id_to_string id +:+ " does not exist"
  | UnknownObject id => "object " +:+ id_to_string id +:+ " does not exist"
  | ObjectConflict id =>
      "object " +:+ id_to_string id +:+ " conflicts with already published metadata"
  | DuplicateTask id => "task " +:+ id_to_string id +:+ " already exists"
  | InvalidTask message => "invalid task: " +:+ message
  | UnknownJob id => "cooperative job " +:+ id_to_string id +:+ " does not exist"
  | DuplicateJob id => "cooperative job " +:+ id_to_string id +:+ " already exists"
  | InvalidCooperativeJob message => "invalid cooperative job: " +:+ message
  | FabricInvalidLogicalJob message => "invalid logical job: " +:+ message
  | TaskNotPending id => "task " +:+ id_to_string id +:+ " is not pending"
  | StaleExecution => "execution lease is stale or does not own the task"
  | ExecutionExpired => "execution lease has expired"
  | Scheduling error => schedule_error_to_string error
  end.

Definition plan_error_to_string (error : PlanError) : string :=
  match error with
  | InvalidLogicalJob message => "invalid logical job: " +:+ message
  | NoFeasibleImplementation role =>
      "role " +:+ role +:+ " has no feasible implementation on the current resources/topology"
  end.

Definition fabric_status (error : FabricError) : StatusCode :=
  match error with
  | UnknownTask _ | UnknownJob _ | UnknownObject _ | ResourceNotActive _ => NOT_FOUND
  | DuplicateTask _ | DuplicateJob _ | ObjectConflict _ | TaskNotPending _
  | StaleExecution | ExecutionExpired | StaleResourceEpoch _ => CONFLICT
  | InvalidTask _ | InvalidCooperativeJob _ | FabricInvalidLogicalJob _ => BAD_REQUEST
  | Scheduling _ => UNPROCESSABLE_ENTITY
  end.

(** [ApiError::from_fabric], [ApiError::from_plan] *)
Definition from_fabric (error : FabricError) : ApiError :=
  mkApiError (fabric_status error) (fabric_error_to_string error).
Definition from_plan (error : PlanError) : ApiError :=
  mkApiError (match error with
              | InvalidLogicalJob _ => BAD_REQUEST
              | NoFeasibleImplementation _ => UNPROCESSABLE_ENTITY
              end)
    (plan_error_to_string error).
End errors.

(** ** State *)

Record CoordinatorState := mkCoordinatorState {
  co_fabric : Fabric;
  co_data_endpoints : gmap ResourceId string;
  co_manual_links : gset (ResourceId * ResourceId);
}.

(** The state and the environment. *)
Record Coord := mkCoord { co_state : CoordinatorState; co_world : World }.
Abbreviation api A := (comp Coord ApiError A).

(** [Coordinator::new] *)
Definition Coordinator_new (membership_ttl_ms execution_ttl_ms : Z) : CoordinatorState :=
  mkCoordinatorState (Fabric_new membership_ttl_ms execution_ttl_ms) ∅ ∅.

Definition cget {E A : Type} (g : CoordinatorState → A) : comp Coord E A := gets (λ c, g (co_state c)).
Definition set_endpoints {E : Type} (g : gmap ResourceId string → gmap ResourceId string) : comp Coord E unit :=
  modify (λ c, mkCoord (mkCoordinatorState (co_fabric (co_state c)) (g (co_data_endpoints (co_state c)))
                          (co_manual_links (co_state c))) (co_world c)).
Definition set_manual_links {E : Type}
    (g : gset (ResourceId * ResourceId) → gset (ResourceId * ResourceId)) : comp Coord E unit :=
  modify (λ c, mkCoord (mkCoordinatorState (co_fabric (co_state c)) (co_data_endpoints (co_state c))
                          (g (co_manual_links (co_state c)))) (co_world c)).

(** A fabric operation on [state.fabric]. *)
Definition on_fabric {E A} (m : comp Node E A) : comp Coord E A :=
  λ c, let '(o, n) := m (mkNode (co_fabric (co_state c)) (co_world c)) in
       (o, mkCoord (mkCoordinatorState (nd_fabric n) (co_data_endpoints (co_state c))
                      (co_manual_links (co_state c))) (nd_world n)).

(** ** Validation *)

(** [validate_link] *)
Definition validate_link (link : LinkProfile) : outcome ApiError unit :=
  if bool_decide (link_from link = link_to link) then Err (bad_request "link endpoints must be different")
  else if negb (f64_is_finite (link_rtt_ms link)) || negb (f64_is_finite (link_bandwidth_mbps link))
          || (link_rtt_ms link <? 0)%float || (link_bandwidth_mbps link <=? 0)%float
  then Err (bad_request "link requires finite non-negative RTT and finite positive bandwidth")
  else Ok tt.

(** [normalize_endpoint] *)
Definition normalize_endpoint (endpoint : string) : outcome ApiError string :=
  let endpoint := trim_end_slashes (trim endpoint) in
  if negb (starts_with "http://" endpoint || starts_with "https://" endpoint)
  then Err (bad_request "data_endpoint must be an http:// or https:// URL")
  else Ok endpoint.

(** ** Wire types of [plurifold-protocol] *)

Record ObjectReplica := mkObjectReplica { or_resource_id : ResourceId; or_url : string }.
Record ResolvedObject := mkResolvedObject {
  ro_metadata : ObjectMetadata;
  ro_replicas : list ObjectReplica;
}.
Record WorkAssignment := mkWorkAssignment {
  wa_lease : ExecutionLease;
  wa_task : TaskSpec;
  wa_inputs : list ResolvedObject;
}.
Record ResourceView := mkResourceView {
  rv_descriptor : ResourceDescriptor;
  rv_data_endpoint : option string;
}.
Record TaskView := mkTaskView { tv_task : TaskSpec; tv_status : TaskStatus }.
Record CooperativeJobView := mkCooperativeJobView {
  cjv_job : JobDefinition;
  cjv_status : CooperativeJobStatus;
  cjv_roles : list CooperativeRoleView;
}.
Inductive LinkMeasurement := Reachable (rtt_ms bandwidth_mbps : f64) | Unreachable.

(** ** Handlers *)

Section handlers.
Context `{HashOrder} `{UuidCrate}.

(** [register_resource] *)
Definition handle_register (descriptor : ResourceDescriptor) (data_endpoint : string) :
    api MembershipLease :=
  let* endpoint := lift (normalize_endpoint data_endpoint) in
  let* lease := on_fabric (register_resource descriptor) in
  set_endpoints (<[ml_resource_id lease := endpoint]>);;;
  ret lease.

(** [heartbeat] *)
Definition handle_heartbeat (resource_id : ResourceId) (epoch : Z) : api MembershipLease :=
  rethrow from_fabric (on_fabric (heartbeat resource_id epoch)).

(** [list_resources] *)
Definition handle_list_resources : api (list ResourceView) :=
  let* resources := on_fabric active_resources in
  let* endpoints := cget co_data_endpoints in
  ret ((λ descriptor, mkResourceView descriptor (endpoints !! rd_id descriptor)) <$> resources).

(** One input of [resolve_inputs]. *)
Definition resolve_input (state : CoordinatorState) (object_id : ObjectId) :
    outcome ApiError ResolvedObject :=
  let? metadata := ok_or (not_found ("unknown object " +:+ id_to_string object_id))
                     (object_metadata (co_fabric state) object_id) in
  let? digest := ok_or (conflict ("object " +:+ id_to_string object_id +:+ " has no content digest"))
                   (om_digest metadata) in
  let? suffix := ok_or (conflict ("unsupported digest " +:+ digest)) (strip_prefix "sha256:" digest) in
  let replicas :=
    omap (λ resource_id,
        endpoint ← co_data_endpoints state !! resource_id;
        Some (mkObjectReplica resource_id (endpoint +:+ "/v1/blobs/" +:+ suffix)))
      (om_locations metadata) in
  if bool_decide (length replicas = 0%nat) then
    Err (conflict ("object " +:+ id_to_string object_id +:+ " has no reachable registered replica"))
  else Ok (mkResolvedObject metadata replicas).

(** [resolve_inputs] *)
Definition resolve_inputs (state : CoordinatorState) (input_ids : list ObjectId) :
    outcome ApiError (list ResolvedObject) :=
  ofold (λ resolved object_id,
      let? input := resolve_input state object_id in Ok (resolved ++ [input]))
    [] input_ids.

(** The loop of [poll_work] over the pending tasks. *)
Fixpoint poll_tasks (resource_id : ResourceId) (task_ids : list TaskId) : api (option WorkAssignment) :=
  match task_ids with
  | [] => ret None
  | task_id :: task_ids' =>
      let* decision := try (on_fabric (schedule_task task_id)) in
      match decision with
      | None => poll_tasks resource_id task_ids'
      | Some decision =>
          if negb (bool_decide (pd_resource_id decision = resource_id))
          then poll_tasks resource_id task_ids'
          else
            let* state := cget id in
            let* task := ok_or_throw (not_found "task disappeared during scheduling")
                           (task_spec (co_fabric state) task_id) in
            let* inputs := lift (resolve_inputs state (ts_inputs task)) in
            let* lease := rethrow from_fabric (on_fabric (begin_execution task_id resource_id)) in
            ret (Some (mkWorkAssignment lease task inputs))
      end
  end.

(** [poll_work] *)
Definition handle_poll_work (resource_id : ResourceId) (epoch : Z) : api (option WorkAssignment) :=
  let* current_epoch := on_fabric (resource_epoch resource_id) in
  let* current_epoch := ok_or_throw (not_found "resource is not active") current_epoch in
  if negb (current_epoch =? epoch) then throw (conflict "resource epoch is stale")
  else
    rethrow from_fabric (on_fabric refresh_ready_roles);;;
    let* fabric := cget co_fabric in
    poll_tasks resource_id (pending_task_ids fabric).

(** [renew_execution], [complete_execution] *)
Definition handle_renew (lease : ExecutionLease) : api ExecutionLease :=
  rethrow from_fabric (on_fabric (renew_execution lease)).
Definition handle_complete (lease : ExecutionLease) (outputs : list ObjectMetadata) : api StatusCode :=
  rethrow from_fabric (on_fabric (complete_execution lease outputs));;; ret NO_CONTENT.

(** [publish_object] *)
Definition handle_publish (object : ObjectMetadata) : api StatusCode :=
  match om_digest object with
  | None => throw (bad_request "published objects require a digest")
  | Some _ => rethrow from_fabric (on_fabric (publish_object object));;; ret NO_CONTENT
  end.

(** [register_replica] *)
Definition handle_replica (object_id : ObjectId) (resource_id : ResourceId) : api StatusCode :=
  let* epoch := on_fabric (resource_epoch resource_id) in
  match epoch with
  | None => throw (not_found "replica resource is not active")
  | Some _ =>
      rethrow from_fabric (on_fabric (add_object_location object_id resource_id));;;
      ret NO_CONTENT
  end.

(** [submit_task] *)
Definition handle_submit_task (task : TaskSpec) : api TaskId :=
  rethrow from_fabric (on_fabric (submit task)).

(** [get_task] *)
Definition handle_get_task (task_id : string) : api TaskView :=
  let* task_id := ok_or_throw (bad_request "task_id is not a valid UUID")
                    (id_from_str (tag:=TaskTag) task_id) in
  let* fabric := cget co_fabric in
  let* task := ok_or_throw (not_found "task not found") (task_spec fabric task_id) in
  let* status := ok_or_throw (not_found "task not found") (task_status fabric task_id) in
  ret (mkTaskView task status).

(** [submit_cooperative_job] *)
Definition handle_submit_cooperative (job : CooperativeJobSpec) : api JobId :=
  rethrow from_fabric (on_fabric (submit_cooperative job)).

(** [plan_logical_job] *)
Definition handle_plan (job : LogicalJobSpec) : api CooperativePlan :=
  rethrow from_plan (on_fabric (plan_logical_job job)).

(** [submit_planned_job]: an infeasible preview is no obstacle. *)
Definition handle_submit_planned (job : LogicalJobSpec) : api (JobId * option CooperativePlan) :=
  let* preview := (λ c, let '(o, c') := on_fabric (plan_logical_job job) c in
      (match o with
       | Ok plan => Ok (Some plan)
       | Err (NoFeasibleImplementation _) => Ok None
       | Err error => Err (from_plan error)
       | Panic => Panic
       | Diverged => Diverged
       end, c')) in
  let* job_id := rethrow from_fabric (on_fabric (submit_logical job)) in
  ret (job_id, preview).

(** [get_cooperative_job] *)
Definition handle_get_job (job_id : string) : api CooperativeJobView :=
  let* job_id := ok_or_throw (bad_request "job_id is not a valid UUID")
                   (id_from_str (tag:=JobTag) job_id) in
  let* fabric := cget co_fabric in
  let* job := ok_or_throw (not_found "cooperative job not found")
                (fabric_job_definition fabric job_id) in
  let* status := ok_or_throw (not_found "cooperative job not found")
                   (cooperative_job_status fabric job_id) in
  let* roles := lift (map_err from_fabric (cooperative_role_views fabric job_id)) in
  let* roles := ok_or_throw (not_found "cooperative job not found") roles in
  ret (mkCooperativeJobView job status roles).

(** [update_link] *)
Definition handle_update_link (link : LinkProfile) : api StatusCode :=
  lift (validate_link link);;;
  set_manual_links (λ links, {[(link_from link, link_to link)]} ∪ links);;;
  on_fabric (upsert_link link);;;
  ret NO_CONTENT.

(** [report_link_measurement] *)
Definition handle_report_measurement (reporter : ResourceId) (reporter_epoch : Z)
    (peer : ResourceId) (measurement : LinkMeasurement) : api StatusCode :=
  if bool_decide (reporter = peer) then throw (bad_request "link endpoints must be different")
  else
    let* current_epoch := on_fabric (resource_epoch reporter) in
    let* current_epoch := ok_or_throw (not_found "reporter resource is not active") current_epoch in
    if negb (current_epoch =? reporter_epoch) then
      throw (conflict "reporter resource epoch is stale")
    else
      let* peer_epoch := on_fabric (resource_epoch peer) in
      match peer_epoch with
      | None => throw (not_found "peer resource is not active")
      | Some _ =>
          let* manual_links := cget co_manual_links in
          if bool_decide ((reporter, peer) ∈ manual_links) || bool_decide ((peer, reporter) ∈ manual_links)
          then ret NO_CONTENT
          else
            match measurement with
            | Reachable rtt_ms bandwidth_mbps =>
                let link := mkLinkProfile reporter peer rtt_ms bandwidth_mbps in
                lift (validate_link link);;;
                on_fabric (upsert_link link)
            | Unreachable => on_fabric (remove_link reporter peer)
            end;;;
            ret NO_CONTENT
      end.

(** [Coordinator::maintenance_tick] *)
Definition forget_resource (resource_id : ResourceId) : api unit :=
  set_endpoints (delete resource_id);;;
  set_manual_links (filter (λ '(from, to), from ≠ resource_id ∧ to ≠ resource_id)).

Definition maintenance_tick : api unit :=
  let* now := on_fabric (fworld now_unix_ms) in
  let* expired := on_fabric (expire_resources_at now) in
  for_each forget_resource expired;;;
  rethrow from_fabric (on_fabric (reap_expired_executions_at now));;;
  ret tt.
End handlers.

(** ** The coordinator as a state machine *)

Inductive Request :=
| RegisterResource (descriptor : ResourceDescriptor) (data_endpoint : string)
| Heartbeat (resource_id : ResourceId) (epoch : Z)
| ListResources
| PollWork (resource_id : ResourceId) (epoch : Z)
| RenewExecution (lease : ExecutionLease)
| CompleteExecution (lease : ExecutionLease) (outputs : list ObjectMetadata)
| PublishObject (object : ObjectMetadata)
| RegisterReplica (object_id : ObjectId) (resource_id : ResourceId)
| SubmitTask (task : TaskSpec)
| GetTask (task_id : string)
| SubmitCooperativeJob (job : CooperativeJobSpec)
| PlanLogicalJob (job : LogicalJobSpec)
| SubmitPlannedJob (job : LogicalJobSpec)
| GetCooperativeJob (job_id : string)
| UpdateLink (link : LinkProfile)
| ReportLinkMeasurement (reporter : ResourceId) (reporter_epoch : Z) (peer : ResourceId)
    (measurement : LinkMeasurement)
| MaintenanceTick.

Inductive Response :=
| ResMembership (lease : MembershipLease)
| ResResources (resources : list ResourceView)
| ResAssignment (assignment : option WorkAssignment)
| ResExecution (lease : ExecutionLease)
| ResStatus (status : StatusCode)
| ResTaskId (task_id : TaskId)
| ResTask (view : TaskView)
| ResJobId (job_id : JobId)
| ResPlan (plan : CooperativePlan)
| ResPlanned (job_id : JobId) (initial_plan : option CooperativePlan)
| ResJob (view : CooperativeJobView)
| ResTick.

Definition respond {A} (f : A → Response) (m : api A) : api Response := let* a := m in ret (f a).

(** [Coordinator::router] *)
Definition handle `{HashOrder} `{UuidCrate} (request : Request) : api Response :=
  match request with
  | RegisterResource descriptor endpoint => respond ResMembership (handle_register descriptor endpoint)
  | Heartbeat id epoch => respond ResMembership (handle_heartbeat id epoch)
  | ListResources => respond ResResources handle_list_resources
  | PollWork id epoch => respond ResAssignment (handle_poll_work id epoch)
  | RenewExecution lease => respond ResExecution (handle_renew lease)
  | CompleteExecution lease outputs => respond ResStatus (handle_complete lease outputs)
  | PublishObject object => respond ResStatus (handle_publish object)
  | RegisterReplica object resource => respond ResStatus (handle_replica object resource)
  | SubmitTask task => respond ResTaskId (handle_submit_task task)
  | GetTask id => respond ResTask (handle_get_task id)
  | SubmitCooperativeJob job => respond ResJobId (handle_submit_cooperative job)
  | PlanLogicalJob job => respond ResPlan (handle_plan job)
  | SubmitPlannedJob job => respond (λ '(id, plan), ResPlanned id plan) (handle_submit_planned job)
  | GetCooperativeJob id => respond ResJob (handle_get_job id)
  | UpdateLink link => respond ResStatus (handle_update_link link)
  | ReportLinkMeasurement reporter epoch peer measurement =>
      respond ResStatus (handle_report_measurement reporter epoch peer measurement)
  | MaintenanceTick => respond (λ _, ResTick) maintenance_tick
  end.

(** One step of the coordinator: any request, served to its end. *)
Definition step `{HashOrder} `{UuidCrate} (c c' : Coord) : Prop :=
  ∃ request, c' = (handle request c).2.
(** Any sequence of steps. *)
Definition steps `{HashOrder} `{UuidCrate} : Coord → Coord → Prop := rtc step.
