(* ===== verification/Routes.v ===== *)
(** * The coordinator's HTTP face (plurifold-coordinator/src/lib.rs)

    Which route takes which request, and what an answer is on the wire.  The
    matching of paths, the JSON of bodies and the answers to what no route takes
    are axum's and serde's. *)

From Stdlib Require Import Strings.Byte.
From S2P Require Import Prelude World Text Bytes Core Samples Coordinator.
Open Scope string_scope.
Open Scope list_scope.
Open Scope Z_scope.

Inductive Method := GET | POST.
#[global] Instance Method_eq_dec : EqDecision Method.
Proof. solve_decision. Defined.

(** [Coordinator::router]: the method and the path of a request, a path segment
    in braces holding the text of the identifier. *)
Definition route (request : Request) : option (Method * string) :=
  match request with
  | RegisterResource _ _ => Some (POST, "/v1/resources/register")
  | Heartbeat _ _ => Some (POST, "/v1/resources/heartbeat")
  | ListResources => Some (GET, "/v1/resources")
  | PollWork _ _ => Some (POST, "/v1/work/poll")
  | RenewExecution _ => Some (POST, "/v1/work/renew")
  | CompleteExecution _ _ => Some (POST, "/v1/work/complete")
  | PublishObject _ => Some (POST, "/v1/objects/publish")
  | RegisterReplica _ _ => Some (POST, "/v1/objects/replica")
  | SubmitTask _ => Some (POST, "/v1/tasks")
  | GetTask task_id => Some (GET, "/v1/tasks/" +:+ task_id)
  | SubmitCooperativeJob _ => Some (POST, "/v1/jobs")
  | PlanLogicalJob _ => Some (POST, "/v1/jobs/plan")
  | SubmitPlannedJob _ => Some (POST, "/v1/jobs/auto")
  | GetCooperativeJob job_id => Some (GET, "/v1/jobs/" +:+ job_id)
  | UpdateLink _ => Some (POST, "/v1/topology/link")
  | ReportLinkMeasurement _ _ _ _ => Some (POST, "/v1/topology/measurement")
  | MaintenanceTick => None
  end.

(** [StatusCode] as a number, and [is_success]: 2xx. *)
Definition status_number (status : StatusCode) : Z :=
  match status with
  | NO_CONTENT => 204 | BAD_REQUEST => 400 | NOT_FOUND => 404 | CONFLICT => 409 | UNPROCESSABLE_ENTITY => 422
  end.
Definition is_success (status : Z) : bool := (200 <=? status) && (status <=? 299).

(** The server: the JSON of an answer and of an [ErrorResponse], and the answer
    to a request that no route takes, which is an error. *)
Class HttpServer := {
  response_json : Response → Bytes;
  error_json : string → Bytes;
  rejection : Method → string → Request → Z * Bytes;
  rejection_fails : ∀ method url request, is_success (rejection method url request).1 = false;
}.

Section server.
Context `{HashOrder} `{UuidCrate} `{HttpServer}.

(** [ApiError::into_response] *)
Definition into_response (error : ApiError) : Z * Bytes :=
  (status_number (api_status error), error_json (api_message error)).
(** What goes back: a status with a body; nothing when the handler unwinds. *)
Definition reply (o : outcome ApiError Response) : option (Z * Bytes) :=
  match o with
  | Ok (ResStatus status) => Some (status_number status, [])
  | Ok response => Some (200, response_json response)
  | Err error => Some (into_response error)
  | Panic | Diverged => None
  end.
(** The server listening at [base] has a route for what is sent to [url]. *)
Definition routed (base : string) (method : Method) (url : string) (request : Request) : bool :=
  match route request with
  | Some (method', path) => bool_decide (method = method') && bool_decide (url = base +:+ path)
  | None => false
  end.
Definition serve_http (base : string) (method : Method) (url : string) (request : Request) (c : Coord) :
    option (Z * Bytes) * Coord :=
  if routed base method url request
  then let '(o, c') := handle request c in (reply o, c')
  else (Some (rejection method url request), c).

Lemma serve_routed base method path request c :
  route request = Some (method, path) →
  serve_http base method (base +:+ path) request c = let '(o, c') := handle request c in (reply o, c').
Proof. intros Hr. unfold serve_http, routed. by rewrite Hr, !bool_decide_eq_true_2. Qed.

(** Success is only answered by a handler, and not by one that unwinds. *)
Definition succeeded (o : outcome ApiError Response) : Prop :=
  match o with
  | Ok _ => True
  | Err error => is_success (status_number (api_status error)) = true
  | Panic | Diverged => False
  end.
Lemma serve_success base method url request c status body c' :
  serve_http base method url request c = (Some (status, body), c') → is_success status = true →
  ∃ o, handle request c = (o, c') ∧ succeeded o.
Proof.
  unfold serve_http. destruct (routed base method url request).
  - destruct (handle request c) as [o c1]. intros [= Hreply <-] Hok. exists o. split; [done|].
    destruct o as [response|error| |]; simpl in *; [done| |done..]. injection Hreply as <- _. exact Hok.
  - intros [= Hrejected _] Hok. pose proof (rejection_fails method url request) as Hfails.
    rewrite Hrejected in Hfails. simpl in Hfails. congruence.
Qed.
End server.

(** A server for evaluating the definitions; its answers have empty bodies. *)
Definition toy_server : HttpServer :=
  {| response_json _ := []; error_json message := to_bytes message; rejection _ _ _ := (404, []);
     rejection_fails _ _ _ := eq_refl |}.
