(* ===== verification/Clock.v ===== *)
(** * Who reads the clock, and in which order

    Planning reads no clock, and every reading uses up one of the answers still
    to come. *)

From S2P Require Import Prelude Float64 World Text Core Samples Scheduler RoleGraph Partition Placement Reduction Fusion LogicalJob Planner Fabric.

Open Scope string_scope.
Open Scope list_scope.
Open Scope Z_scope.

(** ** Planning does not read the clock *)

Definition same_clock (w w' : World) : Prop := w_clock w' = w_clock w.
Definition plan_same_clock (s s' : PlanState) : Prop := same_clock (ps_world s) (ps_world s').
#[global] Instance same_clock_preorder : PreOrder same_clock.
Proof. split; [by intros w|]. intros w1 w2 w3. unfold same_clock. congruence. Qed.
#[global] Instance plan_same_clock_preorder : PreOrder plan_same_clock.
Proof. split; [by intros s|]. intros s1 s2 s3. unfold plan_same_clock, same_clock. congruence. Qed.

Create HintDb clock.
Ltac clock_step :=
  match goal with
  | |- preserves _ (bind _ _) => apply preserves_bind; [apply _| |intros]
  | |- preserves _ (cmap _ _) => apply preserves_cmap; [apply _|intros]
  | |- preserves _ (cfold _ _ _) => apply preserves_cfold; [apply _|intros]
  | |- preserves _ (try _) => apply preserves_try
  | |- preserves _ (rethrow _ _) => apply preserves_rethrow
  | |- preserves _ (lift _) => apply preserves_lift, _
  | |- preserves _ (ok_or_throw _ _) => apply preserves_lift, _
  | |- preserves _ (ret _) => apply preserves_ret, _
  | |- preserves _ (throw _) => apply preserves_throw, _
  | |- preserves _ panic => apply preserves_panic, _
  | |- preserves _ diverge => apply preserves_diverge, _
  | |- preserves _ (expect _) => apply preserves_expect, _
  | |- preserves _ (gets _) => apply preserves_gets, _
  | |- preserves _ (match ?x with _ => _ end) => destruct x
  | |- preserves _ _ => solve [eauto with clock]
  end.
Ltac clock := repeat clock_step.

Lemma clock_new_id {tag E} : preserves same_clock (new_id (tag:=tag) (E:=E)).
Proof. by intros w. Qed.
Lemma clock_instantiate {E} t inputs : preserves same_clock (instantiate (E:=E) t inputs).
Proof. by intros w. Qed.
Lemma clock_in_world {E A} (m : comp World E A) : preserves same_clock m → preserves plan_same_clock (in_world m).
Proof. intros Hm s. specialize (Hm (ps_world s)). unfold in_world, plan_same_clock. by destruct (m _). Qed.
Lemma clock_with_fresh {E A} (m : comp PlanState E A) :
  preserves plan_same_clock m → preserves same_clock (with_fresh_availability m).
Proof.
  intros Hm w. specialize (Hm (mkPlanState ∅ w)). unfold with_fresh_availability, plan_same_clock in *.
  by destruct (m _).
Qed.
Lemma clock_get_available {E} : preserves plan_same_clock (get_available (E:=E)).
Proof. by intros s. Qed.
Lemma clock_set_available {E} a : preserves plan_same_clock (set_available (E:=E) a).
Proof. by intros s. Qed.
#[export] Hint Resolve clock_new_id clock_instantiate clock_in_world clock_with_fresh
  clock_get_available clock_set_available : clock.

Lemma clock_select_ready_role role deps scheduler resources objects topology :
  preserves same_clock (select_ready_role role deps scheduler resources objects topology).
Proof. unfold select_ready_role. clock. Qed.
Lemma clock_instantiate_shard_task t deps i c auto objects :
  preserves same_clock (instantiate_shard_task t deps i c auto objects).
Proof. unfold instantiate_shard_task. clock. Qed.
#[export] Hint Resolve clock_instantiate_shard_task : clock.
Lemma clock_choose_shards role deps count auto ready context :
  preserves plan_same_clock (choose_shards role deps count auto ready context).
Proof. unfold choose_shards, choose_one_shard. clock. Qed.
#[export] Hint Resolve clock_choose_shards : clock.
Lemma clock_choose_role_shards role deps ready context :
  preserves plan_same_clock (choose_role_shards role deps ready context).
Proof. unfold choose_role_shards, choose_auto_shards. clock. Qed.
#[export] Hint Resolve clock_choose_role_shards : clock.
Lemma clock_select_ready_shards role deps context :
  preserves same_clock (select_ready_shards role deps context).
Proof. unfold select_ready_shards. clock. Qed.
Lemma clock_select_reduction_level reduction inputs ready context :
  preserves plan_same_clock (select_reduction_level reduction inputs ready context).
Proof. unfold select_reduction_level, reduce_group. clock. Qed.
#[export] Hint Resolve clock_select_ready_role clock_select_ready_shards clock_select_reduction_level : clock.

Section fusion_clock.
Context `{HashOrder} (context : FusionContext).
Lemma clock_fused_pipeline_task {E} tasks deps req : preserves same_clock (fused_pipeline_task (E:=E) tasks deps req).
Proof. unfold fused_pipeline_task. clock. Qed.
Lemma clock_advance_chain_states states role : preserves same_clock (advance_chain_states context states role).
Proof. unfold advance_chain_states, advance_one_state. clock. Qed.
#[local] Hint Resolve clock_fused_pipeline_task clock_advance_chain_states : clock.
Lemma clock_separate_chain_paths chain deps : preserves same_clock (separate_chain_paths context chain deps).
Proof. unfold separate_chain_paths, first_chain_states. clock. Qed.
Lemma clock_best_chain_tail_total tail bytes r t :
  preserves same_clock (best_chain_tail_total context tail bytes r t).
Proof. unfold best_chain_tail_total. clock. Qed.
#[local] Hint Resolve clock_separate_chain_paths clock_best_chain_tail_total : clock.
Lemma clock_select_ready_fusion chain deps : preserves same_clock (select_ready_fusion context chain deps).
Proof. unfold select_ready_fusion, fusion_prefix, fusion_candidate. clock. Qed.
End fusion_clock.
#[export] Hint Resolve clock_select_ready_fusion : clock.

Section plan_clock.
Context `{UuidCrate} (scheduler : TopologyAwareScheduler) (resources : list ResourceDescriptor)
  (topology : TopologySnapshot).
Lemma clock_next_role spec loop : preserves same_clock (next_role scheduler resources topology spec loop).
Proof. unfold next_role, feasible_candidate_count. clock. Qed.
#[local] Hint Resolve clock_next_role : clock.
Lemma clock_plan_reduction_item acc item : preserves plan_same_clock (plan_reduction_item acc item).
Proof. destruct acc as [[[??]?]?]. unfold plan_reduction_item. clock. Qed.
Lemma clock_plan_shard acc shard : preserves plan_same_clock (plan_shard acc shard).
Proof. destruct acc as [[[??]?]?]. unfold plan_shard. clock. Qed.
#[local] Hint Resolve clock_plan_reduction_item clock_plan_shard : clock.
Lemma clock_plan_reductions fuel role reduction level objects outputs finish planned :
  preserves plan_same_clock
    (plan_reductions scheduler resources topology fuel role reduction level objects outputs finish planned).
Proof.
  revert level objects outputs finish planned. induction fuel as [|fuel IH]; intros; simpl; [clock|].
  clock.
Qed.
#[local] Hint Resolve clock_plan_reductions : clock.
Lemma clock_plan_role role loop : preserves plan_same_clock (plan_role scheduler resources topology role loop).
Proof. unfold plan_role, selected_dependencies. clock. Qed.
#[local] Hint Resolve clock_plan_role : clock.
Lemma clock_plan_loop fuel spec loop :
  preserves plan_same_clock (plan_loop scheduler resources topology fuel spec loop).
Proof. revert loop. induction fuel as [|fuel IH]; intros; simpl; clock. Qed.
#[local] Hint Resolve clock_plan_loop : clock.
Lemma clock_plan spec objects : preserves same_clock (plan scheduler resources topology spec objects).
Proof.
  unfold plan. do 2 (apply preserves_bind; [apply _|apply preserves_lift, _|intros]).
  apply clock_with_fresh. clock.
Qed.
End plan_clock.
#[export] Hint Resolve clock_plan : clock.

(** ** The clock is read in order *)

Definition later_world (w w' : World) : Prop := ∃ k, ∀ i, w_clock w' i = w_clock w (k + i)%nat.
#[global] Instance later_world_preorder : PreOrder later_world.
Proof.
  split; [intros w; by exists 0%nat|]. intros w1 w2 w3 [k1 H1] [k2 H2]. exists (k1 + k2)%nat.
  intros i. by rewrite H2, H1, Nat.add_assoc.
Qed.
Lemma later_now {E} : preserves later_world (now_unix_ms (E:=E)).
Proof. intros w. unfold now_unix_ms. destruct (_ <? 0); by exists 1%nat. Qed.
Lemma later_same_clock {E A} (m : comp World E A) : preserves same_clock m → preserves later_world m.
Proof. intros Hm w. exists 0%nat. by rewrite (Hm w). Qed.
Lemma later_try {E E' A} (m : comp World E A) : preserves same_clock m → preserves later_world (try (E':=E') m).
Proof. intros Hm. by apply later_same_clock, preserves_try. Qed.
#[export] Hint Resolve later_now later_same_clock later_try : clock.
