(* ===== verification/Frames.v ===== *)
(** * Frames: what an operation leaves alone

    A relation between the states before and after holds of a composite
    operation as soon as it is a preorder that a few primitive steps respect.
    The classes say which steps; the lemmas cover the role runtime, which is
    made of them, and the handlers that loop or recover from errors. *)

From S2P Require Import Prelude Float64 World Text Core Samples Scheduler RoleGraph Partition Placement Reduction Fusion LogicalJob Planner Fabric Roles Execution Coordinator Clock.

Open Scope string_scope.
Open Scope list_scope.
Open Scope Z_scope.

(** Steps through a computation that only reads, branches and calls;
    [keep_call] knows the calls that have a rule of their own. *)
Ltac keep_call := fail.
Ltac keep_step :=
  match goal with
  | |- preserves _ (bind _ _) => apply preserves_bind; [apply _| |intros]
  | |- preserves _ (for_each _ _) => apply preserves_for_each; [apply _|intros]
  | |- preserves _ (cmap _ _) => apply preserves_cmap; [apply _|intros]
  | |- preserves _ (cfold _ _ _) => apply preserves_cfold; [apply _|intros]
  | |- preserves _ (try _) => apply preserves_try
  | |- preserves _ (rethrow _ _) => apply preserves_rethrow
  | |- preserves _ (match ?x with _ => _ end) => destruct x
  | |- preserves _ (let '(_, _) := ?x in _) => destruct x
  | |- preserves _ _ => keep_call
  | |- preserves _ _ => solve [eauto with frame typeclass_instances]
  end.
Ltac keep := repeat keep_step.

(** ** Reading *)

Section reading.
Context {S E : Type} (R : relation S) `{!PreOrder R}.
Lemma frame_ok_or_throw {A} (e : E) (o : option A) : preserves R (ok_or_throw e o).
Proof. by apply preserves_lift. Qed.
End reading.
#[export] Hint Resolve frame_ok_or_throw : frame.

Lemma frame_fget {E A} (R : relation Node) `{!PreOrder R} (g : Fabric → A) : preserves R (fget (E:=E) g).
Proof. intros n. reflexivity. Qed.
Lemma frame_cget {E A : Type} (Q : relation Coord) `{!PreOrder Q} (g : CoordinatorState → A) :
  preserves Q (cget (E:=E) g).
Proof. intros c. reflexivity. Qed.
#[export] Hint Resolve frame_fget frame_cget : frame.

(** ** The role runtime *)

(** A relation that reading the environment, writing the jobs and submitting
    tasks respect. *)
Class Frame (R : relation Node) : Prop := {
  frame_preorder :: PreOrder R;
  frame_world {E A : Type} (m : comp World E A) : preserves later_world m → preserves R (fworld m);
  frame_set_job {E : Type} id job : preserves R (set_job (E:=E) id job);
  frame_set_task_role {E : Type} id binding : preserves R (set_task_role (E:=E) id binding);
  frame_submit task : preserves R (submit task);
}.
#[export] Hint Resolve frame_set_job frame_set_task_role frame_submit : frame.
#[export] Hint Extern 1 (preserves _ (fworld _)) => apply frame_world; eauto with clock typeclass_instances : frame.

Section role_runtime.
Context `{HashOrder} `{UuidCrate} (R : relation Node) `{!Frame R}.

Lemma frame_schedule_task id : preserves R (schedule_task id).
Proof. unfold schedule_task, schedulable_resources. keep. Qed.
Lemma frame_plan_logical_job job : preserves R (plan_logical_job job).
Proof. unfold plan_logical_job, schedulable_resources. keep. Qed.
Lemma frame_active_resources {E} : preserves R (active_resources (E:=E)).
Proof. unfold active_resources. keep. Qed.
Lemma frame_resource_epoch {E} id : preserves R (resource_epoch (E:=E) id).
Proof. unfold resource_epoch. keep. Qed.
Lemma frame_materialize_ready_roles id : preserves R (materialize_ready_roles id).
Proof.
  unfold materialize_ready_roles, ready_roles, ready_cooperative, ready_logical, materialize_role,
    materialize_logical, materialize_sharded, materialize_fused, materialize_single, mark_fused,
    mark_ready, submit_shard, insert_selection, insert_role, find_job, expect_job,
    planning_context, schedulable_resources. keep.
Qed.
Hint Resolve frame_materialize_ready_roles : frame.
Lemma frame_materialize_reduction_level id name : preserves R (materialize_reduction_level id name).
Proof.
  unfold materialize_reduction_level, finish_reduction, submit_reduction_item, find_reduction_state,
    insert_role, find_job, planning_context, schedulable_resources. keep.
Qed.
Hint Resolve frame_materialize_reduction_level : frame.
Lemma frame_refresh_ready_roles : preserves R refresh_ready_roles.
Proof. unfold refresh_ready_roles, refresh_reductions. keep. Qed.
Lemma frame_complete_cooperative_role task_id outputs :
  preserves R (complete_cooperative_role task_id outputs).
Proof.
  unfold complete_cooperative_role, complete_fused_chain, complete_shard, start_role_reduction,
    advance_reduction_level, find_reduction_state, assign_role, insert_role, find_job. keep.
Qed.
Lemma frame_mark_cooperative_role_uncertain task_id : preserves R (mark_cooperative_role_uncertain task_id).
Proof. unfold mark_cooperative_role_uncertain, mark_role_uncertain, insert_role. keep. Qed.
Lemma frame_submit_cooperative job : preserves R (submit_cooperative job).
Proof. unfold submit_cooperative, insert_new_job. keep. Qed.
Lemma frame_submit_logical job : preserves R (submit_logical job).
Proof. unfold submit_logical, insert_new_job. keep. Qed.
End role_runtime.
#[export] Hint Resolve frame_schedule_task frame_plan_logical_job frame_active_resources frame_resource_epoch
  frame_refresh_ready_roles frame_complete_cooperative_role frame_mark_cooperative_role_uncertain
  frame_submit_cooperative frame_submit_logical : frame.

(** ** The coordinator *)

(** A relation that says nothing of the endpoints and the configured links. *)
Class CoordFrame (Q : relation Coord) : Prop := {
  coord_frame_preorder :: PreOrder Q;
  coord_frame_endpoints {E : Type} g : preserves Q (set_endpoints (E:=E) g);
  coord_frame_manual_links {E : Type} g : preserves Q (set_manual_links (E:=E) g);
}.
#[export] Hint Resolve coord_frame_endpoints coord_frame_manual_links : frame.

Section handlers.
Context `{HashOrder} `{UuidCrate} (Q : relation Coord) `{!CoordFrame Q}.

Lemma frame_poll_tasks resource_id ids :
  (∀ id, preserves Q (on_fabric (schedule_task id))) →
  (∀ id, preserves Q (on_fabric (begin_execution id resource_id))) → preserves Q (poll_tasks resource_id ids).
Proof. intros Hschedule Hbegin. induction ids as [|id ids IH]; simpl; [keep|]. keep. Qed.
(** The preview may fail where the submission succeeds. *)
Lemma frame_submit_planned job :
  preserves Q (on_fabric (plan_logical_job job)) → preserves Q (on_fabric (submit_logical job)) →
  preserves Q (handle_submit_planned job).
Proof.
  intros Hplan Hsubmit. unfold handle_submit_planned. apply preserves_bind; [apply _| |intros; keep].
  intros c. specialize (Hplan c). by destruct (on_fabric (plan_logical_job job) c) as [[|[]| |] c'].
Qed.
End handlers.
Ltac keep_call ::=
  match goal with
  | |- preserves _ (poll_tasks _ _) => apply frame_poll_tasks; [apply _|intros|intros]
  | |- preserves _ (handle_submit_planned _) => apply frame_submit_planned; [apply _| |]
  end.
