(* ===== verification/Evolution.v ===== *)
(** * How the fabric may evolve

    A preorder on fabrics that every operation respects: tasks keep their
    specification and their status only advances, objects keep their identity,
    jobs their definition.  It is proved of every handler of the coordinator,
    hence of every run. *)

From S2P Require Import Prelude Float64 World Text Core Samples Scheduler RoleGraph Partition Placement Reduction Fusion LogicalJob Planner Fabric Roles Execution Coordinator Clock Frames.

Open Scope string_scope.
Open Scope list_scope.
Open Scope Z_scope.

(** ** Maps that only grow *)

Definition grows {K} `{Countable K} {A} (R : relation A) (m m' : gmap K A) : Prop :=
  ∀ k a, m !! k = Some a → ∃ a', m' !! k = Some a' ∧ R a a'.

Section grows.
Context {K} `{Countable K} {A : Type} (R : relation A) `{!PreOrder R}.
Implicit Types m : gmap K A.

#[global] Instance grows_preorder : PreOrder (grows (K:=K) R).
Proof.
  split.
  - intros m k a Hk. by exists a.
  - intros m1 m2 m3 H12 H23 k a Hk. destruct (H12 k a Hk) as (b & Hb & Hab).
    destruct (H23 k b Hb) as (c & Hc & Hbc). exists c. split; [done|]. by etrans.
Qed.
Lemma grows_insert m k b : (∀ a, m !! k = Some a → R a b) → grows R m (<[k:=b]> m).
Proof.
  intros Hb j a Hj. destruct (decide (j = k)) as [->|Hne].
  - exists b. rewrite lookup_insert_eq. auto.
  - exists a. by rewrite lookup_insert_ne.
Qed.
Lemma grows_fmap m (f : A → A) : (∀ a, R a (f a)) → grows R m (f <$> m).
Proof. intros Hf k a Hk. exists (f a). by rewrite lookup_fmap, Hk. Qed.
End grows.

(** ** Tasks, objects, jobs *)

Definition same_execution (l l' : ExecutionLease) : Prop :=
  el_task_id l' = el_task_id l ∧ el_execution_id l' = el_execution_id l ∧
  el_resource_id l' = el_resource_id l ∧ el_resource_epoch l' = el_resource_epoch l.

(** Completed and uncertain are final; work that may not be replayed never
    becomes pending again nor changes its execution; work that may be is never
    uncertain. *)
Definition status_evolves (effects : EffectSemantics) (s s' : TaskStatus) : Prop :=
  match s with
  | Pending => automatically_retryable effects = true → s' ≠ TaskUncertain
  | Running lease =>
      match s' with
      | Pending => automatically_retryable effects = true
      | Running lease' => automatically_retryable effects = false → same_execution lease lease'
      | TaskCompleted _ => True
      | TaskUncertain => automatically_retryable effects = false
      end
  | TaskCompleted _ | TaskUncertain => s' = s
  end.

Definition task_evolves (r r' : TaskRecord) : Prop :=
  tr_spec r' = tr_spec r ∧ status_evolves (ts_effects (tr_spec r)) (tr_status r) (tr_status r').

#[global] Instance status_evolves_preorder effects : PreOrder (status_evolves effects).
Proof.
  split.
  - intros []; simpl; unfold same_execution; naive_solver.
  - intros [|l| |] [|l'| |] [|l''| |]; simpl; unfold same_execution; naive_solver congruence.
Qed.
#[global] Instance task_evolves_preorder : PreOrder task_evolves.
Proof.
  split; [by intros r|]. intros r1 r2 r3 [H1 H1'] [H2 H2']. split; [congruence|].
  rewrite H1 in H2'. by etrans.
Qed.

Definition object_evolves (o o' : ObjectMetadata) : Prop := same_object_identity o o' = true.

Lemma same_object_identity_spec o o' :
  same_object_identity o o' = true ↔
  om_id o = om_id o' ∧ om_size_bytes o = om_size_bytes o' ∧ om_digest o = om_digest o' ∧
  om_encoding o = om_encoding o' ∧ om_producer o = om_producer o'.
Proof.
  unfold same_object_identity. rewrite !andb_true_iff, !bool_decide_eq_true, Z.eqb_eq. tauto.
Qed.
#[global] Instance object_evolves_preorder : PreOrder object_evolves.
Proof.
  unfold object_evolves. split.
  - intros o. by apply same_object_identity_spec.
  - intros o1 o2 o3. rewrite !same_object_identity_spec. intuition congruence.
Qed.

(** A job keeps its definition and its roles. *)
Definition job_evolves (j j' : CooperativeJobRecord) : Prop :=
  job_definition j' = job_definition j ∧ dom (job_roles j) ⊆ dom (job_roles j').
#[global] Instance job_evolves_preorder : PreOrder job_evolves.
Proof. split; [by intros j|]. intros j1 j2 j3 [??] [??]. split; [congruence|set_solver]. Qed.

Record fabric_evolves (f f' : Fabric) : Prop := {
  ev_tasks : grows task_evolves (f_tasks f) (f_tasks f');
  ev_objects : grows object_evolves (f_objects f) (f_objects f');
  ev_jobs : grows job_evolves (f_jobs f) (f_jobs f');
  ev_membership_ttl : f_membership_ttl_ms f' = f_membership_ttl_ms f;
  ev_execution_ttl : f_execution_ttl_ms f' = f_execution_ttl_ms f;
  ev_scheduler : f_scheduler f' = f_scheduler f;
}.
#[global] Instance fabric_evolves_preorder : PreOrder fabric_evolves.
Proof.
  split; [intros f; by split|]. intros f1 f2 f3 [] []. split; (etrans; eassumption) || congruence.
Qed.

Section evolves_setters.
Context (f : Fabric).
Lemma evolves_tasks m : grows task_evolves (f_tasks f) m → fabric_evolves f (set_tasks f m).
Proof. intros. by split. Qed.
Lemma evolves_objects m : grows object_evolves (f_objects f) m → fabric_evolves f (set_objects f m).
Proof. intros. by split. Qed.
Lemma evolves_jobs m : grows job_evolves (f_jobs f) m → fabric_evolves f (set_jobs f m).
Proof. intros. by split. Qed.
End evolves_setters.

Definition node_evolves (n n' : Node) : Prop := fabric_evolves (nd_fabric n) (nd_fabric n').
#[global] Instance node_evolves_preorder : PreOrder node_evolves.
Proof. split; [by intros n|]. intros n1 n2 n3. unfold node_evolves. by etrans. Qed.

(** ** The fabric's primitives *)

Abbreviation keeps m := (preserves node_evolves m).
Abbreviation keeps_at m n := (preserves_at node_evolves m n).

Lemma keeps_fworld {E A} (m : comp World E A) : keeps (fworld m).
Proof. intros n. unfold fworld, node_evolves. by destruct (m (nd_world n)). Qed.
Lemma keeps_fmod {E} (g : Fabric → Fabric) : (∀ f, fabric_evolves f (g f)) → keeps (fmod (E:=E) g).
Proof. intros Hg n. apply Hg. Qed.
Lemma keeps_set_task_role {E} id binding : keeps (set_task_role (E:=E) id binding).
Proof. by apply keeps_fmod. Qed.
#[export] Hint Resolve keeps_fworld keeps_set_task_role : frame.

(** A world-only step leaves the fabric that a later write starts from. *)
Lemma keeps_at_fworld {E A B} (m : comp World E A) (k : A → comp Node E B) n :
  (∀ a w', keeps_at (k a) (mkNode (nd_fabric n) w')) → keeps_at (bind (fworld m) k) n.
Proof.
  intros Hk. unfold preserves_at, bind, fworld, node_evolves in *.
  destruct (m (nd_world n)) as [[a|e| |] w']; simpl; try done. apply (Hk a w').
Qed.
Lemma keeps_at_fget {E A B} (g : Fabric → A) (k : A → comp Node E B) n :
  keeps_at (k (g (nd_fabric n))) n → keeps_at (bind (fget g) k) n.
Proof. done. Qed.

Lemma keeps_at_set_task {E} id record n :
  (∀ r, f_tasks (nd_fabric n) !! id = Some r → task_evolves r record) →
  keeps_at (set_task (E:=E) id record) n.
Proof. intros Hr. apply evolves_tasks, grows_insert; [apply _|exact Hr]. Qed.
Lemma keeps_at_set_job {E} id job n :
  (∀ j, f_jobs (nd_fabric n) !! id = Some j → job_evolves j job) →
  keeps_at (set_job (E:=E) id job) n.
Proof. intros Hj. apply evolves_jobs, grows_insert; [apply _|exact Hj]. Qed.

(** ** Resources, topology, objects, tasks *)

Lemma keeps_remove_resource {E} id : keeps (remove_resource (E:=E) id).
Proof.
  apply keeps_fmod. intros f. split; try done. simpl. apply grows_fmap. intros o.
  by apply same_object_identity_spec.
Qed.
Lemma keeps_set_topology {E} t : keeps (set_topology (E:=E) t).
Proof. by apply keeps_fmod. Qed.
Lemma keeps_remove_link {E} a b : keeps (remove_link (E:=E) a b).
Proof. by apply keeps_fmod. Qed.
Lemma keeps_upsert_link {E} l : keeps (upsert_link (E:=E) l).
Proof. apply preserves_bind; [apply _|apply keeps_remove_link|]. intros _. by apply keeps_fmod. Qed.
#[export] Hint Resolve keeps_remove_resource keeps_set_topology keeps_remove_link keeps_upsert_link : frame.

Lemma keeps_set_resources {E} (g : Fabric → gmap ResourceId RegisteredResource) :
  keeps (fmod (E:=E) (λ f, set_resources f (g f))).
Proof. by apply keeps_fmod. Qed.
#[export] Hint Resolve keeps_set_resources : frame.

Lemma keeps_register_resource {E} d : keeps (register_resource (E:=E) d).
Proof. unfold register_resource. keep. Qed.
Lemma keeps_heartbeat id epoch : keeps (heartbeat id epoch).
Proof. unfold heartbeat. keep. Qed.
Lemma keeps_expire_resources_at `{HashOrder} {E} t : keeps (expire_resources_at (E:=E) t).
Proof. unfold expire_resources_at. keep. Qed.
Lemma keeps_resource_epoch {E} id : keeps (resource_epoch (E:=E) id).
Proof. unfold resource_epoch. keep. Qed.
Lemma keeps_active_resources `{HashOrder} {E} : keeps (active_resources (E:=E)).
Proof. unfold active_resources. keep. Qed.
Lemma keeps_schedulable_resources `{HashOrder} {E} : keeps (schedulable_resources (E:=E)).
Proof. unfold schedulable_resources. keep. Qed.
#[export] Hint Resolve keeps_register_resource keeps_heartbeat keeps_expire_resources_at
  keeps_resource_epoch keeps_active_resources keeps_schedulable_resources : frame.

Lemma keeps_publish_object object : keeps (publish_object object).
Proof.
  apply at_intro. intros n. unfold publish_object. apply keeps_at_fget.
  destruct (f_objects (nd_fabric n) !! om_id object) as [existing|] eqn:Ho.
  - destruct (negb _) eqn:Hs; [by apply at_refl_throw; apply _|].
    apply evolves_objects, grows_insert; [apply _|]. intros o Ho'. simplify_eq.
    by apply same_object_identity_spec.
  - apply evolves_objects, grows_insert; [apply _|]. intros o Ho'. congruence.
Qed.
Lemma keeps_add_object_location object resource : keeps (add_object_location object resource).
Proof.
  apply at_intro. intros n. unfold add_object_location. apply keeps_at_fget.
  apply at_ok_or; [apply _|]. intros o Ho. apply evolves_objects, grows_insert; [apply _|].
  intros o' Ho'. simplify_eq. by apply same_object_identity_spec.
Qed.
Lemma keeps_submit task : keeps (submit task).
Proof.
  unfold submit. apply preserves_bind; [apply _|apply preserves_lift, _|]. intros _.
  apply at_intro. intros n. apply keeps_at_fget.
  destruct (f_tasks (nd_fabric n) !! ts_id task) as [r|] eqn:Ht; [by apply at_refl_throw; apply _|].
  apply at_bind; [apply _| |intros; apply preserves_ret, _]. apply keeps_at_set_task. congruence.
Qed.
Lemma keeps_schedule_task `{HashOrder} id : keeps (schedule_task id).
Proof. unfold schedule_task. keep. Qed.
#[export] Hint Resolve keeps_publish_object keeps_add_object_location keeps_submit keeps_schedule_task : frame.

(** ** Roles *)

Lemma job_evolves_insert_role job role status :
  job_evolves job (with_roles job (<[role := status]> (job_roles job))).
Proof. split; [done|]. simpl. rewrite dom_insert_L. set_solver. Qed.

(** Reading a job, then writing it back with other roles or bookkeeping. *)
Lemma keeps_at_find_job {A} job_id (k : CooperativeJobRecord → fab A) n :
  (∀ job, f_jobs (nd_fabric n) !! job_id = Some job → keeps_at (k job) n) →
  keeps_at (bind (find_job job_id) k) n.
Proof.
  intros Hk. apply at_assoc, keeps_at_fget. apply at_ok_or; [apply _|]. done.
Qed.
Lemma keeps_at_expect_job {A} job_id (k : CooperativeJobRecord → fab A) n :
  (∀ job, f_jobs (nd_fabric n) !! job_id = Some job → keeps_at (k job) n) →
  keeps_at (bind (expect_job job_id) k) n.
Proof.
  intros Hk. apply at_assoc, keeps_at_fget. apply at_expect; [apply _|]. done.
Qed.
Lemma keeps_at_insert_role job_id job job0 role status n :
  f_jobs (nd_fabric n) !! job_id = Some job0 → job_evolves job0 job →
  keeps_at (insert_role job_id job role status) n.
Proof.
  intros Hj Hev. apply keeps_at_set_job. intros j Hj'. simplify_eq.
  etrans; [exact Hev|apply job_evolves_insert_role].
Qed.
Lemma job_evolves_same job job' :
  job_definition job' = job_definition job → job_roles job' = job_roles job → job_evolves job job'.
Proof. intros Hd Hr. split; [done|]. by rewrite Hr. Qed.

Lemma keeps_find_job job_id : keeps (find_job job_id).
Proof. unfold find_job. keep. Qed.
Lemma keeps_assign_role job_id role status error : keeps (assign_role job_id role status error).
Proof.
  apply at_intro. intros n. apply keeps_at_find_job. intros job Hj.
  apply at_ok_or; [apply _|]. intros _ _. by eapply keeps_at_insert_role.
Qed.
Lemma keeps_insert_selection job_id role selection : keeps (insert_selection job_id role selection).
Proof.
  apply at_intro. intros n. apply keeps_at_expect_job. intros job Hj.
  apply keeps_at_set_job. intros j Hj'. simplify_eq. by apply job_evolves_same.
Qed.
Lemma keeps_mark_ready job_id name : keeps (mark_ready job_id name).
Proof.
  apply at_intro. intros n. apply keeps_at_expect_job. intros job Hj. by eapply keeps_at_insert_role.
Qed.
#[export] Hint Resolve keeps_find_job keeps_assign_role keeps_insert_selection keeps_mark_ready : frame.

(** [expect_job], then a write of that job's roles, then anything. *)
Lemma keeps_expect_then_role {A} job_id role status (k : unit → fab A) :
  (∀ u, keeps (k u)) →
  keeps (let* job := expect_job job_id in bind (insert_role job_id job role status) k).
Proof.
  intros Hk. apply at_intro. intros n. apply keeps_at_expect_job. intros job Hj.
  apply at_bind; [apply _|by eapply keeps_at_insert_role|done].
Qed.

Section roles.
Context `{HashOrder}.

Lemma keeps_planning_context resources : keeps (planning_context resources).
Proof. unfold planning_context. keep. Qed.
Hint Resolve keeps_planning_context : frame.

Lemma keeps_ready_roles job : keeps (ready_roles job).
Proof. unfold ready_roles, ready_cooperative, ready_logical. keep. Qed.
Lemma keeps_materialize_single job_id name task selection :
  keeps (materialize_single job_id name task selection).
Proof.
  unfold materialize_single. apply preserves_bind; [apply _|apply keeps_submit|]. intros _.
  apply preserves_bind; [apply _|apply keeps_set_task_role|]. intros _.
  apply keeps_expect_then_role. intros _. keep.
Qed.
Lemma keeps_materialize_sharded job_id name role deps resources :
  keeps (materialize_sharded job_id name role deps resources).
Proof.
  unfold materialize_sharded, submit_shard.
  apply preserves_bind; [apply _|keep|]. intros context.
  apply preserves_bind; [apply _|keep|]. intros [sels|]; [|apply keeps_mark_ready].
  apply preserves_bind; [apply _|keep|]. intros selections.
  apply keeps_expect_then_role. intros _. keep.
Qed.
Lemma keeps_materialize_fused job_id sel chain : keeps (materialize_fused job_id sel chain).
Proof.
  unfold materialize_fused. apply preserves_bind; [apply _|keep|]. intros _.
  apply preserves_bind; [apply _|keep|]. intros _.
  apply preserves_for_each; [apply _|]. intros [i [role impl]]. unfold mark_fused.
  apply keeps_expect_then_role. intros _. keep.
Qed.
Hint Resolve keeps_ready_roles keeps_materialize_single keeps_materialize_sharded keeps_materialize_fused : frame.
Lemma keeps_materialize_ready_roles job_id : keeps (materialize_ready_roles job_id).
Proof. unfold materialize_ready_roles, materialize_role, materialize_logical. keep. Qed.
Hint Resolve keeps_materialize_ready_roles : frame.

Lemma keeps_finish_reduction job_id role inputs : keeps (finish_reduction job_id role inputs).
Proof.
  apply at_intro. intros n. apply keeps_at_find_job. intros job Hj.
  apply at_bind; [apply _| |intros; apply keeps_materialize_ready_roles].
  eapply keeps_at_insert_role; [exact Hj|]. by apply job_evolves_same.
Qed.
Lemma keeps_submit_reduction_item job_id role item : keeps (submit_reduction_item job_id role item).
Proof. unfold submit_reduction_item. keep. Qed.
Hint Resolve keeps_finish_reduction keeps_submit_reduction_item : frame.

Lemma keeps_materialize_reduction_level job_id role : keeps (materialize_reduction_level job_id role).
Proof.
  unfold materialize_reduction_level. unfold find_reduction_state.
  apply preserves_bind; [apply _|keep|]. intros job.
  apply preserves_bind; [apply _|keep|]. intros reduction.
  apply preserves_bind; [apply _|keep|]. intros state.
  destruct (negb _); [keep|]. destruct (_ <=? _)%nat; [keep|].
  apply preserves_bind; [apply _|keep|]. intros resources.
  apply preserves_bind; [apply _|keep|]. intros context.
  apply preserves_bind; [apply _|keep|]. intros [sel|].
  - apply preserves_bind; [apply _|keep|]. intros items. case_bool_decide; [keep|].
    apply at_intro. intros n. apply keeps_at_find_job. intros job' Hj.
    apply at_ok_or; [apply _|]. intros st _. eapply keeps_at_insert_role; [exact Hj|].
    by apply job_evolves_same.
  - apply at_intro. intros n. apply keeps_at_find_job. intros job' Hj. by eapply keeps_at_insert_role.
Qed.
Hint Resolve keeps_materialize_reduction_level : frame.

Lemma keeps_start_role_reduction job_id role inputs : keeps (start_role_reduction job_id role inputs).
Proof.
  apply at_intro. intros n. apply keeps_at_find_job. intros job Hj.
  apply at_bind; [apply _| |intros; apply keeps_materialize_reduction_level].
  eapply keeps_at_insert_role; [exact Hj|]. by apply job_evolves_same.
Qed.
Lemma keeps_advance_reduction_level `{UuidCrate} job_id role : keeps (advance_reduction_level job_id role).
Proof.
  unfold advance_reduction_level, find_reduction_state.
  apply preserves_bind; [apply _|keep|]. intros job. apply preserves_bind; [apply _|keep|]. intros state.
  apply preserves_bind; [apply _|keep|]. intros f.
  apply preserves_bind; [apply _|keep|]. intros [[[next ids] completed] all].
  destruct (negb all); apply at_intro; intros n; apply keeps_at_find_job; intros job' Hj.
  - by eapply keeps_at_insert_role.
  - apply at_ok_or; [apply _|]. intros st _.
    apply at_bind; [apply _| |intros; apply keeps_materialize_reduction_level].
    apply keeps_at_set_job. intros j Hj'. simplify_eq. by apply job_evolves_same.
Qed.
Hint Resolve keeps_start_role_reduction keeps_advance_reduction_level : frame.
Lemma keeps_refresh_ready_roles : keeps refresh_ready_roles.
Proof. unfold refresh_ready_roles, refresh_reductions. keep. Qed.
Lemma keeps_complete_cooperative_role `{UuidCrate} task_id outputs :
  keeps (complete_cooperative_role task_id outputs).
Proof. unfold complete_cooperative_role, complete_fused_chain, complete_shard. keep. Qed.
Lemma keeps_mark_role_uncertain job_id role : keeps (mark_role_uncertain job_id role).
Proof.
  apply at_intro. intros n. unfold mark_role_uncertain. apply keeps_at_fget.
  destruct (f_jobs (nd_fabric n) !! job_id) as [job|] eqn:Hj; [|by apply at_refl_ret; apply _].
  destruct (job_roles job !! role); [by eapply keeps_at_insert_role|by apply at_refl_ret; apply _].
Qed.
Hint Resolve keeps_mark_role_uncertain : frame.
Lemma keeps_mark_cooperative_role_uncertain task_id : keeps (mark_cooperative_role_uncertain task_id).
Proof. unfold mark_cooperative_role_uncertain. keep. Qed.
End roles.
#[export] Hint Resolve keeps_materialize_ready_roles keeps_refresh_ready_roles
  keeps_complete_cooperative_role keeps_mark_cooperative_role_uncertain : frame.

(** ** Execution leases *)

Section executions.
Context `{HashOrder} `{UuidCrate}.

Lemma keeps_at_find_active {A} id now (k : RegisteredResource → fab A) n :
  (∀ r, keeps_at (k r) n) → keeps_at (bind (find_active id now) k) n.
Proof.
  intros Hk. apply at_assoc, keeps_at_fget.
  destruct (f_resources (nd_fabric n) !! id) as [r|]; [|by apply at_refl_throw; apply _].
  destruct (active_at now r); [apply Hk|by apply at_refl_throw; apply _].
Qed.

Lemma keeps_begin_execution task_id resource_id : keeps (begin_execution task_id resource_id).
Proof.
  apply at_intro. intros n. apply keeps_at_fworld. intros now w1.
  apply keeps_at_find_active. intros r. apply keeps_at_fget. apply at_ok_or; [apply _|].
  intros record Ht. case_bool_decide as Hp; simpl; [|by apply at_refl_throw; apply _].
  apply keeps_at_fworld. intros execution w2. apply keeps_at_fget.
  apply at_bind; [apply _| |intros; apply preserves_ret, _]. apply keeps_at_set_task. simpl.
  intros record' Ht'. simplify_eq/=. split; [done|]. by rewrite Hp.
Qed.

(** The guards pass only on a running task of the same execution and owner. *)
Lemma keeps_at_check_lease {A} lease now (k : TaskRecord * ExecutionLease → fab A) n :
  (∀ record current, f_tasks (nd_fabric n) !! el_task_id lease = Some record →
     tr_status record = Running current → el_execution_id current = el_execution_id lease →
     keeps_at (k (record, current)) n) →
  keeps_at (bind (check_lease lease now) k) n.
Proof.
  intros Hk. apply at_assoc, keeps_at_find_active. intros r.
  destruct (negb (rd_epoch _ =? _)); [by apply at_refl_throw; apply _|].
  apply at_assoc, keeps_at_fget. apply at_assoc, at_ok_or; [apply _|]. intros record Ht.
  apply at_assoc, at_ok_or; [apply _|]. intros current Hc.
  destruct (_ <=? now); [by apply at_refl_throw; apply _|].
  destruct (negb (same_owner current lease)); [by apply at_refl_throw; apply _|].
  unfold current_lease in Hc. destruct (tr_status record) eqn:Hs; try done.
  case_bool_decide; simplify_eq. by apply (Hk record current).
Qed.

Lemma keeps_renew_execution lease : keeps (renew_execution lease).
Proof.
  apply at_intro. intros n. apply keeps_at_fworld. intros now w1.
  apply keeps_at_check_lease. intros record current Ht Hs _. apply keeps_at_fget.
  apply at_bind; [apply _| |intros; apply preserves_ret, _]. apply keeps_at_set_task.
  intros record' Ht'. simplify_eq/=. split; [done|]. by rewrite Hs.
Qed.

Lemma keeps_complete_execution lease outputs : keeps (complete_execution lease outputs).
Proof.
  apply at_intro. intros n. apply keeps_at_fworld. intros now w1.
  apply keeps_at_check_lease. intros record current Ht Hs _. apply keeps_at_fget. simpl.
  destruct (_ && _); [by apply at_refl_throw; apply _|].
  apply at_lift; [apply _|]. intros _ _. apply at_expect; [apply _|]. intros record' Ht'.
  apply at_bind; [apply _| |intros; keep].
  apply keeps_at_set_task. intros r Hr. simplify_eq/=. split; [done|]. by rewrite Hs.
Qed.

Lemma evolves_reap t f : fabric_evolves f (set_tasks f (reap_record t <$> f_tasks f)).
Proof.
  apply evolves_tasks, grows_fmap. intros r. unfold reap_record, expired_at, reaped_status.
  destruct (tr_status r) as [|lease| |] eqn:Hs; try done.
  destruct (_ <=? t); [|done]. split; [done|]. simpl. rewrite Hs.
  by destruct (automatically_retryable _) eqn:Hr.
Qed.
Lemma keeps_reap t : keeps (reap_expired_executions_at t).
Proof.
  unfold reap_expired_executions_at. apply preserves_bind; [apply _|keep|]. intros tasks.
  apply preserves_bind; [apply _| |intros; keep]. apply keeps_fmod, evolves_reap.
Qed.
#[local] Hint Resolve keeps_begin_execution keeps_renew_execution keeps_complete_execution keeps_reap : frame.

Lemma keeps_insert_new_job {A} job_id definition names (k : fab A) :
  keeps k → keeps (let* jobs := fget f_jobs in
    match jobs !! job_id with
    | Some _ => throw (DuplicateJob job_id)
    | None => insert_new_job job_id definition names;;; k
    end).
Proof.
  intros Hk. apply at_intro. intros n. apply keeps_at_fget.
  destruct (f_jobs (nd_fabric n) !! job_id) eqn:Hj; [by apply at_refl_throw; apply _|].
  apply at_bind; [apply _| |done]. apply keeps_at_set_job. congruence.
Qed.
Lemma keeps_submit_cooperative job : keeps (submit_cooperative job).
Proof.
  unfold submit_cooperative. apply preserves_bind; [apply _|keep|]. intros _.
  apply keeps_insert_new_job. keep.
Qed.
Lemma keeps_submit_logical job : keeps (submit_logical job).
Proof.
  unfold submit_logical. apply preserves_bind; [apply _|keep|]. intros _.
  apply preserves_bind; [apply _|keep|]. intros objects.
  apply preserves_bind; [apply _|keep|]. intros _. apply keeps_insert_new_job. keep.
Qed.
Lemma keeps_plan_logical_job spec : keeps (plan_logical_job spec).
Proof. unfold plan_logical_job. keep. Qed.
End executions.
#[export] Hint Resolve keeps_begin_execution keeps_renew_execution keeps_complete_execution keeps_reap
  keeps_submit_cooperative keeps_submit_logical keeps_plan_logical_job : frame.

(** ** The coordinator *)

Definition coord_evolves (c c' : Coord) : Prop :=
  fabric_evolves (co_fabric (co_state c)) (co_fabric (co_state c')).
#[global] Instance coord_evolves_frame : CoordFrame coord_evolves.
Proof.
  split; [split; [by intros c|]|intros; by intros c..]. intros c1 c2 c3. unfold coord_evolves. by etrans.
Qed.

Abbreviation serves m := (preserves coord_evolves m).

Lemma serves_on_fabric {E A} (m : comp Node E A) : keeps m → serves (on_fabric m).
Proof.
  intros Hm c. unfold on_fabric, coord_evolves.
  specialize (Hm (mkNode (co_fabric (co_state c)) (co_world c))).
  by destruct (m _) as [o n].
Qed.
#[export] Hint Resolve serves_on_fabric : frame.

Section handlers_evolve.
Context `{HashOrder} `{UuidCrate}.

(** Every handler, whatever it answers. *)
Lemma serves_handle request : serves (handle request).
Proof.
  unfold handle, respond. destruct request;
    unfold handle_register, handle_heartbeat, handle_list_resources, handle_poll_work,
      handle_renew, handle_complete, handle_publish, handle_replica, handle_submit_task,
      handle_get_task, handle_submit_cooperative, handle_plan, handle_get_job, handle_update_link,
      handle_report_measurement, maintenance_tick, forget_resource; keep.
Qed.

Lemma steps_evolve c c' : steps c c' → coord_evolves c c'.
Proof.
  induction 1 as [c|c1 c2 c3 [request ->] _ IH]; [done|]. etrans; [apply serves_handle|exact IH].
Qed.
End handlers_evolve.

(** ** Properties of every run *)

(** C1 Work with exclusive effects is never executed twice.  Once such a task
    has been leased, after any sequence of requests and maintenance ticks, from
    any state and under any clock, it is still there with its specification,
    and it is either running under the same execution (task, execution id,
    resource and epoch; only the expiry may have moved), or completed, or
    uncertain: it is never pending again and never leased anew. *)
Theorem exclusive_runs_once `{HashOrder} `{UuidCrate} c c' id record lease
    (Hsteps : steps c c') (Htask : f_tasks (co_fabric (co_state c)) !! id = Some record)
    (Heffects : automatically_retryable (ts_effects (tr_spec record)) = false)
    (Hrunning : tr_status record = Running lease) :
  ∃ record', f_tasks (co_fabric (co_state c')) !! id = Some record' ∧
    tr_spec record' = tr_spec record ∧
    match tr_status record' with
    | Pending => False
    | Running lease' => same_execution lease lease'
    | TaskCompleted _ | TaskUncertain => True
    end.
Proof.
  destruct (ev_tasks _ _ (steps_evolve _ _ Hsteps) id record Htask) as (record' & Hr & Hspec & Hst).
  exists record'. split_and!; [done..|]. rewrite Hrunning in Hst. simpl in Hst.
  destruct (tr_status record'); auto; congruence.
Qed.

(** Committed results are final: a completed task keeps exactly its outputs,
    and an uncertain task stays uncertain, through any sequence of requests. *)
Theorem finished_tasks_final `{HashOrder} `{UuidCrate} c c' id record
    (Hsteps : steps c c') (Htask : f_tasks (co_fabric (co_state c)) !! id = Some record)
    (Hdone : (∃ outputs, tr_status record = TaskCompleted outputs) ∨ tr_status record = TaskUncertain) :
  ∃ record', f_tasks (co_fabric (co_state c')) !! id = Some record' ∧
    tr_spec record' = tr_spec record ∧ tr_status record' = tr_status record.
Proof.
  destruct (ev_tasks _ _ (steps_evolve _ _ Hsteps) id record Htask) as (record' & Hr & Hspec & Hst).
  exists record'. split_and!; [done..|].
  destruct Hdone as [[outputs Hd]|Hd]; rewrite Hd in *; exact Hst.
Qed.

(** Replay-safe work is never lost to uncertainty: a Pure or Idempotent task
    that is not uncertain never becomes so, whatever leases expire. *)
Theorem replayable_never_uncertain `{HashOrder} `{UuidCrate} c c' id record
    (Hsteps : steps c c') (Htask : f_tasks (co_fabric (co_state c)) !! id = Some record)
    (Heffects : automatically_retryable (ts_effects (tr_spec record)) = true)
    (Hstatus : tr_status record ≠ TaskUncertain) :
  ∃ record', f_tasks (co_fabric (co_state c')) !! id = Some record' ∧
    tr_spec record' = tr_spec record ∧ tr_status record' ≠ TaskUncertain.
Proof.
  destruct (ev_tasks _ _ (steps_evolve _ _ Hsteps) id record Htask) as (record' & Hr & Hspec & Hst).
  exists record'. split_and!; [done..|]. intros Hu. rewrite Hu in Hst.
  destruct (tr_status record); simpl in Hst; congruence || by apply Hst.
Qed.

(** C19 Published objects are immutable: after any sequence of requests an
    object is still published with the same size, digest, encoding and
    producer; only its set of replicas changes. *)
Theorem objects_immutable `{HashOrder} `{UuidCrate} c c' id object
    (Hsteps : steps c c') (Hobject : f_objects (co_fabric (co_state c)) !! id = Some object) :
  ∃ object', f_objects (co_fabric (co_state c')) !! id = Some object' ∧
    om_id object' = om_id object ∧ om_size_bytes object' = om_size_bytes object ∧
    om_digest object' = om_digest object ∧ om_encoding object' = om_encoding object ∧
    om_producer object' = om_producer object.
Proof.
  destruct (ev_objects _ _ (steps_evolve _ _ Hsteps) id object Hobject) as (object' & Ho & Hev).
  exists object'. split; [done|]. apply same_object_identity_spec in Hev. intuition congruence.
Qed.

(** *** A run: an exclusive and a pure task, leased, then expired *)

Module Run.
Definition order : HashOrder := trie_order.
Definition text : UuidCrate := Samples.uuid_text.
#[local] Existing Instances order text.

Definition start : Coord := mkCoord (Coordinator_new 15000 60000) (Samples.world_at 8 1000 100000).
Definition serve (request : Request) (c : Coord) : Coord := (handle request c).2.
Definition resource (n : N) : Request :=
  RegisterResource (Samples.resource (Samples.resource_id n) 1 0 []) "http://agent".
Definition an_object : ObjectMetadata := Samples.object (Samples.object_id 1) 12 [Samples.resource_id 1].

(** Two resources, an object, and an exclusive task leased to resource 1. *)
Definition leased : Coord :=
  serve (PollWork (Samples.resource_id 1) 1)
    (serve (SubmitTask (Samples.task (Samples.task_id 7) Exclusive))
      (serve (PublishObject an_object) (serve (resource 1) start))).
(** A pure task besides, leased to resource 2. *)
Definition both : Coord :=
  serve (PollWork (Samples.resource_id 2) 1)
    (serve (SubmitTask (Samples.task (Samples.task_id 8) Pure)) (serve (resource 2) leased)).
(** Both leases and both memberships have expired. *)
Definition expired : Coord := serve MaintenanceTick both.

Definition status (c : Coord) (id : N) : option TaskStatus :=
  task_status (co_fabric (co_state c)) (Samples.task_id id).

Example leased_status : status leased 7 = Some (Running
  (mkExecutionLease (Samples.task_id 7) (mkId 1000) (Samples.resource_id 1) 1 61000)).
Proof. vm_compute. reflexivity. Qed.
Example both_status : status both 8 = Some (Running
  (mkExecutionLease (Samples.task_id 8) (mkId 1001) (Samples.resource_id 2) 1 61000)).
Proof. vm_compute. reflexivity. Qed.
Example expired_status : (status expired 7, status expired 8) = (Some TaskUncertain, Some Pending).
Proof. vm_compute. reflexivity. Qed.

Lemma serve_step request c : steps c (serve request c).
Proof. apply rtc_once. by exists request. Qed.
Lemma both_to_expired : steps both expired.
Proof. apply serve_step. Qed.

(** The record behind a status. *)
Lemma status_record c id st : status c id = Some st →
  ∃ record, f_tasks (co_fabric (co_state c)) !! Samples.task_id id = Some record ∧ tr_status record = st.
Proof. unfold status, task_status. rewrite fmap_Some. naive_solver. Qed.
Definition effects (c : Coord) (id : N) : option bool :=
  (λ r, automatically_retryable (ts_effects (tr_spec r))) <$>
    f_tasks (co_fabric (co_state c)) !! Samples.task_id id.
Lemma effects_record c id b record :
  effects c id = Some b → f_tasks (co_fabric (co_state c)) !! Samples.task_id id = Some record →
  automatically_retryable (ts_effects (tr_spec record)) = b.
Proof. unfold effects. intros He Hr. rewrite Hr in He. by injection He. Qed.
End Run.

#[local] Existing Instances Run.order Run.text.

Lemma both_leased : Run.status Run.both 7 = Some (Running
  (mkExecutionLease (Samples.task_id 7) (mkId 1000) (Samples.resource_id 1) 1 61000)).
Proof. vm_compute. reflexivity. Qed.
Lemma both_exclusive : Run.effects Run.both 7 = Some false.
Proof. vm_compute. reflexivity. Qed.
Lemma both_pure : Run.effects Run.both 8 = Some true.
Proof. vm_compute. reflexivity. Qed.

Lemma exclusive_runs_once_witness :
  ∃ record record', f_tasks (co_fabric (co_state Run.both)) !! Samples.task_id 7 = Some record ∧
    f_tasks (co_fabric (co_state Run.expired)) !! Samples.task_id 7 = Some record' ∧
    tr_spec record' = tr_spec record ∧
    match tr_status record' with
    | Pending => False
    | Running lease' => same_execution
        (mkExecutionLease (Samples.task_id 7) (mkId 1000) (Samples.resource_id 1) 1 61000) lease'
    | TaskCompleted _ | TaskUncertain => True
    end.
Proof.
  destruct (Run.status_record _ _ _ both_leased) as (record & Hr & Hst).
  pose proof (Run.effects_record _ _ _ record both_exclusive Hr) as Heff. exists record.
  destruct (exclusive_runs_once _ _ _ record _ Run.both_to_expired Hr Heff Hst)
    as (record' & Hr' & Hspec & Hm). exists record'. split_and!; assumption.
Defined.

Lemma finished_tasks_final_witness :
  ∃ record record', f_tasks (co_fabric (co_state Run.expired)) !! Samples.task_id 7 = Some record ∧
    f_tasks (co_fabric (co_state (Run.serve MaintenanceTick Run.expired))) !! Samples.task_id 7 = Some record' ∧
    tr_spec record' = tr_spec record ∧ tr_status record' = tr_status record.
Proof.
  assert (Hst : Run.status Run.expired 7 = Some TaskUncertain) by (vm_compute; reflexivity).
  apply Run.status_record in Hst as (record & Hr & Hst). exists record.
  destruct (finished_tasks_final _ _ _ record (Run.serve_step MaintenanceTick Run.expired) Hr
    (or_intror Hst)) as (record' & ? & ? & ?). exists record'. split_and!; assumption.
Defined.

Lemma replayable_never_uncertain_witness :
  ∃ record record', f_tasks (co_fabric (co_state Run.both)) !! Samples.task_id 8 = Some record ∧
    f_tasks (co_fabric (co_state Run.expired)) !! Samples.task_id 8 = Some record' ∧
    tr_spec record' = tr_spec record ∧ tr_status record' ≠ TaskUncertain.
Proof.
  destruct (Run.status_record _ _ _ Run.both_status) as (record & Hr & Hst).
  pose proof (Run.effects_record _ _ _ record both_pure Hr) as Heff. exists record.
  destruct (replayable_never_uncertain _ _ _ record Run.both_to_expired Hr Heff)
    as (record' & ? & ? & ?); [by rewrite Hst|]. exists record'. split_and!; assumption.
Defined.

Lemma objects_immutable_witness :
  ∃ object', f_objects (co_fabric (co_state Run.expired)) !! Samples.object_id 1 = Some object' ∧
    om_id object' = Samples.object_id 1 ∧ om_size_bytes object' = 12 ∧
    om_digest object' = Some "sha256:00" ∧ om_encoding object' = None ∧ om_producer object' = None.
Proof.
  assert (Ho : f_objects (co_fabric (co_state Run.both)) !! Samples.object_id 1 = Some Run.an_object)
    by (vm_compute; reflexivity).
  exact (objects_immutable _ _ _ _ Run.both_to_expired Ho).
Defined.
