(* ===== verification/Network.v ===== *)
(** * Members and links

    Tasks and jobs leave the members of the fabric and the topology alone;
    links stay valid and unique, and configured links win over measurements. *)

From S2P Require Import Prelude Float64 World Text Core Samples Scheduler RoleGraph Partition Placement Reduction Fusion LogicalJob Planner Fabric Roles Execution Coordinator Clock Frames Evolution.

Open Scope string_scope.
Open Scope list_scope.
Open Scope Z_scope.

(** ** What tasks and jobs leave alone *)

(** The members and the links between them. *)
Definition same_network (n n' : Node) : Prop :=
  f_resources (nd_fabric n') = f_resources (nd_fabric n) ∧
  f_topology (nd_fabric n') = f_topology (nd_fabric n).
Lemma network_fmod {E} (g : Fabric → Fabric) :
  (∀ f, f_resources (g f) = f_resources f ∧ f_topology (g f) = f_topology f) → preserves same_network (fmod (E:=E) g).
Proof. intros Hg n. apply Hg. Qed.
#[export] Hint Extern 1 (preserves same_network (fmod _)) => apply network_fmod; done : frame.
#[global] Instance same_network_frame : Frame same_network.
Proof.
  assert (PreOrder same_network) by (split; [by intros n|]; intros n1 n2 n3; unfold same_network; intuition congruence).
  split; [done|..].
  - intros E A m _ n. unfold fworld, same_network. by destruct (m (nd_world n)).
  - intros. by apply network_fmod.
  - intros. by apply network_fmod.
  - intros task. unfold submit, set_task. keep.
Qed.

Section network.
Context `{HashOrder} `{UuidCrate}.
Lemma network_begin_execution task_id resource_id :
  preserves same_network (begin_execution task_id resource_id).
Proof. unfold begin_execution, find_active, set_task. keep. Qed.
Lemma network_renew_execution lease : preserves same_network (renew_execution lease).
Proof. unfold renew_execution, check_lease, find_active, set_task. keep. Qed.
Lemma network_complete_execution lease outputs :
  preserves same_network (complete_execution lease outputs).
Proof. unfold complete_execution, check_lease, find_active, set_task, publish_object. keep. Qed.
Lemma network_reap t : preserves same_network (reap_expired_executions_at t).
Proof.
  unfold reap_expired_executions_at, mark_cooperative_role_uncertain, mark_role_uncertain,
    insert_role. keep.
Qed.
End network.
#[export] Hint Resolve network_begin_execution network_renew_execution network_complete_execution network_reap : frame.



(** ** The topology *)

(** The unordered pair a link joins. *)
Definition link_pair (link : LinkProfile) : gset ResourceId := {[link_from link; link_to link]}.
(** One valid link per pair of resources. *)
Definition topology_ok (topology : TopologySnapshot) : Prop :=
  Forall (λ link, validate_link link = Ok tt) topology ∧ NoDup (link_pair <$> topology).

Lemma validate_link_ends link : validate_link link = Ok tt → link_from link ≠ link_to link.
Proof. unfold validate_link. by case_bool_decide. Qed.
Lemma link_joins_pair a b link :
  a ≠ b → link_pair link = {[a; b]} → link_joins a b link = true.
Proof.
  intros Hab Hp. apply link_joins_spec. unfold link_pair in Hp.
  assert (link_from link ∈ ({[a; b]} : gset ResourceId)) by (rewrite <- Hp; set_solver).
  assert (link_to link ∈ ({[a; b]} : gset ResourceId)) by (rewrite <- Hp; set_solver).
  assert (a ∈ link_pair link) by (unfold link_pair; rewrite Hp; set_solver).
  assert (b ∈ link_pair link) by (unfold link_pair; rewrite Hp; set_solver).
  unfold link_pair in *. set_solver.
Qed.

Lemma topology_ok_filter (p : LinkProfile → bool) topology :
  topology_ok topology → topology_ok (List.filter p topology).
Proof.
  intros [Hv Hu]. induction topology as [|l ls IH]; csimpl in *; [done|].
  apply Forall_cons in Hv as [Hl Hv]. apply NoDup_cons in Hu as [Hn Hu]. destruct (IH Hv Hu) as [Hv' Hu'].
  destruct (p l); [|done]. split; [by constructor|]. csimpl. constructor; [|done].
  intros (l' & Hl' & Hin)%list_elem_of_fmap. apply list_elem_of_In, filter_In in Hin as [Hin _].
  apply Hn. rewrite Hl'. apply list_elem_of_fmap. exists l'. split; [done|]. by apply list_elem_of_In.
Qed.
Lemma topology_ok_upsert link topology :
  validate_link link = Ok tt → topology_ok topology →
  topology_ok (remove_link_from (link_from link) (link_to link) topology ++ [link]).
Proof.
  intros Hlink Hok. destruct (topology_ok_filter
    (λ existing, negb (link_joins (link_from link) (link_to link) existing)) topology Hok) as [Hv Hu].
  split; [by apply Forall_app, conj, Forall_singleton|]. unfold remove_link_from. rewrite fmap_app. apply NoDup_app.
  split_and!; [done| |apply NoDup_singleton].
  intros pair (l & -> & Hl)%list_elem_of_fmap Hp. apply list_elem_of_singleton in Hp.
  apply list_elem_of_In, filter_In in Hl as [_ Hl]. apply negb_true_iff in Hl.
  rewrite link_joins_pair in Hl; [done| |done]. by apply validate_link_ends.
Qed.

Definition keeps_topology (c c' : Coord) : Prop :=
  topology_ok (f_topology (co_fabric (co_state c))) → topology_ok (f_topology (co_fabric (co_state c'))).
#[global] Instance keeps_topology_frame : CoordFrame keeps_topology.
Proof. split; [split; [by intros c Hk|]|by intros E g c Hk..]. unfold keeps_topology. intros c1 c2 c3. auto. Qed.

Lemma topology_on_fabric {E A} (m : comp Node E A) :
  (∀ n, topology_ok (f_topology (nd_fabric n)) → topology_ok (f_topology (nd_fabric (m n).2))) →
  preserves keeps_topology (on_fabric m).
Proof.
  intros Hm c Hk. unfold on_fabric. specialize (Hm (mkNode (co_fabric (co_state c)) (co_world c)) Hk).
  by destruct (m _) as [o n].
Qed.
Lemma topology_network {E A} (m : comp Node E A) :
  preserves same_network m → preserves keeps_topology (on_fabric m).
Proof. intros Hm. apply topology_on_fabric. intros n Hk. by rewrite (proj2 (Hm n)). Qed.
#[export] Hint Resolve topology_network : frame.

Section topology.
Context `{HashOrder} `{UuidCrate}.
Lemma topology_register {E} d : preserves keeps_topology (on_fabric (register_resource (E:=E) d)).
Proof.
  apply topology_on_fabric. intros n Hk. unfold register_resource, bind, fworld, fget, gets. simpl.
  by destruct (now_unix_ms _) as [[] w].
Qed.
Lemma topology_heartbeat id epoch : preserves keeps_topology (on_fabric (heartbeat id epoch)).
Proof.
  apply topology_on_fabric. intros n Hk. unfold heartbeat, bind, fget, gets, ok_or_throw, lift. simpl.
  destruct (f_resources (nd_fabric n) !! id) as [r|] eqn:Hr; [|done]. simpl.
  destruct (negb _); [done|]. unfold fworld. by destruct (now_unix_ms _) as [[] w].
Qed.
Definition node_topology (n n' : Node) : Prop :=
  topology_ok (f_topology (nd_fabric n)) → topology_ok (f_topology (nd_fabric n')).
#[global] Instance node_topology_preorder : PreOrder node_topology.
Proof. split; [by intros n Hk|]. unfold node_topology. intros n1 n2 n3. auto. Qed.
Lemma topology_expire {E} t : preserves keeps_topology (on_fabric (expire_resources_at (E:=E) t)).
Proof.
  apply topology_on_fabric. change (preserves node_topology (expire_resources_at (E:=E) t)).
  unfold expire_resources_at. apply preserves_bind; [apply _|by intros n Hk|]. intros resources.
  apply preserves_bind; [apply _| |by intros ? n Hk]. apply preserves_for_each; [apply _|].
  intros id n Hk. by apply topology_ok_filter.
Qed.
Lemma topology_remove_link {E} a b : preserves keeps_topology (on_fabric (remove_link (E:=E) a b)).
Proof. apply topology_on_fabric. intros n Hk. by apply topology_ok_filter. Qed.
(** A link is written only once it is validated. *)
Lemma topology_validated {A} link (k : unit → api A) :
  (validate_link link = Ok tt → preserves keeps_topology (k tt)) →
  preserves keeps_topology (bind (lift (validate_link link)) k).
Proof.
  intros Hk. destruct (validate_link link) as [[]|e| |] eqn:Hv; try by intros c Hc. by apply Hk.
Qed.
Lemma topology_upsert {E} link :
  validate_link link = Ok tt → preserves keeps_topology (on_fabric (upsert_link (E:=E) link)).
Proof. intros Hv. apply topology_on_fabric. intros n Hk. by apply topology_ok_upsert. Qed.
Hint Resolve topology_register topology_heartbeat topology_expire topology_remove_link topology_upsert : frame.

Lemma topology_update_link link : preserves keeps_topology (handle_update_link link).
Proof. unfold handle_update_link. apply topology_validated. intros Hv. keep. Qed.
Lemma topology_report a epoch b measurement :
  preserves keeps_topology (handle_report_measurement a epoch b measurement).
Proof.
  unfold handle_report_measurement. destruct (bool_decide _); [keep|].
  do 2 (apply preserves_bind; [apply _|keep; apply topology_network; unfold resource_epoch; keep|intros ?]).
  destruct (negb _); [keep|].
  apply preserves_bind; [apply _|apply topology_network; unfold resource_epoch; keep|]. intros [peer|]; [|keep].
  apply preserves_bind; [apply _|keep|]. intros manual. destruct (_ || _); [keep|].
  apply preserves_bind; [apply _| |intros; keep]. destruct measurement; [|keep].
  apply topology_validated. intros Hv. by apply topology_upsert.
Qed.
Hint Resolve topology_update_link topology_report : frame.
Lemma topology_handle request : preserves keeps_topology (handle request).
Proof.
  unfold handle, respond. destruct request;
    unfold handle_register, handle_heartbeat, handle_list_resources, handle_poll_work,
      handle_renew, handle_complete, handle_publish, handle_replica, handle_submit_task,
      handle_get_task, handle_submit_cooperative, handle_plan, handle_get_job,
      maintenance_tick, forget_resource; keep;
    apply topology_network; unfold active_resources, resource_epoch, publish_object, add_object_location; keep.
Qed.
Lemma steps_topology c c' : steps c c' → keeps_topology c c'.
Proof. induction 1 as [c|c1 c2 c3 [request ->] _ IH]; [done|]. etrans; [apply topology_handle|exact IH]. Qed.
End topology.

(** The topology stays well formed.  In every reachable state of the
    coordinator each link has distinct endpoints, a finite non-negative round
    trip and a finite positive bandwidth, and no two links join the same two
    resources: the link found for a pair is any link that joins them, in
    either direction. *)
Theorem topology_well_formed `{HashOrder} `{UuidCrate} membership_ttl_ms execution_ttl_ms w c
    (Hsteps : steps (mkCoord (Coordinator_new membership_ttl_ms execution_ttl_ms) w) c) :
  let topology := f_topology (co_fabric (co_state c)) in
  Forall (λ link, link_from link ≠ link_to link ∧ f64_is_finite (link_rtt_ms link) = true ∧
    (link_rtt_ms link <? 0)%float = false ∧ f64_is_finite (link_bandwidth_mbps link) = true ∧
    (link_bandwidth_mbps link <=? 0)%float = false) topology ∧
  ∀ a b link, a ≠ b → topology_link topology a b = Some link ↔ link ∈ topology ∧ link_joins a b link = true.
Proof.
  assert (Hok : topology_ok (f_topology (co_fabric (co_state c)))).
  { apply (steps_topology _ _ Hsteps). split; constructor. }
  destruct Hok as [Hv Hu]. simpl. split.
  { eapply Forall_impl; [exact Hv|]. intros link. unfold validate_link. case_bool_decide; [done|].
    destruct (negb _ || _ || _ || _) eqn:Hg; [done|]. intros _.
    repeat apply orb_false_iff in Hg as [Hg ?]. apply negb_false_iff in Hg.
    split_and!; try done. by apply negb_false_iff. }
  intros a b link Hab. unfold topology_link. split.
  { intros Hf. apply find_some in Hf as [Hin Hj]. split; [by apply list_elem_of_In|done]. }
  intros [Hin Hj]. apply list_elem_of_In in Hin. revert Hu Hin. clear Hv Hsteps.
  generalize (f_topology (co_fabric (co_state c))). intros ls. induction ls as [|l ls IH]; csimpl; [done|].
  intros [Hn Hu]%NoDup_cons [->|Hin]; [by rewrite Hj|]. destruct (link_joins a b l) eqn:Hl; [|by apply IH].
  exfalso. apply Hn. apply list_elem_of_fmap. exists link. split; [|by apply list_elem_of_In].
  apply link_joins_spec in Hl, Hj. unfold link_pair.
  destruct Hl as [[-> ->]|[-> ->]], Hj as [[-> ->]|[-> ->]]; set_solver.
Qed.

(** ** Measurements *)

Definition same_pair (a b x y : ResourceId) : Prop := (a = x ∧ b = y) ∨ (a = y ∧ b = x).
#[export] Instance same_pair_dec a b x y : Decision (same_pair a b x y).
Proof. unfold same_pair. apply _. Defined.

Lemma topology_link_remove x y a b topology :
  topology_link (remove_link_from x y topology) a b =
    if decide (same_pair a b x y) then None else topology_link topology a b.
Proof.
  unfold topology_link, remove_link_from. induction topology as [|l ls IH]; simpl; [by case_decide|].
  destruct (link_joins x y l) eqn:Hxy; simpl; rewrite IH.
  - case_decide as Hp; [done|]. destruct (link_joins a b l) eqn:Hab; [|done]. exfalso.
    apply link_joins_spec in Hxy, Hab. unfold same_pair in Hp. naive_solver.
  - destruct (link_joins a b l) eqn:Hab; [|done]. case_decide as Hp; [|done].
    destruct Hp as [[-> ->]|[-> ->]]; [|rewrite link_joins_sym in Hab]; congruence.
Qed.
Lemma topology_link_app_one topology link a b :
  topology_link (topology ++ [link]) a b =
    match topology_link topology a b with
    | Some l => Some l
    | None => if link_joins a b link then Some link else None
    end.
Proof. unfold topology_link. induction topology as [|l ls IH]; simpl; [done|]. by destruct (link_joins a b l). Qed.
(** The upserted link is the one found for its pair; other pairs are as before. *)
Lemma topology_link_upsert link a b topology :
  topology_link (remove_link_from (link_from link) (link_to link) topology ++ [link]) a b =
    if decide (same_pair a b (link_from link) (link_to link)) then Some link
    else topology_link topology a b.
Proof.
  rewrite topology_link_app_one, topology_link_remove.
  assert (Hj : link_joins a b link = true ↔ same_pair a b (link_from link) (link_to link)).
  { rewrite link_joins_spec. unfold same_pair. naive_solver. }
  case_decide as Hp; [by rewrite (proj2 Hj Hp)|].
  destruct (topology_link topology a b); [done|]. destruct (link_joins a b link); [|done].
  by destruct Hp; apply Hj.
Qed.

Definition links (c : Coord) : TopologySnapshot := f_topology (co_fabric (co_state c)).
Definition configured (c : Coord) (a b : ResourceId) : Prop :=
  (a, b) ∈ co_manual_links (co_state c) ∨ (b, a) ∈ co_manual_links (co_state c).
(** The coordinator's state is that of [c] but for its links. *)
Definition same_but_links (c c' : Coord) : Prop :=
  co_state c' = mkCoordinatorState (set_links (co_fabric (co_state c)) (links c'))
    (co_data_endpoints (co_state c)) (co_manual_links (co_state c)).

(** Reading an epoch takes one clock reading and no more. *)
Lemma resource_epoch_reads {E A} id (k : option Z → comp Coord E A) c :
  (∀ i, 0 ≤ w_clock (co_world c) i) →
  ∃ epoch c1, bind (on_fabric (resource_epoch id)) k c = k epoch c1 ∧ co_state c1 = co_state c ∧
    (∀ i, 0 ≤ w_clock (co_world c1) i) ∧
    ∀ e, epoch = Some e →
      ∃ r, f_resources (co_fabric (co_state c)) !! id = Some r ∧ rd_epoch (reg_descriptor r) = e.
Proof.
  intros Hclock. unfold bind, on_fabric, resource_epoch, fworld, bind, now_unix_ms, fget, gets. simpl.
  rewrite (proj2 (Z.ltb_ge _ _)) by apply Hclock. simpl.
  eexists _, _. split; [reflexivity|]. simpl. split_and!; [by destruct (co_state c)|intros; apply Hclock|].
  intros e. destruct (f_resources (co_fabric (co_state c)) !! id) as [r|]; [|done].
  destruct (active_at _ r); [|done]. intros [= <-]. by exists r.
Qed.

Section measurement.
Context `{HashOrder} `{UuidCrate}.

(** Measurements never override configuration.  A report of a link changes
    the coordinator's state only when it is accepted, which takes two different
    resources and the reporter's current epoch; an accepted report touches no
    pair but its own, and that one only if an operator has not configured it in
    either direction: then a valid measurement becomes the link of the pair,
    whatever it was, and an unreachable peer leaves the pair without a link. *)
Theorem measurements_yield_to_configuration reporter epoch peer measurement c
    (Hclock : ∀ k, 0 ≤ w_clock (co_world c) k) :
  match handle_report_measurement reporter epoch peer measurement c with
  | (Ok _, c') =>
      same_but_links c c' ∧ reporter ≠ peer ∧
      (∃ r, f_resources (co_fabric (co_state c)) !! reporter = Some r ∧
         rd_epoch (reg_descriptor r) = epoch) ∧
      ((configured c reporter peer ∧ links c' = links c) ∨
       (¬ configured c reporter peer ∧ ∀ a b,
          topology_link (links c') a b =
            if decide (same_pair a b reporter peer) then
              match measurement with
              | Reachable rtt_ms bandwidth_mbps => Some (mkLinkProfile reporter peer rtt_ms bandwidth_mbps)
              | Unreachable => None
              end
            else topology_link (links c) a b))
  | (Err _, c') => co_state c' = co_state c
  | (Panic, _) | (Diverged, _) => False
  end.
Proof.
  unfold handle_report_measurement. case_bool_decide as Hne; [done|].
  match goal with |- context [bind (on_fabric (resource_epoch reporter)) ?k c] =>
    destruct (resource_epoch_reads reporter k c Hclock) as (oe & c1 & -> & Hc1 & Hclock1 & Hepoch) end.
  destruct oe as [current|]; [|exact Hc1]. unfold bind at 1, ok_or_throw, lift. cbn [ok_or].
  destruct (Z.eqb_spec current epoch) as [->|]; [|exact Hc1]. cbn [negb].
  match goal with |- context [bind (on_fabric (resource_epoch peer)) ?k c1] =>
    destruct (resource_epoch_reads peer k c1 Hclock1) as (oe & c2 & -> & Hc2 & _ & _) end.
  rewrite Hc1 in Hc2. destruct oe as [pe|]; [|exact Hc2]. unfold bind at 1, cget, gets. rewrite Hc2.
  specialize (Hepoch _ eq_refl). unfold same_but_links, links, configured.
  assert (Hsame : co_state c = mkCoordinatorState (set_links (co_fabric (co_state c))
    (f_topology (co_fabric (co_state c)))) (co_data_endpoints (co_state c)) (co_manual_links (co_state c)))
    by by destruct (co_state c) as [[]].
  destruct (bool_decide _ || bool_decide _) eqn:Hm; simpl.
  { rewrite Hc2. split_and!; [done..|]. left. split; [|done].
    by apply orb_true_iff in Hm as [Hm|Hm]; apply bool_decide_eq_true in Hm; [left|right]. }
  apply orb_false_iff in Hm as [Hm1%bool_decide_eq_false Hm2%bool_decide_eq_false].
  destruct measurement as [rtt bandwidth|]; unfold bind, on_fabric; simpl.
  - unfold bind, lift. destruct (validate_link _) as [[]|e| |] eqn:Hv; simpl; [|done| |].
    + rewrite Hc2. split_and!; [done..|]. right. split; [tauto|]. intros a b.
      by rewrite (topology_link_upsert (mkLinkProfile reporter peer rtt bandwidth)).
    + unfold validate_link in Hv. by repeat case_match.
    + unfold validate_link in Hv. by repeat case_match.
  - rewrite Hc2. split_and!; [done..|]. right. split; [tauto|]. intros a b. apply topology_link_remove.
Qed.
End measurement.

(** *** Applications: two members and a configured link *)

#[local] Existing Instances Run.order Run.text.
Definition sample_network : Coord :=
  Run.serve (UpdateLink (Samples.link (Samples.resource_id 1) (Samples.resource_id 2) 5 100))
    (Run.serve (Run.resource 2) (Run.serve (Run.resource 1)
      (mkCoord (Coordinator_new 15000 60000) (Samples.world 1000)))).

Lemma topology_well_formed_witness :
  topology_link (links sample_network) (Samples.resource_id 2) (Samples.resource_id 1) =
    Some (Samples.link (Samples.resource_id 1) (Samples.resource_id 2) 5 100).
Proof.
  destruct (topology_well_formed 15000 60000 (Samples.world 1000) sample_network) as [_ Hlookup].
  - do 3 (eapply rtc_r; [|by eexists]). apply rtc_refl.
  - apply Hlookup; [done|]. split; [|vm_compute; reflexivity]. vm_compute. left.
Defined.

Lemma measurements_yield_to_configuration_witness :
  match handle_report_measurement (Samples.resource_id 2) 1 (Samples.resource_id 1) Unreachable sample_network with
  | (Ok _, c') => links c' = links sample_network
  | _ => False
  end.
Proof.
  pose proof (measurements_yield_to_configuration (Samples.resource_id 2) 1 (Samples.resource_id 1) Unreachable
    sample_network) as Hx.
  assert (Hok : match handle_report_measurement (Samples.resource_id 2) 1 (Samples.resource_id 1) Unreachable
    sample_network with (Ok _, _) => true | _ => false end = true) by (vm_compute; reflexivity).
  destruct (handle_report_measurement _ _ _ _ _) as [[s| | |] c']; try discriminate Hok.
  destruct Hx as (_ & _ & _ & [[_ Hl]|[Hno _]]); [|exact Hl|].
  - intros k. vm_compute. discriminate.
  - exfalso. apply Hno. right. vm_compute. reflexivity.
Defined.
