(* ===== verification/Leases.v ===== *)
(** * What the lease operations do, exactly

    [begin_execution], [renew_execution], [complete_execution] and the reaper,
    on every branch. *)

From S2P Require Import Prelude Float64 World Text Core Samples Scheduler RoleGraph Partition Placement Reduction Fusion LogicalJob Planner Fabric Roles Execution Coordinator Clock Frames Evolution.

Open Scope string_scope.
Open Scope list_scope.
Open Scope Z_scope.

(** The reading the next call of [now_unix_ms] returns, on a clock past the epoch. *)
Definition now_of (w : World) : Z := Z.min (w_clock w 0) u64_max.
Definition tick (w : World) : World := mkWorld (w_uuids w) (λ k, w_clock w (S k)).

Lemma now_unix_ms_spec {E} w :
  now_unix_ms (E:=E) w = (if w_clock w 0 <? 0 then Panic else Ok (now_of w), tick w).
Proof.
  unfold now_unix_ms, now_of, tick. destruct (_ <? 0); [done|].
  destruct (Z.leb_spec (w_clock w 0) u64_max); do 2 f_equal; lia.
Qed.

(** The resource is a member at [now]. *)
Definition member_at (f : Fabric) (now : Z) (id : ResourceId) (resource : RegisteredResource) : Prop :=
  f_resources f !! id = Some resource ∧ now < reg_expires_at_unix_ms resource.

Lemma find_active_spec id now n :
  (∃ r, member_at (nd_fabric n) now id r ∧ find_active id now n = (Ok r, n)) ∨
  ((¬ ∃ r, member_at (nd_fabric n) now id r) ∧ find_active id now n = (Err (ResourceNotActive id), n)).
Proof.
  unfold find_active, member_at, bind, fget, gets, active_at.
  destruct (f_resources (nd_fabric n) !! id) as [r|] eqn:Hr.
  - destruct (Z.ltb_spec now (reg_expires_at_unix_ms r)); [left|right]; [by exists r|].
    split; [|done]. intros (r' & ? & ?). simplify_eq. lia.
  - right. split; [|done]. intros (r' & ? & ?). done.
Qed.

(** The lease is the one its task runs under, unexpired, and its owner is a
    member of the same epoch. *)
Record lease_valid (f : Fabric) (now : Z) (lease : ExecutionLease)
    (record : TaskRecord) (current : ExecutionLease) : Prop := {
  lv_member : ∃ resource, member_at f now (el_resource_id lease) resource ∧
    rd_epoch (reg_descriptor resource) = el_resource_epoch lease;
  lv_task : f_tasks f !! el_task_id lease = Some record;
  lv_running : tr_status record = Running current;
  lv_execution : el_execution_id current = el_execution_id lease;
  lv_unexpired : now < el_expires_at_unix_ms current;
  lv_owner : el_resource_id current = el_resource_id lease ∧
    el_resource_epoch current = el_resource_epoch lease;
}.

Lemma same_owner_spec a b :
  same_owner a b = true ↔ el_resource_id a = el_resource_id b ∧ el_resource_epoch a = el_resource_epoch b.
Proof. unfold same_owner. by rewrite andb_true_iff, bool_decide_eq_true, Z.eqb_eq. Qed.

Lemma check_lease_spec lease now n :
  (∃ record current, lease_valid (nd_fabric n) now lease record current ∧
     check_lease lease now n = (Ok (record, current), n)) ∨
  ((¬ ∃ record current, lease_valid (nd_fabric n) now lease record current) ∧
   ∃ e, check_lease lease now n = (Err e, n)).
Proof.
  unfold check_lease, bind.
  destruct (find_active_spec (el_resource_id lease) now n) as [(r & Hr & ->)|[Hno ->]].
  2:{ right. split; [|by eexists]. intros (? & ? & Hv). apply Hno.
      destruct (lv_member _ _ _ _ _ Hv) as (r & ? & _). eauto. }
  destruct (Z.eqb_spec (rd_epoch (reg_descriptor r)) (el_resource_epoch lease)) as [He|He]; simpl.
  2:{ right. split; [|by eexists]. intros (? & ? & Hv).
      destruct (lv_member _ _ _ _ _ Hv) as (r' & [Hr' _] & ?).
      destruct Hr as [Hr _]. rewrite Hr in Hr'. by simplify_eq. }
  unfold fget, gets, ok_or_throw, lift, throw, ret.
  destruct (f_tasks (nd_fabric n) !! el_task_id lease) as [record|] eqn:Ht; simpl.
  2:{ right. split; [|by eexists]. intros (? & ? & Hv). pose proof (lv_task _ _ _ _ _ Hv). congruence. }
  destruct (current_lease record lease) as [current|] eqn:Hc; simpl; unfold current_lease in Hc.
  2:{ right. split; [|by eexists]. intros (record' & current & [_ Ht' Hs Hx _ _]). simplify_eq.
      rewrite Hs, bool_decide_true in Hc by done. done. }
  destruct (tr_status record) as [|l| |] eqn:Hs; try done. case_bool_decide as Hx; simplify_eq.
  destruct (Z.leb_spec (el_expires_at_unix_ms current) now) as [Hexp|Hexp].
  { right. split; [|by eexists]. intros (record' & current' & [_ Ht' Hs' _ Hu _]).
    assert (record' = record) as -> by congruence. assert (current' = current) as -> by congruence. lia. }
  destruct (same_owner current lease) eqn:Ho; simpl.
  - left. apply same_owner_spec in Ho. exists record, current. split; [|done]. split; eauto.
  - right. split; [|by eexists]. intros (record' & current' & [_ Ht' Hs' _ _ Ho']).
    assert (record' = record) as -> by congruence. assert (current' = current) as -> by congruence.
    apply same_owner_spec in Ho'. congruence.
Qed.

(** A filtered association list of a map has no duplicate keys. *)
Lemma NoDup_filtered_keys {K A} (f : K * A → bool) (l : list (K * A)) :
  NoDup l.*1 → NoDup (List.filter f l).*1.
Proof.
  induction l as [|[k a] l IH]; csimpl; [done|]. intros [Hk Hl]%NoDup_cons.
  destruct (f (k, a)); csimpl; [|auto]. apply NoDup_cons. split; [|auto].
  intros Hin. apply Hk. apply list_elem_of_fmap in Hin as ([k' a'] & -> & Hin).
  apply list_elem_of_fmap. exists (k', a'). split; [done|].
  apply list_elem_of_In, filter_In in Hin as [Hin _]. by apply list_elem_of_In.
Qed.

Section leases.
Context `{HashOrder} `{UuidCrate}.

(** C29 A lease is granted only for a pending task and only to a member of the
    fabric: [begin_execution] succeeds exactly when the resource's membership
    has not expired and the task exists and is pending; it then moves that task
    alone to running, under a lease with the next execution id, the resource's
    current epoch and an expiry of now plus the execution TTL, saturating at
    [u64::MAX].  Otherwise it answers an error and changes nothing. *)
Theorem begin_execution_exact task_id resource_id n
    (Hclock : 0 ≤ w_clock (nd_world n) 0) :
  let f := nd_fabric n in
  let now := now_of (nd_world n) in
  match begin_execution task_id resource_id n with
  | (Ok lease, n') =>
      ∃ resource record,
        member_at f now resource_id resource ∧
        f_tasks f !! task_id = Some record ∧ tr_status record = Pending ∧
        lease = mkExecutionLease task_id (mkId (w_uuids (nd_world n) 0)) resource_id
                  (rd_epoch (reg_descriptor resource)) (Z.min (now + f_execution_ttl_ms f) u64_max) ∧
        nd_fabric n' = set_tasks f (<[task_id := mkTaskRecord (tr_spec record) (Running lease)]> (f_tasks f))
  | (Err _, n') =>
      nd_fabric n' = f ∧
      ¬ ((∃ resource, member_at f now resource_id resource) ∧
         ∃ record, f_tasks f !! task_id = Some record ∧ tr_status record = Pending)
  | (Panic, _) | (Diverged, _) => False
  end.
Proof.
  simpl. unfold begin_execution. unfold bind at 1, fworld at 1. rewrite now_unix_ms_spec.
  rewrite (proj2 (Z.ltb_ge _ _)) by done. unfold bind at 1.
  destruct (find_active_spec resource_id (now_of (nd_world n)) (mkNode (nd_fabric n) (tick (nd_world n))))
    as [(r & Hr & ->)|[Hno ->]]; [|by split; [|intros [? _]]].
  unfold bind, fget, gets, ok_or_throw, lift. simpl in *.
  destruct (f_tasks (nd_fabric n) !! task_id) as [record|] eqn:Ht; simpl.
  2:{ split; [done|]. intros [_ (? & ? & _)]. done. }
  case_bool_decide as Hp; simpl.
  - exists r, record. done.
  - split; [done|]. intros [_ (? & ? & ?)]. by simplify_eq.
Qed.

(** C30 A lease is renewed only while it is current: [renew_execution] succeeds
    exactly when the lease is valid (its task runs under this very execution,
    owned by this resource and epoch, unexpired, and the resource is a member
    of that epoch), and then only moves the expiry; otherwise it is an error
    without effect. *)
Theorem renew_execution_exact lease n (Hclock : 0 ≤ w_clock (nd_world n) 0) :
  let f := nd_fabric n in
  let now := now_of (nd_world n) in
  match renew_execution lease n with
  | (Ok renewed, n') =>
      ∃ record current, lease_valid f now lease record current ∧
        renewed = mkExecutionLease (el_task_id current) (el_execution_id current) (el_resource_id current)
                    (el_resource_epoch current) (Z.min (now + f_execution_ttl_ms f) u64_max) ∧
        nd_fabric n' = set_tasks f
          (<[el_task_id lease := mkTaskRecord (tr_spec record) (Running renewed)]> (f_tasks f))
  | (Err _, n') => nd_fabric n' = f ∧ ¬ ∃ record current, lease_valid f now lease record current
  | (Panic, _) | (Diverged, _) => False
  end.
Proof.
  simpl. unfold renew_execution. unfold bind at 1, fworld at 1. rewrite now_unix_ms_spec.
  rewrite (proj2 (Z.ltb_ge _ _)) by done. unfold bind at 1.
  destruct (check_lease_spec lease (now_of (nd_world n)) (mkNode (nd_fabric n) (tick (nd_world n))))
    as [(record & current & Hv & ->)|[Hno [e ->]]]; [|done].
  simpl in *. by exists record, current.
Qed.

(** ** Completion *)

(** The outputs are consistent with what is published. *)
Definition outputs_consistent (f : Fabric) (outputs : list ObjectMetadata) : Prop :=
  Forall (λ o, ∀ existing, f_objects f !! om_id o = Some existing → same_object_identity existing o = true)
    outputs.

Lemma check_outputs_consistent f outputs :
  ofold (λ _ output, check_output (f_objects f) output) tt outputs = Ok tt ↔ outputs_consistent f outputs.
Proof.
  rewrite ofold_unit_Ok. apply Forall_iff. intros o. unfold check_output.
  destruct (f_objects f !! om_id o) as [existing|]; [|naive_solver].
  destruct (same_object_identity existing o) eqn:E; split; try done.
  - by intros _ ? [= <-].
  - intros Hx. specialize (Hx _ eq_refl). congruence.
Qed.
Lemma check_outputs_total f outputs :
  (∃ e, ofold (λ _ output, check_output (f_objects f) output) tt outputs = Err e) ∨
  ofold (λ _ output, check_output (f_objects f) output) tt outputs = Ok tt.
Proof.
  induction outputs as [|o os IH]; simpl; [by right|]. unfold check_output at 1 3.
  destruct (f_objects f !! om_id o) as [existing|]; simpl; [|done].
  destruct (same_object_identity existing o); simpl; [done|eauto].
Qed.

Definition published (f : Fabric) (output : ObjectMetadata) : Prop :=
  ∃ o, f_objects f !! om_id output = Some o ∧ same_object_identity output o = true.

Lemma published_evolves f f' output : fabric_evolves f f' → published f output → published f' output.
Proof.
  intros Hev (o & Ho & Hs). destruct (ev_objects _ _ Hev _ _ Ho) as (o' & Ho' & Hs').
  exists o'. split; [done|]. change (object_evolves output o'). etrans; [exact Hs|exact Hs'].
Qed.

Lemma publish_object_published output n n' :
  publish_object output n = (Ok tt, n') → published (nd_fabric n') output.
Proof.
  unfold publish_object, bind, fget, gets, published.
  destruct (f_objects (nd_fabric n) !! om_id output) as [existing|] eqn:Ho.
  - destruct (same_object_identity existing output) eqn:Hs; [|done]. intros [= <-]. simpl.
    eexists. split; [by rewrite lookup_insert_eq|].
    apply same_object_identity_spec in Hs. apply same_object_identity_spec. simpl. intuition congruence.
  - intros [= <-]. simpl. exists output. rewrite lookup_insert_eq. split; [done|].
    by apply same_object_identity_spec.
Qed.

Lemma publish_all_published outputs n n' :
  for_each publish_object outputs n = (Ok tt, n') → Forall (published (nd_fabric n')) outputs.
Proof.
  revert n. unfold for_each. induction outputs as [|o os IH]; intros n; simpl; [constructor|].
  unfold bind at 1. destruct (publish_object o n) as [[[]|e| |] n1] eqn:E; [|done..]. intros Hrest.
  constructor; [|by eapply IH].
  apply publish_object_published in E. eapply published_evolves; [|exact E].
  pose proof (preserves_for_each node_evolves publish_object os keeps_publish_object n1) as Hk.
  unfold for_each in Hk. by rewrite Hrest in Hk.
Qed.

(** The task of [lease] is completed with the given outputs. *)
Definition committed (f : Fabric) (lease : ExecutionLease) (record : TaskRecord) (outputs : list ObjectMetadata) : Prop :=
  f_tasks f !! el_task_id lease = Some (mkTaskRecord (tr_spec record) (TaskCompleted (om_id <$> outputs))).

Lemma committed_evolves f f' lease record outputs :
  fabric_evolves f f' → committed f lease record outputs → committed f' lease record outputs.
Proof.
  intros Hev Hc. destruct (ev_tasks _ _ Hev _ _ Hc) as ([spec st] & Hr & Hspec & Hst).
  unfold committed. rewrite Hr. simpl in *. by rewrite Hspec, Hst.
Qed.

(** What follows the commit point of [complete_execution]. *)
Definition commit_tail (lease : ExecutionLease) (outputs : list ObjectMetadata) : fab unit :=
  for_each publish_object outputs;;;
  complete_cooperative_role (el_task_id lease) (om_id <$> outputs).

Lemma commit_tail_spec lease record outputs n :
  committed (nd_fabric n) lease record outputs →
  let '(o, n') := commit_tail lease outputs n in
  committed (nd_fabric n') lease record outputs ∧
  (o = Ok tt → Forall (published (nd_fabric n')) outputs).
Proof.
  intros Hc. assert (Hk : keeps (commit_tail lease outputs)) by (unfold commit_tail; keep).
  specialize (Hk n). destruct (commit_tail lease outputs n) as [o n'] eqn:E. simpl in Hk.
  split; [by eapply committed_evolves|]. intros ->.
  unfold commit_tail, bind in E. destruct (for_each publish_object outputs n) as [[[]|e| |] n1] eqn:Ep; try done.
  apply publish_all_published in Ep. eapply Forall_impl; [exact Ep|]. intros output Ho.
  eapply published_evolves; [|exact Ho].
  pose proof (keeps_complete_cooperative_role (el_task_id lease) (om_id <$> outputs) n1) as Hk1.
  by rewrite E in Hk1.
Qed.

(** Completion up to its commit point: an error that changes nothing, or the
    task marked completed and the tail to come. *)
Lemma complete_execution_spec lease outputs n :
  let f := nd_fabric n in
  let '(o, n') := complete_execution lease outputs n in
  (nd_fabric n' = f ∧ ((∃ e, o = Err e) ∨ (o = Panic ∧ w_clock (nd_world n) 0 < 0))) ∨
  (∃ record current, lease_valid f (now_of (nd_world n)) lease record current ∧
     ofold (λ _ output, check_output (f_objects f) output) tt outputs = Ok tt ∧
     (is_reduction_binding (f_task_roles f !! el_task_id lease) = true → length outputs = 1%nat) ∧
     (o, n') = commit_tail lease outputs (mkNode (set_tasks f (<[el_task_id lease :=
       mkTaskRecord (tr_spec record) (TaskCompleted (om_id <$> outputs))]> (f_tasks f))) (tick (nd_world n)))).
Proof.
  simpl. unfold complete_execution. unfold bind at 1, fworld at 1. rewrite now_unix_ms_spec.
  destruct (Z.ltb_spec (w_clock (nd_world n) 0) 0); [left; split; [done|by right]|]. unfold bind at 1.
  destruct (check_lease_spec lease (now_of (nd_world n)) (mkNode (nd_fabric n) (tick (nd_world n))))
    as [(record & current & Hv & ->)|[Hno [e ->]]]; [|left; simpl; eauto]. simpl in Hv.
  unfold bind at 1, fget, gets at 1. simpl.
  destruct (is_reduction_binding _ && _) eqn:Hred; [left; simpl; eauto|].
  unfold bind at 1, lift.
  destruct (check_outputs_total (nd_fabric n) outputs) as [[e He]|Hok]; [rewrite He; left; simpl; eauto|].
  rewrite Hok. unfold bind at 1, expect. rewrite (lv_task _ _ _ _ _ Hv). cbn beta iota.
  set (n1 := mkNode (set_tasks (nd_fabric n) (<[el_task_id lease :=
    mkTaskRecord (tr_spec record) (TaskCompleted (om_id <$> outputs))]> (f_tasks (nd_fabric n)))) (tick (nd_world n))).
  change (bind (set_task _ _) ?k ?s) with (commit_tail lease outputs n1).
  destruct (commit_tail lease outputs n1) as [o n'] eqn:Htail. right. exists record, current. split_and!; [exact Hv|reflexivity| |by rewrite <- Htail].
  intros Hb. rewrite Hb in Hred. simpl in Hred. apply negb_false_iff in Hred. by apply Nat.eqb_eq.
Qed.

(** C2 Completion is all or nothing at its commit point, and only for the
    current lease.  Either [complete_execution] is an error that changes
    nothing; or the lease was valid, the outputs were consistent with the
    published objects (and exactly one for a reduction), and the task is
    completed with precisely these outputs; and when it answers [Ok], every
    output is published under its identity. *)
Theorem complete_execution_commits lease outputs n (Hclock : 0 ≤ w_clock (nd_world n) 0) :
  let f := nd_fabric n in
  let now := now_of (nd_world n) in
  let '(o, n') := complete_execution lease outputs n in
  ((∃ e, o = Err e) ∧ nd_fabric n' = f) ∨
  (∃ record current, lease_valid f now lease record current ∧ outputs_consistent f outputs ∧
     (is_reduction_binding (f_task_roles f !! el_task_id lease) = true → length outputs = 1%nat) ∧
     committed (nd_fabric n') lease record outputs ∧
     (o = Ok tt → Forall (published (nd_fabric n')) outputs)).
Proof.
  simpl. pose proof (complete_execution_spec lease outputs n) as Hspec. cbv zeta in Hspec.
  destruct (complete_execution lease outputs n) as [o n'].
  destruct Hspec as [[Hf [He|[_ Hneg]]]|(record & current & Hv & Hok & Hred & Htail)]; [by left|lia|right].
  pose proof (commit_tail_spec lease record outputs _ (lookup_insert_eq (f_tasks (nd_fabric n)) _ _ : committed
    (nd_fabric (mkNode (set_tasks (nd_fabric n) (<[el_task_id lease := mkTaskRecord (tr_spec record)
      (TaskCompleted (om_id <$> outputs))]> (f_tasks (nd_fabric n)))) (tick (nd_world n)))) lease record outputs)) as Hc.
  rewrite <- Htail in Hc. destruct Hc as [Hc Hp]. exists record, current.
  split_and!; [done|by apply check_outputs_consistent|done..].
Qed.

(** Without a valid lease, completion and renewal are errors without effect. *)
Lemma complete_execution_invalid lease outputs n :
  0 ≤ w_clock (nd_world n) 0 →
  (¬ ∃ record current, lease_valid (nd_fabric n) (now_of (nd_world n)) lease record current) →
  ∃ e n', complete_execution lease outputs n = (Err e, n') ∧ nd_fabric n' = nd_fabric n.
Proof.
  intros Hclock Hno. unfold complete_execution. unfold bind at 1, fworld at 1. rewrite now_unix_ms_spec.
  rewrite (proj2 (Z.ltb_ge _ _)) by done. unfold bind at 1.
  destruct (check_lease_spec lease (now_of (nd_world n)) (mkNode (nd_fabric n) (tick (nd_world n))))
    as [(record & current & Hv & _)|[_ [e ->]]]; [exfalso; eauto|]. by eexists _, _.
Qed.

Lemma register_resource_epoch {E} descriptor n r lease n' :
  f_resources (nd_fabric n) !! rd_id descriptor = Some r →
  register_resource (E:=E) descriptor n = (Ok lease, n') →
  ∃ r', f_resources (nd_fabric n') !! rd_id descriptor = Some r' ∧
    rd_epoch (reg_descriptor r') = wrap64 (rd_epoch (reg_descriptor r) + 1).
Proof.
  intros Hr. unfold register_resource, bind, fget, gets, fworld. rewrite now_unix_ms_spec.
  unfold next_epoch. rewrite Hr. destruct (_ <? 0); [done|]. simpl. intros [= _ <-]. simpl.
  eexists. rewrite lookup_insert_eq. done.
Qed.

Lemma register_resource_world {E} descriptor n o n' :
  register_resource (E:=E) descriptor n = (o, n') → nd_world n' = tick (nd_world n).
Proof.
  unfold register_resource, bind, fget, gets, fworld. rewrite now_unix_ms_spec.
  destruct (_ <? 0); intros [= _ <-]; done.
Qed.

Lemma wrap64_succ_ne z : is_u64 z → wrap64 (z + 1) ≠ z.
Proof.
  intros [? Hz]. unfold wrap64, u64_max in *. destruct (decide (z = 2 ^ 64 - 1)) as [->|?].
  - replace (2 ^ 64 - 1 + 1) with (2 ^ 64) by lia. rewrite Z.mod_same by lia. lia.
  - rewrite Z.mod_small by lia. lia.
Qed.

(** An old incarnation cannot commit: once a registered resource registers
    again, its epoch moves on, and a lease granted to the previous epoch can no
    longer complete its task: the call is an error and changes nothing
    (docs/protocol.md, incarnation epochs). *)
Theorem old_epoch_cannot_commit descriptor n r membership n1 lease outputs
    (Hregistered : f_resources (nd_fabric n) !! rd_id descriptor = Some r)
    (Hepoch : is_u64 (rd_epoch (reg_descriptor r)))
    (Hregister : register_resource (E:=FabricError) descriptor n = (Ok membership, n1))
    (Hclock : 0 ≤ w_clock (nd_world n1) 0)
    (Howner : el_resource_id lease = rd_id descriptor)
    (Hlease : el_resource_epoch lease = rd_epoch (reg_descriptor r)) :
  ∃ e n2, complete_execution lease outputs n1 = (Err e, n2) ∧ nd_fabric n2 = nd_fabric n1.
Proof.
  apply complete_execution_invalid; [done|]. intros (record & current & Hv).
  destruct (lv_member _ _ _ _ _ Hv) as (r2 & [Hr2 _] & He).
  destruct (register_resource_epoch _ _ _ _ _ Hregistered Hregister) as (r1 & Hr1 & He1).
  rewrite Howner in Hr2. assert (r2 = r1) as -> by congruence.
  apply (wrap64_succ_ne _ Hepoch). congruence.
Qed.

(** ** Expiry *)

(** An operation that always succeeds and leaves the tasks alone. *)
Definition quiet (m : fab unit) : Prop :=
  ∀ n, ∃ n', m n = (Ok tt, n') ∧ f_tasks (nd_fabric n') = f_tasks (nd_fabric n).

Lemma quiet_for_each {A} (f : A → fab unit) l : (∀ a, quiet (f a)) → quiet (for_each f l).
Proof.
  intros Hf. unfold for_each. induction l as [|a l IH]; intros n; simpl; [by exists n|].
  destruct (Hf a n) as (n1 & E1 & H1). destruct (IH n1) as (n2 & E2 & H2).
  exists n2. unfold bind. rewrite E1, E2, H2. done.
Qed.
Lemma quiet_mark_role_uncertain job_id role : quiet (mark_role_uncertain job_id role).
Proof.
  intros n. unfold mark_role_uncertain, bind, fget, gets.
  destruct (f_jobs (nd_fabric n) !! job_id) as [job|]; [|by eexists].
  destruct (job_roles job !! role); by eexists.
Qed.
Lemma quiet_mark_cooperative_role_uncertain task_id : quiet (mark_cooperative_role_uncertain task_id).
Proof.
  intros n. unfold mark_cooperative_role_uncertain. unfold bind, fget, gets.
  destruct (f_task_roles (nd_fabric n) !! task_id) as [[]|]; try apply quiet_mark_role_uncertain.
  - by apply quiet_for_each, quiet_mark_role_uncertain.
  - by eexists.
Qed.

(** C31 Reaping is exact: it always succeeds, reports precisely the tasks whose
    lease has expired, each once, and resolves exactly those, replay-safe work
    back to pending and exclusive work to uncertain; every other task is left
    as it is. *)
Theorem reap_exact unix_ms n :
  ∃ ids n', reap_expired_executions_at unix_ms n = (Ok ids, n') ∧
    NoDup ids ∧
    (∀ id, id ∈ ids ↔ ∃ record lease, f_tasks (nd_fabric n) !! id = Some record ∧
       tr_status record = Running lease ∧ el_expires_at_unix_ms lease ≤ unix_ms) ∧
    (∀ id, f_tasks (nd_fabric n') !! id =
       (λ record, if bool_decide (id ∈ ids)
          then mkTaskRecord (tr_spec record)
                 (if automatically_retryable (ts_effects (tr_spec record)) then Pending else TaskUncertain)
          else record) <$> f_tasks (nd_fabric n) !! id).
Proof.
  unfold reap_expired_executions_at. unfold bind, fget, gets, fmod, modify. simpl.
  set (expired := List.filter (λ '(_, record), expired_at unix_ms record) (hash_iter (f_tasks (nd_fabric n)))).
  set (n1 := mkNode _ (nd_world n)).
  destruct (quiet_for_each mark_cooperative_role_uncertain
    (List.filter (λ '(_, record), negb (automatically_retryable (ts_effects (tr_spec record)))) expired).*1
    quiet_mark_cooperative_role_uncertain n1) as (n' & Hn' & Htasks).
  rewrite Hn'. exists expired.*1, n'. split; [done|].
  assert (Hin : ∀ id, id ∈ expired.*1 ↔ ∃ record, f_tasks (nd_fabric n) !! id = Some record ∧
    expired_at unix_ms record = true).
  { intros id. unfold expired. rewrite list_elem_of_fmap. split.
    - intros ([id' record] & -> & Hm). apply list_elem_of_In, filter_In in Hm as [Hm He].
      apply list_elem_of_In, elem_of_hash_iter in Hm. eauto.
    - intros (record & Hm & He). exists (id, record). split; [done|].
      apply list_elem_of_In, filter_In. split; [|done]. by apply list_elem_of_In, elem_of_hash_iter. }
  split_and!.
  - apply NoDup_filtered_keys, NoDup_hash_keys.
  - intros id. rewrite Hin. unfold expired_at. split.
    + intros (record & Hm & He). destruct (tr_status record) as [|lease| |] eqn:Hs; try done.
      apply Z.leb_le in He. eauto.
    + intros (record & lease & Hm & Hs & He). exists record. rewrite Hs. split; [done|]. by apply Z.leb_le.
  - intros id. rewrite Htasks. simpl. rewrite lookup_fmap.
    destruct (f_tasks (nd_fabric n) !! id) as [record|] eqn:Hm; [|done]. simpl. f_equal.
    unfold reap_record, reaped_status. destruct (expired_at unix_ms record) eqn:He.
    + rewrite bool_decide_true; [done|]. apply Hin. eauto.
    + rewrite bool_decide_false; [done|]. rewrite Hin. intros (r & ? & ?). congruence.
Qed.
End leases.

(** *** Applications, on the run of [Evolution] *)

#[local] Existing Instances Run.order Run.text.
Definition sample_node (c : Coord) (now : Z) : Node := mkNode (co_fabric (co_state c)) (Samples.world now).
(** A pending task besides the leased one. *)
Definition sample_pending : Coord :=
  Run.serve (SubmitTask (Samples.task (Samples.task_id 8) Pure)) (Run.serve (Run.resource 2) Run.leased).
Definition sample_lease : ExecutionLease :=
  mkExecutionLease (Samples.task_id 7) (mkId 1000) (Samples.resource_id 1) 1 61000.
Definition sample_output : ObjectMetadata :=
  Samples.object (Samples.object_id 9) 3 [Samples.resource_id 1].

Definition is_Ok {E A} (o : outcome E A) : bool := match o with Ok _ => true | _ => false end.

Lemma begin_execution_exact_witness :
  is_Ok (begin_execution (Samples.task_id 8) (Samples.resource_id 2) (sample_node sample_pending 1500)).1 = true ∧
  match begin_execution (Samples.task_id 8) (Samples.resource_id 2) (sample_node sample_pending 1500) with
  | (Ok lease, n') => el_expires_at_unix_ms lease = 61500
  | _ => False
  end.
Proof.
  pose proof (begin_execution_exact (Samples.task_id 8) (Samples.resource_id 2)
    (sample_node sample_pending 1500) ltac:(simpl; lia)) as Hx.
  assert (Hok : is_Ok (begin_execution (Samples.task_id 8) (Samples.resource_id 2)
    (sample_node sample_pending 1500)).1 = true) by (vm_compute; reflexivity).
  split; [exact Hok|].
  destruct (begin_execution _ _ _) as [[lease| | |] n']; [|discriminate Hok..].
  destruct Hx as (resource & record & _ & _ & _ & -> & _). vm_compute. reflexivity.
Defined.

Lemma renew_execution_exact_witness :
  is_Ok (renew_execution sample_lease (sample_node Run.leased 2000)).1 = true ∧
  match renew_execution sample_lease (sample_node Run.leased 2000) with
  | (Ok renewed, n') => el_expires_at_unix_ms renewed = 62000
  | _ => False
  end.
Proof.
  pose proof (renew_execution_exact sample_lease (sample_node Run.leased 2000) ltac:(simpl; lia)) as Hx.
  assert (Hok : is_Ok (renew_execution sample_lease (sample_node Run.leased 2000)).1 = true)
    by (vm_compute; reflexivity).
  split; [exact Hok|].
  destruct (renew_execution _ _) as [[renewed| | |] n']; [|discriminate Hok..].
  destruct Hx as (record & current & _ & -> & _). vm_compute. reflexivity.
Defined.

Lemma complete_execution_commits_witness :
  let '(o, n') := complete_execution sample_lease [sample_output] (sample_node Run.leased 2000) in
  o = Ok tt ∧ Forall (published (nd_fabric n')) [sample_output].
Proof.
  pose proof (complete_execution_commits sample_lease [sample_output] (sample_node Run.leased 2000)
    ltac:(simpl; lia)) as Hx.
  assert (Hok : is_Ok (complete_execution sample_lease [sample_output] (sample_node Run.leased 2000)).1 = true)
    by (vm_compute; reflexivity).
  destruct (complete_execution _ _ _) as [[[]| | |] n']; [|discriminate Hok..].
  destruct Hx as [[[e He] _]|(record & current & _ & _ & _ & _ & Hp)]; [discriminate He|].
  split; [reflexivity|by apply Hp].
Defined.

Lemma old_epoch_cannot_commit_witness :
  ∃ membership n1, register_resource (E:=FabricError) (Samples.resource (Samples.resource_id 1) 1 0 [])
      (sample_node Run.leased 2000) = (Ok membership, n1) ∧
  ∃ e n2, complete_execution sample_lease [sample_output] n1 = (Err e, n2) ∧ nd_fabric n2 = nd_fabric n1.
Proof.
  destruct (register_resource (E:=FabricError) (Samples.resource (Samples.resource_id 1) 1 0 [])
    (sample_node Run.leased 2000)) as [[membership| | |] n1] eqn:E; [|by vm_compute in E..].
  exists membership, n1. split; [reflexivity|].
  assert (Hr : (λ r, rd_epoch (reg_descriptor r)) <$>
    f_resources (nd_fabric (sample_node Run.leased 2000)) !! Samples.resource_id 1 = Some 1)
    by (vm_compute; reflexivity).
  apply fmap_Some in Hr as (r & Hr & He).
  refine (old_epoch_cannot_commit (Samples.resource (Samples.resource_id 1) 1 0 []) (sample_node Run.leased 2000)
    r membership n1 sample_lease [sample_output] Hr _ E _ eq_refl He).
  - rewrite <- He. unfold is_u64, u64_max. lia.
  - rewrite (register_resource_world _ _ _ _ E). simpl. lia.
Defined.
