(* ===== verification/Safety.v ===== *)
(** * No request can bring the coordinator down

    A panic in a handler is an [expect] on an absent job or task, an index into
    a missing role, a division by zero, or a clock before the epoch; a loop
    without end is a fused chain around a cycle.  An invariant of the fabric
    excludes them all, and every handler keeps it. *)

From stdpp Require Import relations.
From S2P Require Import Prelude Float64 World Text Core Samples Scheduler RoleGraph Partition Placement Reduction Fusion LogicalJob Planner Fabric Roles Execution Coordinator Clock Frames Evolution Leases.

Open Scope string_scope.
Open Scope list_scope.
Open Scope Z_scope.

(** ** The invariant *)

Definition definition_ok (definition : JobDefinition) : Prop :=
  match definition with
  | Logical spec => logical_job_wf spec
  | Cooperative spec => graph_wf (cooperative_graph spec) (cj_outputs spec)
  end.

Definition has_task (id : TaskId) (f : Fabric) : Prop := is_Some (f_tasks f !! id).
Definition has_job (id : JobId) (f : Fabric) : Prop := is_Some (f_jobs f !! id).

Definition selection_ok (f : Fabric) (selection : RoleSelection) : Prop :=
  match selection with
  | SelSingle _ _ _ _ => True
  | SelSharded selections => Forall (λ s, has_task (ss_task_id s) f) selections
  end.

(** A job of the fabric: its definition was accepted, each of its roles has a
    status, and the children of its sharded roles are tasks. *)
Record job_ok (f : Fabric) (job : CooperativeJobRecord) : Prop := {
  jo_definition : definition_ok (job_definition job);
  jo_roles : ∀ name, name ∈ (definition_roles (job_definition job)).*1 → is_Some (job_roles job !! name);
  jo_selections : ∀ name selection, job_selections job !! name = Some selection → selection_ok f selection;
}.
Definition jobs_ok (f : Fabric) : Prop := ∀ id job, f_jobs f !! id = Some job → job_ok f job.

(** The clock never reads a time before the epoch. *)
Definition clock_ok (w : World) : Prop := ∀ k, 0 ≤ w_clock w k.
Definition node_ok (n : Node) : Prop := jobs_ok (nd_fabric n) ∧ clock_ok (nd_world n).

(** Tasks and jobs, once there, stay. *)
Lemma has_task_evolves id f f' : fabric_evolves f f' → has_task id f → has_task id f'.
Proof. intros Hev [r Hr]. destruct (ev_tasks _ _ Hev _ _ Hr) as (r' & ? & _). by exists r'. Qed.
Lemma has_job_evolves id f f' : fabric_evolves f f' → has_job id f → has_job id f'.
Proof. intros Hev [r Hr]. destruct (ev_jobs _ _ Hev _ _ Hr) as (r' & ? & _). by exists r'. Qed.

Lemma selection_ok_mono f f' selection :
  (∀ id, has_task id f → has_task id f') → selection_ok f selection → selection_ok f' selection.
Proof. intros Hm. destruct selection; simpl; [done|]. intros Hs. eapply Forall_impl; [exact Hs|]. auto. Qed.
Lemma job_ok_mono f f' job : (∀ id, has_task id f → has_task id f') → job_ok f job → job_ok f' job.
Proof. intros Hm [? ? Hs]. split; [done..|]. intros n sel Hsel. eapply selection_ok_mono; eauto. Qed.
Lemma jobs_ok_mono f f' :
  f_jobs f' = f_jobs f → (∀ id, has_task id f → has_task id f') → jobs_ok f → jobs_ok f'.
Proof. intros Hj Hm Hok id job. rewrite Hj. intros Hjob. eapply job_ok_mono; [exact Hm|]. by eapply Hok. Qed.
Lemma jobs_ok_set_job f id job : jobs_ok f → job_ok f job → jobs_ok (set_jobs f (<[id := job]> (f_jobs f))).
Proof.
  intros Hok Hjob id' job' Hj. apply (job_ok_mono f); [done|].
  simpl in Hj. apply lookup_insert_Some in Hj as [[_ <-]|[_ Hj]]; [done|by eapply Hok].
Qed.

Section job_updates.
Context (f : Fabric) (job : CooperativeJobRecord) (Hjob : job_ok f job).
Lemma job_ok_insert_role name status : job_ok f (with_roles job (<[name := status]> (job_roles job))).
Proof.
  destruct Hjob as [? Hr ?]. split; [done| |done]. simpl. intros n Hn.
  destruct (decide (name = n)) as [->|]; [rewrite lookup_insert_eq; by eexists|].
  rewrite lookup_insert_ne by done. by apply Hr.
Qed.
Lemma job_ok_reductions r : job_ok f (with_reductions job r).
Proof. by destruct Hjob. Qed.
Lemma job_ok_insert_selection name selection :
  selection_ok f selection → job_ok f (with_selections job (<[name := selection]> (job_selections job))).
Proof.
  intros Hsel. destruct Hjob as [? ? Hs]. split; [done..|]. simpl. intros n sel.
  intros [[_ <-]|[_ ?]]%lookup_insert_Some; [done|by eapply Hs].
Qed.
End job_updates.

(** ** Safe computations *)

(** From [n], [m] neither panics nor runs out of fuel; it keeps the invariant,
    and a value satisfies [φ] in the state it is returned in. *)
Definition safe_at {E A} (m : comp Node E A) (n : Node) (φ : A → Node → Prop) : Prop :=
  match m n with
  | (Ok a, n') => node_ok n' ∧ node_evolves n n' ∧ φ a n'
  | (Err _, n') => node_ok n'
  | (Panic, _) | (Diverged, _) => False
  end.
Definition any {A} (_ : A) (_ : Node) : Prop := True.
Definition safe {E A} (m : comp Node E A) : Prop := ∀ n, node_ok n → safe_at m n any.

Section safe_rules.
Context {E : Type}.
Implicit Types n : Node.

Lemma safe_at_bind {A B} (m : comp Node E A) (k : A → comp Node E B) n φ ψ :
  safe_at m n φ →
  (∀ a n', node_ok n' → node_evolves n n' → φ a n' → safe_at (k a) n' ψ) → safe_at (bind m k) n ψ.
Proof.
  intros Hm Hk. unfold safe_at, bind in *. destruct (m n) as [[a|e| |] n1]; try done.
  destruct Hm as (Hok & Hev & Ha). specialize (Hk a n1 Hok Hev Ha).
  destruct (k a n1) as [[b|e| |] n2]; try done. destruct Hk as (? & ? & ?). split_and!; [done| |done]. by etrans.
Qed.
Lemma safe_at_mono {A} (m : comp Node E A) n (φ ψ : A → Node → Prop) :
  safe_at m n φ → (∀ a n', φ a n' → ψ a n') → safe_at m n ψ.
Proof. intros Hm H. unfold safe_at in *. destruct (m n) as [[] ?]; naive_solver. Qed.
Lemma safe_at_any {A} (m : comp Node E A) n φ : safe_at m n φ → safe_at m n any.
Proof. intros Hm. by eapply safe_at_mono. Qed.
Lemma safe_at_ret {A} (a : A) n (φ : A → Node → Prop) : node_ok n → φ a n → safe_at (ret (E:=E) a) n φ.
Proof. done. Qed.
Lemma safe_at_throw {A} (e : E) n (φ : A → Node → Prop) : node_ok n → safe_at (throw e) n φ.
Proof. done. Qed.
Lemma safe_at_lift {A} (m : outcome E A) n (φ : A → Prop) :
  node_ok n → opost m φ → safe_at (lift m) n (λ a n', n' = n ∧ φ a).
Proof. intros Hok Hm. unfold safe_at, lift. by destruct m. Qed.
Lemma safe_at_ok_or {A} (e : E) (o : option A) n :
  node_ok n → safe_at (ok_or_throw e o) n (λ a n', n' = n ∧ o = Some a).
Proof. intros Hok. apply safe_at_lift; [done|]. by apply opost_ok_or. Qed.
Lemma safe_at_expect {A} (o : option A) n :
  node_ok n → is_Some o → safe_at (expect (E:=E) o) n (λ a n', n' = n ∧ o = Some a).
Proof. intros Hok [a ->]. done. Qed.
Lemma safe_at_fget {A} (g : Fabric → A) n :
  node_ok n → safe_at (fget (E:=E) g) n (λ a n', n' = n ∧ a = g (nd_fabric n)).
Proof. done. Qed.
(** A write. *)
Lemma safe_at_fmod (g : Fabric → Fabric) n (φ : unit → Node → Prop) :
  node_ok n → keeps_at (fmod (E:=E) g) n → jobs_ok (g (nd_fabric n)) →
  φ tt (mkNode (g (nd_fabric n)) (nd_world n)) → safe_at (fmod (E:=E) g) n φ.
Proof. intros [_ Hc] Hk Hj Hφ. by split_and!. Qed.
(** A write that leaves the jobs alone. *)
Lemma safe_at_fmod_jobs (g : Fabric → Fabric) n :
  node_ok n → keeps_at (fmod (E:=E) g) n → f_jobs (g (nd_fabric n)) = f_jobs (nd_fabric n) →
  safe_at (fmod (E:=E) g) n any.
Proof.
  intros Hok Hk Hj. apply safe_at_fmod; [done..| |done].
  apply (jobs_ok_mono (nd_fabric n)); [done| |apply Hok]. intros id. by apply has_task_evolves.
Qed.
Lemma safe_at_for_each {A} (f : A → comp Node E unit) l n :
  node_ok n → (∀ a n', node_ok n' → node_evolves n n' → a ∈ l → safe_at (f a) n' any) →
  safe_at (for_each f l) n any.
Proof.
  unfold for_each. revert n. induction l as [|a l IH]; intros n Hok Hf; simpl; [done|].
  eapply safe_at_bind; [apply Hf; [done..|left]|]. intros [] n' Hok' Hev _.
  apply IH; [done|]. intros b n'' ? ? ?. apply Hf; [done| |by right]. by etrans.
Qed.
(** What a result has, later steps do not take away. *)
Lemma safe_at_cmap {A B} (f : A → comp Node E B) (φ : B → Node → Prop) l n :
  node_ok n → (∀ b n n', node_evolves n n' → φ b n → φ b n') →
  (∀ a n', node_ok n' → node_evolves n n' → a ∈ l → safe_at (f a) n' φ) →
  safe_at (cmap f l) n (λ bs n', Forall (λ b, φ b n') bs).
Proof.
  intros Hok Hst. revert n Hok. induction l as [|a l IH]; intros n Hok Hf; simpl.
  { by apply safe_at_ret. }
  eapply safe_at_bind; [apply Hf; [done..|left]|]. intros b n1 Hok1 Hev1 Hb.
  eapply safe_at_bind.
  { apply IH; [done|]. intros a' n2 ? ? ?. apply Hf; [done| |by right]. by etrans. }
  intros bs n2 Hok2 Hev2 Hbs. apply safe_at_ret; [done|]. constructor; [by eapply Hst|done].
Qed.
Lemma safe_at_try {E' A} (m : comp Node E A) n φ :
  safe_at m n φ → keeps m →
  safe_at (try (E':=E') m) n (λ o n', match o with Some a => φ a n' | None => True end).
Proof.
  intros Hm Hk. specialize (Hk n). unfold safe_at, try in *.
  destruct (m n) as [[] ?]; simpl in *; naive_solver.
Qed.
Lemma safe_at_rethrow {E' A} (g : E → E') (m : comp Node E A) n φ :
  safe_at m n φ → safe_at (rethrow g m) n φ.
Proof. unfold safe_at, rethrow. by destruct (m n) as [[] ?]. Qed.
(** Planning code, which draws identifiers only. *)
Lemma safe_at_fworld {A} (m : comp World E A) n φ :
  node_ok n → yields m φ → preserves same_clock m →
  safe_at (fworld m) n (λ a n', nd_fabric n' = nd_fabric n ∧ φ a).
Proof.
  intros [Hj Hk] Hm Hc. specialize (Hm (nd_world n)). specialize (Hc (nd_world n)).
  unfold safe_at, fworld, node_evolves. destruct (m (nd_world n)) as [o w']. simpl in *.
  assert (clock_ok w') by (intros k; by rewrite Hc). by destruct o.
Qed.
Lemma safe_at_now n :
  node_ok n → safe_at (fworld (E:=E) now_unix_ms) n (λ _ n', nd_fabric n' = nd_fabric n).
Proof.
  intros [Hj Hk]. unfold safe_at, fworld, now_unix_ms. rewrite (proj2 (Z.ltb_ge _ _)) by apply Hk.
  split_and!; [|done..]. split; [done|]. intros k. apply (Hk (S k)).
Qed.
End safe_rules.

(** The same without postconditions, with its automation. *)
Section safe_compositional.
Context {E : Type}.
Lemma safe_bind {A B} (m : comp Node E A) (k : A → comp Node E B) :
  safe m → (∀ a, safe (k a)) → safe (bind m k).
Proof. intros Hm Hk n Hok. eapply safe_at_bind; [by apply Hm|]. intros a n' Hok' _ _. by apply Hk. Qed.
Lemma safe_ret {A} (a : A) : safe (ret (E:=E) a).
Proof. by intros n. Qed.
Lemma safe_throw {A} (e : E) : safe (throw (A:=A) e).
Proof. by intros n. Qed.
Lemma safe_ok_or {A} (e : E) (o : option A) : safe (ok_or_throw e o).
Proof. intros n Hok. by eapply safe_at_any, safe_at_ok_or. Qed.
Lemma safe_lift {A} (m : outcome E A) : opost m (λ _, True) → safe (lift m).
Proof. intros Hm n Hok. by eapply safe_at_any, safe_at_lift. Qed.
Lemma safe_fget {A} (g : Fabric → A) : safe (fget (E:=E) g).
Proof. by intros n. Qed.
Lemma safe_now : safe (fworld (E:=E) now_unix_ms).
Proof. intros n Hok. by eapply safe_at_any, safe_at_now. Qed.
Lemma safe_fworld {A} (m : comp World E A) φ : yields m φ → preserves same_clock m → safe (fworld m).
Proof. intros Hm Hc n Hok. by eapply safe_at_any, safe_at_fworld. Qed.
Lemma safe_fmod (g : Fabric → Fabric) :
  (∀ f, fabric_evolves f (g f)) → (∀ f, f_jobs (g f) = f_jobs f) → safe (fmod (E:=E) g).
Proof. intros Hk Hj n Hok. apply safe_at_fmod_jobs; [done|apply Hk|apply Hj]. Qed.
Lemma safe_for_each {A} (f : A → comp Node E unit) l : (∀ a, safe (f a)) → safe (for_each f l).
Proof. intros Hf n Hok. apply safe_at_for_each; [done|]. intros a n' ? _ _. by apply Hf. Qed.
Lemma safe_rethrow {E' A} (g : E → E') (m : comp Node E A) : safe m → safe (rethrow g m).
Proof. intros Hm n Hok. by apply safe_at_rethrow, Hm. Qed.
End safe_compositional.

Create HintDb safe.
#[export] Hint Resolve safe_ret safe_throw safe_ok_or safe_fget safe_now : safe.
Ltac safe_step :=
  match goal with
  | |- safe (bind _ _) => apply safe_bind; [|intros]
  | |- safe (for_each _ _) => apply safe_for_each; intros
  | |- safe (rethrow _ _) => apply safe_rethrow
  | |- safe (match ?x with _ => _ end) => destruct x
  | |- safe (let '(_, _) := ?x in _) => destruct x
  | |- safe _ => solve [eauto with safe]
  end.
Ltac safe := repeat safe_step.

(** ** Resources, topology, objects, tasks *)

Lemma safe_fresh_id {tag E} : safe (fworld (E:=E) (new_id (tag:=tag))).
Proof. eapply safe_fworld; [apply yields_new_id|apply clock_new_id]. Qed.
Lemma safe_set_resources {E} (g : Fabric → gmap ResourceId RegisteredResource) :
  safe (fmod (E:=E) (λ f, set_resources f (g f))).
Proof. by apply safe_fmod. Qed.
Lemma safe_set_task_role {E} id binding : safe (set_task_role (E:=E) id binding).
Proof. by apply safe_fmod. Qed.
Lemma safe_remove_link {E} a b : safe (remove_link (E:=E) a b).
Proof. by apply safe_fmod. Qed.
Lemma safe_upsert_link {E} l : safe (upsert_link (E:=E) l).
Proof. apply safe_bind; [apply safe_remove_link|]. intros _. by apply safe_fmod. Qed.
Lemma safe_remove_resource {E} id : safe (remove_resource (E:=E) id).
Proof.
  intros n Hok. apply safe_at_fmod_jobs; [done| |done]. apply (keeps_remove_resource (E:=E) id n).
Qed.
#[export] Hint Resolve safe_fresh_id safe_set_resources safe_set_task_role safe_remove_link
  safe_upsert_link safe_remove_resource : safe.

Lemma safe_register_resource {E} d : safe (register_resource (E:=E) d).
Proof. unfold register_resource. safe. Qed.
Lemma safe_heartbeat id epoch : safe (heartbeat id epoch).
Proof. unfold heartbeat. safe. Qed.
Lemma safe_expire_resources_at `{HashOrder} {E} t : safe (expire_resources_at (E:=E) t).
Proof. unfold expire_resources_at. safe. Qed.
Lemma safe_resource_epoch {E} id : safe (resource_epoch (E:=E) id).
Proof. unfold resource_epoch. safe. Qed.
Lemma safe_active_resources `{HashOrder} {E} : safe (active_resources (E:=E)).
Proof. unfold active_resources. safe. Qed.
Lemma safe_schedulable_resources `{HashOrder} {E} : safe (schedulable_resources (E:=E)).
Proof. unfold schedulable_resources. safe. Qed.
Lemma safe_find_active id now : safe (find_active id now).
Proof. unfold find_active. safe. Qed.
#[export] Hint Resolve safe_register_resource safe_heartbeat safe_expire_resources_at
  safe_resource_epoch safe_active_resources safe_schedulable_resources safe_find_active : safe.

(** A write of objects or of a task that the evolution allows. *)
Lemma safe_publish_object object : safe (publish_object object).
Proof.
  intros n Hok. pose proof (keeps_publish_object object n) as Hk. unfold publish_object in *.
  unfold safe_at, bind, fget, gets in *. simpl in *.
  destruct (f_objects (nd_fabric n) !! om_id object) as [existing|]; [destruct (negb _); [done|]|];
    by apply (safe_at_fmod_jobs (E:=FabricError)).
Qed.
Lemma safe_add_object_location object resource : safe (add_object_location object resource).
Proof.
  intros n Hok. pose proof (keeps_add_object_location object resource n) as Hk.
  unfold add_object_location, safe_at, bind, fget, gets, ok_or_throw, lift in *.
  destruct (f_objects (nd_fabric n) !! object) as [existing|]; [|done].
  by apply (safe_at_fmod_jobs (E:=FabricError)).
Qed.
Lemma opost_invalid_if c message : opost (invalid_if c message) (λ _, True).
Proof. unfold invalid_if. by destruct c. Qed.
Lemma validate_task_fault_free task : opost (validate_task task) (λ _, True).
Proof.
  unfold validate_task. eapply opost_bind with (φ := λ _, True).
  - destruct (ts_shard task) as [sh|]; [|done]. unfold validate_task_shard.
    eapply opost_bind; [apply opost_invalid_if|]. intros _ _.
    destruct (sh_partition sh) as [[]|]; [apply opost_invalid_if..|done].
  - intros _ _. destruct (ts_pipeline task) as [p|]; [|done]. unfold validate_pipeline.
    do 3 (eapply opost_bind; [apply opost_invalid_if|]; intros _ _).
    apply opost_ofold_true. intros _ [i stage] _. unfold validate_stage.
    do 3 (eapply opost_bind; [apply opost_invalid_if|]; intros _ _).
    apply opost_ofold_true. intros _ [] _; [apply opost_invalid_if|done].
Qed.
(** A written task is there. *)
Lemma safe_at_set_task {E} id record n :
  node_ok n → (∀ r, f_tasks (nd_fabric n) !! id = Some r → task_evolves r record) →
  safe_at (set_task (E:=E) id record) n (λ _ n', has_task id (nd_fabric n')).
Proof.
  intros Hok Hr. pose proof (keeps_at_set_task (E:=E) id record n Hr) as Hk.
  apply safe_at_fmod; [done..| |].
  - apply (jobs_ok_mono (nd_fabric n)); [done| |apply Hok]. intros id'. by apply has_task_evolves.
  - unfold has_task. simpl. rewrite lookup_insert_eq. by eexists.
Qed.
Lemma submit_safe_at task n :
  node_ok n → safe_at (submit task) n (λ _ n', has_task (ts_id task) (nd_fabric n')).
Proof.
  intros Hok. unfold submit. eapply safe_at_bind.
  { apply safe_at_lift; [done|apply validate_task_fault_free]. }
  intros [] n' _ _ [-> _]. eapply safe_at_bind; [by apply safe_at_fget|]. intros ? n' _ _ [-> ->].
  destruct (f_tasks (nd_fabric n) !! ts_id task) as [r|] eqn:Ht; [done|].
  eapply safe_at_bind; [apply (safe_at_set_task (ts_id task)); [done|congruence]|].
  by intros [] n' Hok' _ Ht'.
Qed.
Lemma safe_submit task : safe (submit task).
Proof. intros n Hok. by eapply safe_at_any, submit_safe_at. Qed.
Lemma safe_schedule_task `{HashOrder} id : safe (schedule_task id).
Proof.
  unfold schedule_task. safe. apply safe_lift.
  match goal with |- opost (map_err _ ?m) _ => assert (fault_free m) by apply choose_fault_free; by destruct m end.
Qed.
#[export] Hint Resolve safe_publish_object safe_add_object_location safe_submit safe_schedule_task : safe.

(** ** Chains end *)

Section chains.
Context (spec : LogicalJobSpec) (statuses : RoleStatuses).
Context (Hwf : graph_wf (logical_graph spec) (lj_outputs spec)).

Lemma logical_dep consumer name :
  consumer ∈ lj_roles spec → lr_depends_on consumer = [name] → dep (logical_graph spec) (lr_name consumer) name.
Proof.
  intros Hc Hd. exists (lr_depends_on consumer). split; [|rewrite Hd; left].
  apply list_elem_of_fmap. by exists consumer.
Qed.

(** The roles visited so far are distinct: [current] depends on all of them. *)
Lemma fusion_chain_from_total fuel current (visited : list string) :
  NoDup visited → visited ⊆ lr_name <$> lj_roles spec →
  (∀ name, name ∈ visited → rtc (dep (logical_graph spec)) (lr_name current) name) →
  (length (lj_roles spec) < fuel + length visited)%nat →
  opost (fusion_chain_from fuel spec statuses current) (λ _, True).
Proof.
  revert current visited. induction fuel as [|fuel IH]; intros current visited Hnd Hsub Hreach Hfuel.
  { assert (Hlen : visited ⊆+ lr_name <$> lj_roles spec) by by apply NoDup_submseteq.
    apply submseteq_length in Hlen. rewrite length_fmap in Hlen. lia. }
  simpl. case_bool_decide; [done|].
  destruct (List.filter _ _) as [|consumer [|]] eqn:Hf; [done| |done].
  destruct (negb _ || _ || _) eqn:Hg; [done|].
  apply orb_false_iff in Hg as [[_ Hg]%orb_false_iff _]. apply negb_false_iff, bool_decide_eq_true in Hg.
  assert (Hc : consumer ∈ lj_roles spec).
  { apply list_elem_of_In. apply (List.filter_In (depends_on_role (lr_name current))). rewrite Hf. by left. }
  pose proof (logical_dep _ _ Hc Hg) as Hdep.
  eapply opost_bind; [|done]. apply (IH consumer (lr_name consumer :: visited)).
  - constructor; [|done]. intros Hin. apply (wf_acyclic _ _ Hwf (lr_name consumer)).
    eapply tc_rtc_r; [by apply tc_once|by apply Hreach].
  - intros name [->|Hin]%elem_of_cons; [|by apply Hsub]. apply list_elem_of_fmap. eauto.
  - intros name [->|Hin]%elem_of_cons; [done|]. eapply rtc_l; [done|by apply Hreach].
  - simpl. lia.
Qed.

Lemma fusion_chain_total first :
  first ∈ lj_roles spec → opost (fusion_chain spec statuses first) (λ _, True).
Proof.
  intros Hfirst. unfold fusion_chain. destruct (negb _); [done|].
  eapply opost_bind; [|done]. apply (fusion_chain_from_total _ first [lr_name first]).
  - apply NoDup_singleton.
  - intros n ->%list_elem_of_singleton. apply list_elem_of_fmap. eauto.
  - by intros n ->%list_elem_of_singleton.
  - simpl. lia.
Qed.
End chains.

(** ** Roles *)

Lemma find_job_safe_at job_id n :
  node_ok n →
  safe_at (find_job job_id) n (λ job n', n' = n ∧ f_jobs (nd_fabric n) !! job_id = Some job).
Proof. intros Hok. unfold find_job. eapply safe_at_bind; [by apply safe_at_fget|].
  intros ? n' _ _ [-> ->]. by apply safe_at_ok_or.
Qed.
Lemma expect_job_safe_at job_id n :
  node_ok n → has_job job_id (nd_fabric n) →
  safe_at (expect_job job_id) n (λ job n', n' = n ∧ f_jobs (nd_fabric n) !! job_id = Some job).
Proof. intros Hok Hj. unfold expect_job. eapply safe_at_bind; [by apply safe_at_fget|].
  intros ? n' _ _ [-> ->]. by apply safe_at_expect.
Qed.
Lemma safe_at_set_job {E} id job job0 n :
  node_ok n → f_jobs (nd_fabric n) !! id = Some job0 → job_evolves job0 job → job_ok (nd_fabric n) job →
  safe_at (set_job (E:=E) id job) n any.
Proof.
  intros Hok Hj Hev Hjob. apply safe_at_fmod; [done| | |done].
  - apply (keeps_at_set_job (E:=E)). congruence.
  - apply jobs_ok_set_job; [apply Hok|done].
Qed.
Lemma node_ok_job n id job : node_ok n → f_jobs (nd_fabric n) !! id = Some job → job_ok (nd_fabric n) job.
Proof. intros [Hj _]. apply Hj. Qed.
(** A job read and written back with another status of a role, and other
    bookkeeping of its reductions. *)
Lemma insert_role_safe_at id job job0 name status n :
  node_ok n → f_jobs (nd_fabric n) !! id = Some job0 → job_evolves job0 job → job_ok (nd_fabric n) job →
  safe_at (insert_role id job name status) n any.
Proof.
  intros Hok Hj Hev Hjob. eapply safe_at_set_job; [done..| |by apply job_ok_insert_role].
  etrans; [exact Hev|apply job_evolves_insert_role].
Qed.
Lemma reinsert_role_safe_at id job name status n :
  node_ok n → f_jobs (nd_fabric n) !! id = Some job → safe_at (insert_role id job name status) n any.
Proof. intros Hok Hj. eapply insert_role_safe_at; [done..|]. by eapply node_ok_job. Qed.
Lemma reductions_insert_role_safe_at id job reductions name status n :
  node_ok n → f_jobs (nd_fabric n) !! id = Some job →
  safe_at (insert_role id (with_reductions job reductions) name status) n any.
Proof.
  intros Hok Hj. eapply insert_role_safe_at; [done..|by apply job_evolves_same|].
  apply job_ok_reductions. by eapply node_ok_job.
Qed.

Lemma expect_then_role_safe_at {A} id name status n (k : unit → fab A) φ :
  node_ok n → has_job id (nd_fabric n) →
  (∀ n', node_ok n' → node_evolves n n' → safe_at (k tt) n' φ) →
  safe_at (let* job := expect_job id in bind (insert_role id job name status) k) n φ.
Proof.
  intros Hok Hj Hk. eapply safe_at_bind; [by apply expect_job_safe_at|]. intros job n' _ _ [-> Hjob].
  eapply safe_at_bind; [by apply reinsert_role_safe_at|]. intros [] n' Hok' Hev _. by apply Hk.
Qed.
Lemma mark_ready_safe_at id name n : node_ok n → has_job id (nd_fabric n) → safe_at (mark_ready id name) n any.
Proof.
  intros Hok Hj. eapply safe_at_bind; [by apply expect_job_safe_at|]. intros job n' _ _ [-> Hjob].
  by apply reinsert_role_safe_at.
Qed.
Lemma insert_selection_safe_at id name selection n :
  node_ok n → has_job id (nd_fabric n) → selection_ok (nd_fabric n) selection →
  safe_at (insert_selection id name selection) n any.
Proof.
  intros Hok Hj Hsel. eapply safe_at_bind; [by apply expect_job_safe_at|]. intros job n' _ _ [-> Hjob].
  eapply safe_at_set_job; [done..|by apply job_evolves_same|].
  apply job_ok_insert_selection; [by eapply node_ok_job|done].
Qed.
Lemma safe_find_job id : safe (find_job id).
Proof. intros n Hok. by eapply safe_at_any, find_job_safe_at. Qed.
Lemma safe_assign_role id name status error : safe (assign_role id name status error).
Proof.
  intros n Hok. eapply safe_at_bind; [by apply find_job_safe_at|]. intros job n' _ _ [-> Hjob].
  eapply safe_at_bind; [by apply safe_at_ok_or|]. intros ? n' _ _ [-> _]. by apply reinsert_role_safe_at.
Qed.
#[export] Hint Resolve safe_find_job safe_assign_role : safe.

Section role_runtime.
Context `{HashOrder}.

Lemma safe_planning_context resources : safe (planning_context resources).
Proof. unfold planning_context. safe. Qed.
(** A selection that may find nothing. *)
Lemma safe_attempt {E E' A} (m : comp World E A) φ :
  yields m φ → preserves same_clock m → safe (fworld (try (E':=E') m)).
Proof. intros Hm Hc. eapply safe_fworld; [by apply yields_try|by apply preserves_try]. Qed.
Lemma safe_select_shards {E'} role deps context :
  safe (fworld (try (E':=E') (select_ready_shards role deps context))).
Proof. eapply safe_attempt; [apply select_ready_shards_ok|apply clock_select_ready_shards]. Qed.
Lemma safe_select_fusion {E'} context chain deps :
  safe (fworld (try (E':=E') (select_ready_fusion context chain deps))).
Proof. eapply safe_attempt; [apply select_ready_fusion_ok|apply clock_select_ready_fusion]. Qed.
Lemma safe_select_role {E'} role deps s r o t :
  safe (fworld (try (E':=E') (select_ready_role role deps s r o t))).
Proof. eapply safe_attempt; [apply select_ready_role_ok|apply clock_select_ready_role]. Qed.
Lemma safe_select_reduction {E'} reduction inputs ready context :
  safe (fworld (try (E':=E') (with_fresh_availability (select_reduction_level reduction inputs ready context)))).
Proof.
  eapply safe_attempt; [apply yields_with_fresh_availability, select_reduction_level_ok|].
  apply clock_with_fresh, clock_select_reduction_level.
Qed.
Hint Resolve safe_planning_context safe_select_shards safe_select_fusion safe_select_role
  safe_select_reduction : safe.

(** Finding the ready roles writes nothing, and no chain is cyclic. *)
Lemma safe_ready_cooperative statuses role : safe (ready_cooperative statuses role).
Proof.
  unfold ready_cooperative. safe. eapply safe_fworld; [apply yields_instantiate|apply clock_instantiate].
Qed.
Lemma safe_ready_logical spec statuses role :
  logical_job_wf spec → role ∈ lj_roles spec → safe (ready_logical spec statuses role).
Proof.
  intros [Hwf _] Hrole. unfold ready_logical. safe. apply safe_lift. by apply fusion_chain_total.
Qed.
Lemma ready_roles_safe_at job n : node_ok n → definition_ok (job_definition job) → safe_at (ready_roles job) n any.
Proof.
  intros Hok Hdef. unfold ready_roles. eapply safe_at_bind with (φ := any); [|by intros].
  destruct (job_definition job) as [spec|spec];
    (eapply safe_at_any, safe_at_cmap with (φ := any); [done..|]); intros role n' Hok' _ Hrole.
  - by apply safe_ready_cooperative.
  - by apply safe_ready_logical.
Qed.

(** *** Materializing, in a fabric that has the job *)

Section job.
Context (id : JobId).
Definition on_job {A} (m : fab A) : Prop := ∀ n, node_ok n → has_job id (nd_fabric n) → safe_at m n any.

Lemma on_job_bind {A B} (m : fab A) (k : A → fab B) : on_job m → (∀ a, on_job (k a)) → on_job (bind m k).
Proof.
  intros Hm Hk n Hok Hj. eapply safe_at_bind; [by apply Hm|]. intros a n' Hok' Hev _.
  apply Hk; [done|]. by eapply has_job_evolves.
Qed.
Lemma on_job_safe {A} (m : fab A) : safe m → on_job m.
Proof. intros Hm n Hok _. by apply Hm. Qed.
Lemma on_job_for_each {A} (f : A → fab unit) l : (∀ a, on_job (f a)) → on_job (for_each f l).
Proof.
  intros Hf n Hok Hj. apply safe_at_for_each; [done|]. intros a n' Hok' Hev _.
  apply Hf; [done|]. by eapply has_job_evolves.
Qed.
Lemma on_job_mark_ready name : on_job (mark_ready id name).
Proof. intros n. apply mark_ready_safe_at. Qed.
Lemma on_job_expect_then_role {A} name status (k : unit → fab A) :
  (∀ u, on_job (k u)) → on_job (let* job := expect_job id in bind (insert_role id job name status) k).
Proof.
  intros Hk n Hok Hj. apply expect_then_role_safe_at; [done..|]. intros n' Hok' Hev.
  apply Hk; [done|]. by eapply has_job_evolves.
Qed.
Lemma on_job_insert_single name impl resource total fusion :
  on_job (insert_selection id name (SelSingle impl resource total fusion)).
Proof. intros n Hok Hj. by apply insert_selection_safe_at. Qed.

Lemma on_job_materialize_single name task selection :
  match selection with Some (SelSharded _) => False | _ => True end →
  on_job (materialize_single id name task selection).
Proof.
  intros Hsel. unfold materialize_single. apply on_job_bind; [apply on_job_safe; safe|]. intros _.
  apply on_job_bind; [apply on_job_safe; safe|]. intros _. apply on_job_expect_then_role. intros _.
  destruct selection as [[]|]; [apply on_job_insert_single|done|apply on_job_safe; safe].
Qed.
Lemma on_job_materialize_fused selected chain : on_job (materialize_fused id selected chain).
Proof.
  unfold materialize_fused. do 2 (apply on_job_bind; [apply on_job_safe; safe|]; intros _).
  apply on_job_for_each. intros [i [role impl]]. apply on_job_expect_then_role. intros _.
  apply on_job_insert_single.
Qed.
(** The children of a sharded role are tasks when they are recorded. *)
Lemma submit_shard_safe_at name selected n :
  node_ok n → safe_at (submit_shard id name selected) n (λ s n', has_task (ss_task_id s) (nd_fabric n')).
Proof.
  intros Hok. unfold submit_shard. eapply safe_at_bind; [by apply submit_safe_at|]. intros ? n1 Hok1 _ Ht.
  eapply safe_at_bind; [by apply safe_set_task_role|]. intros [] n2 Hok2 Hev _.
  apply safe_at_ret; [done|]. simpl. by eapply has_task_evolves.
Qed.
Lemma on_job_materialize_sharded name role deps resources :
  on_job (materialize_sharded id name role deps resources).
Proof.
  unfold materialize_sharded. do 2 (apply on_job_bind; [apply on_job_safe; safe|]; intros ?).
  case_match; [|apply on_job_mark_ready]. intros n Hok Hj. eapply safe_at_bind.
  { eapply safe_at_cmap; [done| |intros; by apply submit_shard_safe_at].
    intros b n1 n2 Hev. by apply has_task_evolves. }
  intros selections n1 Hok1 Hev1 Hs. apply expect_then_role_safe_at; [done|by eapply has_job_evolves|].
  intros n2 Hok2 Hev2. apply insert_selection_safe_at; [done| |].
  - eapply has_job_evolves; [|exact Hj]. by etrans.
  - simpl. eapply Forall_impl; [exact Hs|]. intros s. by apply has_task_evolves.
Qed.
Lemma on_job_materialize_role ready : on_job (materialize_role id ready).
Proof.
  destruct ready as [name task|name role deps chain]; simpl; [by apply on_job_materialize_single|].
  unfold materialize_logical. apply on_job_bind; [apply on_job_safe; safe|]. intros resources.
  destruct (may_fan_out _); [apply on_job_materialize_sharded|].
  apply on_job_bind; [apply on_job_safe; safe|]. intros context.
  apply on_job_bind; [apply on_job_safe; safe|]. intros [selected|]; [apply on_job_materialize_fused|].
  apply on_job_bind; [apply on_job_safe; safe|]. intros [selected|]; [|apply on_job_mark_ready].
  by apply on_job_materialize_single.
Qed.
Lemma safe_materialize_ready_roles : safe (materialize_ready_roles id).
Proof.
  intros n Hok. eapply safe_at_bind; [by apply find_job_safe_at|]. intros job n' _ _ [-> Hjob].
  eapply safe_at_bind.
  { apply ready_roles_safe_at; [done|]. by eapply jo_definition, node_ok_job. }
  intros ready n1 Hok1 Hev _. apply on_job_for_each; [|done|].
  - intros. apply on_job_materialize_role.
  - eapply has_job_evolves; [exact Hev|]. by exists job.
Qed.
End job.
#[local] Hint Resolve safe_materialize_ready_roles : safe.
End role_runtime.
#[export] Hint Resolve safe_planning_context safe_select_shards safe_select_fusion safe_select_role
  safe_select_reduction safe_materialize_ready_roles : safe.

(** *** Reductions and completion *)

Section reductions.
Context `{HashOrder} `{UuidCrate}.

Lemma safe_reinsert_role id name status : safe (let* job := find_job id in insert_role id job name status).
Proof.
  intros n Hok. eapply safe_at_bind; [by apply find_job_safe_at|]. intros job n' _ _ [-> Hjob].
  by apply reinsert_role_safe_at.
Qed.
(** The same, with the reductions updated. *)
Lemma safe_reductions_role {A} id name status g (k : unit → fab A) :
  (∀ u, safe (k u)) →
  safe (let* job := find_job id in
        bind (insert_role id (with_reductions job (g job)) name status) k).
Proof.
  intros Hk n Hok. eapply safe_at_bind; [by apply find_job_safe_at|]. intros job n' _ _ [-> Hjob].
  eapply safe_at_bind; [by apply reductions_insert_role_safe_at|]. intros ? n' Hok' _ _. by apply Hk.
Qed.
Lemma safe_submit_reduction_item id name item : safe (submit_reduction_item id name item).
Proof. unfold submit_reduction_item. safe. Qed.
Lemma safe_find_reduction_state job name : safe (find_reduction_state job name).
Proof. unfold find_reduction_state. safe. Qed.
Hint Resolve safe_reinsert_role safe_submit_reduction_item safe_find_reduction_state : safe.
Lemma safe_finish_reduction id name inputs : safe (finish_reduction id name inputs).
Proof.
  apply (safe_reductions_role id name _ (λ job, delete name (job_reductions job))). intros _. safe.
Qed.
Lemma safe_cmap {E A B} (f : A → comp Node E B) l : (∀ a, safe (f a)) → safe (cmap f l).
Proof.
  intros Hf n Hok. eapply safe_at_any, safe_at_cmap with (φ := any); [done..|]. intros. by apply Hf.
Qed.
Hint Resolve safe_finish_reduction safe_cmap : safe.
Lemma safe_materialize_reduction_level id name : safe (materialize_reduction_level id name).
Proof.
  unfold materialize_reduction_level. do 3 (apply safe_bind; [safe|intros ?]).
  destruct (negb _); [safe|]. destruct (_ <=? _)%nat; [safe|].
  do 3 (apply safe_bind; [safe|intros ?]). case_match; [|apply safe_reinsert_role].
  apply safe_bind; [safe|]. intros items. case_bool_decide; [safe|].
  intros n Hok. eapply safe_at_bind; [by apply find_job_safe_at|]. intros job n' _ _ [-> Hjob].
  eapply safe_at_bind; [by apply safe_at_ok_or|]. intros state n' _ _ [-> _].
  by apply reductions_insert_role_safe_at.
Qed.
Hint Resolve safe_materialize_reduction_level : safe.
Lemma safe_start_role_reduction id name inputs : safe (start_role_reduction id name inputs).
Proof.
  apply (safe_reductions_role id name _
    (λ job, <[name := mkActiveReduction 0 inputs []]> (job_reductions job))). intros _. safe.
Qed.
Lemma scan_reduction_item_total f name acc item : opost (scan_reduction_item f name acc item) (λ _, True).
Proof.
  destruct acc as [[[a b] c] d], item as [o|t]; simpl; [done|].
  by destruct (task_status f t) as [[|l|[|o [|]]|]|].
Qed.
Lemma safe_advance_reduction_level id name : safe (advance_reduction_level id name).
Proof.
  unfold advance_reduction_level. do 3 (apply safe_bind; [safe|intros ?]).
  apply safe_bind.
  { apply safe_lift, opost_ofold_true. intros. apply scan_reduction_item_total. }
  intros [[[next ids] completed] all]. destruct (negb all); [apply safe_reinsert_role|].
  intros n Hok. eapply safe_at_bind; [by apply find_job_safe_at|]. intros job n' _ _ [-> Hjob].
  eapply safe_at_bind; [by apply safe_at_ok_or|]. intros state n' _ _ [-> _].
  eapply safe_at_bind.
  { eapply safe_at_set_job; [done..|by apply job_evolves_same|].
    apply job_ok_reductions. by eapply node_ok_job. }
  intros [] n' Hok' _ _. by apply safe_materialize_reduction_level.
Qed.
Hint Resolve safe_start_role_reduction safe_advance_reduction_level : safe.
Lemma safe_refresh_ready_roles : safe refresh_ready_roles.
Proof. unfold refresh_ready_roles, refresh_reductions. safe. Qed.
Lemma safe_complete_shard id name : safe (complete_shard id name).
Proof. unfold complete_shard. safe. Qed.
Hint Resolve safe_complete_shard : safe.
Lemma safe_complete_cooperative_role task_id outputs : safe (complete_cooperative_role task_id outputs).
Proof. unfold complete_cooperative_role, complete_fused_chain. safe. Qed.
Lemma safe_mark_role_uncertain id name : safe (mark_role_uncertain id name).
Proof.
  intros n Hok. eapply safe_at_bind; [by apply safe_at_fget|]. intros ? n' _ _ [-> ->].
  destruct (f_jobs (nd_fabric n) !! id) as [job|] eqn:Hj; [|done].
  destruct (job_roles job !! name); [|done]. by apply reinsert_role_safe_at.
Qed.
Hint Resolve safe_mark_role_uncertain : safe.
Lemma safe_mark_cooperative_role_uncertain task_id : safe (mark_cooperative_role_uncertain task_id).
Proof. unfold mark_cooperative_role_uncertain. safe. Qed.
End reductions.
#[export] Hint Resolve safe_refresh_ready_roles safe_complete_cooperative_role
  safe_mark_cooperative_role_uncertain : safe.

(** ** Executions and jobs *)

Section executions.
Context `{HashOrder} `{UuidCrate}.

(** The guards read only; when they pass, the task runs. *)
Lemma check_lease_safe_at lease now n :
  node_ok n → safe_at (check_lease lease now) n (λ p n', n' = n ∧
    f_tasks (nd_fabric n) !! el_task_id lease = Some p.1 ∧ tr_status p.1 = Running p.2).
Proof.
  intros Hok. unfold check_lease, find_active, safe_at, bind, fget, gets.
  destruct (f_resources (nd_fabric n) !! el_resource_id lease) as [r|]; [|done].
  destruct (active_at now r); [|done]. unfold ret at 1. destruct (negb _); [done|].
  unfold ok_or_throw, lift.
  destruct (f_tasks (nd_fabric n) !! el_task_id lease) as [record|]; [|done]. simpl.
  unfold current_lease. destruct (tr_status record) as [|current| |] eqn:Hs; try done.
  case_bool_decide; [|done]. simpl. destruct (_ <=? now); [done|]. by destruct (negb _).
Qed.
Lemma safe_begin_execution task_id resource_id : safe (begin_execution task_id resource_id).
Proof.
  unfold begin_execution. do 2 (apply safe_bind; [safe|intros ?]). intros n Hok.
  eapply safe_at_bind; [by apply safe_at_fget|]. intros ? n' _ _ [-> ->].
  eapply safe_at_bind; [by apply safe_at_ok_or|]. intros record n' _ _ [-> Ht].
  case_bool_decide as Hp; [|done]. simpl.
  eapply safe_at_bind; [apply safe_at_fworld; [done|apply yields_new_id|apply clock_new_id]|].
  intros execution n1 Hok1 _ [Hf _]. eapply safe_at_bind; [by apply safe_at_fget|].
  intros ttl n' _ _ [-> _]. eapply safe_at_bind; [|by intros].
  apply safe_at_set_task; [done|]. rewrite Hf. intros r Hr. simplify_eq. split; [done|]. by rewrite Hp.
Qed.
Lemma safe_renew_execution lease : safe (renew_execution lease).
Proof.
  unfold renew_execution. apply safe_bind; [safe|]. intros now n Hok.
  eapply safe_at_bind; [by apply check_lease_safe_at|]. intros [record current] n' _ _ (-> & Ht & Hs).
  eapply safe_at_bind; [by apply safe_at_fget|]. intros ttl n' _ _ [-> _].
  eapply safe_at_bind; [|by intros]. apply safe_at_set_task; [done|]. intros r Hr. simplify_eq/=.
  split; [done|]. by rewrite Hs.
Qed.
Lemma check_output_total objects output : opost (check_output objects output) (λ _, True).
Proof. unfold check_output. case_match; [by case_match|done]. Qed.
Lemma safe_complete_execution lease outputs : safe (complete_execution lease outputs).
Proof.
  unfold complete_execution. apply safe_bind; [safe|]. intros now n Hok.
  eapply safe_at_bind; [by apply check_lease_safe_at|]. intros [record current] n' _ _ (-> & Ht & Hs).
  eapply safe_at_bind; [by apply safe_at_fget|]. intros f n' _ _ [-> ->]. destruct (_ && _); [done|].
  eapply safe_at_bind.
  { apply safe_at_lift; [done|]. apply opost_ofold_true. intros. apply check_output_total. }
  intros ? n' _ _ [-> _]. eapply safe_at_bind; [apply safe_at_expect; [done|by eexists]|].
  intros record' n' _ _ [-> Ht']. simplify_eq/=. eapply safe_at_bind.
  { apply safe_at_set_task; [done|]. intros r Hr. simplify_eq/=. split; [done|]. by rewrite Hs. }
  intros [] n' Hok' _ _. revert n' Hok'. apply (safe_bind (for_each _ _)); [safe|]. intros. safe.
Qed.
Lemma safe_reap t : safe (reap_expired_executions_at t).
Proof.
  unfold reap_expired_executions_at. apply safe_bind; [safe|]. intros tasks.
  apply safe_bind; [|intros; safe]. apply safe_fmod; [|done]. apply evolves_reap.
Qed.

(** A new job's roles all wait. *)
Lemma waiting_roles_lookup names name : name ∈ names → is_Some (waiting_roles names !! name).
Proof.
  intros Hin. unfold waiting_roles. apply elem_of_dom. rewrite dom_list_to_map_L.
  apply elem_of_list_to_set. apply list_elem_of_fmap. exists (name, Waiting). split; [done|].
  apply list_elem_of_fmap. eauto.
Qed.
Lemma insert_new_job_safe id definition names (k : fab JobId) :
  definition_ok definition → names = (definition_roles definition).*1 → safe k →
  safe (let* jobs := fget f_jobs in
    match jobs !! id with
    | Some _ => throw (DuplicateJob id)
    | None => insert_new_job id definition names;;; k
    end).
Proof.
  intros Hdef -> Hk n Hok. eapply safe_at_bind; [by apply safe_at_fget|]. intros ? n' _ _ [-> ->].
  destruct (f_jobs (nd_fabric n) !! id) as [|] eqn:Hj; [done|].
  eapply safe_at_bind with (φ := any); [|intros [] n' Hok' _ _; by apply Hk].
  apply safe_at_fmod; [done| | |done].
  - apply (keeps_at_set_job (E:=FabricError)). congruence.
  - apply jobs_ok_set_job; [apply Hok|]. split; simpl; [done|by apply waiting_roles_lookup|].
    intros. by rewrite lookup_empty in *.
Qed.
Lemma safe_submit_cooperative job : safe (submit_cooperative job).
Proof.
  unfold submit_cooperative, validate_cooperative_job.
  destruct (validate_role_graph_spec (cooperative_graph job) (cj_outputs job)) as [[-> Hwf]|[[e ->] _]];
    [|by intros n].
  apply safe_bind; [by apply safe_lift|]. intros _. apply insert_new_job_safe; [done| |safe].
  simpl. by rewrite <- list_fmap_compose.
Qed.
Lemma validation_error_total {A} (m : outcome PlanError A) φ :
  oresult m φ is_invalid → opost (validation_error m) (λ _, True).
Proof. destruct m as [a|[]| |]; simpl; try done. by intros [? ?]. Qed.
Lemma safe_submit_logical job : safe (submit_logical job).
Proof.
  unfold submit_logical. destruct (validate_logical_job_spec job) as [Hiff Hval].
  destruct (validate_logical_job job) as [[]|e| |] eqn:Hv; [|by destruct Hval as [? ->]; intros n|done..].
  apply safe_bind; [by apply safe_lift|]. intros _. apply safe_bind; [safe|]. intros objects.
  apply safe_bind.
  { eapply safe_lift, validation_error_total, validate_logical_job_objects_validates. }
  intros _. apply insert_new_job_safe; [by apply Hiff| |safe]. simpl. by rewrite <- list_fmap_compose.
Qed.
Lemma plan_yields scheduler resources topology spec objects :
  yields (plan scheduler resources topology spec objects) (λ _, True).
Proof.
  intros w. destruct (validate_logical_job_spec spec) as [Hiff Hval].
  pose proof (validate_logical_job_objects_validates spec objects) as Hvo.
  destruct (validate_logical_job spec) as [[]|e| |] eqn:Hok; try done;
    [|unfold plan, bind, lift; by rewrite Hok].
  destruct (validate_logical_job_objects spec objects) as [[]|e| |] eqn:Ho; try done;
    [|unfold plan, bind, lift; by rewrite Hok, Ho].
  eapply opost_mono; [|done]. eapply oresult_opost, plan_after_validation; [by apply Hiff|done].
Qed.
Lemma safe_plan_logical_job spec : safe (plan_logical_job spec).
Proof.
  unfold plan_logical_job. do 2 (apply safe_bind; [safe|intros ?]).
  eapply safe_fworld; [apply plan_yields|apply clock_plan].
Qed.
End executions.
#[export] Hint Resolve safe_begin_execution safe_renew_execution safe_complete_execution safe_reap
  safe_submit_cooperative safe_submit_logical safe_plan_logical_job : safe.

(** ** The views of a job *)

Lemma opost_collect {E A B} (g : A → outcome E B) l :
  (∀ a, a ∈ l → opost (g a) (λ _, True)) →
  opost (ofold (λ views a, let? view := g a in Ok (views ++ [view])) [] l) (λ _, True).
Proof. intros Hg. apply opost_ofold_true. intros b a Ha. eapply opost_bind; [by apply Hg|done]. Qed.
Lemma cooperative_role_views_total f id : jobs_ok f → opost (cooperative_role_views f id) (λ _, True).
Proof.
  intros Hok. unfold cooperative_role_views. destruct (f_jobs f !! id) as [job|] eqn:Hj; [|done].
  destruct (Hok _ _ Hj) as [_ Hroles Hsels].
  eapply opost_bind; [|done]. apply opost_collect. intros [name deps] Hin. unfold role_view.
  destruct (Hroles name) as [status ->]; [apply list_elem_of_fmap; by exists (name, deps)|].
  eapply opost_bind with (φ := λ _, True); [|by intros [[[[]]]]].
  destruct (job_selections job !! name) as [[|sels]|] eqn:Hs; [done| |done].
  eapply opost_bind; [|done]. apply opost_collect. intros sel Hsel.
  specialize (Hsels _ _ Hs). simpl in Hsels. rewrite Forall_forall in Hsels.
  unfold shard_view. by destruct (Hsels _ Hsel) as [record ->].
Qed.

(** ** The coordinator *)

Definition coord_ok (c : Coord) : Prop := node_ok (mkNode (co_fabric (co_state c)) (co_world c)).

(** Served to its end, with the invariant kept whatever the answer. *)
Definition served {A} (m : api A) : Prop := ∀ c, coord_ok c → fault_free (m c).1 ∧ coord_ok (m c).2.

Section served_rules.
Lemma served_bind {A B} (m : api A) (k : A → api B) : served m → (∀ a, served (k a)) → served (bind m k).
Proof.
  intros Hm Hk c Hc. specialize (Hm c Hc). unfold bind. destruct (m c) as [[a|e| |] c']; try done.
  apply Hk. apply Hm.
Qed.
Lemma served_on_fabric {A} (m : comp Node ApiError A) : safe m → served (on_fabric m).
Proof.
  intros Hm c Hc. specialize (Hm _ Hc). unfold safe_at in Hm. unfold on_fabric, coord_ok.
  destruct (m _) as [[a|e| |] [f w]]; try done. by destruct Hm.
Qed.
Lemma served_fabric {E A} (g : E → ApiError) (m : comp Node E A) : safe m → served (rethrow g (on_fabric m)).
Proof.
  intros Hm c Hc. specialize (Hm _ Hc). unfold safe_at in Hm. unfold rethrow, on_fabric, coord_ok.
  destruct (m _) as [[a|e| |] [f w]]; try done. by destruct Hm.
Qed.
Lemma served_attempt {E A} (m : comp Node E A) : safe m → served (try (on_fabric m)).
Proof.
  intros Hm c Hc. specialize (Hm _ Hc). unfold safe_at in Hm. unfold try, on_fabric, coord_ok.
  destruct (m _) as [[a|e| |] [f w]]; try done. by destruct Hm.
Qed.
Lemma served_lift {A} (m : outcome ApiError A) : opost m (λ _, True) → served (lift m).
Proof. intros Hm c Hc. split; [by apply (opost_fault_free m (λ _, True))|done]. Qed.
Lemma served_ok_or {A} e (o : option A) : served (ok_or_throw e o).
Proof. apply served_lift. by apply opost_ok_or. Qed.
Lemma served_ret {A} (a : A) : served (ret a).
Proof. by intros c. Qed.
Lemma served_throw {A} (e : ApiError) : served (throw (A:=A) e).
Proof. by intros c. Qed.
Lemma served_cget {A : Type} (g : CoordinatorState → A) : served (cget g).
Proof. by intros c. Qed.
Lemma served_read {A B : Type} (g : CoordinatorState → A) (k : A → api B) :
  (∀ c, coord_ok c → served (k (g (co_state c)))) → served (bind (cget g) k).
Proof. intros Hk c Hc. by apply Hk. Qed.
Lemma served_set_endpoints g : served (set_endpoints g).
Proof. by intros c. Qed.
Lemma served_set_manual_links g : served (set_manual_links g).
Proof. by intros c. Qed.
Lemma served_for_each {A} (f : A → api unit) l : (∀ a, served (f a)) → served (for_each f l).
Proof.
  intros Hf. unfold for_each. induction l as [|a l IH]; simpl; [apply served_ret|].
  apply served_bind; [apply Hf|]. by intros [].
Qed.
End served_rules.
#[export] Hint Resolve served_on_fabric served_fabric served_attempt served_ok_or served_ret served_throw
  served_cget served_set_endpoints served_set_manual_links : safe.
Ltac serve_step :=
  match goal with
  | |- served (bind _ _) => apply served_bind; [|intros]
  | |- served (for_each _ _) => apply served_for_each; intros
  | |- served (match ?x with _ => _ end) => destruct x
  | |- served _ => solve [eauto with safe]
  end.
Ltac serve := repeat serve_step.

Section handlers_safe.
Context `{HashOrder} `{UuidCrate}.

Lemma resolve_inputs_total state ids : opost (resolve_inputs state ids) (λ _, True).
Proof.
  apply opost_collect. intros o _. unfold resolve_input, object_metadata.
  do 3 (eapply opost_bind with (φ := λ _, True); [by apply opost_ok_or|]; intros ? _).
  by case_bool_decide.
Qed.
Lemma served_poll_tasks resource_id ids : served (poll_tasks resource_id ids).
Proof.
  induction ids as [|id ids IH]; simpl; [serve|]. apply served_bind; [serve|].
  intros [decision|]; [|done]. destruct (negb _); [done|]. do 2 (apply served_bind; [serve|intros ?]).
  apply served_bind; [apply served_lift, resolve_inputs_total|]. intros inputs. serve.
Qed.
Lemma opost_validate_link link : opost (validate_link link) (λ _, True).
Proof. unfold validate_link. by repeat case_match. Qed.
Lemma opost_normalize_endpoint endpoint : opost (normalize_endpoint endpoint) (λ _, True).
Proof. unfold normalize_endpoint. by case_match. Qed.
Hint Resolve served_poll_tasks served_lift opost_validate_link opost_normalize_endpoint : safe.

Lemma served_submit_planned job : served (handle_submit_planned job).
Proof.
  unfold handle_submit_planned. apply served_bind; [|intros; serve].
  intros c Hc. pose proof (served_fabric from_plan _ (safe_plan_logical_job job) c Hc) as Hp.
  unfold rethrow in Hp. by destruct (on_fabric (plan_logical_job job) c) as [[|[]| |] c'].
Qed.
(** The views of a job are taken of the state they are read in. *)
Lemma served_get_job id : served (handle_get_job id).
Proof.
  unfold handle_get_job. apply served_bind; [serve|]. intros job_id. apply served_read. intros c Hc.
  do 2 (apply served_bind; [serve|intros ?]). apply served_bind; [|intros; serve].
  apply served_lift. pose proof (cooperative_role_views_total _ job_id (proj1 Hc)) as Hv. simpl in Hv.
  by destruct (cooperative_role_views _ _).
Qed.
Hint Resolve served_submit_planned served_get_job : safe.

Lemma served_handle request : served (handle request).
Proof.
  unfold handle, respond. destruct request;
    unfold handle_register, handle_heartbeat, handle_list_resources, handle_poll_work,
      handle_renew, handle_complete, handle_publish, handle_replica, handle_submit_task,
      handle_get_task, handle_submit_cooperative, handle_plan, handle_update_link,
      handle_report_measurement, maintenance_tick, forget_resource; serve.
Qed.
Lemma steps_ok c c' : steps c c' → coord_ok c → coord_ok c'.
Proof. induction 1 as [c|c1 c2 c3 [request ->] _ IH]; [done|]. intros Hc. by apply IH, served_handle. Qed.
End handlers_safe.

(** C4 No request makes the coordinator panic or run on.  Started afresh, with a clock
    that does not read before the Unix epoch, and after any sequence of
    requests and maintenance ticks, the coordinator answers every further
    request with a response or an error: no handler panics (the [expect]s on
    jobs, tasks, roles and leases, the [unreachable!] of validation, the
    divisions of shard arithmetic) and no loop runs on (the search of a fused
    chain, the planner's rounds, the levels of a reduction).  Memory is not
    modelled: a request may still ask for more than there is, as a fixed shard
    count does, for which the code reserves room before it places anything. *)
Theorem requests_never_fault `{HashOrder} `{UuidCrate} membership_ttl_ms execution_ttl_ms w c request
    (Hclock : clock_ok w)
    (Hsteps : steps (mkCoord (Coordinator_new membership_ttl_ms execution_ttl_ms) w) c) :
  fault_free (handle request c).1.
Proof. apply served_handle. eapply steps_ok; [exact Hsteps|]. by split. Qed.

(** *** Application: a job submitted and polled after the run of [Evolution] *)

#[local] Existing Instances Run.order Run.text.
Definition sample_job : LogicalJobSpec :=
  mkLogicalJobSpec (Samples.job_id 1)
    [Samples.role "prepare" [Samples.implementation "small" "cpu" 10 100] [];
     Samples.role "finish" [Samples.implementation "small" "cpu" 10 100] ["prepare"]]
    ["finish"].

Lemma requests_never_fault_witness :
  fault_free (handle (PollWork (Samples.resource_id 1) 1)
    (Run.serve (SubmitPlannedJob sample_job) Run.leased)).1.
Proof.
  apply (requests_never_fault 15000 60000 (Samples.world_at 8 1000 100000)).
  - intros k. simpl. destruct (k <? 8)%nat; lia.
  - do 5 (eapply rtc_r; [|by eexists]). apply rtc_refl.
Defined.
