(* ===== verification/Polling.v ===== *)
(** * Work is assigned soundly

    What an agent receives from [poll_work]: a task leased to it alone, that
    its current incarnation can run, with inputs it can fetch. *)

From S2P Require Import Prelude Float64 World Text Core Samples Scheduler RoleGraph Partition Placement Reduction Fusion LogicalJob Planner Fabric Roles Execution Coordinator Clock Frames Evolution Network Leases Safety.

Open Scope string_scope.
Open Scope list_scope.
Open Scope Z_scope.

(** ** Members *)

(** A member is registered under its own id. *)
Definition keyed (f : Fabric) : Prop :=
  ∀ id r, f_resources f !! id = Some r → rd_id (reg_descriptor r) = id.
Definition keeps_keyed (c c' : Coord) : Prop :=
  keyed (co_fabric (co_state c)) → keyed (co_fabric (co_state c')).
#[global] Instance keeps_keyed_frame : CoordFrame keeps_keyed.
Proof. split; [split; [by intros c Hk|]|by intros E g c Hk..]. unfold keeps_keyed. intros c1 c2 c3. auto. Qed.

Definition node_keyed (n n' : Node) : Prop := keyed (nd_fabric n) → keyed (nd_fabric n').
#[global] Instance node_keyed_preorder : PreOrder node_keyed.
Proof. split; [by intros n Hk|]. unfold node_keyed. intros n1 n2 n3. auto. Qed.

Lemma keyed_insert f id r : rd_id (reg_descriptor r) = id → keyed f →
  keyed (set_resources f (<[id := r]> (f_resources f))).
Proof. intros Hr Hk id' r'. simpl. intros [[<- <-]|[_ Hl]]%lookup_insert_Some; [done|]. by apply Hk. Qed.
Lemma keyed_remove f id : keyed f → keyed (remove_resource_from id f).
Proof. intros Hk id' r'. simpl. intros [_ Hl]%lookup_delete_Some. by apply Hk. Qed.

Lemma keyed_on_fabric {E A} (m : comp Node E A) :
  (∀ n, keyed (nd_fabric n) → keyed (nd_fabric (m n).2)) → preserves keeps_keyed (on_fabric m).
Proof.
  intros Hm c Hk. unfold on_fabric. specialize (Hm (mkNode (co_fabric (co_state c)) (co_world c)) Hk).
  by destruct (m _) as [o n].
Qed.
Lemma keyed_members {E A} (m : comp Node E A) : preserves same_network m → preserves keeps_keyed (on_fabric m).
Proof.
  intros Hm. apply keyed_on_fabric. intros n Hk id r. rewrite (proj1 (Hm n)). apply Hk.
Qed.
#[export] Hint Resolve keyed_members : frame.

Section keyed.
Context `{HashOrder} `{UuidCrate}.
Lemma keyed_register {E} d : preserves keeps_keyed (on_fabric (register_resource (E:=E) d)).
Proof.
  apply keyed_on_fabric. intros n Hk. unfold register_resource, bind, fworld, fget, gets. simpl.
  destruct (now_unix_ms _) as [[] w]; simpl; try done. by apply keyed_insert.
Qed.
Lemma keyed_heartbeat id epoch : preserves keeps_keyed (on_fabric (heartbeat id epoch)).
Proof.
  apply keyed_on_fabric. intros n Hk. unfold heartbeat, bind, fget, gets, ok_or_throw, lift. simpl.
  destruct (f_resources (nd_fabric n) !! id) as [r|] eqn:Hr; [|done]. simpl.
  destruct (negb _); [done|]. unfold fworld. destruct (now_unix_ms _) as [[] w]; simpl; try done.
  apply keyed_insert; [|done]. simpl. by apply Hk.
Qed.
Lemma keyed_expire {E} t : preserves keeps_keyed (on_fabric (expire_resources_at (E:=E) t)).
Proof.
  apply keyed_on_fabric. change (preserves node_keyed (expire_resources_at (E:=E) t)).
  unfold expire_resources_at. apply preserves_bind; [apply _|by intros n|]. intros resources.
  apply preserves_bind; [apply _| |by intros ? n]. apply preserves_for_each; [apply _|].
  intros id n Hk. by apply keyed_remove.
Qed.
Lemma keyed_upsert_link {E} l : preserves keeps_keyed (on_fabric (upsert_link (E:=E) l)).
Proof. by apply keyed_on_fabric. Qed.
Lemma keyed_remove_link {E} a b : preserves keeps_keyed (on_fabric (remove_link (E:=E) a b)).
Proof. by apply keyed_on_fabric. Qed.
Hint Resolve keyed_register keyed_heartbeat keyed_expire keyed_upsert_link keyed_remove_link : frame.
Lemma keyed_handle request : preserves keeps_keyed (handle request).
Proof.
  unfold handle, respond. destruct request;
    unfold handle_register, handle_heartbeat, handle_list_resources, handle_poll_work,
      handle_renew, handle_complete, handle_publish, handle_replica, handle_submit_task,
      handle_get_task, handle_submit_cooperative, handle_plan, handle_get_job, handle_update_link,
      handle_report_measurement, maintenance_tick, forget_resource; keep;
    apply keyed_members; unfold active_resources, resource_epoch, publish_object, add_object_location; keep.
Qed.
Lemma steps_keyed c c' : steps c c' → keeps_keyed c c'.
Proof. induction 1 as [c|c1 c2 c3 [request ->] _ IH]; [done|]. etrans; [apply keyed_handle|exact IH]. Qed.
End keyed.

(** ** The clock is read in order *)

Definition later (n n' : Node) : Prop := later_world (nd_world n) (nd_world n').
Lemma later_fmod {E} (g : Fabric → Fabric) : preserves later (fmod (E:=E) g).
Proof. intros n. by exists 0%nat. Qed.
#[export] Hint Resolve later_fmod : frame.
#[global] Instance later_frame : Frame later.
Proof.
  assert (PreOrder later) by (split; [intros n; by exists 0%nat|]; intros n1 n2 n3; unfold later; by etrans).
  split; [done|..]; try (intros; apply later_fmod).
  - intros E A m Hm n. specialize (Hm (nd_world n)). unfold fworld, later. by destruct (m (nd_world n)).
  - intros task. unfold submit, set_task. keep.
Qed.

(** ** One assignment *)

(** The candidates [schedule_task] chooses among at time [now]. *)
Definition schedulable_at `{HashOrder} (f : Fabric) (now : Z) : list ResourceDescriptor :=
  reg_descriptor <$> List.filter (λ resource, active_at now resource
      && negb (bool_decide (rd_id (reg_descriptor resource) ∈ busy_at now (f_tasks f))))
    (hash_values (f_resources f)).

(** No task of [f] holds an unexpired lease on [resource_id] at [now]. *)
Definition idle_at (f : Fabric) (now : Z) (resource_id : ResourceId) : Prop :=
  ∀ id record lease, f_tasks f !! id = Some record → tr_status record = Running lease →
    el_resource_id lease = resource_id → el_expires_at_unix_ms lease ≤ now.

Lemma schedulable_at_spec `{HashOrder} f now descriptor :
  descriptor ∈ schedulable_at f now →
  ∃ id r, f_resources f !! id = Some r ∧ reg_descriptor r = descriptor ∧ active_at now r = true ∧
    idle_at f now (rd_id descriptor).
Proof.
  unfold schedulable_at. rewrite list_elem_of_fmap. intros (r & -> & Hr).
  apply list_elem_of_In, filter_In in Hr as [Hr [Hact Hbusy]%andb_prop].
  apply list_elem_of_In, elem_of_hash_values in Hr as [id Hr]. exists id, r. split_and!; [done..|].
  intros task record lease Ht Hs Hl. apply negb_true_iff, bool_decide_eq_false in Hbusy.
  destruct (Z.le_gt_cases (el_expires_at_unix_ms lease) now) as [|Hgt]; [done|]. exfalso. apply Hbusy.
  unfold busy_at. apply elem_of_list_to_set, list_elem_of_omap. exists record. split.
  - apply elem_of_hash_values. eauto.
  - rewrite Hs, (proj2 (Z.ltb_lt _ _)) by lia. by rewrite Hl.
Qed.

Section assignment.
Context `{HashOrder} `{UuidCrate}.

Definition same_fabric (n n' : Node) : Prop := nd_fabric n' = nd_fabric n.
#[global] Instance same_fabric_preorder : PreOrder same_fabric.
Proof. split; [by intros n|]. intros n1 n2 n3. unfold same_fabric. congruence. Qed.
Lemma fabric_fworld {E A} (m : comp World E A) : preserves same_fabric (fworld m).
Proof. intros n. unfold fworld, same_fabric. by destruct (m (nd_world n)). Qed.
Hint Resolve fabric_fworld : frame.
Lemma fabric_schedule_task id : preserves same_fabric (schedule_task id).
Proof. unfold schedule_task, schedulable_resources. keep. Qed.
Lemma fabric_resource_epoch {E} id : preserves same_fabric (resource_epoch (E:=E) id).
Proof. unfold resource_epoch. keep. Qed.

Lemma schedule_task_Ok id n d n' :
  schedule_task id n = (Ok d, n') →
  ∃ record now, now = now_of (nd_world n) ∧ f_tasks (nd_fabric n) !! id = Some record ∧ tr_status record = Pending ∧
    choose (f_scheduler (nd_fabric n)) (tr_spec record) (schedulable_at (nd_fabric n) now)
      (f_objects (nd_fabric n)) (f_topology (nd_fabric n)) = Ok d.
Proof.
  unfold schedule_task, schedulable_resources, bind, fget, gets, ok_or_throw, lift.
  destruct (f_tasks (nd_fabric n) !! id) as [record|] eqn:Ht; [|done]. simpl.
  case_bool_decide as Hp; [|done]. simpl. unfold fworld. rewrite now_unix_ms_spec.
  destruct (_ <? 0); simpl; try done. intros [= Hc _].
  exists record, (now_of (nd_world n)). split_and!; [done..|]. unfold schedulable_at.
  by destruct (choose _ _ _ _ _); simplify_eq/=.
Qed.

Lemma begin_execution_Ok task_id resource_id n lease n' :
  begin_execution task_id resource_id n = (Ok lease, n') →
  ∃ r record, f_resources (nd_fabric n) !! resource_id = Some r ∧
    f_tasks (nd_fabric n) !! task_id = Some record ∧
    el_task_id lease = task_id ∧ el_resource_id lease = resource_id ∧
    el_resource_epoch lease = rd_epoch (reg_descriptor r) ∧
    el_expires_at_unix_ms lease = saturating_add64 (now_of (nd_world n)) (f_execution_ttl_ms (nd_fabric n)) ∧
    nd_fabric n' = set_tasks (nd_fabric n)
      (<[task_id := mkTaskRecord (tr_spec record) (Running lease)]> (f_tasks (nd_fabric n))).
Proof.
  unfold begin_execution, find_active, bind, fworld at 1. rewrite now_unix_ms_spec.
  destruct (_ <? 0); [done|]. set (now := now_of _). unfold fget, gets. simpl.
  destruct (f_resources (nd_fabric n) !! resource_id) as [r|] eqn:Hr; [|done].
  destruct (active_at now r); [|done]. unfold ok_or_throw, lift. simpl.
  destruct (f_tasks (nd_fabric n) !! task_id) as [record|] eqn:Ht; [|done]. simpl.
  case_bool_decide; [|done]. simpl. intros [= <- <-]. exists r, record. by split_and!.
Qed.
End assignment.

(** ** Inputs the agent can fetch *)

(** A replica of an input: a location of the object, at the endpoint its
    resource registered, addressed by the object's digest. *)
Definition replica_ok (state : CoordinatorState) (metadata : ObjectMetadata) (replica : ObjectReplica) : Prop :=
  or_resource_id replica ∈ om_locations metadata ∧
  ∃ endpoint suffix, co_data_endpoints state !! or_resource_id replica = Some endpoint ∧
    om_digest metadata = Some ("sha256:" +:+ suffix) ∧
    or_url replica = endpoint +:+ "/v1/blobs/" +:+ suffix.
Definition input_ok (state : CoordinatorState) (id : ObjectId) (input : ResolvedObject) : Prop :=
  f_objects (co_fabric state) !! id = Some (ro_metadata input) ∧
  ro_replicas input ≠ [] ∧ Forall (replica_ok state (ro_metadata input)) (ro_replicas input).

Lemma ofold_collect {E A B} (g : A → outcome E B) (P : A → B → Prop) l acc bs :
  (∀ a b, g a = Ok b → P a b) →
  ofold (λ bs a, let? b := g a in Ok (bs ++ [b])) acc l = Ok bs →
  ∃ bs', bs = acc ++ bs' ∧ Forall2 P l bs'.
Proof.
  intros Hg. revert acc. induction l as [|a l IH]; intros acc; simpl.
  { intros [= <-]. exists []. by rewrite app_nil_r. }
  destruct (g a) as [b| | |] eqn:Ha; simpl; try done. intros (bs' & -> & Hbs)%IH.
  exists (b :: bs'). rewrite <- app_assoc. split; [done|]. constructor; [by apply Hg|done].
Qed.

Section inputs.
Context `{UuidCrate}.
Lemma resolve_input_Ok state id input : resolve_input state id = Ok input → input_ok state id input.
Proof.
  unfold resolve_input, input_ok, object_metadata.
  destruct (f_objects (co_fabric state) !! id) as [metadata|]; cbn [ok_or obind]; [|done].
  destruct (om_digest metadata) as [digest|] eqn:Hd; cbn [ok_or obind]; [|done].
  destruct (strip_prefix "sha256:" digest) as [suffix|] eqn:Hs; cbn [ok_or obind]; [|done].
  case_bool_decide as Hne; [done|]. intros [= <-]. simpl. split_and!; [done|by intros Hr; rewrite Hr in Hne|].
  apply Forall_forall. intros replica (location & Hl & Hr)%list_elem_of_omap.
  apply bind_Some in Hr as (endpoint & He & [= <-]). split; [done|]. exists endpoint, suffix. simpl.
  split_and!; [done| |done]. by rewrite Hd, (strip_prefix_Some _ _ _ Hs).
Qed.
Lemma resolve_inputs_Ok state ids inputs :
  resolve_inputs state ids = Ok inputs → Forall2 (input_ok state) ids inputs.
Proof.
  intros (inputs' & -> & Hall)%(ofold_collect _ (input_ok state)); [done|]. apply resolve_input_Ok.
Qed.
End inputs.

(** ** [poll_work] *)

(** [assignment] is work of [state] handed to [resource_id], leaving [state']. *)
Record assigned (c : Coord) (resource_id : ResourceId) (assignment : WorkAssignment) (c' : Coord)
    (state := co_state c) (state' := co_state c') : Prop := {
  as_lease : el_resource_id (wa_lease assignment) = resource_id;
  as_task : ∃ record, f_tasks (co_fabric state) !! el_task_id (wa_lease assignment) = Some record ∧
    tr_spec record = wa_task assignment ∧ tr_status record = Pending;
  as_epoch : ∃ r, f_resources (co_fabric state) !! resource_id = Some r ∧
    el_resource_epoch (wa_lease assignment) = rd_epoch (reg_descriptor r);
  as_expiry : ∃ w, later_world (co_world c) w ∧
    el_expires_at_unix_ms (wa_lease assignment) = saturating_add64 (now_of w) (f_execution_ttl_ms (co_fabric state));
  as_placed : ∃ id r cost w, f_resources (co_fabric state) !! id = Some r ∧
    rd_id (reg_descriptor r) = resource_id ∧
    feasible (f_scheduler (co_fabric state)) (wa_task assignment) (f_objects (co_fabric state))
      (f_topology (co_fabric state)) (reg_descriptor r) cost ∧
    later_world (co_world c) w ∧ active_at (now_of w) r = true ∧
    idle_at (co_fabric state) (now_of w) resource_id;
  as_inputs : Forall2 (input_ok state) (ts_inputs (wa_task assignment)) (wa_inputs assignment);
  as_endpoints : co_data_endpoints state' = co_data_endpoints state;
  as_fabric : co_fabric state' = set_tasks (co_fabric state)
    (<[el_task_id (wa_lease assignment) :=
        mkTaskRecord (wa_task assignment) (Running (wa_lease assignment))]> (f_tasks (co_fabric state)));
}.

Lemma on_fabric_inv {E A} (m : comp Node E A) c o c' :
  on_fabric m c = (o, c') →
  ∃ n', m (mkNode (co_fabric (co_state c)) (co_world c)) = (o, n') ∧
    c' = mkCoord (mkCoordinatorState (nd_fabric n') (co_data_endpoints (co_state c))
                    (co_manual_links (co_state c))) (nd_world n').
Proof. unfold on_fabric. destruct (m _) as [o' n']. intros [= <- <-]. by exists n'. Qed.
(** A reading operation leaves the coordinator's state. *)
Lemma on_fabric_reads {E A} (m : comp Node E A) c o c' :
  preserves same_fabric m → on_fabric m c = (o, c') → co_state c' = co_state c.
Proof.
  intros Hm (n' & Hn & ->)%on_fabric_inv. specialize (Hm (mkNode (co_fabric (co_state c)) (co_world c))).
  rewrite Hn in Hm. unfold same_fabric in Hm. simpl in *. rewrite Hm. by destruct (co_state c).
Qed.

Lemma on_fabric_later {E A} (m : comp Node E A) c o c' :
  preserves later m → on_fabric m c = (o, c') → later_world (co_world c) (co_world c').
Proof.
  intros Hm (n' & Hn & ->)%on_fabric_inv. specialize (Hm (mkNode (co_fabric (co_state c)) (co_world c))).
  by rewrite Hn in Hm.
Qed.

(** Time may pass before the assignment. *)
Lemma assigned_later c c1 resource_id assignment c' :
  co_state c1 = co_state c → later_world (co_world c) (co_world c1) →
  assigned c1 resource_id assignment c' → assigned c resource_id assignment c'.
Proof.
  intros Hs Hw [Hl Ht He Hx Hp Hi Hd Hf]. rewrite Hs in *. split; try done.
  - destruct Hx as (w & Hlater & Hx). exists w. split; [by etrans|done].
  - destruct Hp as (id & r & cost & w & ? & ? & ? & Hlater & ? & ?). exists id, r, cost, w.
    split_and!; try done. by etrans.
Qed.

Section poll.
Context `{HashOrder} `{UuidCrate}.

Lemma poll_tasks_assigned resource_id ids c assignment c' :
  poll_tasks resource_id ids c = (Ok (Some assignment), c') → assigned c resource_id assignment c'.
Proof.
  revert c. induction ids as [|id ids IH]; intros c; cbn [poll_tasks]; [done|].
  unfold bind at 1, try. destruct (on_fabric (schedule_task id) c) as [o c1] eqn:Hsched.
  pose proof (on_fabric_reads _ _ _ _ (fabric_schedule_task id) Hsched) as Hc1.
  pose proof (on_fabric_later _ _ _ _ (frame_schedule_task later id) Hsched) as Hw1.
  apply on_fabric_inv in Hsched as (n1 & Hsched & _).
  destruct o as [d|e| |]; simpl; try done; [|intros ?%IH; by eapply assigned_later].
  case_bool_decide as Hid; simpl; [|intros ?%IH; by eapply assigned_later].
  apply schedule_task_Ok in Hsched as (record & now & -> & Ht & Hp & Hchoose). simpl in *.
  unfold bind at 1, cget, gets. rewrite Hc1. unfold ok_or_throw, bind at 1, lift, task_spec.
  simpl. rewrite Ht. simpl.
  unfold bind at 1. destruct (resolve_inputs _ _) as [inputs| | |] eqn:Hin; try done. simpl.
  unfold bind at 1, rethrow.
  destruct (on_fabric (begin_execution id resource_id) c1) as [o2 c2] eqn:Hbegin.
  apply on_fabric_inv in Hbegin as (n2 & Hbegin & ->).
  destruct o2 as [lease| | |]; simpl; try done. intros [= <- <-].
  apply begin_execution_Ok in Hbegin as (r & record' & Hr & Ht' & Hl1 & Hl2 & Hl3 & Hexpiry & Hf).
  rewrite Hc1 in *. simpl in *. simplify_eq.
  destruct (choose_Ok_feasible _ _ _ _ _ _ Hchoose) as (rd & Hrd & Hrid & Hfeas).
  apply schedulable_at_spec in Hrd as (key & reg & Hreg & <- & Hact & Hidle). rewrite Hrid in Hidle.
  split; simpl; [done|eauto|eauto|by exists (co_world c1)| |by apply resolve_inputs_Ok|done|done].
  exists key, reg, (pd_cost d), (co_world c). by split_and!.
Qed.

Lemma resource_epoch_Ok {E} id n epoch n' :
  resource_epoch (E:=E) id n = (Ok (Some epoch), n') →
  ∃ r, f_resources (nd_fabric n) !! id = Some r ∧ rd_epoch (reg_descriptor r) = epoch.
Proof.
  unfold resource_epoch, bind, fworld, fget, gets. destruct (now_unix_ms _) as [[now| | |] w]; try done.
  simpl. destruct (f_resources (nd_fabric n) !! id) as [r|]; [|done].
  destruct (active_at now r); [|done]. intros [= <- _]. by exists r.
Qed.

(** Up to the assignment, polling keeps the members and moves the clock on. *)
Lemma handle_poll_work_assigned resource_id epoch c assignment c' :
  handle_poll_work resource_id epoch c = (Ok (Some assignment), c') →
  ∃ c1, assigned c1 resource_id assignment c' ∧ later_world (co_world c) (co_world c1) ∧
    f_resources (co_fabric (co_state c1)) = f_resources (co_fabric (co_state c)) ∧
    ∃ r, f_resources (co_fabric (co_state c)) !! resource_id = Some r ∧ rd_epoch (reg_descriptor r) = epoch.
Proof.
  unfold handle_poll_work, bind at 1.
  destruct (on_fabric (resource_epoch resource_id) c) as [o c0] eqn:Hepoch.
  pose proof (on_fabric_reads _ _ _ _ (fabric_resource_epoch resource_id) Hepoch) as Hc0.
  pose proof (on_fabric_later _ _ _ _ (frame_resource_epoch later resource_id) Hepoch) as Hw0.
  apply on_fabric_inv in Hepoch as (n0 & Hepoch & _).
  destruct o as [[current|]| | |]; try done. unfold bind at 1, ok_or_throw, lift. simpl.
  apply resource_epoch_Ok in Hepoch as (r & Hr & He).
  destruct (Z.eqb_spec current epoch) as [Heq|]; [|done]. simpl.
  unfold bind at 1, rethrow. destruct (on_fabric refresh_ready_roles c0) as [o1 c1] eqn:Hrefresh.
  pose proof (on_fabric_later _ _ _ _ (frame_refresh_ready_roles later) Hrefresh) as Hw1.
  apply on_fabric_inv in Hrefresh as (n1 & Hrefresh & Hc1).
  destruct o1 as [[]| | |]; simpl; try done. unfold bind at 1, cget, gets.
  intros Hpoll%poll_tasks_assigned. exists c1. split_and!; [done|by etrans| |exists r; by rewrite He].
  pose proof (frame_refresh_ready_roles same_network (mkNode (co_fabric (co_state c0)) (co_world c0))) as Hm.
  rewrite Hrefresh in Hm. destruct Hm as [Hm _]. simpl in Hm. rewrite Hc1. simpl. by rewrite Hm, Hc0.
Qed.
End poll.

(** C12 Work is assigned soundly.  When a poll of a reachable coordinator
    returns an assignment, the task it names was pending and now runs under
    exactly the lease it carries; the lease names the polling resource and its
    current epoch; the resource, as registered, supports the task's
    requirements and reaches all its inputs over the topology (the placement is
    feasible, at the cost the scheduler computed); every input comes with its
    published metadata and at least one replica, each of them a location of the
    object at the endpoint its resource registered, addressed by the object's
    digest; and at a clock reading of the poll no other task held an unexpired
    lease on the resource. *)
Theorem poll_work_sound `{HashOrder} `{UuidCrate} membership_ttl_ms execution_ttl_ms w c
    resource_id epoch assignment c'
    (Hsteps : steps (mkCoord (Coordinator_new membership_ttl_ms execution_ttl_ms) w) c)
    (Hpoll : handle_poll_work resource_id epoch c = (Ok (Some assignment), c')) :
  let f := co_fabric (co_state c') in
  let lease := wa_lease assignment in
  f_tasks f !! el_task_id lease = Some (mkTaskRecord (wa_task assignment) (Running lease)) ∧
  el_resource_id lease = resource_id ∧ el_resource_epoch lease = epoch ∧
  (∃ r cost, f_resources f !! resource_id = Some r ∧ rd_epoch (reg_descriptor r) = epoch ∧
     feasible (f_scheduler f) (wa_task assignment) (f_objects f) (f_topology f) (reg_descriptor r) cost) ∧
  Forall2 (input_ok (co_state c')) (ts_inputs (wa_task assignment)) (wa_inputs assignment) ∧
  (∃ k, ∀ other record lease', other ≠ el_task_id lease → f_tasks f !! other = Some record →
     tr_status record = Running lease' → el_resource_id lease' = resource_id →
     el_expires_at_unix_ms lease' ≤ w_clock (co_world c) k).
Proof.
  assert (Hkeyed : keyed (co_fabric (co_state c))) by by apply (steps_keyed _ _ Hsteps).
  apply handle_poll_work_assigned in Hpoll as (c1 & Hassigned & [k1 Hw1] & Hmembers & r & Hr & He).
  destruct Hassigned as [Hlease _ (r1 & Hr1 & Hepoch) _ Hplaced Hin Hends Hf]. simpl in *. rewrite Hf. simpl.
  destruct Hplaced as (key & reg & cost & w2 & Hreg & Hid & Hfeas & [k2 Hw2] & _ & Hidle).
  rewrite Hmembers in *. assert (key = resource_id) as -> by (rewrite <- Hid; symmetry; by apply Hkeyed).
  simplify_eq. split_and!; try done.
  - by rewrite lookup_insert_eq.
  - eauto.
  - eapply Forall2_impl; [exact Hin|]. intros id input. unfold input_ok, replica_ok. by rewrite Hf, Hends.
  - exists (k1 + k2)%nat. intros other record lease' Hne. rewrite lookup_insert_ne by done.
    intros Ht Hs Hl. pose proof (Hidle other record lease' Ht Hs Hl) as Hle.
    unfold now_of in Hle. rewrite Hw2, Hw1 in Hle. rewrite Nat.add_0_r in Hle. lia.
Qed.

(** *** Application: the first poll of the run of [Evolution] *)

#[local] Existing Instances Run.order Run.text.

Lemma poll_work_sound_witness :
  ∃ assignment c', handle_poll_work (Samples.resource_id 2) 1 sample_pending = (Ok (Some assignment), c') ∧
    f_tasks (co_fabric (co_state c')) !! el_task_id (wa_lease assignment) =
      Some (mkTaskRecord (wa_task assignment) (Running (wa_lease assignment))) ∧
    el_resource_id (wa_lease assignment) = Samples.resource_id 2.
Proof.
  destruct (handle_poll_work (Samples.resource_id 2) 1 sample_pending) as [o c'] eqn:Hpoll.
  assert (Ho : match o with Ok (Some _) => true | _ => false end = true).
  { replace o with (handle_poll_work (Samples.resource_id 2) 1 sample_pending).1 by (rewrite Hpoll; reflexivity). vm_compute. reflexivity. }
  destruct o as [[assignment|]| | |]; try discriminate Ho. exists assignment, c'.
  destruct (poll_work_sound 15000 60000 (Samples.world_at 8 1000 100000) sample_pending
    (Samples.resource_id 2) 1 assignment c') as (Htask & Hlease & _).
  - do 6 (eapply rtc_r; [|by eexists]). apply rtc_refl.
  - exact Hpoll.
  - split_and!; [reflexivity|exact Htask|exact Hlease].
Defined.
