(* ===== verification/RoleFlow.v ===== *)
(** * The invariant of the role runtime

    What the fabric's bookkeeping of a job means: a role is launched after the
    roles it depends on, its tasks read what they put out, and a role that has
    completed keeps its outputs.  Here the invariant, how a change of one role
    keeps it, and that launching the ready roles does. *)

From stdpp Require Import relations.
From S2P Require Import Prelude Float64 World Text Core Samples Scheduler RoleGraph Partition Placement Reduction Fusion LogicalJob Planner Fabric Roles Execution Coordinator Clock Frames Evolution Leases Safety.

Open Scope string_scope.
Open Scope list_scope.
Open Scope Z_scope.

(** ** What the bookkeeping of a job says *)

(** A role that no task has been made for. *)
Definition idle (status : CooperativeRoleStatus) : bool :=
  match status with Waiting | Ready => true | _ => false end.
Definition idle_role (job : CooperativeJobRecord) (role : string) : Prop :=
  ∃ status, job_roles job !! role = Some status ∧ idle status = true.
Definition launched (job : CooperativeJobRecord) (role : string) : Prop :=
  ∃ status, job_roles job !! role = Some status ∧ idle status = false.

(** A role that may run as several tasks. *)
Definition fans_out (definition : JobDefinition) (name : string) : Prop :=
  ∃ spec role, definition = Logical spec ∧ role ∈ lj_roles spec ∧ lr_name role = name ∧
    may_fan_out (lr_shards role) = true.
(** The number of shards a role's policy allows: the fixed count, which is not 0
    in an accepted job, or at least one and at most the maximum. *)
Definition shard_count (definition : JobDefinition) (name : string) (count : Z) : Prop :=
  ∃ spec role, definition = Logical spec ∧ role ∈ lj_roles spec ∧ lr_name role = name ∧
    may_fan_out (lr_shards role) = true ∧
    match lr_shards role with Fixed fixed => count = fixed | PolicyAuto policy => 1 ≤ count ≤ Z.max 1 (ap_max_shards policy) end.
(** A role that will not run again: it has completed with [outputs] or, where
    it runs as several tasks, it is uncertain what one of them did. *)
Definition settled (job : CooperativeJobRecord) (role : string) (outputs : list ObjectId) : Prop :=
  job_reductions job !! role = None ∧
  (job_roles job !! role = Some (RoleCompleted outputs) ∨
   job_roles job !! role = Some RoleUncertain ∧ fans_out (job_definition job) role).

Abbreviation Tasks := (gmap TaskId TaskRecord).
Abbreviation Bindings := (gmap TaskId TaskRoleBinding).

Definition binding_job (binding : TaskRoleBinding) : JobId :=
  match binding with
  | BindSingle job_id _ | BindFusedChain job_id _ | BindShard job_id _ | BindReduction job_id _ => job_id
  end.
Definition binding_roles (binding : TaskRoleBinding) : list string :=
  match binding with
  | BindSingle _ role | BindShard _ role | BindReduction _ role => [role]
  | BindFusedChain _ roles => roles
  end.
(** The role whose dependencies the task reads. *)
Definition reading_role (binding : TaskRoleBinding) : option string :=
  match binding with
  | BindSingle _ role | BindShard _ role => Some role
  | BindFusedChain _ roles => head roles
  | BindReduction _ _ => None
  end.
(** The roles that stand and fall with the task. *)
Definition whole_roles (binding : TaskRoleBinding) : list string :=
  match binding with
  | BindSingle _ role => [role]
  | BindFusedChain _ roles => roles
  | BindShard _ _ | BindReduction _ _ => []
  end.

(** *** Where outputs come from *)

(** The roles of which a reducer may have been left behind: made, but in no
    level of the role's reduction. *)
Class Strays := stray : JobId → string → Prop.
Definition any_strays : Strays := λ _ _, True.
(** A level of the role's reduction waits for the task. *)
Definition in_level (f : Fabric) (job_id : JobId) (role : string) (id : TaskId) : Prop :=
  ∃ job state, f_jobs f !! job_id = Some job ∧ job_reductions job !! role = Some state ∧ ItemTask id ∈ red_items state.

Section results.
Context (tasks : Tasks) (bindings : Bindings) (job_id : JobId) (definition : JobDefinition) (role : string).

Definition completed_with (id : TaskId) (outputs : list ObjectId) : Prop :=
  ∃ record, tasks !! id = Some record ∧ tr_status record = TaskCompleted outputs.

(** The task is shard [index] of the [count] of the role. *)
Definition is_shard (count index : Z) (id : TaskId) : Prop :=
  bindings !! id = Some (BindShard job_id role) ∧
  ∃ record partition, tasks !! id = Some record ∧ ts_shard (tr_spec record) = Some (mkTaskShard index count partition).
(** One task for every shard, in order. *)
Definition all_shards (ids : list TaskId) : Prop :=
  ∃ count, shard_count definition role count ∧ Forall2 (is_shard count) (seqZ 0 count) ids.
(** The shards put out [outputs]: all of them, in order. *)
Definition shards_result (outputs : list ObjectId) : Prop :=
  ∃ ids results, all_shards ids ∧ Forall2 completed_with ids results ∧ outputs = concat results.

(** The task reduces the objects of [group], two or more. *)
Definition reduces (reduction : RoleReductionSpec) (group : list ObjectId) (id : TaskId) : Prop :=
  (2 <= length group)%nat ∧ bindings !! id = Some (BindReduction job_id role) ∧
  ∃ record, tasks !! id = Some record ∧ runs_whole (rr_task reduction) group (tr_spec record).
(** A group is reduced to an object, or is one object. *)
Definition reduced_to (reduction : RoleReductionSpec) (group : list ObjectId) (object : ObjectId) : Prop :=
  group = [object] ∨ ∃ id, reduces reduction group id ∧ completed_with id [object].
(** A level of two objects or more is cut into groups, in order. *)
Definition level_result (reduction : RoleReductionSpec) (inputs next : list ObjectId) : Prop :=
  (2 <= length inputs)%nat ∧ ∃ groups, concat groups = inputs ∧ Forall2 (reduced_to reduction) groups next.

(** What a completed role has put out: the outputs of the task that ran it (in a
    chain, the last role has them); those of all its shards in order; or the one
    object that reducing these, level by level, leaves. *)
Inductive role_result : list ObjectId → Prop :=
| result_whole id binding outputs :
    bindings !! id = Some binding → binding_job binding = job_id → role ∈ whole_roles binding →
    completed_with id outputs →
    role_result (if bool_decide (list.last (whole_roles binding) = Some role) then outputs else [])
| result_shards outputs :
    shards_result outputs → (logical_role_reduction definition role = None ∨ (length outputs ≤ 1)%nat) →
    role_result outputs
| result_reduced reduction outputs object :
    logical_role_reduction definition role = Some reduction → shards_result outputs →
    (2 <= length outputs)%nat → rtc (level_result reduction) outputs [object] →
    role_result [object].

(** An item of a level under way, and the group it stands for. *)
Definition item_under_way (reduction : RoleReductionSpec) (group : list ObjectId) (item : ReductionItem) : Prop :=
  match item with ItemCarry object => group = [object] | ItemTask id => reduces reduction group id end.
(** A level of a reduction: it follows from what all shards have put out, and
    its items, if there are any, stand for its objects. *)
Definition level_ok (reduction : RoleReductionSpec) (outputs inputs : list ObjectId) (items : list ReductionItem) : Prop :=
  rtc (level_result reduction) outputs inputs ∧ inputs ≠ [] ∧
  (items = [] ∨ (2 <= length inputs)%nat ∧ ∃ groups, concat groups = inputs ∧
     Forall2 (item_under_way reduction) groups items).
(** A reduction under way.  When a reducer that was left behind is completed, the
    level is taken to be at its end, and is lost. *)
Definition reduction_ok `{Strays} (state : ActiveReduction) : Prop :=
  ∃ reduction outputs, logical_role_reduction definition role = Some reduction ∧ shards_result outputs ∧
    (2 <= length outputs)%nat ∧
    (level_ok reduction outputs (red_inputs state) (red_items state) ∨
     red_inputs state = [] ∧ red_items state = [] ∧ stray job_id role).
(** What a role is recorded to have put out. *)
Definition recorded_result `{Strays} (outputs : list ObjectId) : Prop :=
  role_result outputs ∨ outputs = [] ∧ stray job_id role.
End results.

Section strays.
Context {strays : Strays}.

(** *** What tasks run *)

(** The templates a role's task may be made from. *)
Definition role_template (definition : JobDefinition) (name : string) (template : TaskTemplate) : Prop :=
  match definition with
  | Cooperative spec => ∃ role, role ∈ cj_roles spec ∧ cr_name role = name ∧ template = cr_task role
  | Logical spec => ∃ role implementation, role ∈ lj_roles spec ∧ lr_name role = name ∧
      implementation ∈ lr_implementations role ∧ template = ri_task implementation
  end.
(** Each role but the first depends on the one before it, and on nothing else. *)
Definition one_by_one (definition : JobDefinition) (names : list string) : Prop :=
  ∀ i previous next, names !! i = Some previous → names !! S i = Some next →
    (next, [previous]) ∈ definition_roles definition.
(** A pipeline with a stage for each of the templates: the first stage reads its
    template's own inputs and then [objects], each other its template's own
    inputs and then what the stage before it puts out. *)
Definition runs_chain (templates : list TaskTemplate) (objects : list ObjectId) (task : TaskSpec) : Prop :=
  ts_artifact task = "plurifold:pipeline" ∧ ts_entrypoint task = "run" ∧ ts_arguments task = [] ∧
  ts_effects task = Pure ∧ ts_shard task = None ∧
  ∃ first rest stage later, templates = first :: rest ∧ ts_pipeline task = Some (stage :: later) ∧
    stage_runs (ts_inputs task) first (Some <$> tt_inputs first ++ objects) stage ∧
    Forall2 (later_stage_runs (ts_inputs task)) rest later.
(** The task runs what it is bound to, on [objects]. *)
Definition runs_roles (definition : JobDefinition) (binding : TaskRoleBinding) (objects : list ObjectId)
    (task : TaskSpec) : Prop :=
  match binding with
  | BindSingle _ role => ∃ template, role_template definition role template ∧ runs_whole template objects task
  | BindFusedChain _ roles => one_by_one definition roles ∧
      ∃ templates, Forall2 (role_template definition) roles templates ∧ runs_chain templates objects task
  | BindShard _ role => ∃ template shard, role_template definition role template ∧
      runs_template template objects task ∧ ts_shard task = Some shard ∧ 0 ≤ sh_index shard < sh_count shard
  | BindReduction _ _ => False
  end.

(** A role that is depended on: it has settled, and [outputs] are its tasks' work. *)
Definition supplied (tasks : Tasks) (bindings : Bindings) (job_id : JobId) (job : CooperativeJobRecord)
    (role : string) (outputs : list ObjectId) : Prop :=
  settled job role outputs ∧ recorded_result tasks bindings job_id (job_definition job) role outputs.
(** The task runs what it is bound to on what the roles that [role] depends on
    have put out. *)
Definition reads_dependencies (tasks : Tasks) (bindings : Bindings) (job : CooperativeJobRecord)
    (binding : TaskRoleBinding) (role : string) (task : TaskSpec) : Prop :=
  ∃ dependencies outputs,
    (role, dependencies) ∈ definition_roles (job_definition job) ∧
    Forall2 (supplied tasks bindings (binding_job binding) job) dependencies outputs ∧
    runs_roles (job_definition job) binding (concat outputs) task.

(** ** The invariant *)

(** The status of such a role, given its task: in a chain the last role has the
    outputs. *)
Definition whole_status (binding : TaskRoleBinding) (role : string) (id : TaskId) (record : TaskRecord)
    (status : CooperativeRoleStatus) : Prop :=
  match status with
  | Submitted id' => id' = id
  | RoleCompleted outputs => ∃ outputs', tr_status record = TaskCompleted outputs' ∧
      outputs = if bool_decide (list.last (whole_roles binding) = Some role) then outputs' else []
  | RoleUncertain => tr_status record = TaskUncertain
  | _ => False
  end.
Definition dependencies_launched (job : CooperativeJobRecord) (role : string) : Prop :=
  ∀ dependencies, (role, dependencies) ∈ definition_roles (job_definition job) → Forall (launched job) dependencies.
Record bound_ok (tasks : Tasks) (bindings : Bindings) (job : CooperativeJobRecord) (id : TaskId) (record : TaskRecord) (binding : TaskRoleBinding) : Prop := {
  bo_nodup : NoDup (whole_roles binding);
  bo_whole : ∀ role, role ∈ whole_roles binding →
    ¬ fans_out (job_definition job) role ∧
    ∃ status, job_roles job !! role = Some status ∧ whole_status binding role id record status;
  bo_shared : ∀ role, role ∈ binding_roles binding → role ∈ whole_roles binding ∨
    fans_out (job_definition job) role ∧ dependencies_launched job role;
  bo_reads : ∀ role, reading_role binding = Some role →
    reads_dependencies tasks bindings job binding role (tr_spec record);
}.

(** A task of the role that may not be run again was lost. *)
Definition lost_work (tasks : Tasks) (bindings : Bindings) (job_id : JobId) (role : string) : Prop :=
  ∃ id binding record, bindings !! id = Some binding ∧ binding_job binding = job_id ∧
    role ∈ binding_roles binding ∧ tasks !! id = Some record ∧ tr_status record = TaskUncertain.

(** What a role's status says of the tasks. *)
Definition status_ok (tasks : Tasks) (bindings : Bindings) (job_id : JobId) (definition : JobDefinition) (role : string)
    (status : CooperativeRoleStatus) : Prop :=
  match status with
  | Sharded ids _ => all_shards tasks bindings job_id definition role ids
  | RoleCompleted outputs => recorded_result tasks bindings job_id definition role outputs
  | RoleUncertain => lost_work tasks bindings job_id role
  | _ => True
  end.

Record job_flow (tasks : Tasks) (bindings : Bindings) (job_id : JobId) (job : CooperativeJobRecord) : Prop := {
  jf_definition : definition_ok (job_definition job);
  jf_roles : ∀ role dependencies, (role, dependencies) ∈ definition_roles (job_definition job) →
    is_Some (job_roles job !! role);
  jf_known : ∀ role, is_Some (job_roles job !! role) → role ∈ (definition_roles (job_definition job)).*1;
  jf_order : ∀ role dependencies, (role, dependencies) ∈ definition_roles (job_definition job) →
    launched job role → Forall (launched job) dependencies;
  jf_reductions : ∀ role state, job_reductions job !! role = Some state →
    fans_out (job_definition job) role ∧ reduction_ok tasks bindings job_id (job_definition job) role state ∧
    ∃ status, job_roles job !! role = Some status ∧
      match status with Reducing _ _ _ | RoleUncertain => True | _ => False end;
  jf_status : ∀ role status, job_roles job !! role = Some status →
    status_ok tasks bindings job_id (job_definition job) role status;
  jf_bound : ∀ id binding record, bindings !! id = Some binding → binding_job binding = job_id →
    tasks !! id = Some record → bound_ok tasks bindings job id record binding;
}.
Record flow_ok (f : Fabric) : Prop := {
  fo_jobs : ∀ id job, f_jobs f !! id = Some job → job_flow (f_tasks f) (f_task_roles f) id job;
  fo_bindings : ∀ id binding, f_task_roles f !! id = Some binding →
    is_Some (f_tasks f !! id) ∧ is_Some (f_jobs f !! binding_job binding);
}.

(** ** How jobs may move on *)

Record job_moves (job job' : CooperativeJobRecord) : Prop := {
  jm_definition : job_definition job' = job_definition job;
  jm_roles : ∀ role, is_Some (job_roles job' !! role) → is_Some (job_roles job !! role);
  jm_launched : ∀ role, launched job role → launched job' role;
  jm_settled : ∀ role outputs, settled job role outputs → settled job' role outputs;
}.
#[global] Instance job_moves_preorder : PreOrder job_moves.
Proof. split; [by intros j|]. intros j1 j2 j3 [????] [????]. split; [congruence|auto..]. Qed.

Record moves (f f' : Fabric) : Prop := {
  mv_jobs : grows job_moves (f_jobs f) (f_jobs f');
  mv_bindings : grows eq (f_task_roles f) (f_task_roles f');
  mv_tasks : grows task_evolves (f_tasks f) (f_tasks f');
  mv_listed : ∀ job_id role id, in_level f job_id role id →
    in_level f' job_id role id ∨ ∃ outputs, completed_with (f_tasks f') id outputs;
}.
#[global] Instance moves_preorder : PreOrder moves.
Proof.
  split; [intros f; split; try reflexivity; by left|].
  intros f1 f2 f3 [? ? ? Hl] [? ? Ht Hl']. split; [by etrans..|]. intros job_id role id [Hin|[outs (r & Hr & Hs)]]%Hl.
  - by apply Hl'.
  - right. destruct (Ht id r Hr) as (r' & Hr' & _ & Hev). rewrite Hs in Hev. by exists outs, r'.
Qed.

(** The invariant is kept, and jobs only move on. *)
Definition flows (n n' : Node) : Prop :=
  flow_ok (nd_fabric n) → flow_ok (nd_fabric n') ∧ moves (nd_fabric n) (nd_fabric n').
#[global] Instance flows_preorder : PreOrder flows.
Proof.
  split; [by intros n|]. intros n1 n2 n3 H12 H23 H1. destruct (H12 H1) as [H2 ?].
  destruct (H23 H2) as [H3 ?]. split; [done|]. by etrans.
Qed.

(** *** Small facts *)

Lemma jf_uncertain tasks bindings job_id job role :
  job_flow tasks bindings job_id job → job_roles job !! role = Some RoleUncertain → lost_work tasks bindings job_id role.
Proof. intros Hflow Hs. exact (jf_status _ _ _ _ Hflow role _ Hs). Qed.

(** The outcome of a task that has ended is final, so what a status says stays
    true. *)
Section grows.
Context (tasks tasks' : Tasks) (bindings bindings' : Bindings).
Context (Htasks : grows task_evolves tasks tasks') (Hbindings : grows eq bindings bindings').

Lemma bound_grows id b : bindings !! id = Some b → bindings' !! id = Some b.
Proof. intros Hid. by destruct (Hbindings id b Hid) as (? & ? & <-). Qed.
Lemma completed_with_grows id outputs : completed_with tasks id outputs → completed_with tasks' id outputs.
Proof.
  intros (record & Ht & Hs). destruct (Htasks id record Ht) as (record' & Ht' & _ & Hev').
  rewrite Hs in Hev'. by exists record'.
Qed.
Lemma all_shards_grows job_id definition role ids :
  all_shards tasks bindings job_id definition role ids → all_shards tasks' bindings' job_id definition role ids.
Proof.
  intros (count & Hcount & Hids). exists count. split; [done|]. eapply Forall2_impl; [exact Hids|]. intros i id [Hb (record & partition & Ht & Hs)].
  split; [by apply bound_grows|]. destruct (Htasks id record Ht) as (record' & Ht' & Hspec & _).
  exists record', partition. by rewrite Hspec.
Qed.
Lemma shards_result_grows job_id definition role outputs :
  shards_result tasks bindings job_id definition role outputs → shards_result tasks' bindings' job_id definition role outputs.
Proof.
  intros (ids & results & Hall & Hres & ->). exists ids, results.
  split_and!; [by apply all_shards_grows| |done]. eapply Forall2_impl; [exact Hres|]. apply completed_with_grows.
Qed.
Lemma reduces_grows job_id role reduction group id :
  reduces tasks bindings job_id role reduction group id → reduces tasks' bindings' job_id role reduction group id.
Proof.
  intros (Hl & Hb & record & Ht & Hruns). split_and!; [done|by apply bound_grows|].
  destruct (Htasks id record Ht) as (record' & Ht' & Hspec & _). exists record'. by rewrite Hspec.
Qed.
Lemma level_result_grows job_id role reduction inputs next :
  level_result tasks bindings job_id role reduction inputs next →
  level_result tasks' bindings' job_id role reduction inputs next.
Proof.
  intros (Hl & groups & Hcat & Hall). split; [done|]. exists groups. split; [done|].
  eapply Forall2_impl; [exact Hall|]. intros group object [->|(id & Hr & Hc)]; [by left|right].
  exists id. split; [by apply reduces_grows|by apply completed_with_grows].
Qed.
Lemma levels_grow job_id role reduction inputs next :
  rtc (level_result tasks bindings job_id role reduction) inputs next →
  rtc (level_result tasks' bindings' job_id role reduction) inputs next.
Proof. apply rtc_subrel. intros x y. apply level_result_grows. Qed.
Lemma role_result_grows job_id definition role outputs :
  role_result tasks bindings job_id definition role outputs → role_result tasks' bindings' job_id definition role outputs.
Proof.
  destruct 1 as [id b outs|outs|reduction outs object].
  - eapply result_whole; eauto using bound_grows, completed_with_grows.
  - apply result_shards; eauto using shards_result_grows.
  - eapply result_reduced; eauto using shards_result_grows, levels_grow.
Qed.
Lemma recorded_result_grows job_id definition role outputs :
  recorded_result tasks bindings job_id definition role outputs →
  recorded_result tasks' bindings' job_id definition role outputs.
Proof. intros [|]; [left; by apply role_result_grows|by right]. Qed.
Lemma level_ok_grows job_id role reduction outputs inputs items :
  level_ok tasks bindings job_id role reduction outputs inputs items →
  level_ok tasks' bindings' job_id role reduction outputs inputs items.
Proof.
  intros (Hrtc & Hne & Hitems). split_and!; [by apply levels_grow|done|].
  destruct Hitems as [|(Hl' & groups & Hcat & Hall)]; [by left|right]. split; [done|]. exists groups. split; [done|].
  eapply Forall2_impl; [exact Hall|]. intros group [object|id]; [done|]. apply reduces_grows.
Qed.
Lemma reduction_ok_grows job_id definition role state :
  reduction_ok tasks bindings job_id definition role state → reduction_ok tasks' bindings' job_id definition role state.
Proof.
  intros (reduction & outputs & Hr & Hs & Hl & Hlevel). exists reduction, outputs.
  split_and!; eauto using shards_result_grows. destruct Hlevel; [left; by apply level_ok_grows|by right].
Qed.
Lemma status_ok_grows job_id definition role status :
  status_ok tasks bindings job_id definition role status → status_ok tasks' bindings' job_id definition role status.
Proof.
  destruct status as [| | |ids count| |outputs|]; simpl; try (by intros _).
  - apply all_shards_grows.
  - apply recorded_result_grows.
  - intros (id & b & record & Hid & Hj & Hin & Hr & Hs). destruct (Htasks id record Hr) as (record' & Hr' & _ & Hev).
    rewrite Hs in Hev. exists id, b, record'. split_and!; auto using bound_grows.
Qed.
End grows.

Lemma job_moves_grows f f' id job :
  moves f f' → f_jobs f !! id = Some job → ∃ job', f_jobs f' !! id = Some job' ∧ job_moves job job'.
Proof. intros Hm Hj. exact (mv_jobs _ _ Hm id job Hj). Qed.
Lemma idle_not_launched job role : idle_role job role → ¬ launched job role.
Proof. intros (s & Hs & Hi) (s' & Hs' & Hi'). congruence. Qed.
Lemma idle_or_launched job role : is_Some (job_roles job !! role) → idle_role job role ∨ launched job role.
Proof. intros [s Hs]. destruct (idle s) eqn:Hi; [left|right]; by exists s. Qed.
Lemma settled_launched job role outputs : settled job role outputs → launched job role.
Proof. by intros [_ [Hs|[Hs _]]]; eexists. Qed.
Lemma settled_all_launched job dependencies outputs :
  Forall2 (settled job) dependencies outputs → Forall (launched job) dependencies.
Proof. induction 1; constructor; eauto using settled_launched. Qed.
Lemma launched_moves job job' roles : job_moves job job' → Forall (launched job) roles → Forall (launched job') roles.
Proof. intros Hm Hl. eapply Forall_impl; [exact Hl|]. by apply jm_launched. Qed.

Lemma dependencies_launched_moves job job' role :
  job_moves job job' → dependencies_launched job role → dependencies_launched job' role.
Proof. intros Hm Hl deps. rewrite (jm_definition _ _ Hm). intros Hin. by eapply launched_moves, Hl. Qed.

Lemma definition_names_nodup definition : definition_ok definition → NoDup (definition_roles definition).*1.
Proof.
  destruct definition as [spec|spec]; simpl; [intros Hwf|intros [Hwf _]]; exact (wf_unique _ _ Hwf).
Qed.
Lemma role_dependencies_unique definition role deps deps' :
  definition_ok definition → (role, deps) ∈ definition_roles definition →
  (role, deps') ∈ definition_roles definition → deps = deps'.
Proof.
  intros Hnd%definition_names_nodup. induction (definition_roles definition) as [|[r d] l IH]; simpl in *; [set_solver|].
  apply NoDup_cons in Hnd as [Hr Hnd].
  intros [[= -> ->]|H1]%elem_of_cons [[= ->]|H2]%elem_of_cons; try done; [..|by apply IH].
  all: contradict Hr; apply list_elem_of_fmap; eexists; split; [|eassumption]; done.
Qed.

Lemma supplied_moves tasks tasks' bindings bindings' job_id job job' dependencies outputs :
  grows task_evolves tasks tasks' → grows eq bindings bindings' → job_moves job job' →
  Forall2 (supplied tasks bindings job_id job) dependencies outputs →
  Forall2 (supplied tasks' bindings' job_id job') dependencies outputs.
Proof.
  intros Ht Hb Hm Hs. eapply Forall2_impl; [exact Hs|]. intros d outs [Hset Hres]. split; [by eapply jm_settled|].
  rewrite (jm_definition _ _ Hm). by eapply recorded_result_grows.
Qed.
Lemma supplied_settled tasks bindings job_id job dependencies outputs :
  Forall2 (supplied tasks bindings job_id job) dependencies outputs → Forall2 (settled job) dependencies outputs.
Proof. intros Hs. eapply Forall2_impl; [exact Hs|]. by intros d outs []. Qed.
Lemma reads_dependencies_moves tasks tasks' bindings bindings' job job' binding role task :
  grows task_evolves tasks tasks' → grows eq bindings bindings' → job_moves job job' →
  reads_dependencies tasks bindings job binding role task → reads_dependencies tasks' bindings' job' binding role task.
Proof.
  intros Ht Hb Hm (deps & outputs & Hrole & Hs & Hruns). rewrite <- (jm_definition _ _ Hm) in Hrole, Hruns.
  exists deps, outputs. split_and!; [done|by eapply supplied_moves|done].
Qed.

(** A task's status only advances, so what it says of a role stays true. *)
Lemma whole_status_evolves binding role id record record' status :
  task_evolves record record' → whole_status binding role id record status →
  whole_status binding role id record' status.
Proof.
  intros [_ Hev]. destruct status as [| | | | |outputs|]; simpl; try done.
  - intros (outputs' & Hs & ->). rewrite Hs in Hev. simpl in Hev. by exists outputs'.
  - intros Hs. by rewrite Hs in Hev.
Qed.
Lemma bound_ok_evolves tasks tasks' bindings bindings' job id record record' binding :
  grows task_evolves tasks tasks' → grows eq bindings bindings' → task_evolves record record' →
  bound_ok tasks bindings job id record binding → bound_ok tasks' bindings' job id record' binding.
Proof.
  intros Ht Hb Hev [Hnd Hwhole Hshared Hreads]. split; [done| |done|].
  - intros role Hrole. destruct (Hwhole role Hrole) as (Hf & status & Hs & Hst). split; [done|].
    exists status. split; [done|]. by eapply whole_status_evolves.
  - intros role Hrole. rewrite (proj1 Hev). eapply reads_dependencies_moves; [exact Ht|exact Hb|done|by apply Hreads].
Qed.

(** ** Steps that make no role and bind no task *)

Lemma job_flow_evolves tasks tasks' bindings id job :
  grows task_evolves tasks tasks' → (∀ t, is_Some (bindings !! t) → is_Some (tasks !! t)) →
  job_flow tasks bindings id job → job_flow tasks' bindings id job.
Proof.
  intros Hev Hbound [Hd Hr Hk Ho Hred Hu Hb]. split; try done.
  - intros role state Hs. destruct (Hred role state Hs) as (? & ? & ?).
    split_and!; [done|eapply reduction_ok_grows; [exact Hev|reflexivity|done]|done].
  - intros role status Hs. eapply status_ok_grows; [exact Hev|reflexivity|by apply Hu].
  - intros t b record' Htb Hj Ht'. destruct (Hbound t ltac:(by eexists)) as [record Ht].
    destruct (Hev t record Ht) as (record1 & Ht1 & Hev'). simplify_eq.
    eapply bound_ok_evolves; [exact Hev|reflexivity|exact Hev'|]. by eapply Hb.
Qed.
Definition same_work (f f' : Fabric) : Prop := f_jobs f' = f_jobs f ∧ f_task_roles f' = f_task_roles f.
Lemma same_work_flows n n' :
  same_work (nd_fabric n) (nd_fabric n') → node_evolves n n' → flows n n'.
Proof.
  intros [Hj Hb] Hev [Hjobs Hbindings]. split; split; rewrite ?Hj, ?Hb; try done; try apply Hev.
  3: { intros job_id role id Hin. left. unfold in_level. by rewrite Hj. }
  - intros id job Hjob. eapply job_flow_evolves; [apply Hev| |by apply Hjobs].
    intros t [b Htb]. by apply (Hbindings t b).
  - intros t b Htb. destruct (Hbindings t b Htb) as [Ht ?]. split; [|done]. by eapply (has_task_evolves t _ _ Hev).
Qed.

(** ** One role of a job changes *)

Section set_role.
Context (tasks : Tasks) (bindings : Bindings) (job_id : JobId) (job job' : CooperativeJobRecord).
Context (role : string) (status : CooperativeRoleStatus).
Context (Hflow : job_flow tasks bindings job_id job).
Context (Hknown : is_Some (job_roles job !! role)).
Context (Hdefinition : job_definition job' = job_definition job).
Context (Hstatus : job_roles job' = <[role := status]> (job_roles job)).
Context (Hothers : ∀ other, other ≠ role → job_reductions job' !! other = job_reductions job !! other).
Context (Hidle : launched job role → idle status = false).
Context (Hsettled : ∀ outputs, settled job role outputs →
  job_reductions job' !! role = None ∧ (status = RoleCompleted outputs ∨ status = RoleUncertain ∧ fans_out (job_definition job) role)).

Lemma set_role_moves : job_moves job job'.
Proof.
  split; [done|..].
  - intros r. rewrite Hstatus. by destruct (decide (r = role)) as [->|Hne]; [|rewrite lookup_insert_ne].
  - intros r (s & Hs & Hi). destruct (decide (r = role)) as [->|Hne].
    + exists status. rewrite Hstatus, lookup_insert_eq. split; [done|]. apply Hidle. by exists s.
    + exists s. by rewrite Hstatus, lookup_insert_ne.
  - intros r outputs Hr. destruct (decide (r = role)) as [->|Hne].
    + destruct (Hsettled outputs Hr) as [Hn Hs]. split; [done|]. rewrite Hstatus, Hdefinition, lookup_insert_eq.
      destruct Hs as [->|[-> ?]]; [by left|by right].
    + destruct Hr as [Hn Hs]. split; [by rewrite Hothers|]. by rewrite Hstatus, Hdefinition, lookup_insert_ne.
Qed.

Context (Hlaunch : idle status = false → ∀ dependencies,
  (role, dependencies) ∈ definition_roles (job_definition job) → launched job role ∨ Forall (launched job) dependencies).
Context (Hreduces : ∀ state, job_reductions job' !! role = Some state → fans_out (job_definition job) role ∧
  reduction_ok tasks bindings job_id (job_definition job) role state ∧
  match status with Reducing _ _ _ | RoleUncertain => True | _ => False end).
Context (Hstatus_ok : status_ok tasks bindings job_id (job_definition job) role status).
Context (Hwhole : ∀ id binding record, bindings !! id = Some binding → binding_job binding = job_id →
  tasks !! id = Some record → role ∈ whole_roles binding → whole_status binding role id record status).

Lemma set_role_flow : job_flow tasks bindings job_id job'.
Proof.
  pose proof set_role_moves as Hmoves. destruct Hflow as [Hd Hr Hk Ho Hred Hu Hb]. split; rewrite ?Hdefinition, ?Hstatus.
  - done.
  - intros r deps Hin. destruct (decide (r = role)) as [->|Hne]; [rewrite lookup_insert_eq; by eexists|].
    rewrite lookup_insert_ne by done. by eapply Hr.
  - intros r. destruct (decide (r = role)) as [->|Hne]; [intros _; by apply Hk|]. rewrite lookup_insert_ne by done. apply Hk.
  - intros r deps Hin Hl. eapply launched_moves; [exact Hmoves|].
    destruct (decide (r = role)) as [->|Hne].
    + destruct Hl as (s & Hs & Hi). rewrite Hstatus, lookup_insert_eq in Hs. injection Hs as <-.
      destruct (Hlaunch Hi deps Hin) as [Hl|Hl]; [by apply (Ho role)|done].
    + apply (Ho r); [done|]. destruct Hl as (s & Hs & Hi). rewrite Hstatus, lookup_insert_ne in Hs by done. by exists s.
  - intros r state Hsome. destruct (decide (r = role)) as [->|Hne].
    + destruct (Hreduces state Hsome) as (? & ? & Hs). split_and!; [done..|]. exists status. by rewrite lookup_insert_eq.
    + rewrite lookup_insert_ne by done. apply Hred. by rewrite <- Hothers.
  - intros r s Hs. destruct (decide (r = role)) as [->|Hne].
    + rewrite lookup_insert_eq in Hs. by injection Hs as <-.
    + rewrite lookup_insert_ne in Hs by done. by apply Hu.
  - intros id binding record Hid Hj Ht. destruct (Hb id binding record Hid Hj Ht) as [Hnd Hw Hshared Hreads].
    split; [done|..]; rewrite ?Hdefinition, ?Hstatus.
    + intros r Hin. destruct (Hw r Hin) as (Hf & s & Hs & Hst). split; [done|].
      destruct (decide (r = role)) as [->|Hne].
      * exists status. rewrite lookup_insert_eq. split; [done|]. by apply Hwhole.
      * exists s. by rewrite lookup_insert_ne.
    + intros r Hin. destruct (Hshared r Hin) as [?|[? ?]]; [by left|right].
      split; [done|by eapply dependencies_launched_moves].
    + intros r Hin. eapply reads_dependencies_moves; [reflexivity|reflexivity|exact Hmoves|by apply Hreads].
Qed.
End set_role.

(** The levels of a job's reductions wait for what they waited for, or it has
    been completed. *)
Definition reductions_move (f : Fabric) (job job' : CooperativeJobRecord) : Prop :=
  ∀ role state id, job_reductions job !! role = Some state → ItemTask id ∈ red_items state →
    (∃ state', job_reductions job' !! role = Some state' ∧ ItemTask id ∈ red_items state') ∨
    ∃ outputs, completed_with (f_tasks f) id outputs.
Lemma same_reductions_move f job job' : job_reductions job' = job_reductions job → reductions_move f job job'.
Proof. intros Hr role state id Hs Hin. left. exists state. by rewrite Hr. Qed.
(** A job of the fabric is replaced. *)
Lemma set_job_flows f job_id job job' :
  flow_ok f → f_jobs f !! job_id = Some job →
  job_flow (f_tasks f) (f_task_roles f) job_id job' → job_moves job job' →
  reductions_move f job job' →
  let f' := set_jobs f (<[job_id := job']> (f_jobs f)) in flow_ok f' ∧ moves f f'.
Proof.
  intros [Hjobs Hbindings] Hjob Hflow Hmoves Hred. split; split; simpl.
  - intros id other. intros [[<- <-]|[Hne Hid]]%lookup_insert_Some; [done|by apply Hjobs].
  - intros t b Htb. destruct (Hbindings t b Htb) as [Ht Hj]. split; [done|].
    destruct (decide (binding_job b = job_id)) as [->|Hne]; [rewrite lookup_insert_eq; by eexists|].
    by rewrite lookup_insert_ne.
  - apply grows_insert; [apply _|]. intros j Hj. by simplify_eq.
  - reflexivity.
  - reflexivity.
  - intros j role id (job1 & state & Hj & Hs & Hin). unfold in_level. simpl. destruct (decide (j = job_id)) as [->|Hne].
    + simplify_eq. rewrite lookup_insert_eq. destruct (Hred role state id Hs Hin) as [(state' & ? & ?)|]; [left|by right].
      by exists job', state'.
    + left. exists job1, state. by rewrite lookup_insert_ne.
Qed.

(** A new task is bound. *)
Lemma bind_task_flows f job_id job id record binding :
  flow_ok f → f_tasks f !! id = None → f_jobs f !! job_id = Some job →
  binding_job binding = job_id → bound_ok (f_tasks f) (f_task_roles f) job id record binding →
  let f' := set_task_roles (set_tasks f (<[id := record]> (f_tasks f))) (<[id := binding]> (f_task_roles f)) in
  flow_ok f' ∧ moves f f'.
Proof.
  intros Hok Hnew Hjob Hj Hbound. pose proof Hok as [Hjobs Hbindings].
  assert (f_task_roles f !! id = None) as Hunbound.
  { destruct (f_task_roles f !! id) eqn:Hb; [|done]. apply Hbindings in Hb as [[? ?] _]. congruence. }
  assert (grows eq (f_task_roles f) (<[id := binding]> (f_task_roles f))) as Hgrow
    by (apply grows_insert; [apply _|congruence]).
  assert (grows task_evolves (f_tasks f) (<[id := record]> (f_tasks f))) as Hgrow'
    by (apply grows_insert; [apply _|congruence]).
  split; split; simpl.
  - intros other job1 Hother. destruct (Hjobs other job1 Hother) as [Hd Hr Hk Ho Hred Hu Hb]. split; try done.
    + intros role state Hs. destruct (Hred role state Hs) as (? & ? & ?).
      split_and!; [done|by eapply reduction_ok_grows|done].
    + intros role status Hs. eapply status_ok_grows; [exact Hgrow'|exact Hgrow|by apply Hu].
    + intros t b r [[<- <-]|[Hne Htb]]%lookup_insert_Some Hbj.
      * rewrite lookup_insert_eq. intros [= <-]. rewrite Hj in Hbj. subst other. simplify_eq.
        by eapply bound_ok_evolves.
      * rewrite lookup_insert_ne by done. intros Ht. eapply bound_ok_evolves; [exact Hgrow'|exact Hgrow|done|]. by apply Hb.
  - intros t b [[<- <-]|[Hne Htb]]%lookup_insert_Some.
    + rewrite lookup_insert_eq, Hj. split; by eexists.
    + rewrite lookup_insert_ne by done. by apply (Hbindings t b).
  - reflexivity.
  - done.
  - done.
  - intros j role t Hin. by left.
Qed.

(** ** Roles are launched *)

(** [flow_ok] and [moves] read three maps. *)
Lemma flow_ok_ext f f' :
  f_jobs f' = f_jobs f → f_tasks f' = f_tasks f → f_task_roles f' = f_task_roles f → flow_ok f → flow_ok f'.
Proof. intros Hj Ht Hb []. split; rewrite ?Hj, ?Ht, ?Hb; auto. Qed.

(** The task [id] is submitted for [roles]. *)
Definition launch (id : TaskId) (roles : list string) (job : CooperativeJobRecord) : CooperativeJobRecord :=
  fold_left (λ job role, with_roles job (<[role := Submitted id]> (job_roles job))) roles job.
(** Each of [roles] is idle, and comes after the roles it depends on. *)
Fixpoint launch_order (job : CooperativeJobRecord) (roles : list string) (before : list string) : Prop :=
  match roles with
  | [] => True
  | role :: roles' =>
      idle_role job role ∧ (role ∉ before) ∧
      (∀ dependencies, (role, dependencies) ∈ definition_roles (job_definition job) →
         Forall (λ d, launched job d ∨ d ∈ before) dependencies) ∧
      launch_order job roles' (role :: before)
  end.

Section launch.
Context (tasks : Tasks) (bindings : Bindings) (job_id : JobId) (id : TaskId).

Lemma idle_unbound job role t b record :
  job_flow tasks bindings job_id job → idle_role job role → bindings !! t = Some b → binding_job b = job_id →
  tasks !! t = Some record → role ∉ whole_roles b.
Proof.
  intros Hflow (s & Hs & Hi) Hb Hj Ht Hin.
  destruct (bo_whole _ _ _ _ _ _ (jf_bound _ _ _ _ Hflow t b record Hb Hj Ht) role Hin) as (_ & s' & Hs' & Hw).
  rewrite Hs in Hs'. injection Hs' as <-. by destruct s.
Qed.
Lemma idle_no_reduction job role :
  job_flow tasks bindings job_id job → idle_role job role → job_reductions job !! role = None.
Proof.
  intros Hflow (s & Hs & Hi). destruct (job_reductions job !! role) eqn:Hr; [|done].
  destruct (jf_reductions _ _ _ _ Hflow role _ Hr) as (_ & _ & s' & Hs' & Hm). rewrite Hs in Hs'. injection Hs' as <-. by destruct s.
Qed.
(** An idle role may be given any status that says it has just started. *)
Lemma start_role job job' role status :
  job_flow tasks bindings job_id job → idle_role job role →
  match status with Ready | Submitted _ | Sharded _ _ => True | _ => False end →
  status_ok tasks bindings job_id (job_definition job) role status →
  (idle status = false → ∀ dependencies, (role, dependencies) ∈ definition_roles (job_definition job) →
     Forall (launched job) dependencies) →
  job_definition job' = job_definition job → job_roles job' = <[role := status]> (job_roles job) →
  job_reductions job' = job_reductions job →
  job_moves job job' ∧ job_flow tasks bindings job_id job'.
Proof.
  intros Hflow Hidle Hstart Hok Hdeps Hd Hs Hr.
  assert (∀ outputs, settled job role outputs → job_reductions job' !! role = None ∧
    (status = RoleCompleted outputs ∨ status = RoleUncertain ∧ fans_out (job_definition job) role)) as Hsettled.
  { intros outputs Hset. by destruct (idle_not_launched _ _ Hidle (settled_launched _ _ _ Hset)). }
  assert (launched job role → idle status = false) as Hl by (intros Hl; by destruct (idle_not_launched _ _ Hidle Hl)).
  assert (is_Some (job_roles job !! role)) as Hknown by (destruct Hidle as (s & ? & _); by exists s).
  split.
  - apply (set_role_moves job job' role status); [done..|intros; by rewrite Hr|done|done].
  - apply (set_role_flow tasks bindings job_id job job' role status);
      [done|done|done|done|intros; by rewrite Hr|done|done| | | |].
    + intros Hi deps Hin. right. by apply (Hdeps Hi).
    + by rewrite Hr, (idle_no_reduction job role).
    + done.
    + intros t b record Hb Hj Ht Hin. by destruct (idle_unbound job role t b record).
Qed.

Lemma launch_flow roles job before :
  job_flow tasks bindings job_id job → launch_order job roles before → Forall (launched job) before →
  job_moves job (launch id roles job) ∧ job_flow tasks bindings job_id (launch id roles job) ∧
  job_reductions (launch id roles job) = job_reductions job ∧
  ∀ role, job_roles (launch id roles job) !! role =
    if bool_decide (role ∈ roles) then Some (Submitted id) else job_roles job !! role.
Proof.
  revert job before. induction roles as [|role roles IH]; intros job before Hflow Horder Hbefore.
  { split_and!; try done. }
  destruct Horder as (Hidle & Hnew & Hdeps & Horder).
  set (job1 := with_roles job (<[role := Submitted id]> (job_roles job))).
  destruct (start_role job job1 role (Submitted id)) as [Hm1 Hf1]; [done..| |done|done|done|].
  { intros _ deps Hin. eapply Forall_impl; [by apply Hdeps|]. intros d [?|Hd]; [done|].
    rewrite Forall_forall in Hbefore. by apply Hbefore. }
  assert (launched job1 role) as Hl by (exists (Submitted id); split; [apply lookup_insert_eq|done]).
  assert (∀ roles' before', role ∈ before' → launch_order job roles' before' → launch_order job1 roles' before') as Hmono.
  { intros roles'. induction roles' as [|r roles' IH']; intros before' Hin; simpl; [done|].
    intros ((s & Hs & Hi) & Hr & Hd & Ho). split_and!; [|done| |].
    - exists s. simpl. rewrite lookup_insert_ne; [done|]. set_solver.
    - intros deps Hdeps'. eapply Forall_impl; [by apply Hd|]. intros d [?|?]; [left; by eapply jm_launched|by right].
    - apply IH'; [set_solver|done]. }
  destruct (IH job1 (role :: before)) as (Hm2 & Hf2 & Hr2 & Hs2); [done|apply Hmono; [set_solver|done]|..].
  { constructor; [done|]. by eapply launched_moves. }
  split_and!; [by etrans|done|done|]. intros r. simpl. fold job1. rewrite Hs2. simpl.
  destruct (decide (r ∈ roles)) as [Hin|Hin].
  - rewrite !bool_decide_eq_true_2 by set_solver. done.
  - rewrite (bool_decide_eq_false_2 (r ∈ roles)) by done. destruct (decide (r = role)) as [->|Hne].
    + rewrite bool_decide_eq_true_2 by set_solver. by rewrite lookup_insert_eq.
    + rewrite bool_decide_eq_false_2 by set_solver. by rewrite lookup_insert_ne.
Qed.
End launch.

(** A task that is submitted and bound, and its roles. *)
Lemma launch_flows f f' job_id job job' id task binding :
  flow_ok f → f_jobs f !! job_id = Some job → f_tasks f !! id = None →
  f_tasks f' = <[id := mkTaskRecord task Pending]> (f_tasks f) →
  f_task_roles f' = <[id := binding]> (f_task_roles f) → f_jobs f' = <[job_id := job']> (f_jobs f) →
  binding_job binding = job_id → binding_roles binding = whole_roles binding → NoDup (whole_roles binding) →
  launch_order job (whole_roles binding) [] →
  Forall (λ role, ¬ fans_out (job_definition job) role) (whole_roles binding) →
  (∀ role, reading_role binding = Some role → reads_dependencies (f_tasks f) (f_task_roles f) job binding role task) →
  job_definition job' = job_definition job → job_roles job' = job_roles (launch id (whole_roles binding) job) →
  job_reductions job' = job_reductions job →
  flow_ok f' ∧ moves f f' ∧
  ∀ role, idle_role job role → idle_role job' role ∨ role ∈ whole_roles binding.
Proof.
  intros Hok Hjob Hnew Ht Hb Hj Hbj Hroles Hnd Horder Hfans Hreads Hd Hr Hred.
  set (roles := whole_roles binding) in *.
  pose proof (fo_jobs _ Hok _ _ Hjob) as Hflow.
  destruct (launch_flow _ _ _ id roles job [] Hflow Horder (Forall_nil_2 _)) as (Hm & Hf & Hred' & Hs).
  set (job1 := launch id roles job) in *.
  assert (job_definition job1 = job_definition job) as Hd1 by by apply jm_definition.
  assert (job_moves job1 job') as Hm'.
  { split; [congruence|..]; unfold launched, settled; by rewrite Hr, ?Hd1, ?Hd, ?Hred, ?Hred'. }
  assert (job_moves job job') as Hmoves by by etrans.
  assert (job_flow (f_tasks f) (f_task_roles f) job_id job') as Hf'.
  { destruct Hf as [? ? ? ? ? ? Hbound]. split; rewrite ?Hd, ?Hr, ?Hred, <- ?Hd1, <- ?Hred'; try done.
    - unfold launched. by rewrite Hr.
    - intros t b record Htb Hbt Htt. destruct (Hbound t b record Htb Hbt Htt) as [? Hw Hsh Hre].
      split; rewrite ?Hd, ?Hr, <- ?Hd1; try done; intros r Hin.
      + destruct (Hsh r Hin) as [?|[? ?]]; [by left|right]. split; [done|eapply dependencies_launched_moves; [exact Hm'|done]].
      + eapply reads_dependencies_moves; [reflexivity|reflexivity|exact Hm'|by apply Hre]. }
  destruct (set_job_flows f job_id job job' Hok Hjob Hf' Hmoves) as [Hok1 Hmv1]; [by apply same_reductions_move|].
  set (f1 := set_jobs f (<[job_id := job']> (f_jobs f))) in *.
  destruct (bind_task_flows f1 job_id job' id (mkTaskRecord task Pending) binding Hok1) as [Hok2 Hmv2];
    [done|simpl; by rewrite lookup_insert_eq|done| |].
  { split; [done|..].
    - intros role Hin. split.
      + rewrite Hd. rewrite Forall_forall in Hfans. by apply Hfans.
      + exists (Submitted id). rewrite Hr, Hs. by rewrite bool_decide_eq_true_2.
    - intros role. rewrite Hroles. by left.
    - intros role Hin. eapply reads_dependencies_moves; [reflexivity|reflexivity|exact Hmoves|by apply Hreads]. }
  split_and!.
  - eapply flow_ok_ext; [..|exact Hok2]; simpl; congruence.
  - assert (moves f _) as [Hg1 Hg2 Hg3 Hg4] by (etrans; [exact Hmv1|exact Hmv2]).
    split; [by rewrite Hj|by rewrite Hb|by rewrite Ht|].
    intros j r t. unfold in_level, completed_with. rewrite Hj, Ht. exact (Hg4 j r t).
  - intros role (s & Hi1 & Hi2). destruct (decide (role ∈ roles)) as [|Hn]; [by right|left].
    exists s. rewrite Hr, Hs. by rewrite bool_decide_eq_false_2.
Qed.

(** ** Making tasks for ready roles *)

(** Only [roles] of the job are launched. *)
Definition launches (job_id : JobId) (roles : list string) (f f' : Fabric) : Prop :=
  flow_ok f' ∧ moves f f' ∧
  ∀ job, f_jobs f !! job_id = Some job → ∃ job', f_jobs f' !! job_id = Some job' ∧
    ∀ role, idle_role job role → idle_role job' role ∨ role ∈ roles.
Lemma launches_none job_id roles f : flow_ok f → launches job_id roles f f.
Proof. intros Hok. split_and!; [done..|]. intros job Hj. exists job. split; [done|]. auto. Qed.
Lemma launches_mono job_id roles roles' f f' : roles ⊆ roles' → launches job_id roles f f' → launches job_id roles' f f'.
Proof.
  intros Hsub (Hok & Hm & Hl). split_and!; [done..|]. intros job Hj. destruct (Hl job Hj) as (job' & Hj' & Hr).
  exists job'. split; [done|]. intros role Hi. destruct (Hr role Hi); auto.
Qed.

Lemma submit_run task n :
  ((∀ id, (submit task n).1 ≠ Ok id) ∧ (submit task n).2 = n) ∨
  (f_tasks (nd_fabric n) !! ts_id task = None ∧
   submit task n = (Ok (ts_id task), mkNode (set_tasks (nd_fabric n)
     (<[ts_id task := mkTaskRecord task Pending]> (f_tasks (nd_fabric n)))) (nd_world n))).
Proof.
  unfold submit, bind, lift. destruct (validate_task task) as [[]|e| |]; [|by left..]. simpl.
  destruct (f_tasks (nd_fabric n) !! ts_id task); [by left|by right].
Qed.

Lemma set_task_role_run {A} id binding (k : unit → fab A) n :
  bind (set_task_role id binding) k n =
  k tt (mkNode (set_task_roles (nd_fabric n) (<[id := binding]> (f_task_roles (nd_fabric n)))) (nd_world n)).
Proof. done. Qed.
(** A job read, its roles written, its selections kept up to date. *)
Lemma insert_selection_run job_id role selection n job :
  f_jobs (nd_fabric n) !! job_id = Some job →
  insert_selection job_id role selection n =
    (Ok tt, mkNode (set_jobs (nd_fabric n)
       (<[job_id := with_selections job (<[role := selection]> (job_selections job))]> (f_jobs (nd_fabric n)))) (nd_world n)).
Proof. intros Hj. unfold insert_selection, expect_job, bind, fget, gets, expect. simpl. by rewrite Hj. Qed.
Lemma expect_job_run {A} job_id job (k : CooperativeJobRecord → fab A) n :
  f_jobs (nd_fabric n) !! job_id = Some job → bind (expect_job job_id) k n = k job n.
Proof. intros Hj. unfold expect_job, bind, fget, gets, expect. simpl. by rewrite Hj. Qed.

Lemma materialize_single_launches job_id name task selection n job :
  flow_ok (nd_fabric n) → f_jobs (nd_fabric n) !! job_id = Some job → idle_role job name →
  ¬ fans_out (job_definition job) name →
  reads_dependencies (f_tasks (nd_fabric n)) (f_task_roles (nd_fabric n)) job (BindSingle job_id name) name task →
  launches job_id [name] (nd_fabric n) (nd_fabric (materialize_single job_id name task selection n).2).
Proof.
  intros Hok Hj Hidle Hfan Hreads. unfold materialize_single.
  destruct (submit_run task n) as [[Hno Hsame]|[Hnew Hrun]].
  { unfold bind. destruct (submit task n) as [[id|e| |] n']; simpl in *; subst n'; try by apply launches_none.
    by destruct (Hno id). }
  unfold bind at 1. rewrite Hrun. unfold bind at 1. cbn -[expect_job insert_selection].
  set (f1 := set_task_roles _ _). rewrite (expect_job_run job_id job) by exact Hj.
  set (job1 := with_roles job (<[name := Submitted (ts_id task)]> (job_roles job))).
  unfold bind at 1. cbn -[insert_selection]. fold job1.
  assert (∀ f' job', f_tasks f' = f_tasks f1 → f_task_roles f' = f_task_roles f1 →
    f_jobs f' = <[job_id := job']> (f_jobs (nd_fabric n)) → job_definition job' = job_definition job →
    job_roles job' = job_roles job1 → job_reductions job' = job_reductions job → launches job_id [name] (nd_fabric n) f') as Hall.
  { intros f' job' Ht Hb Hjobs Hd Hr Hred.
    assert (launch_order job [name] []) as Horder.
    { split_and!; [done|set_solver| |done]. intros deps Hin. destruct Hreads as (deps' & outs & Hin' & Hset%supplied_settled & _).
      pose proof (jf_definition _ _ _ _ (fo_jobs _ Hok _ _ Hj)) as Hdef.
      rewrite (role_dependencies_unique _ _ _ _ Hdef Hin Hin'). eapply Forall_impl; [by eapply settled_all_launched|]. intros d Hl. by left. }
    destruct (launch_flows (nd_fabric n) f' job_id job job' (ts_id task) task (BindSingle job_id name))
      as (Hok' & Hm & Hi); try done.
    - apply NoDup_singleton.
    - by apply Forall_singleton.
    - by intros role [= <-].
    - split_and!; [done..|]. intros job0 Hj0. simplify_eq. exists job'. rewrite Hjobs, lookup_insert_eq. by split. }
  destruct selection as [selection|].
  - rewrite (insert_selection_run _ _ _ _ job1) by (simpl; by rewrite lookup_insert_eq).
    apply (Hall _ (with_selections job1 (<[name := selection]> (job_selections job)))); try done. simpl. by rewrite insert_insert_eq.
  - by apply (Hall _ job1).
Qed.

(** *** Fused chains *)

Fixpoint linked (spec : LogicalJobSpec) (previous : string) (chain : list LogicalRoleSpec) : Prop :=
  match chain with
  | [] => True
  | role :: chain' => role ∈ lj_roles spec ∧ lr_depends_on role = [previous] ∧
      may_fan_out (lr_shards role) = false ∧ linked spec (lr_name role) chain'
  end.

Section chain.
Context (spec : LogicalJobSpec).

Lemma fusion_chain_from_linked fuel statuses current rest :
  fusion_chain_from fuel spec statuses current = Ok rest → linked spec (lr_name current) rest.
Proof.
  revert current rest. induction fuel as [|fuel IH]; intros current rest; simpl; [done|].
  case_bool_decide; [by intros [= <-]|].
  destruct (List.filter _ _) as [|consumer [|]] eqn:Hf; [by intros [= <-]| |by intros [= <-]].
  destruct (negb _ || _ || _) eqn:Hg; [by intros [= <-]|].
  apply orb_false_iff in Hg as [[Hs%negb_false_iff Hd%negb_false_iff]%orb_false_iff _].
  apply bool_decide_eq_true in Hs, Hd.
  destruct (fusion_chain_from fuel spec statuses consumer) as [rest'|e| |] eqn:Hrest; simpl; [|done..].
  intros [= <-]. split_and!; [|done| |by apply IH].
  - apply list_elem_of_In. apply (List.filter_In (depends_on_role (lr_name current))). rewrite Hf. by left.
  - destruct (lr_shards consumer); simpl in *; by simplify_eq.
Qed.
Lemma fusion_chain_linked statuses first chain :
  fusion_chain spec statuses first = Ok chain → ∃ rest, chain = first :: rest ∧ linked spec (lr_name first) rest.
Proof.
  unfold fusion_chain. case_match; [intros [= <-]; by exists []|].
  destruct (fusion_chain_from _ _ _ _) as [rest|e| |] eqn:Hrest; simpl; [|done..]. intros [= <-].
  exists rest. split; [done|]. by eapply fusion_chain_from_linked.
Qed.

Lemma linked_take n previous chain : linked spec previous chain → linked spec previous (take n chain).
Proof.
  revert n previous. induction chain as [|role chain IH]; intros [|n] previous; simpl; [done..|].
  intros (? & ? & ? & ?). split_and!; auto.
Qed.
(** Every role of a chain depends on the first, so none occurs twice. *)
Lemma linked_above previous chain :
  linked spec previous chain → Forall (λ role, tc (dep (logical_graph spec)) (lr_name role) previous) chain.
Proof.
  revert previous. induction chain as [|role chain IH]; intros previous; simpl; [done|].
  intros (Hin & Hd & _ & Hrest). assert (dep (logical_graph spec) (lr_name role) previous) as Hdep by by apply logical_dep.
  constructor; [by apply tc_once|]. eapply Forall_impl; [by apply IH|]. intros r Hr. eapply tc_r; [exact Hr|exact Hdep].
Qed.
Lemma linked_nodup previous chain :
  acyclic (logical_graph spec) → linked spec previous chain → NoDup (previous :: (lr_name <$> chain)).
Proof.
  intros Hacyclic. revert previous. induction chain as [|role chain IH]; intros previous Hlinked; [apply NoDup_singleton|].
  constructor; [|by apply IH; destruct Hlinked as (_ & _ & _ & ?)].
  intros (r & -> & Hr)%list_elem_of_fmap. pose proof (linked_above _ _ Hlinked) as Hall.
  rewrite Forall_forall in Hall. by apply (Hacyclic (lr_name r)), Hall.
Qed.

(** Idle roles in a chain, each right after the one it depends on. *)
Lemma linked_launch_order tasks bindings job_id job previous chain before :
  job_flow tasks bindings job_id job → job_definition job = Logical spec → linked spec previous chain →
  idle_role job previous → previous ∈ before → Forall (λ role, lr_name role ∉ before) chain → NoDup (lr_name <$> chain) →
  launch_order job (lr_name <$> chain) before.
Proof.
  intros Hflow Hdef. revert previous before. induction chain as [|role chain IH]; intros previous before; simpl; [done|].
  intros (Hin & Hd & _ & Hlinked) Hprevious Hbefore [Hrole Hchain]%Forall_cons [Hnew Hnd]%NoDup_cons.
  assert ((lr_name role, lr_depends_on role) ∈ definition_roles (job_definition job)) as Hentry.
  { rewrite Hdef. apply list_elem_of_fmap. by exists role. }
  assert (idle_role job (lr_name role)) as Hidle.
  { destruct (idle_or_launched job (lr_name role)) as [|Hl]; [by eapply jf_roles|done|].
    pose proof (jf_order _ _ _ _ Hflow _ _ Hentry Hl) as Hall. rewrite Hd in Hall. apply Forall_cons in Hall as [Hall _].
    by destruct (idle_not_launched _ _ Hprevious Hall). }
  split_and!; [done|done| |].
  - intros deps Hdeps. rewrite (role_dependencies_unique _ _ _ _ (jf_definition _ _ _ _ Hflow) Hdeps Hentry), Hd.
    constructor; [by right|done].
  - apply (IH (lr_name role)); [done|done|by left| |done].
    rewrite Forall_forall in Hchain |- *. intros r Hr. apply not_elem_of_cons. split; [|by apply Hchain].
    intros Heq. apply Hnew, list_elem_of_fmap. by exists r.
Qed.
Lemma single_no_fan job role :
  definition_ok (job_definition job) → job_definition job = Logical spec → role ∈ lj_roles spec →
  may_fan_out (lr_shards role) = false → ¬ fans_out (job_definition job) (lr_name role).
Proof.
  intros Hok Hdef Hin Hone. rewrite Hdef in *. pose proof (definition_names_nodup _ Hok) as Hnd.
  intros (spec' & role' & [= <-] & Hin' & Hname & Hfan). simpl in Hnd. rewrite <- list_fmap_compose in Hnd.
  assert (role' = role) as ->; [|congruence].
  clear -Hnd Hin Hin' Hname. induction (lj_roles spec) as [|r l IH]; simpl in *; [set_solver|].
  apply NoDup_cons in Hnd as [Hr Hnd].
  apply elem_of_cons in Hin as [->|Hin], Hin' as [->|Hin']; [done| | |by apply IH].
  all: contradict Hr; apply list_elem_of_fmap; eexists; split; [|eassumption]; simpl; congruence.
Qed.
Lemma linked_no_fan job previous chain :
  definition_ok (job_definition job) → job_definition job = Logical spec → linked spec previous chain →
  Forall (λ role, ¬ fans_out (job_definition job) role) (lr_name <$> chain).
Proof.
  intros Hok Hdef. revert previous. induction chain as [|role chain IH]; intros previous; simpl; [done|].
  intros (Hin & _ & Hone & Hlinked). constructor; [by apply single_no_fan|by eapply IH].
Qed.
End chain.

Lemma launch_roles id roles job :
  job_roles (launch id roles job) = fold_left (λ m role, <[role := Submitted id]> m) roles (job_roles job) ∧
  job_definition (launch id roles job) = job_definition job ∧ job_reductions (launch id roles job) = job_reductions job.
Proof.
  revert job. induction roles as [|role roles IH]; intros job; [done|]. simpl.
  by destruct (IH (with_roles job (<[role := Submitted id]> (job_roles job)))) as (-> & -> & ->).
Qed.
(** The loop that points the roles of a chain at their task. *)
Lemma mark_fused_run job_id selected role_names id l n job :
  f_jobs (nd_fabric n) !! job_id = Some job →
  ∃ job', for_each (mark_fused job_id selected role_names id) l n =
      (Ok tt, mkNode (set_jobs (nd_fabric n) (<[job_id := job']> (f_jobs (nd_fabric n)))) (nd_world n)) ∧
    job_definition job' = job_definition job ∧ job_reductions job' = job_reductions job ∧
    job_roles job' = job_roles (launch id (l.*2.*1) job).
Proof.
  revert n job. induction l as [|[stage [role implementation]] l IH]; intros n job Hj.
  { exists job. split; [|done]. unfold for_each. simpl. unfold ret. do 2 f_equal. destruct n as [[] w]. simpl in *. by rewrite insert_id. }
  unfold for_each in *. simpl. unfold bind at 1. rewrite (expect_job_run job_id job) by done.
  unfold insert_role, bind at 1. cbn -[insert_selection].
  set (job1 := with_roles job (<[role := Submitted id]> (job_roles job))).
  rewrite (insert_selection_run _ _ _ _ job1) by (simpl; by rewrite lookup_insert_eq).
  set (job2 := with_selections job1 _). edestruct (IH (mkNode (set_jobs (nd_fabric n)
    (<[job_id := job2]> (f_jobs (nd_fabric n)))) (nd_world n)) job2) as (job' & Hrun & Hd & Hred & Hr).
  { simpl. by rewrite lookup_insert_eq. }
  exists job'. split_and!; [|done|done|].
  - simpl in *. change (set_jobs (set_jobs ?f _) ?jobs) with (set_jobs f jobs). rewrite insert_insert_eq, Hrun.
    simpl. do 2 f_equal. change (set_jobs (set_jobs ?f _) ?jobs) with (set_jobs f jobs). by rewrite insert_insert_eq.
  - rewrite Hr. by rewrite !(proj1 (launch_roles _ _ _)).
Qed.
Lemma imap_pair_snd {A} (l : list A) : (imap pair l).*2 = l.
Proof. rewrite fmap_imap. change (imap (const (@id A)) l = l). by rewrite imap_const, list_fmap_id. Qed.

Lemma fused_task_runs implementations deps requirements task :
  fused_task_of implementations deps requirements task → implementations ≠ [] →
  runs_chain (ri_task <$> implementations) deps task.
Proof.
  intros [w Hw] Hne. destruct implementations as [|i implementations]; [done|]. rewrite fmap_cons in Hw |- *.
  pose proof (fused_pipeline_correct (ri_task i) (ri_task <$> implementations) deps requirements w) as Hc.
  rewrite Hw in Hc. destruct Hc as ((stage & later & Hpipeline & Hstage & Hlater) & _).
  unfold fused_pipeline_task, bind, instantiate, new_id, new_v4, ret in Hw. simpl in Hw.
  destruct (fused_stages _ _ _) as [stages inputs]. injection Hw as <-. split_and!; [done..|].
  by eexists _, _, stage, later.
Qed.
Lemma linked_one_by_one spec previous chain :
  linked spec previous chain → one_by_one (Logical spec) (previous :: (lr_name <$> chain)).
Proof.
  revert previous. induction chain as [|role chain IH]; intros previous; simpl; [by intros _ [|i] p n|].
  intros (Hin & Hd & _ & Hlinked) [|i] p n.
  - intros [= ->] [= <-]. apply list_elem_of_fmap. exists role. by rewrite Hd.
  - apply (IH _ Hlinked).
Qed.

(** *** What holds of the fabric when a computation ends *)

Definition ends {E A} (P : Fabric → Prop) (m : comp Node E A) (n : Node) : Prop := P (nd_fabric (m n).2).
Definition reads_only {E A} (m : comp Node E A) : Prop := ∀ n, nd_fabric (m n).2 = nd_fabric n.

Lemma ends_bind {E A B} P Q (m : comp Node E A) (k : A → comp Node E B) n :
  ends Q m n → (∀ f, Q f → P f) →
  (∀ a n', m n = (Ok a, n') → Q (nd_fabric n') → ends P (k a) n') → ends P (bind m k) n.
Proof.
  unfold ends, bind. intros Hm HQ Hk. destruct (m n) as [[a|e| |] n'] eqn:Hrun; simpl in *; auto.
Qed.
Lemma ends_reads {E A B} P (m : comp Node E A) (k : A → comp Node E B) n :
  reads_only m → P (nd_fabric n) →
  (∀ a n', m n = (Ok a, n') → nd_fabric n' = nd_fabric n → ends P (k a) n') → ends P (bind m k) n.
Proof.
  intros Hm HP Hk. apply (ends_bind P (λ f, f = nd_fabric n)); [apply Hm|by intros f ->|exact Hk].
Qed.
Lemma reads_fworld {E A} (m : comp World E A) : reads_only (fworld m).
Proof. intros n. unfold fworld. by destruct (m (nd_world n)). Qed.
Lemma reads_fget {E A} (g : Fabric → A) : reads_only (fget (E:=E) g).
Proof. done. Qed.
Lemma reads_bind {E A B} (m : comp Node E A) (k : A → comp Node E B) :
  reads_only m → (∀ a, reads_only (k a)) → reads_only (bind m k).
Proof.
  intros Hm Hk n. unfold bind. specialize (Hm n). destruct (m n) as [[a|e| |] n']; simpl in *; [|done..].
  by rewrite Hk.
Qed.
Lemma reads_lift {E A} (m : outcome E A) : reads_only (lift m).
Proof. done. Qed.
Lemma reads_ret {E A} (a : A) : reads_only (ret (E:=E) a).
Proof. done. Qed.
Lemma reads_cmap {E A B} (g : A → comp Node E B) l : (∀ a, reads_only (g a)) → reads_only (cmap g l).
Proof.
  intros Hg. induction l as [|a l IH]; simpl; [apply reads_ret|]. apply reads_bind; [done|]. intros b.
  apply reads_bind; [done|]. intros. apply reads_ret.
Qed.
Lemma fworld_yields {E A} (m : comp World E A) φ n a n' : yields m φ → fworld m n = (Ok a, n') → φ a.
Proof.
  intros Hm. specialize (Hm (nd_world n)). unfold fworld. destruct (m (nd_world n)) as [o w]. simpl in *.
  intros [= -> _]. done.
Qed.
Section materialize.
Context `{HashOrder}.

(** What a selected fusion is: a pipeline of one implementation for each role of
    a prefix. *)
Lemma selected_prefix_runs context role rest inputs selected :
  fusion_ok context (role :: rest) inputs selected →
  ∃ k, length (rfs_implementations selected) = S k ∧ (k ≤ length rest)%nat ∧
  ∃ implementations, Forall2 (λ role i, i ∈ lr_implementations role) (role :: take k rest) implementations ∧
    runs_chain (ri_task <$> implementations) inputs (rfs_task selected).
Proof.
  intros (k & impls & [Hk Hmax] & Himpls & Hnames & Htask & _). destruct k as [|k]; [lia|]. simpl in Himpls.
  pose proof (fusable_prefix_len_le (role :: rest)) as Hle. simpl length in Hle.
  pose proof (Forall2_length _ _ _ Himpls) as Hlen. simpl in Hlen. rewrite length_take in Hlen.
  exists k. rewrite Hnames, length_fmap. split_and!; [lia|lia|]. exists impls. split; [done|].
  eapply fused_task_runs; [done|]. by intros ->.
Qed.
Lemma implementations_templates spec roles implementations :
  Forall (λ role, role ∈ lj_roles spec) roles → Forall2 (λ role i, i ∈ lr_implementations role) roles implementations →
  Forall2 (role_template (Logical spec)) (lr_name <$> roles) (ri_task <$> implementations).
Proof.
  intros Hroles Himpls. induction Himpls as [|role i roles implementations Hi _ IH]; [done|].
  apply Forall_cons in Hroles as [Hrole Hroles]. constructor; [by exists role, i|by apply IH].
Qed.
Lemma linked_roles spec previous chain : linked spec previous chain → Forall (λ role, role ∈ lj_roles spec) chain.
Proof.
  revert previous. induction chain as [|role chain IH]; intros previous; simpl; [done|].
  intros (Hin & _ & _ & Hlinked). constructor; [done|by eapply IH].
Qed.
(** The roles of a prefix can be launched with one task. *)
Lemma prefix_launch_order tasks bindings job_id job spec role tail outputs :
  job_flow tasks bindings job_id job → job_definition job = Logical spec → role ∈ lj_roles spec →
  idle_role job (lr_name role) → ¬ fans_out (job_definition job) (lr_name role) →
  Forall2 (settled job) (lr_depends_on role) outputs → linked spec (lr_name role) tail →
  let names := lr_name <$> role :: tail in
  NoDup names ∧ launch_order job names [] ∧ Forall (λ name, ¬ fans_out (job_definition job) name) names.
Proof.
  intros Hflow Hdef Hrole Hidle Hfan Hset Htail. cbv zeta.
  assert (logical_job_wf spec) as [Hwf _] by (pose proof (jf_definition _ _ _ _ Hflow) as Hd; by rewrite Hdef in Hd).
  assert (NoDup (lr_name <$> role :: tail)) as Hnd by by apply (linked_nodup spec), Htail; apply (wf_acyclic _ _ Hwf).
  assert ((lr_name role, lr_depends_on role) ∈ definition_roles (job_definition job)) as Hentry.
  { rewrite Hdef. apply list_elem_of_fmap. by exists role. }
  split_and!; [done| |].
  - split_and!; [done|set_solver| |].
    + intros deps Hdeps. rewrite (role_dependencies_unique _ _ _ _ (jf_definition _ _ _ _ Hflow) Hdeps Hentry).
      eapply Forall_impl; [by eapply settled_all_launched|]. intros d Hl. by left.
    + apply NoDup_cons in Hnd as [Hn Hnd].
      eapply (linked_launch_order spec _ _ job_id job (lr_name role)); try done; [by left|].
      rewrite Forall_forall. intros r Hr Heq%list_elem_of_singleton. apply Hn. rewrite <- Heq.
      apply list_elem_of_fmap. by exists r.
  - constructor; [done|]. eapply linked_no_fan; [by eapply jf_definition|done..].
Qed.

Lemma materialize_fused_launches job_id spec context role rest outputs selected n job :
  flow_ok (nd_fabric n) → f_jobs (nd_fabric n) !! job_id = Some job → job_definition job = Logical spec →
  role ∈ lj_roles spec → idle_role job (lr_name role) → ¬ fans_out (job_definition job) (lr_name role) →
  Forall2 (supplied (f_tasks (nd_fabric n)) (f_task_roles (nd_fabric n)) job_id job) (lr_depends_on role) outputs →
  linked spec (lr_name role) rest → fusion_ok context (role :: rest) (concat outputs) selected →
  launches job_id (lr_name role :: (lr_name <$> rest)) (nd_fabric n)
    (nd_fabric (materialize_fused job_id selected (role :: rest) n).2).
Proof.
  intros Hok Hj Hdef Hrole Hidle Hfan Hset Hlinked Hfusion.
  destruct (selected_prefix_runs _ _ _ _ _ Hfusion) as (k & Hlen & Hk & impls & Himpls & Hruns).
  unfold materialize_fused. rewrite Hlen. cbn [take]. set (tail := take k rest).
  assert (linked spec (lr_name role) tail) as Htail by by apply linked_take.
  destruct (prefix_launch_order _ _ _ job spec role tail outputs (fo_jobs _ Hok _ _ Hj))
    as (Hnd & Horder & Hfans); [done..|by eapply supplied_settled|done|].
  set (names := lr_name <$> role :: tail) in *. apply (launches_mono _ names).
  { unfold names, tail. intros r. rewrite !fmap_cons, !elem_of_cons. intros [?|Hr]; [by left|right].
    apply list_elem_of_fmap in Hr as (x & -> & (i' & Hx & _)%elem_of_take). apply list_elem_of_fmap.
    exists x. split; [done|]. by eapply list_elem_of_lookup_2. }
  destruct (submit_run (rfs_task selected) n) as [[Hno Hsame]|[Hnew Hrun]].
  { unfold bind. destruct (submit _ n) as [[id|e| |] n']; simpl in *; subst n'; try (by apply launches_none). by destruct (Hno id). }
  unfold bind at 1. rewrite Hrun, set_task_role_run.
  match goal with |- context [for_each ?f ?l ?n1] =>
    destruct (mark_fused_run job_id selected names (ts_id (rfs_task selected)) l n1 job Hj) as (job' & Hmarks & Hd & Hred & Hr) end.
  rewrite Hmarks.
  rewrite imap_pair_snd, fst_zip in Hr.
  2:{ unfold names, tail. rewrite Hlen, length_fmap. simpl. rewrite length_take. lia. }
  match goal with |- launches _ _ _ ?f' =>
    destruct (launch_flows (nd_fabric n) f' job_id job job' (ts_id (rfs_task selected)) (rfs_task selected)
      (BindFusedChain job_id names)) as (Hok' & Hm & Hidle'); try done end.
  - intros r [= <-]. exists (lr_depends_on role), outputs. rewrite Hdef. split_and!; [|done|].
    + apply list_elem_of_fmap. by exists role.
    + split; [by apply (linked_one_by_one spec (lr_name role) tail)|].
      exists (ri_task <$> impls). split; [|done]. apply implementations_templates; [|done].
      constructor; [done|by eapply linked_roles].
  - split_and!; [done..|]. intros job0 Hj0. simplify_eq. exists job'. simpl. rewrite lookup_insert_eq. by split.
Qed.
End materialize.

(** *** The other ways to start a role *)

Lemma insert_role_run job_id job role status n :
  insert_role job_id job role status n =
  (Ok tt, mkNode (set_jobs (nd_fabric n) (<[job_id := with_roles job (<[role := status]> (job_roles job))]>
     (f_jobs (nd_fabric n)))) (nd_world n)).
Proof. done. Qed.
Lemma start_role_launches f job_id job job' role status :
  flow_ok f → f_jobs f !! job_id = Some job → idle_role job role →
  match status with Ready | Sharded _ _ => True | _ => False end →
  status_ok (f_tasks f) (f_task_roles f) job_id (job_definition job) role status →
  dependencies_launched job role →
  job_definition job' = job_definition job → job_roles job' = <[role := status]> (job_roles job) →
  job_reductions job' = job_reductions job →
  launches job_id [role] f (set_jobs f (<[job_id := job']> (f_jobs f))).
Proof.
  intros Hok Hj Hidle Hs Hst Hdeps Hd Hr Hred.
  destruct (start_role (f_tasks f) (f_task_roles f) job_id job job' role status) as [Hm Hf]; try done.
  { by apply (fo_jobs _ Hok). } { by destruct status. }
  destruct (set_job_flows f job_id job job' Hok Hj Hf Hm) as [Hok' Hmv]; [by apply same_reductions_move|].
  split_and!; [done..|]. intros job0 Hj0. simplify_eq. exists job'. simpl. rewrite lookup_insert_eq. split; [done|].
  intros r (s & Hs' & Hi). destruct (decide (r = role)) as [->|Hne]; [right; by left|left].
  exists s. by rewrite Hr, lookup_insert_ne.
Qed.

(** A job's roles are as they were, and no task is lost: [set_jobs] after steps
    that left the jobs alone. *)
Lemma launches_after job_id roles f f1 f2 :
  moves f f1 → f_jobs f1 = f_jobs f → launches job_id roles f1 f2 → launches job_id roles f f2.
Proof.
  intros Hm Hj (Hok & Hm' & Hl). split_and!; [done|by etrans|]. intros job. rewrite <- Hj. apply Hl.
Qed.

Section materialize_more.
Context `{HashOrder}.

Lemma mark_ready_launches job_id name n job :
  flow_ok (nd_fabric n) → f_jobs (nd_fabric n) !! job_id = Some job → idle_role job name →
  dependencies_launched job name →
  ends (launches job_id [name] (nd_fabric n)) (mark_ready job_id name) n.
Proof.
  intros Hok Hj Hidle Hdeps. unfold ends, mark_ready. rewrite (expect_job_run job_id job) by done.
  rewrite insert_role_run. simpl. by apply (start_role_launches _ _ job _ _ Ready).
Qed.

(** A submitted child: a new task, bound to the role it is a shard of. *)
Lemma submit_shard_run job_id name s n selection n' :
  submit_shard job_id name s n = (Ok selection, n') →
  ss_task_id selection = ts_id (rss_task s) ∧ f_tasks (nd_fabric n) !! ts_id (rss_task s) = None ∧
  f_tasks (nd_fabric n') = <[ts_id (rss_task s) := mkTaskRecord (rss_task s) Pending]> (f_tasks (nd_fabric n)) ∧
  f_task_roles (nd_fabric n') = <[ts_id (rss_task s) := BindShard job_id name]> (f_task_roles (nd_fabric n)).
Proof.
  unfold submit_shard. destruct (submit_run (rss_task s) n) as [[Hno _]|[Hnew Hrun]].
  - unfold bind. destruct (submit _ n) as [[id|e| |] n1]; simpl in *; [by destruct (Hno id)|done..].
  - unfold bind at 1. rewrite Hrun. by intros [= <- <-].
Qed.
Definition placed (job_id : JobId) (name : string) (n : Node) (s : ReadyShardSelection) (selection : ShardSelection) : Prop :=
  f_task_roles (nd_fabric n) !! ss_task_id selection = Some (BindShard job_id name) ∧
  f_tasks (nd_fabric n) !! ss_task_id selection = Some (mkTaskRecord (rss_task s) Pending).
Lemma submit_shards_placed job_id name l n selections n' :
  cmap (submit_shard job_id name) l n = (Ok selections, n') →
  (∀ s selection, placed job_id name n s selection → placed job_id name n' s selection) ∧
  Forall2 (placed job_id name n') l selections.
Proof.
  revert n selections. induction l as [|s l IH]; intros n selections; simpl; [by intros [= <- <-]|].
  unfold bind at 1. destruct (submit_shard job_id name s n) as [[selection|e| |] n1] eqn:Hs; [|done..].
  unfold bind. destruct (cmap _ l n1) as [[rest|e| |] n2] eqn:Hl; [|done..]. intros [= <- <-].
  destruct (IH _ _ Hl) as [Hmono Hall]. destruct (submit_shard_run _ _ _ _ _ _ Hs) as (Hid & Hnew & Ht & Hb). split.
  - intros s' selection' [Hb' Ht']. apply Hmono.
    assert (ss_task_id selection' ≠ ts_id (rss_task s)) by congruence. split; [rewrite Hb|rewrite Ht]; by rewrite lookup_insert_ne.
  - constructor; [|done]. apply Hmono. split; [rewrite Hb|rewrite Ht]; rewrite Hid; apply lookup_insert_eq.
Qed.

(** The children of a sharded role. *)
Lemma submit_shards_flow job_id name selections n job :
  flow_ok (nd_fabric n) → f_jobs (nd_fabric n) !! job_id = Some job → fans_out (job_definition job) name →
  dependencies_launched job name →
  Forall (λ s, reads_dependencies (f_tasks (nd_fabric n)) (f_task_roles (nd_fabric n)) job
    (BindShard job_id name) name (rss_task s)) selections →
  ends (λ f, flow_ok f ∧ moves (nd_fabric n) f ∧ f_jobs f = f_jobs (nd_fabric n))
    (cmap (submit_shard job_id name) selections) n.
Proof.
  intros Hok Hj Hfan Hdeps. revert n Hok Hj.
  induction selections as [|s selections IH]; intros n Hok Hj; simpl.
  { intros _. unfold ends. by split_and!. }
  intros [Hs Hall]%Forall_cons.
  apply (ends_bind _ (λ f, flow_ok f ∧ moves (nd_fabric n) f ∧ f_jobs f = f_jobs (nd_fabric n))); [|done|].
  - destruct (submit_run (rss_task s) n) as [[Hno Hsame]|[Hnew Hrun]].
    { unfold ends, submit_shard, bind. destruct (submit _ n) as [[id|e| |] n']; simpl in *; subst n'; try (by split_and!). by destruct (Hno id). }
    destruct (bind_task_flows (nd_fabric n) job_id job (ts_id (rss_task s)) (mkTaskRecord (rss_task s) Pending)
      (BindShard job_id name)) as [Hok' Hm]; try done.
    + split; simpl; [apply NoDup_nil_2|set_solver|intros r ->%list_elem_of_singleton; by right|by intros r [= <-]].
    + unfold ends, submit_shard, bind. rewrite Hrun. by split_and!.
  - intros selection n1 _ (Hok1 & Hm1 & Hj1). unfold ends in *.
    assert (f_jobs (nd_fabric n1) !! job_id = Some job) as Hjob1 by by rewrite Hj1.
    destruct (IH n1 Hok1 Hjob1) as (Hok2 & Hm2 & Hj2).
    { eapply Forall_impl; [exact Hall|]. intros s'. apply reads_dependencies_moves; [apply (mv_tasks _ _ Hm1)|apply (mv_bindings _ _ Hm1)|done]. }
    unfold bind.
    destruct (cmap (submit_shard job_id name) selections n1) as [[l|e| |] n2]; simpl in *;
      (split_and!; [done|by etrans|congruence]).
Qed.
End materialize_more.

(** *** One ready role *)

Definition ready_name (ready : ReadyRole) : string :=
  match ready with ReadyCooperative name _ | ReadyLogical name _ _ _ => name end.
(** The role may be launched now. *)
Definition launchable (tasks : Tasks) (bindings : Bindings) (job_id : JobId) (job : CooperativeJobRecord)
    (ready : ReadyRole) : Prop :=
  idle_role job (ready_name ready) ∧
  match ready with
  | ReadyCooperative name task =>
      ¬ fans_out (job_definition job) name ∧
      reads_dependencies tasks bindings job (BindSingle job_id name) name task
  | ReadyLogical name role inputs chain =>
      name = lr_name role ∧ ∃ spec rest outputs,
        job_definition job = Logical spec ∧ role ∈ lj_roles spec ∧ chain = role :: rest ∧
        linked spec name rest ∧ Forall2 (supplied tasks bindings job_id job) (lr_depends_on role) outputs ∧
        inputs = concat outputs
  end.
Abbreviation launchable_in n := (launchable (f_tasks (nd_fabric n)) (f_task_roles (nd_fabric n))).
Abbreviation supplied_in n := (supplied (f_tasks (nd_fabric n)) (f_task_roles (nd_fabric n))).
(** The roles that may be launched with it. *)
Definition ready_names (ready : ReadyRole) : list string :=
  match ready with
  | ReadyCooperative name _ => [name]
  | ReadyLogical name _ _ chain => name :: (lr_name <$> tail chain)
  end.

Section ready.
Context `{HashOrder}.

Lemma reads_planning_context resources : reads_only (planning_context resources).
Proof. by intros n. Qed.
Lemma reads_schedulable_resources {E} : reads_only (schedulable_resources (E:=E)).
Proof.
  unfold schedulable_resources. apply reads_bind; [apply reads_fworld|]. intros t.
  apply reads_bind; [apply reads_fget|]. intros. apply reads_ret.
Qed.

Lemma settled_order tasks bindings job_id job spec role outputs :
  job_flow tasks bindings job_id job → job_definition job = Logical spec → role ∈ lj_roles spec →
  Forall2 (supplied tasks bindings job_id job) (lr_depends_on role) outputs →
  (lr_name role, lr_depends_on role) ∈ definition_roles (job_definition job) ∧
  dependencies_launched job (lr_name role).
Proof.
  intros Hflow Hdef Hrole Hset%supplied_settled.
  assert ((lr_name role, lr_depends_on role) ∈ definition_roles (job_definition job)) as Hentry.
  { rewrite Hdef. apply list_elem_of_fmap. by exists role. }
  split; [done|]. intros deps Hdeps.
  rewrite (role_dependencies_unique _ _ _ _ (jf_definition _ _ _ _ Hflow) Hdeps Hentry). by eapply settled_all_launched.
Qed.
Lemma role_reads tasks bindings job_id job binding spec role outputs task :
  job_definition job = Logical spec → role ∈ lj_roles spec → binding_job binding = job_id →
  Forall2 (supplied tasks bindings job_id job) (lr_depends_on role) outputs →
  runs_roles (Logical spec) binding (concat outputs) task →
  reads_dependencies tasks bindings job binding (lr_name role) task.
Proof.
  intros Hdef Hrole <- Hset Hruns. exists (lr_depends_on role), outputs. rewrite Hdef.
  split_and!; [apply list_elem_of_fmap; by exists role|done|done].
Qed.
Lemma shard_runs template deps index count share id :
  runs_template template deps (shard_task template deps index count share id) ∧
  ∃ partition, ts_shard (shard_task template deps index count share id) = Some (mkTaskShard index count partition).
Proof. destruct share as [[policy p]|]; simpl; (split; [by repeat split|by eexists]). Qed.
(** The shards placed for a role are as many as its policy allows. *)
Lemma shard_count_placed spec role objects count :
  role ∈ lj_roles spec → may_fan_out (lr_shards role) = true → shard_count_ok role objects count →
  shard_count (Logical spec) (lr_name role) count.
Proof.
  intros Hrole Hfan Hcount. exists spec, role. split_and!; [done..|]. unfold shard_count_ok in Hcount.
  destruct (lr_shards role); [done|]. destruct Hcount as (units & _ & Hcount). unfold max_auto_shards in Hcount.
  destruct (units =? 0); lia.
Qed.

Lemma materialize_sharded_launches job_id spec role outputs resources n job :
  flow_ok (nd_fabric n) → f_jobs (nd_fabric n) !! job_id = Some job → job_definition job = Logical spec →
  role ∈ lj_roles spec → may_fan_out (lr_shards role) = true → idle_role job (lr_name role) →
  Forall2 (supplied_in n job_id job) (lr_depends_on role) outputs →
  ends (launches job_id [lr_name role] (nd_fabric n))
    (materialize_sharded job_id (lr_name role) role (concat outputs) resources) n.
Proof.
  intros Hok Hj Hdef Hrole Hfan Hidle Hset.
  destruct (settled_order _ _ _ _ _ _ _ (fo_jobs _ Hok _ _ Hj) Hdef Hrole Hset) as [Hentry Horder].
  unfold materialize_sharded. apply ends_reads; [apply reads_planning_context|by apply launches_none|].
  intros context n1 _ Hn1. rewrite <- Hn1 in *.
  apply ends_reads; [apply reads_fworld|by apply launches_none|]. intros selected n2 Hrun Hn2. rewrite <- Hn2 in *.
  destruct selected as [sels|]; [|by eapply mark_ready_launches].
  eapply fworld_yields in Hrun; [|apply yields_try, select_ready_shards_ok]. destruct Hrun as (count & Hcount & Hshards).
  eapply ends_bind; [eapply (submit_shards_flow job_id (lr_name role) sels n2 job); [done|done|..]|..].
  - by exists spec, role.
  - done.
  - apply Forall_forall. intros s Hs. apply list_elem_of_lookup in Hs as [i Hs].
    destruct (Forall2_lookup_r _ _ _ _ _ Hshards Hs) as (index & Hindex & _ & _ & impl & id & share & Hi & _ & Htask & _).
    apply lookup_seqZ in Hindex as [-> Hlt].
    eapply role_reads; [done..|]. destruct (shard_runs (ri_task impl) (concat outputs) (0 + Z.of_nat i) count share id)
      as [Hruns [partition Hshard]]. rewrite <- Htask in Hruns, Hshard.
    eexists (ri_task impl), _. split_and!; [by exists role, impl|done|exact Hshard|simpl; lia|simpl; lia].
  - intros f (Hok' & Hm & Hjobs). eapply launches_after; [exact Hm|exact Hjobs|by apply launches_none].
  - intros selections n3 Hrun (Hok3 & Hm3 & Hj3). destruct (submit_shards_placed _ _ _ _ _ _ Hrun) as [_ Hplaced]. unfold ends.
    assert (all_shards (f_tasks (nd_fabric n3)) (f_task_roles (nd_fabric n3)) job_id (Logical spec) (lr_name role)
      (ss_task_id <$> selections)) as Hall.
    { exists count. split; [by eapply shard_count_placed|]. apply Forall2_fmap_r.
      eapply Forall2_trans; [|exact Hshards|exact Hplaced].
      intros index s selection (_ & _ & impl & id & share & _ & _ & Htask & _) [Hb Ht]. split; [done|].
      destruct (shard_runs (ri_task impl) (concat outputs) index count share id) as [_ [partition Hshard]].
      eexists _, partition. split; [exact Ht|]. simpl. by rewrite Htask. }
    rewrite (expect_job_run job_id job) by (by rewrite Hj3). unfold bind at 1. rewrite insert_role_run.
    erewrite insert_selection_run by apply lookup_insert_eq. simpl.
    eapply launches_after; [exact Hm3|exact Hj3|].
    change (set_jobs (set_jobs ?f _) ?jobs) with (set_jobs f jobs). rewrite insert_insert_eq.
    eapply start_role_launches; try done; try (by rewrite ?Hj3). simpl. by rewrite Hdef.
Qed.
Lemma materialize_role_launches job_id ready n job :
  flow_ok (nd_fabric n) → f_jobs (nd_fabric n) !! job_id = Some job → launchable_in n job_id job ready →
  ends (launches job_id (ready_names ready) (nd_fabric n)) (materialize_role job_id ready) n.
Proof.
  intros Hok Hj [Hidle Hready]. destruct ready as [name task|name role inputs chain]; cbn [materialize_role ready_names ready_name] in *.
  { destruct Hready as [Hfan Hreads]. by eapply materialize_single_launches. }
  destruct Hready as (-> & spec & rest & outputs & Hdef & Hrole & -> & Hlinked & Hset & ->). cbn [tail].
  destruct (settled_order _ _ _ _ _ _ _ (fo_jobs _ Hok _ _ Hj) Hdef Hrole Hset) as [Hentry Horder].
  assert (∀ f, launches job_id [lr_name role] (nd_fabric n) f →
    launches job_id (lr_name role :: (lr_name <$> rest)) (nd_fabric n) f) as Hone
    by (intros f; apply launches_mono; set_solver).
  unfold materialize_logical. apply ends_reads; [apply reads_schedulable_resources|by apply launches_none|].
  intros resources n1 _ Hn1. rewrite <- Hn1 in *. destruct (may_fan_out (lr_shards role)) eqn:Hfan.
  { apply Hone. by eapply materialize_sharded_launches. }
  assert (¬ fans_out (job_definition job) (lr_name role)) as Hno
    by (eapply single_no_fan; [eapply jf_definition, fo_jobs|..]; done).
  apply ends_reads; [apply reads_planning_context|by apply launches_none|]. intros context n2 _ Hn2. rewrite <- Hn2 in *.
  apply ends_reads; [apply reads_fworld|by apply launches_none|]. intros fused n3 Hrun Hn3. rewrite <- Hn3 in *.
  destruct fused as [selected|].
  { eapply fworld_yields in Hrun; [|apply yields_try, select_ready_fusion_ok]. 
    eapply materialize_fused_launches; [done..|exact Hrun]. }
  apply ends_reads; [apply reads_fworld|by apply launches_none|]. intros selected n4 Hrun' Hn4. rewrite <- Hn4 in *.
  apply Hone. destruct selected as [selected|]; [|by eapply mark_ready_launches].
  eapply fworld_yields in Hrun'; [|apply yields_try, select_ready_role_ok].
  destruct Hrun' as (impl & id & Hi & _ & Htask & _). eapply materialize_single_launches; [done..|].
  eapply role_reads; [done..|]. exists (ri_task impl). split; [by exists role, impl|].
  rewrite Htask. apply instantiate_runs_whole.
Qed.

(** A role that stays idle while another is launched can still be launched. *)
Lemma launchable_moves tasks tasks' bindings bindings' job_id job job' ready :
  grows task_evolves tasks tasks' → grows eq bindings bindings' →
  job_moves job job' → idle_role job' (ready_name ready) →
  launchable tasks bindings job_id job ready → launchable tasks' bindings' job_id job' ready.
Proof.
  intros Ht Hb Hm Hidle [_ Hready]. split; [done|]. rewrite (jm_definition _ _ Hm). destruct ready as [name task|name role inputs chain].
  - destruct Hready as [? Hreads]. split; [done|]. by eapply reads_dependencies_moves.
  - destruct Hready as (? & spec & rest & outputs & ? & ? & ? & ? & Hset & ?). split; [done|].
    exists spec, rest, outputs. split_and!; try done. by eapply supplied_moves.
Qed.
(** What a role depends on has settled, so it is in no other's chain. *)
Lemma not_in_chain tasks bindings job_id job ready other :
  job_flow tasks bindings job_id job → launchable tasks bindings job_id job ready →
  launchable tasks bindings job_id job other → ready_name other ≠ ready_name ready → ready_name other ∉ ready_names ready.
Proof.
  intros Hflow [Hidle Hready] [Hidle' Hother] Hne. destruct ready as [name task|name role inputs chain]; simpl in *; [set_solver|].
  destruct Hready as (-> & spec & rest & outputs & Hdef & Hrole & -> & Hlinked & _). simpl.
  apply not_elem_of_cons. split; [done|]. intros Hin.
  assert (∃ deps, (ready_name other, deps) ∈ definition_roles (job_definition job) ∧ Forall (launched job) deps) as (deps & Hdeps & Hl).
  { destruct other as [other task|other role' objects chain]; simpl in *.
    - destruct Hother as (_ & deps & outs & Hdeps & Hset%supplied_settled & _). exists deps. split; [done|]. by eapply settled_all_launched.
    - destruct Hother as (-> & spec' & rest' & outs & Hdef' & Hin' & _ & _ & Hset%supplied_settled & _).
      exists (lr_depends_on role'). split; [|by eapply settled_all_launched]. rewrite Hdef'. apply list_elem_of_fmap. by exists role'. }
  clear Hidle' Hother Hne. revert Hlinked Hidle Hin. generalize (lr_name role). clear Hrole.
  induction rest as [|r rest IH]; intros previous; simpl; [set_solver|].
  intros (Hr & Hd & _ & Hlinked) Hprevious. 
  assert ((lr_name r, lr_depends_on r) ∈ definition_roles (job_definition job)) as Hentry.
  { rewrite Hdef. apply list_elem_of_fmap. by exists r. }
  assert (idle_role job (lr_name r)) as Hidle.
  { destruct (idle_or_launched job (lr_name r)) as [|Hl']; [by eapply jf_roles|done|].
    pose proof (jf_order _ _ _ _ Hflow _ _ Hentry Hl') as Hall. rewrite Hd in Hall. apply Forall_cons in Hall as [Hall _].
    by destruct (idle_not_launched _ _ Hprevious Hall). }
  intros [Heq|Hin]%elem_of_cons; [|by eapply IH].
  rewrite Heq in Hdeps. rewrite (role_dependencies_unique _ _ _ _ (jf_definition _ _ _ _ Hflow) Hdeps Hentry), Hd in Hl.
  apply Forall_cons in Hl as [Hl _]. by destruct (idle_not_launched _ _ Hprevious Hl).
Qed.

(** The loop over the ready roles. *)
Lemma materialize_roles_flow job_id readies n job :
  flow_ok (nd_fabric n) → f_jobs (nd_fabric n) !! job_id = Some job → Forall (launchable_in n job_id job) readies →
  NoDup (ready_name <$> readies) →
  ends (λ f, flow_ok f ∧ moves (nd_fabric n) f) (for_each (materialize_role job_id) readies) n.
Proof.
  unfold for_each. revert n job. induction readies as [|ready readies IH]; intros n job Hok Hj; [done|].
  intros [Hready Hall]%Forall_cons [Hnew Hnd]%NoDup_cons. simpl.
  eapply ends_bind; [by eapply materialize_role_launches|by intros f (? & ? & _)|].
  intros [] n1 _ (Hok1 & Hm1 & Hl1). destruct (Hl1 job Hj) as (job1 & Hj1 & Hidle1).
  assert (job_moves job job1) as Hm.
  { destruct (job_moves_grows _ _ _ _ Hm1 Hj) as (job1' & Hj1' & ?). by simplify_eq. }
  destruct (IH n1 job1 Hok1 Hj1) as [Hok2 Hm2]; [|exact Hnd|split; [done|by etrans]].
  rewrite Forall_forall in Hall |- *. intros other Hother. eapply launchable_moves; [apply Hm1|apply Hm1|done| |by apply Hall].
  destruct (Hall other Hother) as [Hidle _]. destruct (Hidle1 _ Hidle) as [|Hin]; [done|].
  exfalso. revert Hin. apply (not_in_chain _ _ _ _ _ _ (fo_jobs _ Hok _ _ Hj) Hready (Hall other Hother)).
  intros Heq. apply Hnew. rewrite <- Heq. by apply list_elem_of_fmap_2.
Qed.

(** The roles found ready can be launched, and are different roles. *)
Lemma completed_settled tasks bindings job_id job role outputs :
  job_flow tasks bindings job_id job → job_roles job !! role = Some (RoleCompleted outputs) → settled job role outputs.
Proof.
  intros Hflow Hs. split; [|by left]. destruct (job_reductions job !! role) eqn:Hr; [|done].
  destruct (jf_reductions _ _ _ _ Hflow role _ Hr) as (_ & _ & s & Hs' & Hm). by simplify_eq.
Qed.
Lemma completed_supplied tasks bindings job_id job role outputs :
  job_flow tasks bindings job_id job → job_roles job !! role = Some (RoleCompleted outputs) →
  supplied tasks bindings job_id job role outputs.
Proof. intros Hflow Hs. split; [by eapply completed_settled|]. exact (jf_status _ _ _ _ Hflow role _ Hs). Qed.
Lemma dependency_outputs_supplied tasks bindings job_id job dependencies inputs :
  job_flow tasks bindings job_id job → dependency_outputs (job_roles job) dependencies = Some inputs →
  ∃ outputs, inputs = concat outputs ∧ Forall2 (supplied tasks bindings job_id job) dependencies outputs.
Proof.
  intros Hflow. revert inputs. induction dependencies as [|d dependencies IH]; intros inputs; simpl.
  { intros [= <-]. by exists []. }
  destruct (job_roles job !! d) as [[]|] eqn:Hd; try done.
  destruct (dependency_outputs _ _) as [rest|]; simpl; [|done]. intros [= <-].
  destruct (IH rest eq_refl) as (outs & -> & Houts). exists (outputs :: outs). split; [done|].
  constructor; [by eapply completed_supplied|done].
Qed.

Section found.
Context (tasks : Tasks) (bindings : Bindings) (job_id : JobId) (job : CooperativeJobRecord).
Context (Hflow : job_flow tasks bindings job_id job).
Definition found_ok (name : string) (found : option ReadyRole) : Prop :=
  ∀ ready, found = Some ready → launchable tasks bindings job_id job ready ∧ ready_name ready = name.

Lemma ready_cooperative_found spec role :
  job_definition job = Cooperative spec → role ∈ cj_roles spec →
  yields (ready_cooperative (job_roles job) role) (found_ok (cr_name role)).
Proof.
  intros Hdef Hrole. unfold ready_cooperative. case_bool_decide as Hs; [|by apply yields_ret].
  destruct (dependency_outputs _ _) as [inputs|] eqn:Hinputs; [|by apply yields_ret].
  destruct (dependency_outputs_supplied _ _ _ _ _ _ Hflow Hinputs) as (outs & -> & Hset).
  intros n. simpl. intros ready [= <-]. split; [|done]. split; [by exists Waiting|]. split.
  - rewrite Hdef. by intros (spec' & role' & ? & _).
  - exists (cr_depends_on role), outs. rewrite Hdef. split_and!; [apply list_elem_of_fmap; by exists role|done|].
    exists (cr_task role). split; [by exists role|apply instantiate_runs_whole].
Qed.
Lemma ready_logical_found spec role :
  job_definition job = Logical spec → role ∈ lj_roles spec →
  yields (ready_logical spec (job_roles job) role) (found_ok (lr_name role)).
Proof.
  intros Hdef Hrole. unfold ready_logical. destruct (_ || _) eqn:Hs; [|by apply yields_ret].
  assert (idle_role job (lr_name role)) as Hidle.
  { apply orb_true_iff in Hs as [Hs|Hs]; apply bool_decide_eq_true in Hs; by eexists. }
  destruct (dependency_outputs _ _) as [inputs|] eqn:Hinputs; [|by apply yields_ret].
  destruct (dependency_outputs_supplied _ _ _ _ _ _ Hflow Hinputs) as (outs & -> & Hset).
  assert (logical_job_wf spec) as [Hwf _] by (pose proof (jf_definition _ _ _ _ Hflow) as Hd; by rewrite Hdef in Hd).
  pose proof (fusion_chain_total spec (job_roles job) Hwf role Hrole) as Htotal.
  intros n. unfold bind, lift. destruct (fusion_chain _ _ _) as [chain|e| |] eqn:Hchain; [|done..]. simpl.
  intros ready [= <-]. split; [|done]. split; [done|]. split; [done|].
  destruct (fusion_chain_linked _ _ _ _ Hchain) as (rest & -> & Hlinked). by exists spec, rest, outs.
Qed.

Lemma found_list names founds :
  Forall2 found_ok names founds → NoDup names →
  Forall (launchable tasks bindings job_id job) (omap id founds) ∧ NoDup (ready_name <$> omap id founds).
Proof.
  intros Hfound Hnd. assert (Forall (launchable tasks bindings job_id job) (omap id founds) ∧ sublist (ready_name <$> omap id founds) names) as [? Hsub].
  { clear Hnd. induction Hfound as [|name found names founds Hf _ [IH1 IH2]]; simpl; [by split|].
    destruct found as [ready|]; simpl; [|split; [done|by constructor]].
    destruct (Hf ready eq_refl) as [? <-]. split; by constructor. }
  split; [done|]. by eapply sublist_NoDup.
Qed.
Lemma ready_roles_found :
  yields (ready_roles job) (λ readies, Forall (launchable tasks bindings job_id job) readies ∧ NoDup (ready_name <$> readies)).
Proof.
  pose proof (definition_names_nodup _ (jf_definition _ _ _ _ Hflow)) as Hnd. unfold ready_roles.
  apply (yields_bind _ _ (λ founds, Forall2 found_ok (definition_roles (job_definition job)).*1 founds)).
  - destruct (job_definition job) as [spec|spec] eqn:Hdef; simpl; rewrite <- list_fmap_compose.
    + eapply yields_mono; [apply (yields_cmap _ (λ role, found_ok (cr_name role)))|].
      * intros role Hrole. by apply (ready_cooperative_found spec).
      * intros founds Hf. by apply Forall2_fmap_l.
    + eapply yields_mono; [apply (yields_cmap _ (λ role, found_ok (lr_name role)))|].
      * intros role Hrole. by apply (ready_logical_found spec).
      * intros founds Hf. by apply Forall2_fmap_l.
  - intros founds Hf. apply yields_ret. by eapply found_list.
Qed.
End found.
Lemma reads_ready_roles job : reads_only (ready_roles job).
Proof.
  unfold ready_roles. apply reads_bind; [|intros; apply reads_ret].
  destruct (job_definition job); apply reads_cmap; intros role;
    [unfold ready_cooperative|unfold ready_logical]; repeat case_match; try apply reads_ret.
  - apply reads_bind; [apply reads_fworld|intros; apply reads_ret].
  - apply reads_bind; [apply reads_lift|intros; apply reads_ret].
Qed.

Lemma find_job_ends {A} P job_id (k : CooperativeJobRecord → fab A) n :
  P (nd_fabric n) → (∀ job, f_jobs (nd_fabric n) !! job_id = Some job → ends P (k job) n) →
  ends P (bind (find_job job_id) k) n.
Proof.
  intros HP Hk. unfold ends, find_job, bind, fget, gets, ok_or_throw, lift in *. simpl.
  destruct (f_jobs (nd_fabric n) !! job_id) as [job|]; [|done]. by apply (Hk job).
Qed.
Lemma flows_materialize_ready_roles job_id : preserves flows (materialize_ready_roles job_id).
Proof.
  intros n Hok. apply (find_job_ends (λ f, flow_ok f ∧ moves (nd_fabric n) f)); [done|]. intros job Hj.
  apply ends_reads; [apply reads_ready_roles|done|]. intros readies n1 Hrun Hn1.
  pose proof (ready_roles_found _ _ _ _ (fo_jobs _ Hok _ _ Hj) n) as Hfound. rewrite Hrun in Hfound. destruct Hfound as [Hall Hnd].
  rewrite <- Hn1 in *. by eapply materialize_roles_flow.
Qed.
End ready.
End strays.
Abbreviation launchable_in n := (launchable (f_tasks (nd_fabric n)) (f_task_roles (nd_fabric n))).
Abbreviation supplied_in n := (supplied (f_tasks (nd_fabric n)) (f_task_roles (nd_fabric n))).
#[export] Hint Resolve flows_materialize_ready_roles : frame.

