(* ===== verification/RoleSteps.v ===== *)
(** * What the operations do to the roles of a job

    Every handler of the coordinator keeps the invariant of [RoleFlow]: what is
    left to show of the role runtime (reductions, tasks that end), of the rest
    of the fabric and of the handlers. *)

From S2P Require Import Prelude Float64 World Text Core Samples Scheduler RoleGraph Partition Placement Reduction Fusion LogicalJob Planner Fabric Roles Execution Coordinator Clock Frames Evolution Leases Safety RoleFlow.

Open Scope string_scope.
Open Scope list_scope.
Open Scope Z_scope.

Section strays.
Context {strays : Strays}.

(** ** Reductions *)

(** The invariant holds, and jobs have moved on from [f0]. *)
Definition onward (f0 f : Fabric) : Prop := flow_ok f ∧ moves f0 f.
Lemma onward_trans f0 f1 f2 : onward f0 f1 → onward f1 f2 → onward f0 f2.
Proof. intros [_ Hm1] [Hok Hm2]. split; [done|]. by etrans. Qed.
Lemma onward_refl f : flow_ok f → onward f f.
Proof. by split. Qed.
Lemma ends_flows {E A} f0 (m : comp Node E A) n : preserves flows m → onward f0 (nd_fabric n) → ends (onward f0) m n.
Proof. intros Hm Hon. eapply onward_trans; [exact Hon|]. apply (Hm n), Hon. Qed.
Lemma ends_onward {E A B} f0 (m : comp Node E A) (k : A → comp Node E B) n :
  ends (onward f0) m n → (∀ a, preserves flows (k a)) → ends (onward f0) (bind m k) n.
Proof. intros Hm Hk. eapply ends_bind; [exact Hm|done|]. intros a n' _ Hon. by apply ends_flows. Qed.
Lemma ends_ok_or {E A B} P (e : E) (o : option A) (k : A → comp Node E B) n :
  P (nd_fabric n) → (∀ a, o = Some a → ends P (k a) n) → ends P (bind (ok_or_throw e o) k) n.
Proof. intros HP Hk. destruct o as [a|]; [by apply (Hk a)|done]. Qed.
Lemma ends_ret {E A} P (a : A) n : P (nd_fabric n) → ends P (ret (E:=E) a) n.
Proof. done. Qed.
Lemma ends_throw {E A} P (e : E) n : P (nd_fabric n) → ends P (throw (A:=A) e) n.
Proof. done. Qed.

(** The status of a role that is being reduced, or whose shards have completed. *)
Section fanned_role.
Context (f : Fabric) (job_id : JobId) (job : CooperativeJobRecord) (role : string).
Context (Hok : flow_ok f) (Hj : f_jobs f !! job_id = Some job).
Context (Hfan : fans_out (job_definition job) role) (Hlaunched : launched job role).
Context (Hunsettled : ∀ outputs, ¬ settled job role outputs).

Lemma fanned_role_onward job' status :
  job_definition job' = job_definition job → job_roles job' = <[role := status]> (job_roles job) →
  (∀ other, other ≠ role → job_reductions job' !! other = job_reductions job !! other) →
  match status with
  | Sharded _ _ | RoleCompleted _ => job_reductions job' !! role = None
  | Reducing _ _ _ | RoleUncertain => True
  | _ => False
  end →
  status_ok (f_tasks f) (f_task_roles f) job_id (job_definition job) role status →
  (∀ state, job_reductions job' !! role = Some state →
     reduction_ok (f_tasks f) (f_task_roles f) job_id (job_definition job) role state) →
  reductions_move f job job' →
  onward f (set_jobs f (<[job_id := job']> (f_jobs f))).
Proof.
  intros Hd Hr Hothers Hs Hst Hred Hmoves. pose proof (fo_jobs _ Hok _ _ Hj) as Hflow.
  assert (is_Some (job_roles job !! role)) as Hknown by (destruct Hlaunched as (s & ? & _); by exists s).
  apply (set_job_flows f job_id job job'); [done|done|..].
  - apply (set_role_flow _ _ _ job job' role status); try done.
    + intros _. by destruct status.
    + intros outputs Hset. by destruct (Hunsettled outputs).
    + intros _ deps _. by left.
    + intros state Hstate. split_and!; [done|by apply Hred|]. destruct status; congruence || done.
    + intros t b record Hb Hbj Ht Hin. destruct (bo_whole _ _ _ _ _ _ (jf_bound _ _ _ _ Hflow t b record Hb Hbj Ht) role Hin).
      by destruct (H Hfan).
  - apply (set_role_moves job job' role status); try done.
    + intros _. by destruct status.
    + intros outputs Hset. by destruct (Hunsettled outputs).
  - done.
Qed.
End fanned_role.

Section reductions_flow.
Context `{HashOrder}.

(** A role with a reduction in progress. *)
Lemma reduced_role f job_id job role state :
  flow_ok f → f_jobs f !! job_id = Some job → job_reductions job !! role = Some state →
  fans_out (job_definition job) role ∧ launched job role ∧ (∀ outputs, ¬ settled job role outputs) ∧
  reduction_ok (f_tasks f) (f_task_roles f) job_id (job_definition job) role state.
Proof.
  intros Hok Hj Hred. destruct (jf_reductions _ _ _ _ (fo_jobs _ Hok _ _ Hj) role _ Hred) as (Hfan & Hrok & status & Hs & Hm).
  split_and!; [done| | |done].
  - exists status. split; [done|]. by destruct status.
  - intros outputs [Hn _]. congruence.
Qed.
Lemma reduced_dependencies f job_id job role state :
  flow_ok f → f_jobs f !! job_id = Some job → job_reductions job !! role = Some state → dependencies_launched job role.
Proof.
  intros Hok Hj Hred deps Hin. eapply jf_order; [by eapply fo_jobs|exact Hin|]. by eapply reduced_role.
Qed.
Lemma insert_reduced_onward job_id job job' role status state n :
  flow_ok (nd_fabric n) → f_jobs (nd_fabric n) !! job_id = Some job → job_reductions job !! role = Some state →
  job_definition job' = job_definition job → job_roles job' = job_roles job →
  (∀ other, other ≠ role → job_reductions job' !! other = job_reductions job !! other) →
  match status with RoleCompleted _ => job_reductions job' !! role = None | Reducing _ _ _ => True | _ => False end →
  status_ok (f_tasks (nd_fabric n)) (f_task_roles (nd_fabric n)) job_id (job_definition job) role status →
  (∀ state, job_reductions job' !! role = Some state →
     reduction_ok (f_tasks (nd_fabric n)) (f_task_roles (nd_fabric n)) job_id (job_definition job) role state) →
  reductions_move (nd_fabric n) job job' →
  ends (onward (nd_fabric n)) (insert_role job_id job' role status) n.
Proof.
  intros Hok Hj Hred Hd Hr Hothers Hs Hst Hreds Hmoves. destruct (reduced_role _ _ _ _ _ Hok Hj Hred) as (Hfan & Hl & Hun & _).
  unfold ends. rewrite insert_role_run. simpl.
  apply (fanned_role_onward (nd_fabric n) job_id job role Hok Hj Hfan Hl Hun
    (with_roles job' (<[role := status]> (job_roles job'))) status); simpl; try done; [by rewrite Hr|by destruct status].
Qed.
(** The state of one role's reduction is replaced, and no level waits for less,
    its own apart. *)
Lemma role_reductions_move f job job' role state :
  job_reductions job !! role = Some state →
  (∀ other, other ≠ role → job_reductions job' !! other = job_reductions job !! other) →
  (∀ id, ItemTask id ∈ red_items state → ∃ outputs, completed_with (f_tasks f) id outputs) →
  reductions_move f job job'.
Proof.
  intros Hs Hothers Hdone r state' id Hs' Hin. destruct (decide (r = role)) as [->|Hne].
  - right. simplify_eq. by apply Hdone.
  - left. exists state'. by rewrite Hothers.
Qed.

Lemma finish_reduction_onward job_id job role state n :
  flow_ok (nd_fabric n) → f_jobs (nd_fabric n) !! job_id = Some job → job_reductions job !! role = Some state →
  red_items state = [] → (length (red_inputs state) ≤ 1)%nat →
  ends (onward (nd_fabric n)) (finish_reduction job_id role (red_inputs state)) n.
Proof.
  intros Hok Hj Hred Hitems Hlength. unfold finish_reduction. apply find_job_ends; [by apply onward_refl|]. intros job' Hj'. simplify_eq.
  destruct (reduced_role _ _ _ _ _ Hok Hj Hred) as (_ & _ & _ & reduction & outputs & Hspec & Hshards & Hl & Hlevel).
  apply ends_onward; [|intros; apply flows_materialize_ready_roles].
  assert (∀ other, other ≠ role → job_reductions (with_reductions job (delete role (job_reductions job))) !! other =
    job_reductions job !! other) as Hothers by (intros other Hne; simpl; by rewrite lookup_delete_ne).
  eapply insert_reduced_onward; try done.
  - simpl. apply lookup_delete_eq.
  - destruct Hlevel as [(Hrtc & Hne & _)|(-> & _ & ?)]; [left|by right].
    destruct (red_inputs state) as [|object [|]] eqn:Hinputs; [done| |simpl in Hlength; lia]. by eapply result_reduced.
  - intros state'. simpl. by rewrite lookup_delete_eq.
  - eapply role_reductions_move; [done..|]. rewrite Hitems. set_solver.
Qed.
Lemma submit_items_onward job_id job role items n :
  flow_ok (nd_fabric n) → f_jobs (nd_fabric n) !! job_id = Some job → fans_out (job_definition job) role →
  dependencies_launched job role →
  ends (λ f, onward (nd_fabric n) f ∧ f_jobs f = f_jobs (nd_fabric n)) (cmap (submit_reduction_item job_id role) items) n.
Proof.
  intros Hok Hj Hfan Hdeps. revert n Hok Hj. induction items as [|item items IH]; intros n Hok Hj; simpl.
  { split; [by apply onward_refl|done]. }
  apply (ends_bind _ (λ f, onward (nd_fabric n) f ∧ f_jobs f = f_jobs (nd_fabric n))); [|done|].
  - destruct item as [object|selected]; [by split; [apply onward_refl|]|].
    destruct (submit_run (rds_task selected) n) as [[Hno Hsame]|[Hnew Hrun]].
    { unfold ends, submit_reduction_item, bind. destruct (submit _ n) as [[id|e| |] n']; simpl in *; subst n';
        try (split; [by apply onward_refl|done]). by destruct (Hno id). }
    destruct (bind_task_flows (nd_fabric n) job_id job (ts_id (rds_task selected)) (mkTaskRecord (rds_task selected) Pending)
      (BindReduction job_id role)) as [Hok' Hm]; try done.
    + split; simpl; [apply NoDup_nil_2|set_solver|intros r ->%list_elem_of_singleton; by right|done].
    + unfold ends, submit_reduction_item, bind. rewrite Hrun. by split.
  - intros i n1 _ (Hon & Hj1). unfold ends in *. assert (f_jobs (nd_fabric n1) !! job_id = Some job) as Hjob1 by by rewrite Hj1.
    destruct (IH n1 (proj1 Hon) Hjob1) as (Hon2 & Hj2). unfold bind.
    destruct (cmap (submit_reduction_item job_id role) items n1) as [[l|e| |] n2]; simpl in *;
      (split; [by eapply onward_trans|congruence]).
Qed.

(** The task of a reducer, and the item of its level. *)
Definition placed_item (job_id : JobId) (role : string) (n : Node) (item : ReadyReductionItem) (i : ReductionItem) : Prop :=
  match item with
  | RCarry object => i = ItemCarry object
  | RReduce selected => i = ItemTask (ts_id (rds_task selected)) ∧
      f_task_roles (nd_fabric n) !! ts_id (rds_task selected) = Some (BindReduction job_id role) ∧
      f_tasks (nd_fabric n) !! ts_id (rds_task selected) = Some (mkTaskRecord (rds_task selected) Pending)
  end.
Lemma submit_item_run job_id role item n i n' :
  submit_reduction_item job_id role item n = (Ok i, n') →
  match item with
  | RCarry object => i = ItemCarry object ∧ n' = n
  | RReduce selected => let id := ts_id (rds_task selected) in
      i = ItemTask id ∧ f_tasks (nd_fabric n) !! id = None ∧
      f_tasks (nd_fabric n') = <[id := mkTaskRecord (rds_task selected) Pending]> (f_tasks (nd_fabric n)) ∧
      f_task_roles (nd_fabric n') = <[id := BindReduction job_id role]> (f_task_roles (nd_fabric n)) ∧
      f_jobs (nd_fabric n') = f_jobs (nd_fabric n)
  end.
Proof.
  destruct item as [object|selected]; simpl; [by intros [= <- <-]|].
  destruct (submit_run (rds_task selected) n) as [[Hno _]|[Hnew Hrun]].
  - unfold bind. destruct (submit _ n) as [[id|e| |] n1]; simpl in *; [by destruct (Hno id)|done..].
  - unfold bind at 1. rewrite Hrun. by intros [= <- <-].
Qed.
(** All items of a level are placed, and no other reducer is made. *)
Lemma submit_items_placed job_id role l n items n' :
  cmap (submit_reduction_item job_id role) l n = (Ok items, n') →
  f_jobs (nd_fabric n') = f_jobs (nd_fabric n) ∧
  (∀ item i, placed_item job_id role n item i → placed_item job_id role n' item i) ∧
  Forall2 (placed_item job_id role n') l items ∧
  ∀ id binding, f_task_roles (nd_fabric n') !! id = Some binding → f_task_roles (nd_fabric n) !! id = None →
    binding = BindReduction job_id role ∧ ItemTask id ∈ items.
Proof.
  revert n items. induction l as [|item l IH]; intros n items; simpl.
  { intros [= <- <-]. split_and!; [done..|]. intros id b H1 H2. congruence. }
  unfold bind at 1. destruct (submit_reduction_item job_id role item n) as [[i|e| |] n1] eqn:Hi; [|done..].
  unfold bind. destruct (cmap _ l n1) as [[rest|e| |] n2] eqn:Hl; [|done..]. intros [= <- <-].
  destruct (IH _ _ Hl) as (Hjobs & Hmono & Hall & Hnew). pose proof (submit_item_run _ _ _ _ _ _ Hi) as Hrun.
  destruct item as [object|selected]; cbv zeta in Hrun.
  - destruct Hrun as [-> ->]. split_and!; [done|done|by constructor|]. intros id b Hb Hn.
    destruct (Hnew id b Hb Hn) as [? ?]. split; [done|by right].
  - destruct Hrun as (-> & Hfree & Ht & Hb & Hj). set (id := ts_id (rds_task selected)) in *. split_and!.
    + congruence.
    + intros item' i' Hp. apply Hmono. destruct item' as [|selected']; [done|]. destruct Hp as (-> & Hb' & Ht').
      assert (ts_id (rds_task selected') ≠ id) by congruence. split_and!; [done|rewrite Hb|rewrite Ht]; by rewrite lookup_insert_ne.
    + constructor; [|done]. apply Hmono. split_and!; [done|rewrite Hb|rewrite Ht]; apply lookup_insert_eq.
    + intros id' b Hb' Hn. destruct (decide (id' = id)) as [->|Hne].
      * pose proof (Hmono (RReduce selected) (ItemTask id)) as (_ & Hb2 & _).
        { split_and!; [done|rewrite Hb|rewrite Ht]; apply lookup_insert_eq. }
        fold id in Hb2. split; [congruence|by left].
      * destruct (Hnew id' b Hb') as [? ?]; [by rewrite Hb, lookup_insert_ne|]. split; [done|by right].
Qed.
Lemma placed_under_way job_id role reduction context n l items :
  Forall (λ item, ∃ group, item_ok reduction context group item) l → Forall2 (placed_item job_id role n) l items →
  Forall2 (item_under_way (f_tasks (nd_fabric n)) (f_task_roles (nd_fabric n)) job_id role reduction)
    (item_inputs reduction <$> l) items.
Proof.
  intros Hl Hplaced. induction Hplaced as [|item i l items Hp _ IH]; [done|]. apply Forall_cons in Hl as [[group [<- Hi]] Hl].
  constructor; [|by apply IH]. destruct item as [object|selected]; [by simpl in Hp; subst|].
  destruct Hp as (-> & Hb & Ht), Hi as (Hlen & _ & [id Htask] & _). split_and!; [done..|].
  exists (mkTaskRecord (rds_task selected) Pending). split; [done|]. simpl. rewrite Htask. simpl. rewrite drop_app_length.
  apply instantiate_runs_whole.
Qed.
(** A role whose level has just been placed. *)
Lemma level_placed job_id definition role context reduction state selected items n :
  reduction_ok (f_tasks (nd_fabric n)) (f_task_roles (nd_fabric n)) job_id definition role state →
  logical_role_reduction definition role = Some reduction → (2 <= length (red_inputs state))%nat →
  selected ≫= item_inputs reduction = red_inputs state →
  Forall (λ item, ∃ group, item_ok reduction context group item) selected →
  Forall2 (placed_item job_id role n) selected items →
  reduction_ok (f_tasks (nd_fabric n)) (f_task_roles (nd_fabric n)) job_id definition role
    (mkActiveReduction (red_level state) (red_inputs state) items).
Proof.
  intros (reduction' & outputs & Hspec & Hshards & Hl & Hlevel) Hreduction Hlen Hcat Hok Hplaced. simplify_eq.
  exists reduction', outputs. split_and!; [done..|]. left. cbn [red_inputs red_items].
  destruct Hlevel as [(Hrtc & Hne & _)|(Hnil & _)]; [|rewrite Hnil in Hlen; simpl in Hlen; lia].
  split_and!; [done..|]. right. split; [done|]. exists (item_inputs reduction' <$> selected). split.
  - rewrite <- Hcat. clear. induction selected; csimpl; [done|]. by f_equal.
  - by eapply placed_under_way.
Qed.
End reductions_flow.

Section role_flow.
Context `{HashOrder}.

Lemma flows_materialize_reduction_level job_id role : preserves flows (materialize_reduction_level job_id role).
Proof.
  intros n Hok. change (ends (onward (nd_fabric n)) (materialize_reduction_level job_id role) n).
  assert (onward (nd_fabric n) (nd_fabric n)) as Hrefl by by apply onward_refl.
  unfold materialize_reduction_level.
  apply find_job_ends; [done|]. intros job Hj. apply ends_ok_or; [done|]. intros reduction Hreduction.
  apply ends_ok_or; [done|]. intros state Hstate. case_bool_decide as Hnone; [|done].
  apply nil_length_inv in Hnone. cbn [negb]. destruct (Nat.leb_spec (length (red_inputs state)) 1) as [Hle|Hlt];
    [by eapply finish_reduction_onward|].
  apply ends_reads; [apply reads_schedulable_resources|done|]. intros resources n1 _ Hn1. rewrite <- Hn1 in *.
  apply ends_reads; [apply reads_planning_context|done|]. intros context n2 _ Hn2. rewrite <- Hn2 in *.
  apply ends_reads; [apply reads_fworld|done|]. intros selected n3 Hselect Hn3. rewrite <- Hn3 in *.
  destruct selected as [selected|].
  - eapply fworld_yields in Hselect; [|apply yields_try, yields_with_fresh_availability, select_reduction_level_ok].
    destruct Hselect as (Hcat & _ & Hitems).
    eapply ends_bind; [eapply submit_items_onward; [done|exact Hj|by eapply reduced_role|by eapply reduced_dependencies]|by intros f [? _]|].
    intros items n4 Hrun [Hon Hj4]. destruct (submit_items_placed _ _ _ _ _ _ Hrun) as (_ & _ & Hplaced & _).
    case_bool_decide; [by apply ends_throw|].
    apply find_job_ends; [done|]. intros job' Hj'. assert (job' = job) as -> by congruence.
    apply ends_ok_or; [done|]. intros state' Hstate'. assert (state' = state) as -> by congruence.
    eapply onward_trans; [exact Hon|].
    assert (f_jobs (nd_fabric n4) !! job_id = Some job) as Hj4' by by rewrite Hj4.
    assert (∀ other reds, other ≠ role → job_reductions (with_reductions job (<[role := reds]> (job_reductions job))) !! other =
      job_reductions job !! other) as Hothers by (intros other reds Hne; simpl; by rewrite lookup_insert_ne).
    eapply insert_reduced_onward; [apply Hon|done..| |done|done| |]; [by intros; apply Hothers| |].
    + intros state'. cbn [job_reductions with_reductions]. rewrite lookup_insert_eq. intros [= <-].
      eapply level_placed; [eapply reduced_role; [apply Hon|done..]|done..].
    + eapply role_reductions_move; [done|by intros; apply Hothers|]. rewrite Hnone. set_solver.
  - apply find_job_ends; [done|]. intros job' Hj'. simplify_eq. eapply insert_reduced_onward; try done.
    + intros state' Hs'. simplify_eq. by eapply reduced_role.
    + by apply same_reductions_move.
Qed.
#[local] Hint Resolve flows_materialize_reduction_level : frame.

Lemma start_role_reduction_onward job_id job role inputs n tasks completed :
  flow_ok (nd_fabric n) → f_jobs (nd_fabric n) !! job_id = Some job → fans_out (job_definition job) role →
  job_roles job !! role = Some (Sharded tasks completed) → job_reductions job !! role = None →
  is_Some (logical_role_reduction (job_definition job) role) → (2 <= length inputs)%nat →
  shards_result (f_tasks (nd_fabric n)) (f_task_roles (nd_fabric n)) job_id (job_definition job) role inputs →
  ends (onward (nd_fabric n)) (start_role_reduction job_id role inputs) n.
Proof.
  intros Hok Hj Hfan Hs Hnone [reduction Hspec] Hlen Hshards.
  apply find_job_ends; [by apply onward_refl|]. intros job' Hj'. simplify_eq.
  apply ends_onward; [|intros; apply flows_materialize_reduction_level].
  unfold ends. rewrite insert_role_run. simpl.
  apply (fanned_role_onward (nd_fabric n) job_id job role Hok Hj Hfan) with (status := Reducing [] 0 0); try done.
  - by exists (Sharded tasks completed).
  - intros outputs [_ [Hc|[Hc _]]]; congruence.
  - intros other Hne. simpl. by rewrite lookup_insert_ne.
  - intros state. simpl. rewrite lookup_insert_eq. intros [= <-]. exists reduction, inputs.
    split_and!; [done..|]. left. split_and!; [done| |by left]. by destruct inputs; simpl in *; [lia|].
  - intros r state id Hr Hin. left. exists state. simpl. rewrite lookup_insert_ne; [done|]. congruence.
Qed.

(** The scan at the end of a level: every item is done, and the outputs are in
    order. *)
Definition item_done (tasks : Tasks) (item : ReductionItem) (object : ObjectId) : Prop :=
  match item with ItemCarry carried => object = carried | ItemTask id => completed_with tasks id [object] end.
Lemma scan_reduction_items `{UuidCrate} f role items next ids completed all next' ids' completed' :
  ofold (scan_reduction_item f role) (next, ids, completed, all) items = Ok (next', ids', completed', true) →
  all = true ∧ ∃ objects, next' = next ++ objects ∧ Forall2 (item_done (f_tasks f)) items objects.
Proof.
  revert next ids completed all. induction items as [|item items IH]; intros next ids completed all; simpl.
  { intros [= <- <- <- <-]. split; [done|]. exists []. by rewrite app_nil_r. }
  destruct item as [object|id]; simpl.
  - intros Hrun. destruct (IH _ _ _ _ Hrun) as (-> & objects & -> & Hall). split; [done|].
    exists (object :: objects). by rewrite <- app_assoc; split; [|constructor].
  - destruct (task_status f id) as [status|] eqn:Hst; [|by intros Hrun; destruct (IH _ _ _ _ Hrun) as [? _]].
    destruct status as [| |[|object [|]]|]; try done; try (by intros Hrun; destruct (IH _ _ _ _ Hrun) as [? _]).
    intros Hrun. destruct (IH _ _ _ _ Hrun) as (-> & objects & -> & Hall). split; [done|].
    exists (object :: objects). rewrite <- app_assoc. split; [done|]. constructor; [|done].
    unfold task_status in Hst. apply fmap_Some in Hst as (record & Ht & Hs). by exists record.
Qed.
Lemma items_reduced tasks bindings job_id role reduction groups items objects :
  Forall2 (item_under_way tasks bindings job_id role reduction) groups items → Forall2 (item_done tasks) items objects →
  Forall2 (reduced_to tasks bindings job_id role reduction) groups objects.
Proof.
  intros Hway Hdone. eapply Forall2_trans; [|exact Hway|exact Hdone]. intros group [carried|id] object Hi Ho; simpl in *.
  - left. congruence.
  - right. by exists id.
Qed.
(** A role whose level is at its end. *)
Lemma level_ended tasks bindings job_id definition role state level objects :
  reduction_ok tasks bindings job_id definition role state → Forall2 (item_done tasks) (red_items state) objects →
  (red_items state = [] → stray job_id role) →
  reduction_ok tasks bindings job_id definition role (mkActiveReduction level objects []).
Proof.
  intros (reduction & outputs & Hspec & Hshards & Hl & Hlevel) Hdone Hstray. exists reduction, outputs.
  split_and!; [done..|]. cbn [red_inputs red_items].
  destruct Hlevel as [(Hrtc & Hne & [Hnil|(Hlen & groups & Hcat & Hway)])|(_ & Hnil & _)].
  - right. rewrite Hnil in Hdone. apply Forall2_nil_inv_l in Hdone. by auto.
  - left. pose proof (items_reduced _ _ _ _ _ _ _ _ Hway Hdone) as Hred. split_and!; [|intros ->|by left].
    + eapply rtc_r; [exact Hrtc|]. split; [done|]. by exists groups.
    + apply Forall2_nil_inv_r in Hred as ->. simpl in Hcat. by rewrite <- Hcat in Hlen; simpl in Hlen; lia.
  - right. rewrite Hnil in Hdone. apply Forall2_nil_inv_l in Hdone. by auto.
Qed.

Lemma advance_reduction_level_onward `{UuidCrate} job_id role n :
  flow_ok (nd_fabric n) →
  (∀ job state, f_jobs (nd_fabric n) !! job_id = Some job → job_reductions job !! role = Some state →
     red_items state = [] → stray job_id role) →
  ends (onward (nd_fabric n)) (advance_reduction_level job_id role) n.
Proof.
  intros Hok Hstray. assert (onward (nd_fabric n) (nd_fabric n)) as Hrefl by by apply onward_refl.
  unfold advance_reduction_level.
  apply find_job_ends; [done|]. intros job Hj. apply ends_ok_or; [done|]. intros state Hstate.
  destruct (reduced_role _ _ _ _ _ Hok Hj Hstate) as (Hfan & Hl & Hun & Hrok).
  apply ends_reads; [apply reads_fget|done|]. intros f n1 [= <- <-] _.
  apply ends_reads; [apply reads_lift|done|]. intros [[[next ids] completed] all] n2 Hscan Hn2.
  injection Hscan as Hscan <-.
  destruct all; cbn [negb]; apply find_job_ends; try done; intros job' Hj'; simplify_eq.
  - apply scan_reduction_items in Hscan as (_ & objects & -> & Hdone). rewrite app_nil_l in *.
    apply ends_ok_or; [done|]. intros state' Hstate'. assert (state' = state) as -> by congruence.
    apply ends_onward; [|intros; apply flows_materialize_reduction_level].
    pose proof (fo_jobs _ Hok _ _ Hj) as Hflow.
    destruct (jf_reductions _ _ _ _ Hflow role _ Hstate) as (_ & _ & status & Hs & Hm). unfold ends. simpl.
    apply (fanned_role_onward (nd_fabric n) job_id job role Hok Hj Hfan Hl Hun) with (status := status); simpl.
    + done.
    + by rewrite insert_id.
    + intros other Hne. by rewrite lookup_insert_ne.
    + by destruct status.
    + by apply (jf_status _ _ _ _ Hflow).
    + intros state'. rewrite lookup_insert_eq. intros [= <-]. eapply level_ended; [done..|]. by eapply Hstray.
    + eapply role_reductions_move; [exact Hstate|by intros other Hne; simpl; rewrite lookup_insert_ne|].
      intros id Hin. apply list_elem_of_lookup in Hin as [i Hi].
      destruct (Forall2_lookup_l _ _ _ _ _ Hdone Hi) as (object & _ & Hobject). by exists [object].
  - eapply insert_reduced_onward; try done; [|by apply same_reductions_move].
    intros state' Hs'. by simplify_eq.
Qed.
End role_flow.

(** ** Tasks that end *)

Definition is_bound (f : Fabric) (id : TaskId) (binding : TaskRoleBinding) (record : TaskRecord) : Prop :=
  f_task_roles f !! id = Some binding ∧ f_tasks f !! id = Some record.

Section ending.
Context (f : Fabric) (Hok : flow_ok f).
Context (id : TaskId) (binding : TaskRoleBinding) (record : TaskRecord) (Hbound : is_bound f id binding record).
Context (job : CooperativeJobRecord) (Hj : f_jobs f !! binding_job binding = Some job).

Lemma bound_job : bound_ok (f_tasks f) (f_task_roles f) job id record binding.
Proof. destruct Hbound as [Hb Ht]. by apply (jf_bound _ _ _ _ (fo_jobs _ Hok _ _ Hj) id binding record). Qed.

(** What a task says of its role is definite once it has ended. *)
Lemma whole_status_ended role s s' :
  whole_status binding role id record s → whole_status binding role id record s' →
  (∀ t, s ≠ Submitted t) → (∀ t, s' ≠ Submitted t) → s = s'.
Proof.
  intros Hs Hs' Hn Hn'. destruct s as [| |t| | |o|], s' as [| |t'| | |o'|]; simpl in *; try done;
    try (by destruct (Hn t)); try (by destruct (Hn' t')).
  - destruct Hs as (o1 & Ho1 & ->), Hs' as (o2 & Ho2 & ->). rewrite Ho1 in Ho2. by simplify_eq.
  - destruct Hs as (o1 & Ho1 & _). congruence.
  - destruct Hs' as (o1 & Ho1 & _). congruence.
Qed.
Lemma whole_status_ok role status :
  role ∈ whole_roles binding → whole_status binding role id record status →
  status_ok (f_tasks f) (f_task_roles f) (binding_job binding) (job_definition job) role status.
Proof.
  destruct Hbound as [Hb Ht]. destruct status as [| | | | |outputs|]; simpl; try done; intros Hin Hst.
  - destruct Hst as (outputs' & Hs & ->). left. eapply result_whole; try done. by exists record.
  - exists id, binding, record. split_and!; try done. destruct binding; simpl in *; set_solver.
Qed.
(** The role of a task that has ended gets the status the task gives it. *)
Lemma end_whole_role role status :
  role ∈ whole_roles binding → whole_status binding role id record status → (∀ t, status ≠ Submitted t) →
  onward f (set_jobs f (<[binding_job binding := with_roles job (<[role := status]> (job_roles job))]> (f_jobs f))).
Proof.
  intros Hin Hst Hend. pose proof (fo_jobs _ Hok _ _ Hj) as Hflow.
  destruct (bo_whole _ _ _ _ _ _ bound_job role Hin) as (Hfan & old & Hold & Hwold).
  assert (idle status = false) as Hidle by by destruct status.
  assert (launched job role) as Hl by (exists old; split; [done|by destruct old]).
  assert (is_Some (job_roles job !! role)) as Hknown by by exists old.
  set (job' := with_roles job _).
  assert (∀ outputs, settled job role outputs →
    job_reductions job' !! role = None ∧ (status = RoleCompleted outputs ∨ status = RoleUncertain ∧ fans_out (job_definition job) role)) as Hsettled.
  { intros outputs [Hn Hs]. split; [done|].
    assert (old = status) as <- by (apply (whole_status_ended role); [done|done| |done]; intros t ->; destruct Hs as [|[? _]]; congruence).
    destruct Hs as [Hs|[Hs ?]]; rewrite Hold in Hs; injection Hs as ->; [by left|by right]. }
  apply (set_job_flows f _ job job'); [done|done|..].
  - apply (set_role_flow _ _ _ job job' role status); try done.
    + intros _ deps _. by left.
    + intros state Hred. by destruct (jf_reductions _ _ _ _ Hflow role _ Hred) as [? _].
    + destruct Hbound as [Hb Ht]. by apply whole_status_ok.
    + intros t b r Hb Hbj Ht Hin'.
      destruct (bo_whole _ _ _ _ _ _ (jf_bound _ _ _ _ Hflow t b r Hb Hbj Ht) role Hin') as (_ & old' & Hold' & Hwold').
      assert (old' = old) as -> by congruence.
      destruct (decide (t = id)) as [->|Hne]; [destruct Hbound; by simplify_eq|].
      assert (∀ t, old ≠ Submitted t) as Hn by (intros t' ->; simpl in *; congruence).
      assert (old = status) as <- by by apply (whole_status_ended role). done.
  - apply (set_role_moves job job' role status); done.
  - by apply same_reductions_move.
Qed.
(** A role that runs as several tasks is uncertain once one of them is. *)
Lemma lose_shared_role role :
  is_Some (job_roles job !! role) → role ∈ binding_roles binding → fans_out (job_definition job) role → dependencies_launched job role →
  tr_status record = TaskUncertain →
  onward f (set_jobs f (<[binding_job binding := with_roles job (<[role := RoleUncertain]> (job_roles job))]> (f_jobs f))).
Proof.
  intros Hknown Hin Hfan Hdeps Hst. pose proof (fo_jobs _ Hok _ _ Hj) as Hflow. set (job' := with_roles job _).
  assert (∀ outputs, settled job role outputs →
    job_reductions job' !! role = None ∧ (RoleUncertain = RoleCompleted outputs ∨ RoleUncertain = RoleUncertain ∧ fans_out (job_definition job) role)) as Hsettled
    by (intros outputs [Hn _]; split; [done|by right]).
  apply (set_job_flows f _ job job'); [done|done|..].
  - apply (set_role_flow _ _ _ job job' role RoleUncertain); try done.
    + intros _ deps Hin'. right. by apply Hdeps.
    + intros state Hred. destruct (jf_reductions _ _ _ _ Hflow role _ Hred) as (? & ? & _). by split_and!.
    + destruct Hbound as [Hb Ht]. by exists id, binding, record.
    + intros t b r Hb Hbj Ht Hin'. by destruct (bo_whole _ _ _ _ _ _ (jf_bound _ _ _ _ Hflow t b r Hb Hbj Ht) role Hin').
  - by apply (set_role_moves job job' role RoleUncertain).
  - by apply same_reductions_move.
Qed.
End ending.

(** As [onward], and the tasks and their bindings are as they were. *)
Definition onward_roles (f0 f : Fabric) : Prop :=
  onward f0 f ∧ f_tasks f = f_tasks f0 ∧ f_task_roles f = f_task_roles f0.
Lemma onward_roles_trans f0 f1 f2 : onward_roles f0 f1 → onward_roles f1 f2 → onward_roles f0 f2.
Proof. intros (Hon & Ht & Hb) (Hon' & Ht' & Hb'). split_and!; [by eapply onward_trans|congruence..]. Qed.
Lemma is_bound_roles f0 f id binding record : onward_roles f0 f → is_bound f0 id binding record → is_bound f id binding record.
Proof. intros (_ & Ht & Hb) [H1 H2]. split; congruence. Qed.

Lemma for_each_ends {A} (g : A → fab unit) l n (P : Fabric → Prop) :
  (∀ f, P f → flow_ok f) → P (nd_fabric n) →
  (∀ a n', a ∈ l → P (nd_fabric n') → ends P (g a) n') → ends P (for_each g l) n.
Proof.
  intros HP. unfold for_each. revert n. induction l as [|a l IH]; intros n Hn Hg; simpl; [done|].
  eapply ends_bind; [apply Hg; [by left|done]|done|]. intros [] n1 _ Hn1.
  apply IH; [done|]. intros a' n' Hin. apply Hg. by right.
Qed.

Section completing.
Context `{HashOrder}.

Lemma assign_whole_role binding role status error n id record :
  flow_ok (nd_fabric n) → is_bound (nd_fabric n) id binding record → role ∈ whole_roles binding →
  whole_status binding role id record status → (∀ t, status ≠ Submitted t) →
  ends (onward_roles (nd_fabric n)) (assign_role (binding_job binding) role status error) n.
Proof.
  intros Hok Hb Hin Hst Hend. assert (onward_roles (nd_fabric n) (nd_fabric n)) as Hrefl by (split; [by apply onward_refl|done]).
  unfold assign_role. apply find_job_ends; [done|]. intros job Hj. apply ends_ok_or; [done|]. intros old _.
  unfold ends. rewrite insert_role_run. split; [|done]. by eapply end_whole_role.
Qed.
Lemma removelast_not_last (l : list string) x : NoDup l → x ∈ removelast l → list.last l ≠ Some x.
Proof.
  destruct l as [|y l] using rev_ind; [done|]. rewrite removelast_last, last_snoc. intros Hnd Hin [= ->].
  apply NoDup_app in Hnd as (_ & Hdis & _). apply (Hdis x Hin). by left.
Qed.
Lemma complete_fused_onward job_id roles outputs n id record :
  flow_ok (nd_fabric n) → is_bound (nd_fabric n) id (BindFusedChain job_id roles) record →
  tr_status record = TaskCompleted outputs →
  ends (onward_roles (nd_fabric n)) (complete_fused_chain job_id roles outputs) n.
Proof.
  intros Hok Hb Hst. assert (onward_roles (nd_fabric n) (nd_fabric n)) as Hrefl by (split; [by apply onward_refl|done]).
  unfold complete_fused_chain. apply find_job_ends; [done|]. intros job Hj.
  assert (NoDup roles) as Hnd by (eapply (bo_nodup _ _ _ _ _ _ (bound_job _ Hok _ _ _ Hb job Hj))).
  destruct (list.last roles) as [last|] eqn:Hlast; [|by apply ends_throw].
  assert (∀ n1 role result, onward_roles (nd_fabric n) (nd_fabric n1) → role ∈ roles →
    result = (if bool_decide (list.last roles = Some role) then outputs else []) →
    ends (onward_roles (nd_fabric n)) (assign_role job_id role (RoleCompleted result) (missing "fused role" role)) n1) as Hone.
  { intros n1 role result Hon Hin ->. pose proof (is_bound_roles _ _ _ _ _ Hon Hb) as Hb1.
    eapply onward_roles_trans; [exact Hon|]. destruct Hon as [[Hok1 _] _].
    eapply (assign_whole_role (BindFusedChain job_id roles)); [done|exact Hb1|done| |done]. by exists outputs. }
  eapply ends_bind; [apply (for_each_ends _ _ _ (onward_roles (nd_fabric n)))|done|].
  - by intros f [[? _] _].
  - done.
  - intros role n1 Hin Hon. apply Hone; [done| |].
    + destruct roles as [|y l] using rev_ind; [done|]. rewrite removelast_last in Hin. set_solver.
    + rewrite bool_decide_eq_false_2; [done|]. by apply removelast_not_last.
  - intros _ n1 _ Hon. apply Hone; [done| |by rewrite bool_decide_eq_true_2].
    apply last_Some in Hlast as [l ->]. set_solver.
Qed.
Lemma onward_roles_refl f : flow_ok f → onward_roles f f.
Proof. intros Hok. by split; [apply onward_refl|]. Qed.

(** Once as many shards have completed as there are, all have, and the outputs
    gathered are theirs in order. *)
Lemma shard_outputs_results f ids completed outputs :
  shard_outputs f ids = (completed, outputs) →
  (completed ≤ length ids)%nat ∧
  (completed = length ids → ∃ results, Forall2 (completed_with (f_tasks f)) ids results ∧ outputs = concat results).
Proof.
  unfold shard_outputs. revert completed outputs. induction ids as [|id ids IH] using rev_ind; intros completed outputs.
  { intros [= <- <-]. split; [done|]. intros _. by exists []. }
  rewrite fold_left_app, length_app. simpl. destruct (fold_left _ ids _) as [completed' outputs'].
  destruct (IH completed' outputs' eq_refl) as [Hle Hall].
  destruct (task_status f id) as [[| |result|]|] eqn:Hst; intros [= <- <-]; (split; [lia|]); intros Heq; try lia.
  destruct Hall as (results & Hres & ->); [lia|]. exists (results ++ [result]). split.
  - apply Forall2_app; [done|]. constructor; [|done]. unfold task_status in Hst.
    apply fmap_Some in Hst as (record & Ht & Hs). by exists record.
  - by rewrite concat_app; simpl; rewrite app_nil_r.
Qed.
Lemma shards_status_ok f job_id definition role ids completed outputs :
  shard_outputs f ids = (completed, outputs) → all_shards (f_tasks f) (f_task_roles f) job_id definition role ids →
  (completed = length ids → shards_result (f_tasks f) (f_task_roles f) job_id definition role outputs) ∧
  ((completed = length ids → logical_role_reduction definition role = None ∨ (length outputs ≤ 1)%nat) →
   status_ok (f_tasks f) (f_task_roles f) job_id definition role
     (if (completed =? length ids)%nat then RoleCompleted outputs else Sharded ids completed)).
Proof.
  intros [_ Hall]%shard_outputs_results Hids.
  assert (completed = length ids → shards_result (f_tasks f) (f_task_roles f) job_id definition role outputs) as Hresult.
  { intros Heq. destruct (Hall Heq) as (results & Hres & ->). by exists ids, results. }
  split; [done|]. intros Hno. destruct (Nat.eqb_spec completed (length ids)) as [Heq|]; [|done].
  left. apply result_shards; [by apply Hresult|by apply Hno].
Qed.
Lemma complete_shard_onward job_id role n id record :
  flow_ok (nd_fabric n) → is_bound (nd_fabric n) id (BindShard job_id role) record →
  ends (onward (nd_fabric n)) (complete_shard job_id role) n.
Proof.
  intros Hok Hb. pose proof (onward_refl _ Hok) as Hrefl. unfold complete_shard.
  apply ends_reads; [apply reads_fget|done|]. intros jobs n1 [= <- <-] _.
  destruct (f_jobs (nd_fabric n) !! job_id) as [job|] eqn:Hj; simpl; [|by apply ends_throw].
  destruct (job_roles job !! role) as [[| | |tasks done_| | |]|] eqn:Hs; try by apply ends_throw.
  2: by apply ends_ret.
  destruct (bo_shared _ _ _ _ _ _ (bound_job _ Hok _ _ _ Hb job Hj) role ltac:(by left)) as [Hw|[Hfan _]]; [by apply elem_of_nil in Hw|].
  apply ends_reads; [apply reads_fget|done|]. intros f n1 [= <- <-] _.
  destruct (shard_outputs _ tasks) as [completed outputs] eqn:Hshards. set (all_done := (completed =? length tasks)%nat).
  pose proof (jf_status _ _ _ _ (fo_jobs _ Hok _ _ Hj) role _ Hs) as Hids.
  destruct (shards_status_ok _ _ _ _ _ _ _ Hshards Hids) as [Hresult Hstatus].
  assert (job_reductions job !! role = None) as Hred.
  { destruct (job_reductions job !! role) eqn:Hr; [|done].
    destruct (jf_reductions _ _ _ _ (fo_jobs _ Hok _ _ Hj) role _ Hr) as (_ & _ & s & Hs' & Hm). by simplify_eq. }
  apply ends_reads; [|done|].
  { destruct all_done; [|apply reads_ret]. apply reads_bind; [|intros; apply reads_ret]. unfold find_job.
    apply reads_bind; [apply reads_fget|intros; apply reads_lift]. }
  intros reduces n1 Hrun Hn1. rewrite <- Hn1 in *.
  assert (reduces = all_done && (bool_decide (is_Some (logical_role_reduction (job_definition job) role)) &&
    (1 <? length outputs)%nat)) as Hreduces.
  { clear -Hrun Hj Hn1. rewrite Hn1 in Hj. destruct all_done; [|by injection Hrun]. unfold find_job, bind, fget, gets in Hrun.
    simpl in Hrun. rewrite Hj in Hrun. by injection Hrun. }
  unfold all_done in Hreduces. clear Hrun. destruct reduces.
  - symmetry in Hreduces. apply andb_true_iff in Hreduces as [Hdone%Nat.eqb_eq [Hspec%bool_decide_eq_true Hlen%Nat.ltb_lt]%andb_true_iff].
    eapply ends_onward; [|intros; by apply preserves_ret, _]. eapply start_role_reduction_onward; try done. by apply Hresult.
  - apply ends_onward; [|intros; by apply preserves_ret, _].
    unfold assign_role. apply find_job_ends; [done|]. intros job' Hj'. simplify_eq. apply ends_ok_or; [done|]. intros old _.
    unfold ends. rewrite insert_role_run.
    eapply (fanned_role_onward _ _ job role Hok Hj Hfan); [| |done..|by destruct all_done| | |by apply same_reductions_move].
    + by exists (Sharded tasks done_).
    + intros outs [_ [Hc|[Hc _]]]; congruence.
    + apply Hstatus. intros Hdone. rewrite Hdone, Nat.eqb_refl in Hreduces. simpl in Hreduces. symmetry in Hreduces.
      apply andb_false_iff in Hreduces as [Hno%bool_decide_eq_false|Hle%Nat.ltb_ge]; [left|by right].
      by apply eq_None_not_Some.
    + intros state Hstate. simpl in Hstate. congruence.
Qed.

(** [complete_cooperative_role], once its task is recorded as completed. *)
Lemma complete_role_onward `{UuidCrate} id outputs n record :
  flow_ok (nd_fabric n) →
  (∀ job_id role, f_task_roles (nd_fabric n) !! id = Some (BindReduction job_id role) →
     in_level (nd_fabric n) job_id role id ∨ stray job_id role) →
  f_tasks (nd_fabric n) !! id = Some record → tr_status record = TaskCompleted outputs →
  ends (onward (nd_fabric n)) (complete_cooperative_role id outputs) n.
Proof.
  intros Hok Hlisted Ht Hst. pose proof (onward_refl _ Hok) as Hrefl. unfold complete_cooperative_role.
  apply ends_reads; [apply reads_fget|done|]. intros bindings n1 [= <- <-] _.
  destruct (f_task_roles (nd_fabric n) !! id) as [binding|] eqn:Hbinding; [|by apply ends_ret].
  assert (is_bound (nd_fabric n) id binding record) as Hb by done.
  destruct binding as [job_id role|job_id roles|job_id role|job_id role].
  - apply ends_onward; [|intros; apply flows_materialize_ready_roles].
    eapply (assign_whole_role (BindSingle job_id role)); [done|exact Hb|by left| |done].
    exists outputs. split; [done|]. by rewrite bool_decide_eq_true_2.
  - apply ends_onward; [|intros; apply flows_materialize_ready_roles]. by eapply complete_fused_onward.
  - apply ends_onward; [by eapply complete_shard_onward|]. intros []; [apply flows_materialize_ready_roles|by apply preserves_ret, _].
  - destruct (negb _); [by apply ends_throw|]. apply advance_reduction_level_onward; [done|].
    intros job state Hj Hs Hnil. destruct (Hlisted job_id role eq_refl) as [(job' & state' & Hj' & Hs' & Hin)|]; [|done].
    simplify_eq. rewrite Hnil in Hin. by apply elem_of_nil in Hin.
Qed.

Lemma mark_role_uncertain_onward binding role n id record :
  flow_ok (nd_fabric n) → is_bound (nd_fabric n) id binding record → role ∈ binding_roles binding →
  tr_status record = TaskUncertain → ends (onward_roles (nd_fabric n)) (mark_role_uncertain (binding_job binding) role) n.
Proof.
  intros Hok Hb Hin Hst. pose proof (onward_roles_refl _ Hok) as Hrefl. unfold mark_role_uncertain.
  apply ends_reads; [apply reads_fget|done|]. intros jobs n1 [= <- <-] _.
  destruct (f_jobs (nd_fabric n) !! binding_job binding) as [job|] eqn:Hj; [|by apply ends_ret].
  destruct (job_roles job !! role) as [old|] eqn:Hs; [|by apply ends_ret].
  unfold ends. rewrite insert_role_run. split; [|done]. simpl.
  destruct (bo_shared _ _ _ _ _ _ (bound_job _ Hok _ _ _ Hb job Hj) role Hin) as [Hw|[Hfan Hdeps]].
  - by eapply end_whole_role.
  - eapply lose_shared_role; by try exists old.
Qed.
Lemma mark_uncertain_onward id n record :
  flow_ok (nd_fabric n) → f_tasks (nd_fabric n) !! id = Some record → tr_status record = TaskUncertain →
  ends (onward_roles (nd_fabric n)) (mark_cooperative_role_uncertain id) n.
Proof.
  intros Hok Ht Hst. pose proof (onward_roles_refl _ Hok) as Hrefl. unfold mark_cooperative_role_uncertain.
  apply ends_reads; [apply reads_fget|done|]. intros bindings n1 [= <- <-] _.
  destruct (f_task_roles (nd_fabric n) !! id) as [binding|] eqn:Hbinding; [|by apply ends_ret].
  assert (is_bound (nd_fabric n) id binding record) as Hb by done.
  destruct binding as [job_id role|job_id roles|job_id role|job_id role].
  2:{ apply (for_each_ends _ _ _ (onward_roles (nd_fabric n))); [by intros f [[? _] _]|done|].
      intros role n1 Hin Hon. pose proof (is_bound_roles _ _ _ _ _ Hon Hb) as Hb1.
      eapply onward_roles_trans; [exact Hon|]. destruct Hon as [[Hok1 _] _].
      by eapply (mark_role_uncertain_onward (BindFusedChain job_id roles)). }
  all: by eapply (mark_role_uncertain_onward _ role n id record Hok Hb); [left|].
Qed.
End completing.
End strays.

(** ** Everything else leaves the jobs alone *)

Definition quiet (n n' : Node) : Prop := same_work (nd_fabric n) (nd_fabric n').
#[global] Instance quiet_preorder : PreOrder quiet.
Proof.
  split; [by intros n|]. intros n1 n2 n3 [H1 H2] [H3 H4]. split; congruence.
Qed.
Lemma quiet_reads {E A} (m : comp Node E A) : reads_only m → preserves quiet m.
Proof. intros Hm n. unfold quiet. by rewrite Hm. Qed.
Lemma quiet_fworld {E A} (m : comp World E A) : preserves quiet (fworld m).
Proof. apply quiet_reads, reads_fworld. Qed.
Lemma quiet_fmod {E} (g : Fabric → Fabric) : (∀ f, same_work f (g f)) → preserves quiet (fmod (E:=E) g).
Proof. intros Hg n. apply Hg. Qed.
Lemma quiet_set_task {E} id record : preserves quiet (set_task (E:=E) id record).
Proof. by apply quiet_fmod. Qed.
#[export] Hint Resolve quiet_fworld quiet_set_task : frame.
#[export] Hint Extern 1 (preserves quiet (fmod _)) => by apply quiet_fmod : frame.

Section quiet_operations.
Context `{HashOrder} `{UuidCrate}.
Lemma quiet_resources {E} : preserves quiet (schedulable_resources (E:=E)).
Proof. apply quiet_reads, reads_schedulable_resources. Qed.
Lemma quiet_submit task : preserves quiet (submit task).
Proof. unfold submit. keep. Qed.
Lemma quiet_publish object : preserves quiet (publish_object object).
Proof. unfold publish_object. keep. Qed.
#[local] Hint Resolve quiet_resources quiet_submit quiet_publish : frame.
Lemma quiet_begin task_id resource_id : preserves quiet (begin_execution task_id resource_id).
Proof. unfold begin_execution, find_active. keep. Qed.
Lemma quiet_renew lease : preserves quiet (renew_execution lease).
Proof. unfold renew_execution, check_lease, find_active. keep. Qed.
Lemma quiet_check_lease lease now : preserves quiet (check_lease lease now).
Proof. unfold check_lease, find_active. keep. Qed.
Lemma quiet_remove_resource {E} id : preserves quiet (remove_resource (E:=E) id).
Proof. unfold remove_resource. keep. Qed.
Lemma quiet_remove_link {E} a b : preserves quiet (remove_link (E:=E) a b).
Proof. unfold remove_link. keep. Qed.
Lemma quiet_upsert_link {E} link : preserves quiet (upsert_link (E:=E) link).
Proof. unfold upsert_link, remove_link. keep. Qed.
#[local] Hint Resolve quiet_remove_resource : frame.
Lemma quiet_expire {E} t : preserves quiet (expire_resources_at (E:=E) t).
Proof. unfold expire_resources_at. keep. Qed.
Lemma quiet_register {E} d : preserves quiet (register_resource (E:=E) d).
Proof. unfold register_resource. keep. Qed.
Lemma quiet_heartbeat id epoch : preserves quiet (heartbeat id epoch).
Proof. unfold heartbeat. keep. Qed.
Lemma quiet_add_location object resource : preserves quiet (add_object_location object resource).
Proof. unfold add_object_location. keep. Qed.
Lemma quiet_schedule id : preserves quiet (schedule_task id).
Proof. unfold schedule_task. keep. Qed.
Lemma quiet_plan spec : preserves quiet (plan_logical_job spec).
Proof. unfold plan_logical_job. keep. Qed.
Lemma quiet_active {E} : preserves quiet (active_resources (E:=E)).
Proof. unfold active_resources. keep. Qed.
Lemma quiet_epoch {E} id : preserves quiet (resource_epoch (E:=E) id).
Proof. unfold resource_epoch. keep. Qed.
End quiet_operations.
#[export] Hint Resolve quiet_resources quiet_submit quiet_publish quiet_begin quiet_renew quiet_check_lease
  quiet_remove_resource quiet_upsert_link quiet_expire quiet_register quiet_heartbeat quiet_add_location
  quiet_schedule quiet_plan quiet_active quiet_epoch quiet_remove_link : frame.

(** ** Executions end *)

Section endings.
Context {strays : Strays}.

Lemma flows_quiet {E A} (m : comp Node E A) : preserves quiet m → preserves node_evolves m → preserves flows m.
Proof. intros Hq Hk n. apply same_work_flows; [apply Hq|apply Hk]. Qed.
(** Completing and publishing leave the jobs, and publishing the tasks. *)
Definition same_flow (n n' : Node) : Prop := quiet n n' ∧ f_tasks (nd_fabric n') = f_tasks (nd_fabric n).
#[global] Instance same_flow_preorder : PreOrder same_flow.
Proof. split; [by intros n|]. intros n1 n2 n3 [H1 H2] [H3 H4]. split; [by etrans|congruence]. Qed.
Lemma same_flow_publish object : preserves same_flow (publish_object object).
Proof. intros n. unfold publish_object, bind, fget, gets. simpl. by repeat case_match. Qed.
Lemma onward_same_flow f0 n n' : same_flow n n' → onward f0 (nd_fabric n) → onward f0 (nd_fabric n').
Proof.
  intros [[Hj Hb] Ht] [Hok Hm]. split; [by eapply flow_ok_ext|]. destruct Hm.
  split; unfold in_level; by rewrite ?Hj, ?Hb, ?Ht.
Qed.

Section executions_flow.
Context `{HashOrder} `{UuidCrate}.

(** Every reducer that has not completed is in its level, or may have been left
    behind. *)
Definition listed (f : Fabric) : Prop :=
  ∀ id job_id role record, f_task_roles f !! id = Some (BindReduction job_id role) → f_tasks f !! id = Some record →
    (∀ outputs, tr_status record ≠ TaskCompleted outputs) → in_level f job_id role id ∨ stray job_id role.

(** A running task is recorded as completed. *)
Lemma set_completed_onward f id record lease outputs :
  flow_ok f → f_tasks f !! id = Some record → tr_status record = Running lease →
  onward f (set_tasks f (<[id := mkTaskRecord (tr_spec record) (TaskCompleted outputs)]> (f_tasks f))).
Proof.
  intros Hok Ht Hs. pose (w := Samples.world_at 0 0 0). apply (same_work_flows (mkNode f w) (mkNode _ w)); [done| |done].
  apply evolves_tasks, grows_insert; [apply _|]. intros r Hr. simplify_eq. split; [done|]. by rewrite Hs.
Qed.
Lemma complete_execution_onward lease outputs n :
  flow_ok (nd_fabric n) → listed (nd_fabric n) → ends (onward (nd_fabric n)) (complete_execution lease outputs) n.
Proof.
  intros Hok Hlisted.
  pose proof (onward_refl _ Hok) as Hrefl. unfold complete_execution.
  apply ends_reads; [apply reads_fworld|done|]. intros now n1 _ Hn1. rewrite <- Hn1 in *.
  destruct (check_lease_spec lease now n1) as [(record & current & Hv & Hrun)|(_ & e & Hrun)];
    unfold ends, bind at 1; rewrite Hrun; [|done].
  match goal with |- onward ?f0 (nd_fabric (?m ?n).2) => change (ends (onward f0) m n) end.
  apply ends_reads; [apply reads_fget|done|]. intros f n2 [= <- <-] _. destruct (_ && _); [by apply ends_throw|].
  apply ends_reads; [apply reads_lift|done|]. intros ? n2 _ Hn2. rewrite <- Hn2 in *.
  rewrite (lv_task _ _ _ _ _ Hv).
  match goal with |- ends ?P (bind (expect (Some ?r)) ?k) ?n => change (ends P (k r) n) end. cbv beta.
  set (f1 := set_tasks (nd_fabric n2) (<[el_task_id lease := mkTaskRecord (tr_spec record) (TaskCompleted (om_id <$> outputs))]>
    (f_tasks (nd_fabric n2)))).
  assert (onward (nd_fabric n2) f1) as Hon
    by (eapply set_completed_onward; [done|eapply lv_task, Hv|eapply lv_running, Hv]).
  pose (P f := onward (nd_fabric n2) f ∧ f_tasks f = f_tasks f1 ∧ same_work (nd_fabric n2) f).
  eapply (ends_bind (onward (nd_fabric n2)) (λ f, f = f1)); [done|by intros f ->|]. intros [] n3 _ Hn3.
  eapply (ends_bind _ P); [|by intros f [? _]|].
  - assert (same_flow n3 (for_each publish_object outputs n3).2) as Hpub
      by (apply preserves_for_each; [apply _|apply same_flow_publish]).
    split; [eapply onward_same_flow; [exact Hpub|by rewrite Hn3]|]. destruct Hpub as [[Hj Hb] ->]. by rewrite Hn3 in *.
  - intros [] n4 _ (Hon4 & Ht4 & Hj4 & Hb4). eapply onward_trans; [exact Hon4|].
    eapply complete_role_onward; [apply Hon4| |rewrite Ht4; apply lookup_insert_eq|done].
    unfold in_level. rewrite Hj4, Hb4. intros job_id role Hb. eapply Hlisted; [exact Hb|eapply lv_task, Hv|].
    intros outs. by rewrite (lv_running _ _ _ _ _ Hv).
Qed.

Lemma flows_reap t : preserves flows (reap_expired_executions_at t).
Proof.
  intros n Hok. unfold reap_expired_executions_at.
  change (ends (onward (nd_fabric n)) (reap_expired_executions_at t) n).
  pose proof (onward_refl _ Hok) as Hrefl. unfold reap_expired_executions_at.
  apply ends_reads; [apply reads_fget|done|]. intros tasks n1 [= <- <-] _.
  set (f1 := set_tasks (nd_fabric n) (reap_record t <$> f_tasks (nd_fabric n))).
  assert (onward (nd_fabric n) f1) as Hon by
    (apply (same_work_flows n (mkNode f1 (nd_world n))); [done|apply evolves_reap|done]).
  eapply (ends_bind (onward (nd_fabric n)) (λ f, f = f1)); [done|by intros f ->|]. intros [] n1 _ Hn1.
  pose (P f := onward (nd_fabric n) f ∧ f_tasks f = f_tasks f1).
  eapply (ends_bind _ P); [|by intros f [? _]|intros; by apply ends_ret; destruct H2].
  apply (for_each_ends _ _ _ P); [by intros f [[? _] _]|by split; rewrite Hn1|].
  intros id n2 Hin [Hon2 Ht2]. apply list_elem_of_fmap in Hin as ([id' record] & -> & Hin).
  apply list_elem_of_In, filter_In in Hin as [[Hin Hexp]%filter_In Heff].
  apply list_elem_of_In, elem_of_hash_iter in Hin. simpl.
  destruct (mark_uncertain_onward id' n2 (reap_record t record)) as (Hon3 & Ht3 & _); [apply Hon2| | |].
  - rewrite Ht2. simpl. by rewrite lookup_fmap, Hin.
  - unfold reap_record. rewrite Hexp. simpl. unfold reaped_status. apply negb_true_iff in Heff. by rewrite Heff.
  - split; [by eapply onward_trans|congruence].
Qed.
End executions_flow.

(** ** Jobs are submitted *)

Section submissions_flow.
Context `{HashOrder} `{UuidCrate}.

Lemma waiting_roles_waiting names role status : waiting_roles names !! role = Some status → status = Waiting.
Proof.
  unfold waiting_roles. intros Hs%elem_of_list_to_map_2. by apply list_elem_of_fmap in Hs as (? & [= -> ->] & _).
Qed.
Lemma new_job_flow tasks bindings id definition :
  definition_ok definition → (∀ t b, bindings !! t = Some b → binding_job b ≠ id) →
  job_flow tasks bindings id (mkCooperativeJobRecord definition (waiting_roles (definition_roles definition).*1) ∅ ∅).
Proof.
  intros Hdef Hfree. split; simpl; [done|..].
  - intros role deps Hin. apply waiting_roles_lookup, list_elem_of_fmap. by eexists (_, _).
  - intros role [status Hs%elem_of_list_to_map_2]. by apply list_elem_of_fmap in Hs as (? & [= -> _] & ?).
  - intros role deps _ (s & Hs & Hi). by rewrite (waiting_roles_waiting _ _ _ Hs) in Hi.
  - intros role state Hr. by rewrite lookup_empty in Hr.
  - intros role status Hs. by rewrite (waiting_roles_waiting _ _ _ Hs).
  - intros t b record Hb Hj. by destruct (Hfree t b Hb).
Qed.
Lemma flows_insert_new_job {A} id definition names (k : fab A) :
  definition_ok definition → names = (definition_roles definition).*1 → preserves flows k →
  preserves flows (let* jobs := fget f_jobs in
    match jobs !! id with
    | Some _ => throw (DuplicateJob id)
    | None => insert_new_job id definition names;;; k
    end).
Proof.
  intros Hdef -> Hk n Hok. pose proof (onward_refl _ Hok) as Hrefl.
  match goal with |- flow_ok (nd_fabric (?m n).2) ∧ _ => change (ends (onward (nd_fabric n)) m n) end.
  apply ends_reads; [apply reads_fget|done|]. intros jobs n1 [= <- <-] _.
  destruct (f_jobs (nd_fabric n) !! id) as [|] eqn:Hnew; [by apply ends_throw|].
  eapply ends_onward; [|done]. pose proof Hok as [Hjobs Hbindings]. unfold ends. simpl. split; split; simpl.
  - intros other job [[<- <-]|[Hne Hj]]%lookup_insert_Some; [|by apply Hjobs].
    apply new_job_flow; [done|]. intros t b Hb <-. destruct (Hbindings t b Hb) as [_ [job Hj]]. congruence.
  - intros t b Hb. destruct (Hbindings t b Hb) as [? Hj]. split; [done|].
    rewrite lookup_insert_ne; [done|]. intros ->. rewrite Hnew in Hj. by destruct Hj.
  - apply grows_insert; [apply _|]. intros. congruence.
  - reflexivity.
  - reflexivity.
  - intros other role t (job & state & Hj & Hs & Hin). left. exists job, state. split_and!; [|done..].
    simpl. rewrite lookup_insert_ne; [done|]. congruence.
Qed.
Lemma flows_submit_cooperative job : preserves flows (submit_cooperative job).
Proof.
  unfold submit_cooperative, validate_cooperative_job.
  destruct (validate_role_graph_spec (cooperative_graph job) (cj_outputs job)) as [[-> Hwf]|[[e ->] _]]; [|by intros n].
  apply preserves_bind; [apply _|by apply preserves_lift, _|]. intros _.
  apply flows_insert_new_job; [done| |keep]. simpl. by rewrite <- list_fmap_compose.
Qed.
Lemma flows_submit_logical job : preserves flows (submit_logical job).
Proof.
  unfold submit_logical. destruct (validate_logical_job_spec job) as [Hiff Hval].
  destruct (validate_logical_job job) as [[]|e| |] eqn:Hv; [|by destruct Hval as [? ->]; intros n|done..].
  apply preserves_bind; [apply _|by apply preserves_lift, _|]. intros _.
  apply preserves_bind; [apply _|by apply frame_fget, _|]. intros objects.
  apply preserves_bind; [apply _|by apply preserves_lift, _|]. intros _.
  apply flows_insert_new_job; [by apply Hiff| |keep]. simpl. by rewrite <- list_fmap_compose.
Qed.
Lemma flows_refresh_ready_roles : preserves flows refresh_ready_roles.
Proof.
  unfold refresh_ready_roles, refresh_reductions. 
  apply preserves_bind; [apply _| |intros _; keep]. apply preserves_bind; [apply _|keep|]. intros jobs.
  apply preserves_for_each; [apply _|]. intros [id role]. apply flows_materialize_reduction_level.
Qed.
End submissions_flow.

(** ** The handlers *)

(** [flows], of the coordinator's state. *)
Definition coord_flows (c c' : Coord) : Prop :=
  flow_ok (co_fabric (co_state c)) → onward (co_fabric (co_state c)) (co_fabric (co_state c')).
#[global] Instance coord_flows_frame : CoordFrame coord_flows.
Proof.
  assert (∀ c c', co_fabric (co_state c') = co_fabric (co_state c) → coord_flows c c') as Hsame
    by (intros c c' Heq Hok; rewrite Heq; by apply onward_refl).
  split; [split|intros; by intros c; apply Hsame..].
  - intros c. by apply Hsame.
  - intros c1 c2 c3 H12 H23 Hok. pose proof (H12 Hok) as Hon. eapply onward_trans; [exact Hon|]. apply H23, Hon.
Qed.

Section handlers_flow.
Context `{HashOrder} `{UuidCrate}.

Lemma coord_flows_on_fabric {E A} (m : comp Node E A) : preserves flows m → preserves coord_flows (on_fabric m).
Proof.
  intros Hm c. unfold on_fabric, coord_flows. specialize (Hm (mkNode (co_fabric (co_state c)) (co_world c))).
  by destruct (m _) as [o n].
Qed.
#[local] Hint Resolve coord_flows_on_fabric flows_reap flows_submit_cooperative
  flows_submit_logical flows_refresh_ready_roles : frame.
#[local] Hint Extern 2 (preserves flows _) => apply flows_quiet : frame.

Lemma coord_flows_handle request :
  match request with CompleteExecution _ _ => False | _ => True end → preserves coord_flows (handle request).
Proof.
  intros Hother. unfold handle, respond. destruct request; try done;
    unfold handle_register, handle_heartbeat, handle_list_resources, handle_poll_work,
      handle_renew, handle_publish, handle_replica, handle_submit_task,
      handle_get_task, handle_submit_cooperative, handle_plan, handle_get_job, handle_update_link,
      handle_report_measurement, maintenance_tick, forget_resource; keep.
Qed.
Lemma handle_complete_run lease outputs c :
  co_fabric (co_state (handle (CompleteExecution lease outputs) c).2) =
  nd_fabric (complete_execution lease outputs (mkNode (co_fabric (co_state c)) (co_world c))).2.
Proof.
  cbn [handle]. unfold respond, handle_complete, rethrow, on_fabric, bind.
  by destruct (complete_execution _ _ _) as [[[]|e| |] n].
Qed.
Lemma handle_onward request c :
  flow_ok (co_fabric (co_state c)) → listed (co_fabric (co_state c)) →
  onward (co_fabric (co_state c)) (co_fabric (co_state (handle request c).2)).
Proof.
  intros Hok Hlisted. destruct request; try by apply coord_flows_handle.
  rewrite handle_complete_run. by apply complete_execution_onward.
Qed.
End handlers_flow.
End endings.
