(* ===== verification/Reducers.v ===== *)
(** * No reducer is left behind

    The reducers of a role are made level by level, and the level waits for
    them: a request that is answered leaves no reducer of its own outside a
    level.  (One that fails may: when the id drawn for a reducer is taken, the
    reducers of the level that were submitted before it stay.) *)

From S2P Require Import Prelude Float64 World Text Core Samples Scheduler RoleGraph Partition Placement Reduction Fusion LogicalJob Planner Fabric Roles Execution Coordinator Clock Frames Evolution Leases Safety Polling RoleFlow RoleSteps.

Open Scope string_scope.
Open Scope list_scope.
Open Scope Z_scope.

(** ** Operations that make no reducer *)

Definition no_reducers (n n' : Node) : Prop :=
  ∀ id job_id role, f_task_roles (nd_fabric n') !! id = Some (BindReduction job_id role) →
    f_task_roles (nd_fabric n) !! id = Some (BindReduction job_id role).
#[global] Instance no_reducers_preorder : PreOrder no_reducers.
Proof. split; [by intros n t job_id role|]. intros n1 n2 n3 H12 H23 id job_id role Hb. by apply H12, H23. Qed.
Lemma no_reducers_quiet {E A} (m : comp Node E A) : preserves quiet m → preserves no_reducers m.
Proof. intros Hm n id job_id role. by destruct (Hm n) as [_ ->]. Qed.
Lemma no_reducers_reads {E A} (m : comp Node E A) : reads_only m → preserves no_reducers m.
Proof. intros Hm. by apply no_reducers_quiet, quiet_reads. Qed.
Lemma no_reducers_set_job {E} id job : preserves no_reducers (set_job (E:=E) id job).
Proof. by intros n t job_id role. Qed.
Lemma no_reducers_fmod {E} (g : Fabric → Fabric) :
  (∀ f, f_task_roles (g f) = f_task_roles f) → preserves no_reducers (fmod (E:=E) g).
Proof. intros Hg n t job_id role. simpl. by rewrite Hg. Qed.
Lemma no_reducers_bind {E} id binding :
  match binding with BindReduction _ _ => False | _ => True end →
  preserves no_reducers (set_task_role (E:=E) id binding).
Proof. intros Hb n t job_id role. simpl. by intros [[_ ->]|[_ ?]]%lookup_insert_Some. Qed.
Lemma no_reducers_fworld {E A} (m : comp World E A) : preserves no_reducers (fworld m).
Proof. apply no_reducers_reads, reads_fworld. Qed.
#[export] Hint Resolve no_reducers_set_job no_reducers_fworld : frame.
#[export] Hint Extern 1 (preserves no_reducers (set_task_role _ _)) => by apply no_reducers_bind : frame.
#[export] Hint Extern 1 (preserves no_reducers (fmod _)) => by apply no_reducers_fmod : frame.
#[export] Hint Extern 3 (preserves no_reducers _) => apply no_reducers_quiet; solve [eauto with frame] : frame.

Section no_reducers.
Context `{HashOrder} `{UuidCrate}.

Lemma no_reducers_ready_roles id : preserves no_reducers (materialize_ready_roles id).
Proof.
  unfold materialize_ready_roles, ready_roles, ready_cooperative, ready_logical, materialize_role,
    materialize_logical, materialize_sharded, materialize_fused, materialize_single, mark_fused,
    mark_ready, submit_shard, insert_selection, insert_role, find_job, expect_job,
    planning_context. keep.
Qed.
#[local] Hint Resolve no_reducers_ready_roles : frame.
Lemma no_reducers_uncertain task_id : preserves no_reducers (mark_cooperative_role_uncertain task_id).
Proof. unfold mark_cooperative_role_uncertain, mark_role_uncertain, insert_role. keep. Qed.
Lemma no_reducers_submit_cooperative job : preserves no_reducers (submit_cooperative job).
Proof. unfold submit_cooperative, insert_new_job. keep. Qed.
Lemma no_reducers_submit_logical job : preserves no_reducers (submit_logical job).
Proof. unfold submit_logical, insert_new_job. keep. Qed.
End no_reducers.
#[export] Hint Resolve no_reducers_ready_roles no_reducers_uncertain no_reducers_submit_cooperative
  no_reducers_submit_logical : frame.

(** ** Operations that make reducers *)

#[local] Existing Instance any_strays.

(** A reducer that is made is in its level, or has completed. *)
Definition tidy (f f' : Fabric) : Prop :=
  ∀ id job_id role, f_task_roles f' !! id = Some (BindReduction job_id role) → f_task_roles f !! id = None →
    in_level f' job_id role id ∨ ∃ outputs, completed_with (f_tasks f') id outputs.
Lemma tidy_trans f1 f2 f3 : moves f2 f3 → tidy f1 f2 → tidy f2 f3 → tidy f1 f3.
Proof.
  intros Hm H12 H23 id job_id role Hb Hn. destruct (f_task_roles f2 !! id) as [b|] eqn:Hb2; [|by apply H23].
  destruct (mv_bindings _ _ Hm id b Hb2) as (? & ? & <-). simplify_eq.
  destruct (H12 id job_id role Hb2 Hn) as [Hin|[outs Hc]]; [by apply (mv_listed _ _ Hm)|right].
  exists outs. by eapply completed_with_grows; [apply Hm|].
Qed.
Lemma tidy_same f1 f2 f3 : f_task_roles f2 = f_task_roles f1 → tidy f2 f3 → tidy f1 f3.
Proof. unfold tidy. by intros ->. Qed.
Lemma no_reducers_tidy n n' : no_reducers n n' → tidy (nd_fabric n) (nd_fabric n').
Proof. intros Hno id job_id role Hb%Hno. congruence. Qed.

(** What holds when a computation succeeds. *)
Definition succeeds {E A} (P : A → Node → Prop) (m : comp Node E A) (n : Node) : Prop :=
  ∀ a n', m n = (Ok a, n') → P a n'.
Abbreviation tidies m n := (succeeds (λ _ n', tidy (nd_fabric n) (nd_fabric n')) m n).
Lemma succeeds_bind {E A B} P (m : comp Node E A) (k : A → comp Node E B) n :
  (∀ a n', m n = (Ok a, n') → succeeds P (k a) n') → succeeds P (bind m k) n.
Proof.
  intros Hk b n2. unfold bind. destruct (m n) as [[a|e| |] n1] eqn:Hm; [|done..]. by apply Hk.
Qed.
Lemma succeeds_reads {E A B} P (m : comp Node E A) (k : A → comp Node E B) n :
  reads_only m → (∀ a n', m n = (Ok a, n') → nd_fabric n' = nd_fabric n → succeeds P (k a) n') → succeeds P (bind m k) n.
Proof. intros Hm Hk. apply succeeds_bind. intros a n' Hrun. apply Hk; [done|]. specialize (Hm n). by rewrite Hrun in Hm. Qed.
Lemma find_job_succeeds {A} P job_id (k : CooperativeJobRecord → fab A) n :
  (∀ job, f_jobs (nd_fabric n) !! job_id = Some job → succeeds P (k job) n) → succeeds P (bind (find_job job_id) k) n.
Proof.
  intros Hk. apply succeeds_bind. intros job n'. unfold find_job, bind, fget, gets, ok_or_throw, lift. simpl.
  destruct (_ !! _) as [job'|] eqn:Hj; [|done]. intros [= -> <-]. by apply Hk.
Qed.
Lemma ok_or_succeeds {E A B} P (e : E) (o : option A) (k : A → comp Node E B) n :
  (∀ a, o = Some a → succeeds P (k a) n) → succeeds P (bind (ok_or_throw e o) k) n.
Proof. intros Hk. destruct o as [a|]; [by apply (Hk a)|done]. Qed.
Lemma no_reducers_succeeds {E A} (m : comp Node E A) n f :
  preserves no_reducers m → f_task_roles (nd_fabric n) = f_task_roles f →
  succeeds (λ _ n', tidy f (nd_fabric n')) m n.
Proof.
  intros Hm Hf a n' Hrun. eapply tidy_same; [exact Hf|]. apply no_reducers_tidy. specialize (Hm n). by rewrite Hrun in Hm.
Qed.

Section tidies.
Context `{HashOrder}.

Lemma no_reducers_finish job_id role inputs : preserves no_reducers (finish_reduction job_id role inputs).
Proof. unfold finish_reduction, insert_role, find_job. keep. Qed.
#[local] Hint Resolve no_reducers_finish : frame.

(** A level that is made waits for every reducer made for it. *)
Lemma materialize_level_tidy job_id role n :
  tidies (materialize_reduction_level job_id role) n.
Proof.
  unfold materialize_reduction_level, find_reduction_state.
  apply find_job_succeeds. intros job Hj. apply ok_or_succeeds. intros reduction _. apply ok_or_succeeds. intros state Hs.
  destruct (negb _); [by apply no_reducers_succeeds; [keep|]|].
  destruct (_ <=? _)%nat; [by apply no_reducers_succeeds; [keep|]|].
  apply succeeds_reads; [apply reads_schedulable_resources|]. intros resources n1 _ Hn1. rewrite <- Hn1 in *.
  apply succeeds_reads; [apply reads_planning_context|]. intros context n2 _ Hn2. rewrite <- Hn2 in *.
  apply succeeds_reads; [apply reads_fworld|]. intros [selected|] n3 _ Hn3; rewrite <- Hn3 in *.
  2: by apply no_reducers_succeeds; [unfold find_job, insert_role; keep|].
  apply succeeds_bind. intros items n4 Hrun. destruct (submit_items_placed _ _ _ _ _ _ Hrun) as (Hj4 & _ & _ & Hnew).
  case_bool_decide; [done|]. apply find_job_succeeds. intros job' Hj'. assert (job' = job) as -> by congruence.
  rewrite Hs. intros a n5. cbn. intros [= <- <-] id job_id' role' Hb Hn. left. simpl in *.
  destruct (Hnew id _ Hb Hn) as [[= -> ->] Hin]. eexists _, _. cbn.
  rewrite lookup_insert_eq. split; [done|]. cbn. by rewrite lookup_insert_eq.
Qed.
Lemma start_reduction_tidy job_id role inputs n :
  tidies (start_role_reduction job_id role inputs) n.
Proof.
  apply find_job_succeeds. intros job Hj. apply succeeds_bind. intros [] n1 [= <-] a n' Hrun.
  eapply tidy_same; [|by apply (materialize_level_tidy _ _ _ _ _ Hrun)]. done.
Qed.

Context `{UuidCrate}.
Lemma advance_reduction_tidy job_id role n :
  tidies (advance_reduction_level job_id role) n.
Proof.
  unfold advance_reduction_level, find_reduction_state.
  apply find_job_succeeds. intros job Hj. apply ok_or_succeeds. intros state Hs.
  apply succeeds_reads; [apply reads_fget|]. intros f n1 [= <- <-] _.
  apply succeeds_reads; [apply reads_lift|]. intros [[[next ids] completed] all] n1 _ Hn1. rewrite <- Hn1.
  destruct (negb all); apply find_job_succeeds; intros job' _.
  { by apply no_reducers_succeeds; [unfold insert_role; keep|]. }
  apply ok_or_succeeds. intros state' _. apply succeeds_bind. intros [] n2 [= <-] a n' Hrun.
  eapply tidy_same; [|by apply (materialize_level_tidy _ _ _ _ _ Hrun)]. done.
Qed.
(** A shard that completes starts the reduction or lets the job move on. *)
Lemma complete_shard_tidy job_id role n :
  succeeds (λ continue n', if continue : bool then no_reducers n n' else tidy (nd_fabric n) (nd_fabric n'))
    (complete_shard job_id role) n.
Proof.
  unfold complete_shard. apply succeeds_reads; [apply reads_fget|]. intros jobs n1 [= <- <-] _.
  destruct (f_jobs (nd_fabric n) !! job_id ≫= _) as [[| | |ids done_| | |]|]; try done.
  2: { intros a n' [= <- <-]. by apply no_reducers_tidy. }
  apply succeeds_reads; [apply reads_fget|]. intros f n1 [= <- <-] _.
  destruct (shard_outputs _ ids) as [completed outputs]. set (all_done := (completed =? length ids)%nat).
  apply succeeds_reads.
  { destruct all_done; [|apply reads_ret]. apply reads_bind; [|intros; apply reads_ret]. unfold find_job.
    apply reads_bind; [apply reads_fget|intros; apply reads_lift]. }
  intros [|] n1 _ Hn1; unfold no_reducers; rewrite <- Hn1; apply succeeds_bind; intros [] n2 Hrun continue n3 [= <- <-].
  - exact (start_reduction_tidy _ _ _ _ _ _ Hrun).
  - intros id job_id' role'. assert (∀ s, preserves no_reducers (assign_role job_id role s (missing "sharded role" role))) as Hno
      by (intros s; unfold assign_role, insert_role, find_job; keep).
    specialize (Hno (if all_done then RoleCompleted outputs else Sharded ids completed) n1). rewrite Hrun in Hno. apply Hno.
Qed.
Lemma complete_role_tidy id outputs n : tidies (complete_cooperative_role id outputs) n.
Proof.
  unfold complete_cooperative_role. apply succeeds_reads; [apply reads_fget|]. intros bindings n1 [= <- <-] _.
  destruct (f_task_roles (nd_fabric n) !! id) as [[]|].
  5: by apply no_reducers_succeeds; [keep|].
  4: by destruct (negb _); [|apply advance_reduction_tidy].
  3: { apply succeeds_bind. intros continue n1 Hrun. pose proof (complete_shard_tidy _ _ _ _ _ Hrun) as Htidy.
    destruct continue; [|by intros a n' [= <- <-]]. intros a n' Hready. apply no_reducers_tidy.
    etrans; [exact Htidy|]. pose proof (no_reducers_ready_roles job_id n1) as Hno. by rewrite Hready in Hno. }
  all: apply no_reducers_succeeds; [|done]; unfold complete_fused_chain, assign_role, insert_role, find_job; keep.
Qed.
Lemma succeeds_quiet {E A B} P (m : comp Node E A) (k : A → comp Node E B) n :
  preserves quiet m → (∀ a n', quiet n n' → succeeds P (k a) n') → succeeds P (bind m k) n.
Proof. intros Hm Hk. apply succeeds_bind. intros a n' Hrun. apply Hk. specialize (Hm n). by rewrite Hrun in Hm. Qed.
Lemma complete_execution_tidy lease outputs n : tidies (complete_execution lease outputs) n.
Proof.
  unfold complete_execution. apply succeeds_quiet; [keep|]. intros now n1 H1. apply succeeds_quiet; [keep|].
  intros ? n2 H2. apply succeeds_quiet; [keep|]. intros f n3 H3. destruct (_ && _); [done|].
  apply succeeds_quiet; [keep|]. intros ? n4 H4. apply succeeds_quiet; [intros ?; by destruct (_ !! _)|].
  intros record n5 H5. apply succeeds_quiet; [keep|]. intros ? n6 H6. apply succeeds_quiet; [keep|].
  intros ? n7 H7 result n' Hrun. eapply tidy_same; [|exact (complete_role_tidy _ _ _ _ _ Hrun)].
  assert (quiet n n7) as [_ Hb] by (do 6 (etrans; [eassumption|]); done). exact Hb.
Qed.

(** Every level that waits for nothing, and then every ready role. *)
Lemma tidies_bind {E A B} (m : comp Node E A) (k : A → comp Node E B) n :
  flow_ok (nd_fabric n) → preserves flows m → (∀ a, preserves flows (k a)) → tidies m n →
  (∀ a n', flow_ok (nd_fabric n') → tidies (k a) n') → tidies (bind m k) n.
Proof.
  intros Hok Hm Hk Htidy Hnext. apply succeeds_bind. intros a n1 H1 b n2 H2.
  specialize (Hm n Hok). rewrite H1 in Hm. destruct Hm as [Hok1 _]. pose proof (Hk a n1 Hok1) as [_ Hmoves]. rewrite H2 in Hmoves.
  eapply tidy_trans; [exact Hmoves|exact (Htidy _ _ H1)|exact (Hnext a n1 Hok1 _ _ H2)].
Qed.
Lemma for_each_tidies {A} (g : A → fab unit) l n :
  (∀ a, preserves flows (g a)) → (∀ a n, flow_ok (nd_fabric n) → tidies (g a) n) → flow_ok (nd_fabric n) →
  tidies (for_each g l) n.
Proof.
  intros Hflows Hg. unfold for_each. revert n. induction l as [|a l IH]; intros n Hok; simpl.
  { intros [] n' [= <-]. by apply no_reducers_tidy. }
  apply tidies_bind; [done|done|intros []; by apply (preserves_for_each flows g l)|by apply Hg|].
  intros [] n' Hok'. by apply IH.
Qed.
Lemma refresh_tidy n : flow_ok (nd_fabric n) → tidies refresh_ready_roles n.
Proof.
  intros Hok. unfold refresh_ready_roles. apply tidies_bind; [done| | |unfold refresh_reductions|].
  - unfold refresh_reductions. keep. apply flows_materialize_reduction_level.
  - intros _. keep.
  - apply succeeds_reads; [apply reads_fget|]. intros jobs n1 _ Hn1. rewrite <- Hn1 in *.
    apply for_each_tidies; [intros []; apply flows_materialize_reduction_level|intros [] n' _; apply materialize_level_tidy|done].
  - intros [] n1 Hok1. apply succeeds_reads; [apply reads_fget|]. intros jobs n2 _ Hn2. rewrite <- Hn2 in *.
    apply for_each_tidies; [apply flows_materialize_ready_roles| |done].
    intros id n' _. by apply no_reducers_succeeds; [keep|].
Qed.
End tidies.

(** ** The handlers *)

Definition coord_no_reducers (c c' : Coord) : Prop :=
  ∀ id job_id role, f_task_roles (co_fabric (co_state c')) !! id = Some (BindReduction job_id role) →
    f_task_roles (co_fabric (co_state c)) !! id = Some (BindReduction job_id role).
#[global] Instance coord_no_reducers_frame : CoordFrame coord_no_reducers.
Proof.
  split; [split|by intros E g c id job_id role..]; [by intros c id job_id role|].
  intros c1 c2 c3 H12 H23 id job_id role Hb. by apply H12, H23.
Qed.

Section handlers_tidy.
Context `{HashOrder} `{UuidCrate}.

Lemma coord_no_reducers_on_fabric {E A} (m : comp Node E A) :
  preserves no_reducers m → preserves coord_no_reducers (on_fabric m).
Proof.
  intros Hm c. unfold on_fabric, coord_no_reducers. specialize (Hm (mkNode (co_fabric (co_state c)) (co_world c))).
  by destruct (m _) as [o n].
Qed.
Lemma no_reducers_reap t : preserves no_reducers (reap_expired_executions_at t).
Proof. unfold reap_expired_executions_at. keep. Qed.
#[local] Hint Resolve coord_no_reducers_on_fabric no_reducers_reap : frame.

Lemma coord_no_reducers_handle request :
  match request with CompleteExecution _ _ | PollWork _ _ => False | _ => True end →
  preserves coord_no_reducers (handle request).
Proof.
  intros Hother. unfold handle, respond. destruct request; try done;
    unfold handle_register, handle_heartbeat, handle_list_resources,
      handle_renew, handle_publish, handle_replica, handle_submit_task,
      handle_get_task, handle_submit_cooperative, handle_plan, handle_get_job, handle_update_link,
      handle_report_measurement, maintenance_tick, forget_resource; keep.
Qed.

Lemma poll_tasks_no_reducers resource_id ids : preserves coord_no_reducers (poll_tasks resource_id ids).
Proof. apply frame_poll_tasks; [apply _|..]; intros id; keep. Qed.
Lemma poll_tasks_flows resource_id ids : preserves coord_flows (poll_tasks resource_id ids).
Proof. apply frame_poll_tasks; [apply _|..]; intros id; apply coord_flows_on_fabric, flows_quiet; keep. Qed.
(** A poll refreshes the ready roles; what follows makes no reducer. *)
Lemma poll_tidy resource_id epoch c answer c' :
  flow_ok (co_fabric (co_state c)) → handle_poll_work resource_id epoch c = (Ok answer, c') →
  tidy (co_fabric (co_state c)) (co_fabric (co_state c')).
Proof.
  intros Hok. unfold handle_poll_work, bind at 1.
  destruct (on_fabric (resource_epoch resource_id) c) as [o c0] eqn:Hepoch.
  pose proof (on_fabric_reads _ _ _ _ (fabric_resource_epoch resource_id) Hepoch) as Hc0. rewrite <- Hc0 in *. clear Hc0 Hepoch.
  destruct o as [[current|]| | |]; try done. unfold bind at 1, ok_or_throw, lift. simpl.
  destruct (current =? epoch); [|done]. simpl. unfold bind at 1, rethrow, on_fabric at 1.
  set (n0 := mkNode (co_fabric (co_state c0)) (co_world c0)).
  pose proof (refresh_tidy n0 Hok) as Htidy. pose proof (flows_refresh_ready_roles n0 Hok) as [Hok1 _].
  destruct (refresh_ready_roles n0) as [[[]|e| |] n1] eqn:Hrefresh; try done. unfold bind at 1, cget, gets. simpl. 
  set (c1 := mkCoord _ _). intros Hpoll. eapply tidy_trans; [|exact (Htidy tt n1 Hrefresh)|].
  - pose proof (poll_tasks_flows resource_id (pending_task_ids (nd_fabric n1)) c1 Hok1) as [_ Hm]. by rewrite Hpoll in Hm.
  - intros id job_id role Hb Hn.
    pose proof (poll_tasks_no_reducers resource_id (pending_task_ids (nd_fabric n1)) c1) as Hno.
    rewrite Hpoll in Hno. apply Hno in Hb. simpl in *. congruence.
Qed.
(** A request that is answered leaves no reducer behind. *)
Lemma handle_tidy request c response :
  flow_ok (co_fabric (co_state c)) → (handle request c).1 = Ok response →
  tidy (co_fabric (co_state c)) (co_fabric (co_state (handle request c).2)).
Proof.
  intros Hok Hanswer.
  assert (match request with CompleteExecution _ _ | PollWork _ _ => False | _ => True end →
    tidy (co_fabric (co_state c)) (co_fabric (co_state (handle request c).2))) as Hother.
  { intros Hr id job_id role Hb Hn. apply (coord_no_reducers_handle request Hr c) in Hb. congruence. }
  destruct request as [| | |resource_id epoch| |lease outputs| | | | | | | | | | |]; try by apply Hother.
  - unfold handle, respond, bind in *. destruct (handle_poll_work resource_id epoch c) as [[answer|e| |] c'] eqn:Hrun; try done.
    by eapply poll_tidy.
  - rewrite handle_complete_run. revert Hanswer. unfold handle, respond, handle_complete, rethrow, on_fabric, bind.
    pose proof (complete_execution_tidy lease outputs (mkNode (co_fabric (co_state c)) (co_world c))) as Htidy.
    destruct (complete_execution _ _ _) as [[[]|e| |] n] eqn:Hrun; try done. intros _. exact (Htidy tt n Hrun).
Qed.
End handlers_tidy.
