(* ===== verification/Dataflow.v ===== *)
(** * Jobs run their roles in order, on their outputs

    The properties of jobs over every run of the coordinator: what the tasks of
    a role read and run, what a role puts out, and that both are final. *)

From S2P Require Import Prelude Float64 World Text Core Samples Scheduler RoleGraph Partition Placement Reduction Fusion LogicalJob Planner Fabric Roles Execution Coordinator Clock Frames Evolution Leases Safety RoleFlow RoleSteps Reducers.

Open Scope string_scope.
Open Scope list_scope.
Open Scope Z_scope.

(** ** Properties of every run *)

Definition fabric_of (c : Coord) : Fabric := co_fabric (co_state c).

Section new.
Context {strays : Strays}.
Lemma new_flow_ok membership_ttl_ms execution_ttl_ms w :
  flow_ok (fabric_of (mkCoord (Coordinator_new membership_ttl_ms execution_ttl_ms) w)).
Proof. split; intros ? ?; simpl; by rewrite lookup_empty. Qed.
Lemma new_listed membership_ttl_ms execution_ttl_ms w :
  listed (fabric_of (mkCoord (Coordinator_new membership_ttl_ms execution_ttl_ms) w)).
Proof. intros ? ? ?; simpl. by rewrite lookup_empty. Qed.
End new.

#[global] Instance reduction_item_eq_dec : EqDecision ReductionItem.
Proof. solve_decision. Defined.
#[global] Instance in_level_dec f job_id role id : Decision (in_level f job_id role id).
Proof.
  destruct (f_jobs f !! job_id ≫= λ job, job_reductions job !! role) as [state|] eqn:Hs.
  - apply bind_Some in Hs as Hs'. destruct (decide (ItemTask id ∈ red_items state)) as [Hin|Hin].
    + left. destruct Hs' as (job & Hj & Hr). by exists job, state.
    + right. intros (job & state' & Hj & Hr & Hin'). rewrite Hj in Hs. simpl in Hs. congruence.
  - right. intros (job & state' & Hj & Hr & _). rewrite Hj in Hs. simpl in Hs. congruence.
Qed.

Section runs.
Context `{HashOrder} `{UuidCrate}.

(** In the run from [start] to [c] there was a request that failed, after it had
    made a reducer of the role, and before the reducer was in a level. *)
Definition left_behind (start c : Coord) : Strays := λ job_id role,
  ∃ before request id, let after := (handle request before).2 in
    steps start before ∧ steps after c ∧ (∀ response, (handle request before).1 ≠ Ok response) ∧
    f_task_roles (fabric_of before) !! id = None ∧
    f_task_roles (fabric_of after) !! id = Some (BindReduction job_id role) ∧
    ¬ in_level (fabric_of after) job_id role id.

Section any.
#[local] Existing Instance any_strays.
Lemma any_listed f : listed f.
Proof. intros id job_id role record _ _ _. by right. Qed.
Lemma steps_onward c c' : steps c c' → flow_ok (fabric_of c) → onward (fabric_of c) (fabric_of c').
Proof.
  induction 1 as [c|c1 c2 c3 [request ->] _ IH]; intros Hok; [by apply onward_refl|].
  pose proof (handle_onward request c1 Hok (any_listed _)) as Hon. eapply onward_trans; [exact Hon|]. apply IH, Hon.
Qed.
Lemma reached_flow_ok membership_ttl_ms execution_ttl_ms w c :
  steps (mkCoord (Coordinator_new membership_ttl_ms execution_ttl_ms) w) c → flow_ok (fabric_of c).
Proof. intros Hsteps. by apply (steps_onward _ _ Hsteps), (new_flow_ok membership_ttl_ms execution_ttl_ms w). Qed.
End any.

(** A step makes no stray reducer but those left behind. *)
Lemma step_listed start c request final :
  steps start c → steps (handle request c).2 final → flow_ok (strays:=any_strays) (fabric_of c) →
  flow_ok (strays:=left_behind start final) (fabric_of c) → listed (strays:=left_behind start final) (fabric_of c) →
  listed (strays:=left_behind start final) (fabric_of (handle request c).2).
Proof.
  intros Hstart Hfinal Hany Hok Hlisted id job_id role record Hb Ht Hrun.
  destruct (handle_onward request c Hok Hlisted) as [_ Hm]. fold (fabric_of c) in Hm. set (c' := (handle request c).2) in *.
  fold (fabric_of c') in Hm. assert (∀ outputs, ¬ completed_with (f_tasks (fabric_of c')) id outputs) as Hno.
  { intros outs (record' & Ht' & Hs). simplify_eq. by destruct (Hrun outs). }
  destruct (f_task_roles (fabric_of c) !! id) as [b|] eqn:Hold.
  - destruct (mv_bindings _ _ Hm id b Hold) as (b' & Hb' & ->). simplify_eq.
    destruct (fo_bindings _ Hok id _ Hold) as [[record0 Ht0] _].
    destruct (Hlisted id job_id role record0 Hold Ht0) as [Hin|]; [|left|by right].
    + intros outs Hs. destruct (Hno outs). eapply completed_with_grows; [apply Hm|by exists record0].
    + by destruct (mv_listed _ _ Hm _ _ _ Hin) as [|[outs Hc]]; [|destruct (Hno outs)].
  - destruct (decide (in_level (fabric_of c') job_id role id)) as [|Hout]; [by left|right].
    exists c, request, id. split_and!; try done. intros response Hanswer.
    by destruct (handle_tidy request c response Hany Hanswer id job_id role Hb Hold) as [|[outs Hc]]; [|destruct (Hno outs)].
Qed.
Lemma run_flow_ok membership_ttl_ms execution_ttl_ms w c final :
  let start := mkCoord (Coordinator_new membership_ttl_ms execution_ttl_ms) w in
  steps start c → steps c final →
  flow_ok (strays:=left_behind start final) (fabric_of c) ∧ listed (strays:=left_behind start final) (fabric_of c).
Proof.
  intros start. revert c. apply (rtc_ind_r (λ c, steps c final → _)); [split; [apply new_flow_ok|apply new_listed]|].
  intros c c' Hstart [request ->] IH Hfinal. destruct IH as [Hok Hlisted]; [by eapply rtc_l; [by exists request|]|]. split.
  - by apply (handle_onward request c).
  - apply step_listed; try done. by apply (reached_flow_ok _ _ _ _ Hstart).
Qed.

#[local] Existing Instance any_strays.

(** One role of a job, through any sequence of requests. *)
Lemma roles_stay c c' job_id job role outputs :
  flow_ok (fabric_of c) → steps c c' → f_jobs (fabric_of c) !! job_id = Some job →
  job_roles job !! role = Some (RoleCompleted outputs) →
  ∃ job', f_jobs (fabric_of c') !! job_id = Some job' ∧ job_definition job' = job_definition job ∧
    (job_roles job' !! role = Some (RoleCompleted outputs) ∨
     job_roles job' !! role = Some RoleUncertain ∧ fans_out (job_definition job') role ∧
       lost_work (f_tasks (fabric_of c')) (f_task_roles (fabric_of c')) job_id role).
Proof.
  intros Hok Hsteps Hj Hc. destruct (steps_onward _ _ Hsteps Hok) as [Hok' Hm].
  destruct (job_moves_grows _ _ _ _ Hm Hj) as (job' & Hj' & Hmoves). exists job'. split_and!; [done|by apply jm_definition|].
  destruct (jm_settled _ _ Hmoves role outputs) as [_ [?|[Hu ?]]]; [|by left|right].
  - by eapply completed_settled, Hc; eapply (fo_jobs _ Hok _ _ Hj).
  - split_and!; [done..|]. by eapply jf_uncertain, Hu; apply (fo_jobs _ Hok' _ _ Hj').
Qed.

(** The status of a job, from the statuses of its roles. *)
Lemma job_status_uncertain f job_id job role :
  f_jobs f !! job_id = Some job → job_roles job !! role = Some RoleUncertain →
  cooperative_job_status f job_id = Some JobUncertain.
Proof.
  intros Hj Hr. unfold cooperative_job_status. rewrite Hj. simpl. rewrite (proj2 (existsb_exists _ _)); [done|].
  exists RoleUncertain. split; [|done]. apply list_elem_of_In, elem_of_hash_values. by exists role.
Qed.
Lemma job_status_completed f job_id outputs :
  cooperative_job_status f job_id = Some (JobCompleted outputs) →
  ∃ job, f_jobs f !! job_id = Some job ∧
    ∀ role status, job_roles job !! role = Some status → ∃ outputs, status = RoleCompleted outputs.
Proof.
  unfold cooperative_job_status. destruct (f_jobs f !! job_id) as [job|]; simpl; [|done].
  destruct (existsb _ _); [done|]. destruct (forallb _ _) eqn:Hall; simpl; [|done]. intros _. exists job. split; [done|].
  intros role status Hs. rewrite forallb_forall in Hall. specialize (Hall status).
  destruct status; try (discriminate Hall; apply list_elem_of_In, elem_of_hash_values; by exists role). by eexists.
Qed.
Lemma job_status_same f f' job_id job job' :
  f_jobs f !! job_id = Some job → f_jobs f' !! job_id = Some job' →
  job_definition job' = job_definition job → job_roles job' = job_roles job →
  cooperative_job_status f' job_id = cooperative_job_status f job_id.
Proof. intros Hj Hj' Hd Hr. unfold cooperative_job_status. rewrite Hj, Hj'. simpl. by rewrite Hd, Hr. Qed.
End runs.

(** C5 The tasks of a job run what the job says, on what it says.  In every state
    the coordinator reaches, take a task that runs a role, one of its shards, or
    a chain of roles that begins with it.

    Its specification is an implementation of the role, field by field:
    artifact, entry point, arguments, effects, requirements and estimates are
    those of a template of the role, and its inputs are the template's own
    followed by the outputs of the roles the role depends on, in the order of
    the job's specification.  A shard is also told which of the shards it is.  A
    chain is a pipeline with a stage for each of its roles, each of which depends
    on the one before it and on nothing else; the first stage reads what the
    role itself would, every other stage its template's own inputs and the output
    of the stage before it.

    Those outputs are what the tasks of these roles put out (as the next
    property says), and each of the roles has completed with exactly them.  The
    exception is a role that runs as several tasks and has since become
    uncertain, because a task of it was lost: its recorded outputs are gone, but
    what it had put out is still as its tasks' outcomes say.  (That a reducer
    may have been left behind is also as in the next property.) *)
Theorem roles_run_on_dependencies `{HashOrder} `{UuidCrate} membership_ttl_ms execution_ttl_ms w c id binding role
    (Hsteps : steps (mkCoord (Coordinator_new membership_ttl_ms execution_ttl_ms) w) c)
    (Hbinding : f_task_roles (fabric_of c) !! id = Some binding) (Hrole : reading_role binding = Some role) :
  ∃ job record dependencies outputs,
    f_jobs (fabric_of c) !! binding_job binding = Some job ∧
    f_tasks (fabric_of c) !! id = Some record ∧
    (role, dependencies) ∈ definition_roles (job_definition job) ∧
    Forall2 (λ dependency outputs,
        (job_roles job !! dependency = Some (RoleCompleted outputs) ∨
         job_roles job !! dependency = Some RoleUncertain ∧ fans_out (job_definition job) dependency ∧
           lost_work (f_tasks (fabric_of c)) (f_task_roles (fabric_of c)) (binding_job binding) dependency) ∧
        (role_result (f_tasks (fabric_of c)) (f_task_roles (fabric_of c)) (binding_job binding) (job_definition job)
           dependency outputs ∨
         outputs = [] ∧ left_behind (mkCoord (Coordinator_new membership_ttl_ms execution_ttl_ms) w) c
           (binding_job binding) dependency))
      dependencies outputs ∧
    runs_roles (job_definition job) binding (concat outputs) (tr_spec record).
Proof.
  destruct (run_flow_ok _ _ _ _ _ Hsteps (rtc_refl _ _)) as [Hok _].
  destruct (fo_bindings _ Hok id binding Hbinding) as [[record Ht] [job Hj]].
  pose proof (fo_jobs _ Hok _ _ Hj) as Hflow.
  destruct (bo_reads _ _ _ _ _ _ (jf_bound _ _ _ _ Hflow id binding record Hbinding eq_refl Ht) role Hrole)
    as (dependencies & outputs & Hin & Hset & Hruns).
  exists job, record, dependencies, outputs. split_and!; try done.
  eapply Forall2_impl; [exact Hset|]. intros d outs [[_ Hstatus] Hresult]. split; [|exact Hresult].
  destruct Hstatus as [Hc|[Hu Hfan]]; [by left|right]. split_and!; [done..|by eapply jf_uncertain].
Qed.

(** C6 What a role has put out is its tasks' work, and final.  In every state
    the coordinator reaches, a completed role has put out, exactly:
    - the outputs of the task that ran it (in a fused chain the last role has
      them, the others none);
    - if it ran as shards: those of all its shards, as many as its policy
      allows, in the order of the shards; if it is not reduced, or they are at
      most one object;
    - if it is reduced: the one object left when these outputs are reduced level
      by level.  A level is two objects or more, cut in order into groups; each
      group of two or more is the input of a reducer made from the role's
      reduction, which has completed with the one object that takes the group's
      place, and a group of one takes its own place.

    After any further requests the role is complete with the same outputs: it is
    never run again and nothing it has put out is replaced.  The one exception
    is a role that runs as several tasks, one of which is then lost (its lease
    expires and it may not be run again): that role becomes uncertain.

    A reduced role may also have lost its outputs, if a reducer of it was left
    behind: in the run there was a request that did not succeed, and it had
    made a reducer that no level waits for.  (This takes an id drawn for a
    reducer that a task already has.)  No request that is answered leaves a
    reducer behind. *)
Theorem completed_roles_stay `{HashOrder} `{UuidCrate} membership_ttl_ms execution_ttl_ms w c c' job_id job role outputs
    (Hreached : steps (mkCoord (Coordinator_new membership_ttl_ms execution_ttl_ms) w) c) (Hsteps : steps c c')
    (Hjob : f_jobs (fabric_of c) !! job_id = Some job)
    (Hcompleted : job_roles job !! role = Some (RoleCompleted outputs)) :
  (role_result (f_tasks (fabric_of c)) (f_task_roles (fabric_of c)) job_id (job_definition job) role outputs ∨
   outputs = [] ∧ left_behind (mkCoord (Coordinator_new membership_ttl_ms execution_ttl_ms) w) c job_id role) ∧
  ∃ job', f_jobs (fabric_of c') !! job_id = Some job' ∧ job_definition job' = job_definition job ∧
    (job_roles job' !! role = Some (RoleCompleted outputs) ∨
     job_roles job' !! role = Some RoleUncertain ∧ fans_out (job_definition job') role ∧
       lost_work (f_tasks (fabric_of c')) (f_task_roles (fabric_of c')) job_id role).
Proof.
  split; [|by eapply roles_stay; [eapply reached_flow_ok|..]].
  destruct (run_flow_ok _ _ _ _ _ Hreached (rtc_refl _ _)) as [Hok _].
  exact (jf_status _ _ _ _ (fo_jobs _ Hok _ _ Hjob) role _ Hcompleted).
Qed.

(** C14 A finished job stays finished, with the same outputs: after any further
    requests its status is what it was, unless a role that runs as several
    tasks has lost one of them; then the job is uncertain, and never again
    running. *)
Theorem completed_jobs_stay `{HashOrder} `{UuidCrate} membership_ttl_ms execution_ttl_ms w c c' job_id outputs
    (Hreached : steps (mkCoord (Coordinator_new membership_ttl_ms execution_ttl_ms) w) c) (Hsteps : steps c c')
    (Hstatus : cooperative_job_status (fabric_of c) job_id = Some (JobCompleted outputs)) :
  cooperative_job_status (fabric_of c') job_id = Some (JobCompleted outputs) ∨
  cooperative_job_status (fabric_of c') job_id = Some JobUncertain ∧
  ∃ job role, f_jobs (fabric_of c') !! job_id = Some job ∧ fans_out (job_definition job) role ∧
    lost_work (f_tasks (fabric_of c')) (f_task_roles (fabric_of c')) job_id role.
Proof.
  pose proof (reached_flow_ok _ _ _ _ Hreached) as Hok.
  destruct (job_status_completed _ _ _ Hstatus) as (job & Hj & Hall).
  destruct (steps_onward _ _ Hsteps Hok) as [_ Hm].
  destruct (job_moves_grows (fabric_of c) (fabric_of c') _ _ Hm Hj) as (job' & Hj' & [Hdef Hknown Hlaunched _]).
  assert (∀ role status, job_roles job' !! role = Some status → job_roles job !! role = Some status ∨
    status = RoleUncertain ∧ fans_out (job_definition job') role ∧
      lost_work (f_tasks (fabric_of c')) (f_task_roles (fabric_of c')) job_id role) as Hroles.
  { intros role status Hs. assert (is_Some (job_roles job !! role)) as [old Hold] by (apply Hknown; by exists status).
    destruct (Hall role old Hold) as [outs ->].
    destruct (roles_stay c c' job_id job role outs Hok Hsteps Hj Hold) as (job1 & Hj1 & _ & Hcase).
    rewrite Hj' in Hj1. injection Hj1 as <-.
    destruct Hcase as [Hc|(Hu & ? & ?)]; simplify_eq; [by left|by right]. }
  destruct (decide (RoleUncertain ∈ hash_values (job_roles job'))) as [[role Hu]%elem_of_hash_values|Hcertain].
  - right. split; [by eapply job_status_uncertain|]. exists job', role. split; [done|].
    destruct (Hroles role _ Hu) as [Hold|(_ & ? & ?)]; [|done]. by destruct (Hall role _ Hold).
  - left. rewrite <- Hstatus. apply (job_status_same _ _ _ job job'); [done..|]. apply map_eq. intros role.
    destruct (job_roles job' !! role) as [status|] eqn:Hs.
    + destruct (Hroles role status Hs) as [Hold|[-> _]]; [done|]. contradict Hcertain. apply elem_of_hash_values. by exists role.
    + destruct (job_roles job !! role) as [old|] eqn:Hold; [|done]. destruct (Hall role old Hold) as [outs ->].
      destruct (Hlaunched role) as (s & Hs' & _); [by eexists|congruence].
Qed.

(** *** Application: a job of two roles, polled and committed *)

Module TwoRoles.
#[local] Existing Instances Run.order Run.text.

Definition step_template : TaskTemplate := Samples.template "builtin:identity" [] ResourceRequirements_default 10 100.
Definition job : CooperativeJobSpec :=
  mkCooperativeJobSpec (Samples.job_id 1)
    [mkCooperativeRoleSpec "prepare" step_template []; mkCooperativeRoleSpec "finish" step_template ["prepare"]]
    ["finish"].
Definition start : Coord := mkCoord (Coordinator_new 15000 60000) (Samples.world 1000).
Definition submitted : Coord := Run.serve (SubmitCooperativeJob job) (Run.serve (Run.resource 1) start).
Definition result (n : N) : ObjectMetadata := Samples.object (Samples.object_id n) 12 [Samples.resource_id 1].
(** The next task is polled and its result, object [n], committed. *)
Definition work (n : N) (c : Coord) : Coord :=
  let '(o, c') := handle (PollWork (Samples.resource_id 1) 1) c in
  match o with
  | Ok (ResAssignment (Some assignment)) => Run.serve (CompleteExecution (wa_lease assignment) [result n]) c'
  | _ => c'
  end.
Definition prepared : Coord := work 5 submitted.
Definition finished : Coord := work 6 prepared.

Lemma work_steps n c : steps c (work n c).
Proof.
  unfold work. destruct (handle (PollWork _ _) c) as [o c'] eqn:Hpoll. 
  assert (steps c c') as Hsteps by (apply rtc_once; exists (PollWork (Samples.resource_id 1) 1); by rewrite Hpoll).
  destruct o as [[]|e| |]; try done. destruct assignment as [assignment|]; [|done].
  etrans; [exact Hsteps|apply Run.serve_step].
Qed.
Lemma submitted_steps : steps start submitted.
Proof. etrans; apply Run.serve_step. Qed.
Lemma prepared_steps : steps start prepared.
Proof. etrans; [apply submitted_steps|apply work_steps]. Qed.
Lemma finished_steps : steps start finished.
Proof. etrans; [apply prepared_steps|apply work_steps]. Qed.

Definition role_status (c : Coord) (role : string) : option CooperativeRoleStatus :=
  job ← f_jobs (fabric_of c) !! Samples.job_id 1; job_roles job !! role.
Lemma role_status_job c role status :
  role_status c role = Some status →
  ∃ job, f_jobs (fabric_of c) !! Samples.job_id 1 = Some job ∧ job_roles job !! role = Some status.
Proof. unfold role_status. rewrite bind_Some. naive_solver. Qed.

Example prepared_statuses : role_status prepared <$> ["prepare"; "finish"] =
  [Some (RoleCompleted [Samples.object_id 5]); Some (Submitted (Samples.task_id 1002))].
Proof. vm_compute. reflexivity. Qed.
Example finished_status : cooperative_job_status (fabric_of finished) (Samples.job_id 1) =
  Some (JobCompleted [Samples.object_id 6]).
Proof. vm_compute. reflexivity. Qed.
End TwoRoles.

(** *** Application: a role of three shards, reduced two objects at a time *)

Module ReducedRole.
#[local] Existing Instances Run.order Run.text.

Definition merge : RoleReductionSpec := mkRoleReductionSpec "merge" TwoRoles.step_template 2 10.
Definition job : LogicalJobSpec :=
  mkLogicalJobSpec (Samples.job_id 2)
    [mkLogicalRoleSpec "count" [mkRoleImplementation "count" TwoRoles.step_template] [] (Fixed 3) (Some merge)] ["count"].
Definition submitted : Coord := Run.serve (SubmitPlannedJob job) (Run.serve (Run.resource 1) TwoRoles.start).
(** The three shards put out objects 5 to 7, the reducers 8 and then 9. *)
Definition counted : Coord := TwoRoles.work 7 (TwoRoles.work 6 (TwoRoles.work 5 submitted)).
Definition merged : Coord := TwoRoles.work 8 counted.
Definition reduced : Coord := TwoRoles.work 9 merged.
Lemma planned_steps : steps TwoRoles.start submitted.
Proof. etrans; apply Run.serve_step. Qed.
Lemma counted_steps : steps TwoRoles.start counted.
Proof.
  etrans; [apply planned_steps|]. etrans; [apply (TwoRoles.work_steps 5)|].
  etrans; [apply (TwoRoles.work_steps 6)|apply (TwoRoles.work_steps 7)].
Qed.
Lemma reduced_steps : steps TwoRoles.start reduced.
Proof. etrans; [apply counted_steps|]. etrans; [apply (TwoRoles.work_steps 8)|apply (TwoRoles.work_steps 9)]. Qed.

Definition count_status (c : Coord) : option CooperativeRoleStatus :=
  job ← f_jobs (fabric_of c) !! Samples.job_id 2; job_roles job !! "count".
Lemma count_status_job c status :
  count_status c = Some status →
  ∃ job, f_jobs (fabric_of c) !! Samples.job_id 2 = Some job ∧ job_roles job !! "count" = Some status.
Proof. unfold count_status. rewrite bind_Some. naive_solver. Qed.

Example statuses : count_status <$> [submitted; counted; merged; reduced] =
  [Some (Sharded (Samples.task_id <$> [1011; 1012; 1013]%N) 0);
   Some (Reducing [Samples.task_id 1017] 0 0);
   Some (Reducing [Samples.task_id 1019] 0 1);
   Some (RoleCompleted [Samples.object_id 9])].
Proof. vm_compute. reflexivity. Qed.
(** The shards put out 7, 5 and 6, and the reducers read them in that order. *)
Example reducers_read : (λ id, ts_inputs ∘ tr_spec <$> f_tasks (fabric_of reduced) !! Samples.task_id id) <$> [1017; 1019]%N =
  [Some (Samples.object_id <$> [7; 5]%N); Some (Samples.object_id <$> [8; 6]%N)].
Proof. vm_compute. reflexivity. Qed.
End ReducedRole.

#[local] Existing Instances Run.order Run.text.

Lemma roles_run_on_dependencies_witness :
  ∃ job record dependencies outputs,
    f_jobs (fabric_of TwoRoles.prepared) !! Samples.job_id 1 = Some job ∧
    f_tasks (fabric_of TwoRoles.prepared) !! Samples.task_id 1002 = Some record ∧
    ("finish", dependencies) ∈ definition_roles (job_definition job) ∧
    Forall2 (λ dependency outputs,
        (job_roles job !! dependency = Some (RoleCompleted outputs) ∨
         job_roles job !! dependency = Some RoleUncertain ∧ fans_out (job_definition job) dependency ∧
           lost_work (f_tasks (fabric_of TwoRoles.prepared)) (f_task_roles (fabric_of TwoRoles.prepared))
             (Samples.job_id 1) dependency) ∧
        (role_result (f_tasks (fabric_of TwoRoles.prepared)) (f_task_roles (fabric_of TwoRoles.prepared))
           (Samples.job_id 1) (job_definition job) dependency outputs ∨
         outputs = [] ∧ left_behind TwoRoles.start TwoRoles.prepared (Samples.job_id 1) dependency))
      dependencies outputs ∧
    runs_roles (job_definition job) (BindSingle (Samples.job_id 1) "finish") (concat outputs) (tr_spec record).
Proof.
  assert (Hbinding : f_task_roles (fabric_of TwoRoles.prepared) !! Samples.task_id 1002 =
    Some (BindSingle (Samples.job_id 1) "finish")) by (vm_compute; reflexivity).
  exact (roles_run_on_dependencies 15000 60000 (Samples.world 1000) TwoRoles.prepared (Samples.task_id 1002)
    (BindSingle (Samples.job_id 1) "finish") "finish" TwoRoles.prepared_steps Hbinding eq_refl).
Defined.

Lemma completed_roles_stay_witness :
  let c := ReducedRole.reduced in let c' := Run.serve MaintenanceTick c in
  ∃ job, f_jobs (fabric_of c) !! Samples.job_id 2 = Some job ∧
    role_result (f_tasks (fabric_of c)) (f_task_roles (fabric_of c)) (Samples.job_id 2)
      (job_definition job) "count" [Samples.object_id 9] ∧
    ∃ job', f_jobs (fabric_of c') !! Samples.job_id 2 = Some job' ∧ job_definition job' = job_definition job.
Proof.
  cbv zeta.
  assert (Hst : ReducedRole.count_status ReducedRole.reduced = Some (RoleCompleted [Samples.object_id 9]))
    by (vm_compute; reflexivity).
  destruct (ReducedRole.count_status_job _ _ Hst) as (job & Hj & Hc). exists job.
  destruct (completed_roles_stay 15000 60000 (Samples.world 1000) ReducedRole.reduced
    (Run.serve MaintenanceTick ReducedRole.reduced) (Samples.job_id 2) job
    "count" [Samples.object_id 9] ReducedRole.reduced_steps (Run.serve_step MaintenanceTick _) Hj Hc)
    as ([Hresult|[Hnil _]] & job' & Hj' & Hdef & _); [|discriminate Hnil].
  split; [exact Hj|]. split; [exact Hresult|]. exists job'. split; [exact Hj'|exact Hdef].
Defined.

Lemma completed_jobs_stay_witness :
  let c := Run.serve MaintenanceTick TwoRoles.finished in
  cooperative_job_status (fabric_of c) (Samples.job_id 1) = Some (JobCompleted [Samples.object_id 6]) ∨
  cooperative_job_status (fabric_of c) (Samples.job_id 1) = Some JobUncertain ∧
  ∃ job role, f_jobs (fabric_of c) !! Samples.job_id 1 = Some job ∧ fans_out (job_definition job) role ∧
    lost_work (f_tasks (fabric_of c)) (f_task_roles (fabric_of c)) (Samples.job_id 1) role.
Proof.
  cbv zeta. apply (completed_jobs_stay 15000 60000 (Samples.world 1000) TwoRoles.finished).
  - apply TwoRoles.finished_steps.
  - apply Run.serve_step.
  - vm_compute. reflexivity.
Defined.
