(* ===== verification/Progress.v ===== *)
(** * No role is left waiting

    The other half of [Dataflow]: a poll launches every role whose dependencies
    have completed, so what still waits waits for another role, and a job that
    runs has a role under way. *)

From S2P Require Import Prelude Float64 World Text Core Samples Scheduler RoleGraph Partition Placement Reduction Fusion LogicalJob Planner Fabric Roles Execution Coordinator Clock Frames Evolution Leases Safety Polling RoleFlow RoleSteps Dataflow.

Open Scope string_scope.
Open Scope list_scope.
Open Scope Z_scope.

(** What a role has put out is no matter here. *)
#[local] Existing Instance any_strays.

(** ** Roles that could be launched *)

Definition finished (job : CooperativeJobRecord) (role : string) : bool :=
  match job_roles job !! role with Some (RoleCompleted _) => true | _ => false end.
(** Every role that waits depends on one that has not completed. *)
Definition none_left (job : CooperativeJobRecord) : Prop :=
  ∀ role dependencies, (role, dependencies) ∈ definition_roles (job_definition job) →
    job_roles job !! role = Some Waiting → forallb (finished job) dependencies = false.

(** ** Launching roles makes no role wait or complete *)

Record calm (job job' : CooperativeJobRecord) : Prop := {
  cm_definition : job_definition job' = job_definition job;
  cm_waiting : ∀ role, job_roles job' !! role = Some Waiting → job_roles job !! role = Some Waiting;
  cm_completed : ∀ role outputs, job_roles job' !! role = Some (RoleCompleted outputs) →
    job_roles job !! role = Some (RoleCompleted outputs);
}.
#[global] Instance calm_preorder : PreOrder calm.
Proof. split; [by intros j|]. intros j1 j2 j3 [] []. split; [congruence|auto..]. Qed.
Lemma calm_finished job job' role : calm job job' → finished job' role = true → finished job role = true.
Proof.
  intros Hc. unfold finished. destruct (job_roles job' !! role) as [[| | | | |outputs|]|] eqn:Hr; try done.
  by rewrite (cm_completed _ _ Hc _ _ Hr).
Qed.
Lemma calm_none_left job job' : calm job job' → none_left job → none_left job'.
Proof.
  intros Hc Hn role deps. rewrite (cm_definition _ _ Hc). intros Hin Hw%(cm_waiting _ _ Hc).
  specialize (Hn role deps Hin Hw). apply not_true_iff_false. intros Hall. apply not_true_iff_false in Hn. apply Hn.
  apply forallb_forall. intros d Hd. rewrite forallb_forall in Hall. eapply calm_finished; [exact Hc|by apply Hall].
Qed.

(** Every job was there before, and has only had roles launched. *)
Definition calms (n n' : Node) : Prop :=
  ∀ id job', f_jobs (nd_fabric n') !! id = Some job' →
    ∃ job, f_jobs (nd_fabric n) !! id = Some job ∧ calm job job'.
#[global] Instance calms_preorder : PreOrder calms.
Proof.
  split; [by intros n id job'; exists job'|]. intros n1 n2 n3 H12 H23 id job3 Hj3.
  destruct (H23 id job3 Hj3) as (job2 & Hj2 & ?). destruct (H12 id job2 Hj2) as (job1 & Hj1 & ?).
  exists job1. split; [done|]. by etrans.
Qed.
Lemma calms_quiet {E A} (m : comp Node E A) : preserves quiet m → preserves calms m.
Proof. intros Hm n id job'. destruct (Hm n) as [-> _]. intros Hj. by exists job'. Qed.
Lemma calms_set_job {E} n id job job' :
  f_jobs (nd_fabric n) !! id = Some job → calm job job' → calms n (set_job (E:=E) id job' n).2.
Proof.
  intros Hj Hc other job1. simpl. intros [[<- <-]|[Hne Ho]]%lookup_insert_Some; [by exists job|by exists job1].
Qed.
Lemma calm_insert_role job role status :
  match status with Waiting | RoleCompleted _ => False | _ => True end →
  calm job (with_roles job (<[role := status]> (job_roles job))).
Proof.
  intros Hs. split; [done|..]; simpl; intros r; [|intros outputs];
    intros [[-> ->]|[_ Hr]]%lookup_insert_Some; done.
Qed.

Section calm_operations.
Context `{HashOrder}.

(** A job of the fabric, written back. *)
Lemma calms_expect_job {A} id (k : CooperativeJobRecord → fab A) :
  (∀ n job, f_jobs (nd_fabric n) !! id = Some job → calms n (k job n).2) → preserves calms (bind (expect_job id) k).
Proof.
  intros Hk n. unfold expect_job, bind, fget, gets, expect in *. simpl.
  destruct (f_jobs (nd_fabric n) !! id) as [job|] eqn:Hj; [by apply Hk|reflexivity].
Qed.
Lemma calms_then {A B} n (m : fab A) (k : A → fab B) :
  calms n (m n).2 → (∀ a, preserves calms (k a)) → calms n (bind m k n).2.
Proof.
  intros Hm Hk. unfold bind. destruct (m n) as [[a|e| |] n']; simpl in *; try done. etrans; [exact Hm|apply Hk].
Qed.
Lemma calms_insert_selection id role selection : preserves calms (insert_selection id role selection).
Proof.
  apply calms_expect_job. intros n job Hj. by apply (calms_set_job n id job).
Qed.
Lemma calms_launch_role {A} id role status (k : unit → fab A) :
  match status with Waiting | RoleCompleted _ => False | _ => True end → (∀ u, preserves calms (k u)) →
  preserves calms (let* job := expect_job id in bind (insert_role id job role status) k).
Proof.
  intros Hs Hk. apply calms_expect_job. intros n job Hj. apply calms_then; [|done].
  apply (calms_set_job n id job); [done|by apply calm_insert_role].
Qed.
Lemma calms_mark_ready id role : preserves calms (mark_ready id role).
Proof.
  apply calms_expect_job. intros n job Hj. apply (calms_set_job n id job); [done|by apply calm_insert_role].
Qed.
Lemma calms_reads {E A} (m : comp Node E A) : reads_only m → preserves calms m.
Proof. intros Hm. by apply calms_quiet, quiet_reads. Qed.
Lemma calms_fworld {E A} (m : comp World E A) : preserves calms (fworld m).
Proof. apply calms_reads, reads_fworld. Qed.
Lemma calms_submit task : preserves calms (submit task).
Proof. apply calms_quiet, quiet_submit. Qed.
Lemma calms_bind_task {E} id binding : preserves calms (set_task_role (E:=E) id binding).
Proof. intros n other job' Hj. by exists job'. Qed.
Lemma calms_resources {E} : preserves calms (schedulable_resources (E:=E)).
Proof. apply calms_reads, reads_schedulable_resources. Qed.
Lemma calms_context resources : preserves calms (planning_context resources).
Proof. apply calms_reads, reads_planning_context. Qed.
#[local] Hint Resolve calms_insert_selection calms_mark_ready calms_fworld calms_submit calms_bind_task
  calms_resources calms_context : frame.
#[local] Hint Extern 1 (preserves calms (bind (expect_job _) _)) =>
  apply calms_launch_role; [exact I|intros _] : frame.

Lemma calms_materialize_single id name task selection : preserves calms (materialize_single id name task selection).
Proof.
  unfold materialize_single. apply preserves_bind; [apply _|apply calms_submit|intros _].
  apply preserves_bind; [apply _|apply calms_bind_task|intros _].
  apply calms_launch_role; [done|intros _]. keep.
Qed.
Lemma calms_mark_fused id selected names task_id stage : preserves calms (mark_fused id selected names task_id stage).
Proof. destruct stage as [stage [name implementation]]. apply calms_launch_role; [done|intros _]. keep. Qed.
#[local] Hint Resolve calms_materialize_single calms_mark_fused : frame.
Lemma calms_materialize_role id ready : preserves calms (materialize_role id ready).
Proof.
  destruct ready as [name task|name role inputs chain]; [apply calms_materialize_single|].
  cbn [materialize_role]. unfold materialize_logical. apply preserves_bind; [apply _|apply calms_resources|intros resources].
  destruct (may_fan_out _).
  - unfold materialize_sharded, submit_shard. apply preserves_bind; [apply _|keep|intros context].
    apply preserves_bind; [apply _|keep|intros [selections|]]; [|apply calms_mark_ready].
    apply preserves_bind; [apply _|keep|intros selected]. apply calms_launch_role; [done|intros _]. keep.
  - unfold materialize_fused. keep.
Qed.
Lemma calms_materialize_ready_roles id : preserves calms (materialize_ready_roles id).
Proof.
  unfold materialize_ready_roles. apply preserves_bind; [apply _|unfold find_job; keep|intros job].
  apply preserves_bind; [apply _|apply calms_reads, reads_ready_roles|intros readies].
  apply preserves_for_each; [apply _|]. intros. apply calms_materialize_role.
Qed.
End calm_operations.

(** ** A role found ready is launched, or known to be ready *)

Definition not_waiting (id : JobId) (role : string) (n : Node) : Prop :=
  ∀ job, f_jobs (nd_fabric n) !! id = Some job → job_roles job !! role ≠ Some Waiting.
Lemma not_waiting_calms id role n n' : calms n n' → not_waiting id role n → not_waiting id role n'.
Proof.
  intros Hc Hn job' Hj'. destruct (Hc id job' Hj') as (job & Hj & Hcalm). intros Hw. by apply (Hn job Hj), (cm_waiting _ _ Hcalm).
Qed.

(** What holds of the state once a computation has succeeded. *)
Definition arrives {E A} (P : Node → Prop) (m : comp Node E A) : Prop := ∀ n a n', m n = (Ok a, n') → P n'.
Lemma arrives_bind {E A B} P (m : comp Node E A) (k : A → comp Node E B) :
  (∀ a, (∃ n n', m n = (Ok a, n')) → arrives P (k a)) → arrives P (bind m k).
Proof.
  intros Hk n b n'. unfold bind. destruct (m n) as [[a|e| |] n1] eqn:Hm; [|done..]. apply Hk. by exists n, n1.
Qed.
Lemma arrives_any {E A B} P (m : comp Node E A) (k : A → comp Node E B) :
  (∀ a, arrives P (k a)) → arrives P (bind m k).
Proof. intros Hk. apply arrives_bind. auto. Qed.
Lemma arrives_first {E A B} id role (m : comp Node E A) (k : A → comp Node E B) :
  arrives (not_waiting id role) m → (∀ a, preserves calms (k a)) → arrives (not_waiting id role) (bind m k).
Proof.
  intros Hm Hk n b n'. unfold bind. destruct (m n) as [[a|e| |] n1] eqn:Hrun; [|done..]. intros Hk'.
  apply (not_waiting_calms _ _ n1); [|by eapply Hm]. specialize (Hk a n1). by rewrite Hk' in Hk.
Qed.

Section launching.
Context `{HashOrder}.

Lemma insert_role_arrives id job role status :
  status ≠ Waiting → arrives (not_waiting id role) (insert_role id job role status).
Proof.
  intros Hs n [] n'. rewrite insert_role_run. intros [= <-] job' Hj'. simpl in Hj'. rewrite lookup_insert_eq in Hj'.
  injection Hj' as <-. simpl. rewrite lookup_insert_eq. congruence.
Qed.
Lemma mark_ready_arrives id role : arrives (not_waiting id role) (mark_ready id role).
Proof. apply arrives_any. intros job. by apply insert_role_arrives. Qed.
Lemma materialize_single_arrives id role task selection :
  arrives (not_waiting id role) (materialize_single id role task selection).
Proof.
  unfold materialize_single. do 3 (apply arrives_any; intros ?). apply arrives_first; [by apply insert_role_arrives|].
  intros _. destruct selection; [apply calms_insert_selection|by apply preserves_ret, _].
Qed.
Lemma materialize_sharded_arrives id name role inputs resources :
  arrives (not_waiting id name) (materialize_sharded id name role inputs resources).
Proof.
  unfold materialize_sharded. do 2 (apply arrives_any; intros ?). destruct a0; [|apply mark_ready_arrives].
  do 2 (apply arrives_any; intros ?). apply arrives_first; [by apply insert_role_arrives|].
  intros _. apply calms_insert_selection.
Qed.
Lemma materialize_fused_arrives id context role rest inputs selected :
  fusion_ok context (role :: rest) inputs selected →
  arrives (not_waiting id (lr_name role)) (materialize_fused id selected (role :: rest)).
Proof.
  intros (k & i & Hlen & _ & _)%selected_prefix_runs. unfold materialize_fused. do 2 (apply arrives_any; intros ?).
  destruct (rfs_implementations selected) as [|implementation implementations]; [done|]. simpl.
  apply arrives_first; [|intros []; by apply preserves_for_each; [apply _|intros; apply calms_mark_fused]].
  apply arrives_any. intros job. apply arrives_first; [by apply insert_role_arrives|]. intros _. apply calms_insert_selection.
Qed.

(** The chain of a role found ready begins with it. *)
Definition well_formed (ready : ReadyRole) : Prop :=
  match ready with
  | ReadyCooperative _ _ => True
  | ReadyLogical name role _ chain => name = lr_name role ∧ ∃ rest, chain = role :: rest
  end.
Lemma launchable_well_formed tasks bindings job_id job ready :
  launchable tasks bindings job_id job ready → well_formed ready.
Proof. intros [_ Hready]. destruct ready; [done|]. destruct Hready as (-> & spec & rest & _ & _ & _ & -> & _). by split; [|exists rest]. Qed.
Lemma materialize_role_arrives id ready :
  well_formed ready → arrives (not_waiting id (ready_name ready)) (materialize_role id ready).
Proof.
  destruct ready as [name task|name role inputs chain]; [intros _; apply materialize_single_arrives|].
  intros [-> [rest ->]]. cbn [materialize_role ready_name]. unfold materialize_logical. apply arrives_any. intros resources.
  destruct (may_fan_out _); [apply materialize_sharded_arrives|]. apply arrives_any. intros context.
  apply arrives_bind. intros fused (n & n' & Hrun). destruct fused as [selected|].
  { eapply fworld_yields in Hrun; [|apply yields_try, select_ready_fusion_ok]. eapply materialize_fused_arrives. exact Hrun. }
  apply arrives_any. intros [selected|]; [apply materialize_single_arrives|apply mark_ready_arrives].
Qed.
Lemma materialize_roles_arrive id readies ready :
  Forall well_formed readies → ready ∈ readies →
  arrives (not_waiting id (ready_name ready)) (for_each (materialize_role id) readies).
Proof.
  unfold for_each. induction readies as [|other readies IH]; [by intros _ ?%not_elem_of_nil|].
  intros [Hwf Hall]%Forall_cons [->|Hin]%elem_of_cons; simpl.
  - apply arrives_first; [by apply materialize_role_arrives|]. intros u.
    apply preserves_cfold; [apply _|]. intros. apply calms_materialize_role.
  - apply arrives_any. intros []. by apply IH.
Qed.
End launching.

(** ** Every role that could be launched is found *)

Section complete.
Context `{HashOrder}.
Context (tasks : Tasks) (bindings : Bindings) (job_id : JobId) (job : CooperativeJobRecord).
Context (Hflow : job_flow tasks bindings job_id job).

Definition found_all (name : string) (dependencies : list string) (found : option ReadyRole) : Prop :=
  job_roles job !! name = Some Waiting → forallb (finished job) dependencies = true →
  ∃ ready, found = Some ready ∧ ready_name ready = name.

Lemma finished_outputs dependencies :
  forallb (finished job) dependencies = true → is_Some (dependency_outputs (job_roles job) dependencies).
Proof.
  induction dependencies as [|d dependencies IH]; simpl; [by eexists|]. intros [Hd Hall]%andb_true_iff.
  unfold finished in Hd. destruct (job_roles job !! d) as [[]|]; try done. destruct (IH Hall) as [inputs ->]. by eexists.
Qed.
Lemma ready_cooperative_all role :
  yields (ready_cooperative (job_roles job) role) (found_all (cr_name role) (cr_depends_on role)).
Proof.
  unfold ready_cooperative. case_bool_decide as Hs; [|apply yields_ret; by intros Hw].
  destruct (dependency_outputs _ _) as [inputs|] eqn:Hinputs.
  - intros n. simpl. intros _ _. by eexists.
  - apply yields_ret. intros _ Hall. destruct (finished_outputs _ Hall) as [? Ho]. congruence.
Qed.
Lemma ready_logical_all spec role :
  job_definition job = Logical spec → role ∈ lj_roles spec →
  yields (ready_logical spec (job_roles job) role) (found_all (lr_name role) (lr_depends_on role)).
Proof.
  intros Hdef Hrole. unfold ready_logical. destruct (_ || _) eqn:Hs.
  2:{ apply yields_ret. intros Hw. apply orb_false_iff in Hs as [Hs _]. by destruct (bool_decide_eq_false_1 _ Hs). }
  destruct (dependency_outputs _ _) as [inputs|] eqn:Hinputs.
  - assert (logical_job_wf spec) as [Hwf _] by (pose proof (jf_definition _ _ _ _ Hflow) as Hd; by rewrite Hdef in Hd).
    pose proof (fusion_chain_total spec (job_roles job) Hwf role Hrole) as Htotal.
    intros n. unfold bind, lift. destruct (fusion_chain _ _ _) as [chain|e| |]; [|done..]. intros _ _. by eexists.
  - apply yields_ret. intros _ Hall. destruct (finished_outputs _ Hall) as [? Ho]. congruence.
Qed.
Lemma ready_roles_all :
  yields (ready_roles job) (λ readies, ∀ role dependencies,
    (role, dependencies) ∈ definition_roles (job_definition job) → job_roles job !! role = Some Waiting →
    forallb (finished job) dependencies = true → ∃ ready, ready ∈ readies ∧ ready_name ready = role).
Proof.
  unfold ready_roles. apply (yields_bind _ _ (λ founds,
    Forall2 (λ '(role, dependencies), found_all role dependencies) (definition_roles (job_definition job)) founds)).
  - destruct (job_definition job) as [spec|spec] eqn:Hdef; simpl.
    + eapply yields_mono; [apply (yields_cmap _ (λ role, found_all (cr_name role) (cr_depends_on role)))|].
      * intros role _. apply ready_cooperative_all.
      * intros founds Hf. by apply Forall2_fmap_l.
    + eapply yields_mono; [apply (yields_cmap _ (λ role, found_all (lr_name role) (lr_depends_on role)))|].
      * intros role Hrole. by apply (ready_logical_all spec).
      * intros founds Hf. by apply Forall2_fmap_l.
  - intros founds Hf. apply yields_ret. intros role deps Hin Hw Hall.
    apply list_elem_of_lookup in Hin as [i Hi]. destruct (Forall2_lookup_l _ _ _ _ _ Hf Hi) as (found & Hfound & Hready).
    destruct (Hready Hw Hall) as (ready & -> & Hname). exists ready. split; [|done].
    apply list_elem_of_omap. exists (Some ready). split; [by eapply list_elem_of_lookup_2|done].
Qed.
End complete.

(** ** Polls *)

Section polls.
Context `{HashOrder}.

Lemma materialize_ready_roles_complete id n n' :
  flow_ok (nd_fabric n) → materialize_ready_roles id n = (Ok tt, n') →
  ∀ job', f_jobs (nd_fabric n') !! id = Some job' → none_left job'.
Proof.
  intros Hok Hrun job' Hj'.
  pose proof (calms_materialize_ready_roles id n id job') as Hcalm. rewrite Hrun in Hcalm.
  destruct (Hcalm Hj') as (job & Hj & Hc). pose proof (fo_jobs _ Hok _ _ Hj) as Hflow.
  unfold materialize_ready_roles, find_job, bind at 1, bind at 1, fget, gets, ok_or_throw, lift in Hrun.
  rewrite Hj in Hrun. simpl in Hrun. unfold bind in Hrun.
  pose proof (ready_roles_found _ _ _ _ Hflow n) as Hfound. pose proof (ready_roles_all _ _ _ _ Hflow n) as Hall.
  destruct (ready_roles job n) as [[readies|e| |] n1]; [|done..]. simpl in Hfound, Hall. destruct Hfound as [Hlaunchable _].
  intros role deps. rewrite (cm_definition _ _ Hc). intros Hin Hw. apply not_true_iff_false. intros Hfin.
  destruct (Hall role deps Hin (cm_waiting _ _ Hc _ Hw)) as (ready & Hready & Hname).
  { apply forallb_forall. intros d Hd. rewrite forallb_forall in Hfin. eapply calm_finished; [exact Hc|by apply Hfin]. }
  subst role. refine (materialize_roles_arrive id readies ready _ Hready n1 tt n' Hrun job' Hj' Hw).
  eapply Forall_impl; [exact Hlaunchable|]. apply launchable_well_formed.
Qed.
Lemma materialize_all_complete ids n n' :
  flow_ok (nd_fabric n) → for_each materialize_ready_roles ids n = (Ok tt, n') →
  calms n n' ∧ ∀ id job', id ∈ ids → f_jobs (nd_fabric n') !! id = Some job' → none_left job'.
Proof.
  unfold for_each. revert n. induction ids as [|id ids IH]; intros n Hok; simpl.
  { intros [= <-]. split; [reflexivity|]. by intros id job' ?%not_elem_of_nil. }
  unfold bind. destruct (materialize_ready_roles id n) as [[[]|e| |] n1] eqn:Hrun; [|done..]. intros Hrest.
  pose proof (flows_materialize_ready_roles id n Hok) as [Hok1 _]. rewrite Hrun in Hok1.
  pose proof (calms_materialize_ready_roles id n) as Hcalm. rewrite Hrun in Hcalm.
  destruct (IH n1 Hok1 Hrest) as [Hcalm' Hall]. split; [by etrans|].
  intros id' job' [->|Hin]%elem_of_cons Hj'; [|by eapply Hall].
  destruct (Hcalm' id job' Hj') as (job1 & Hj1 & Hc). eapply calm_none_left; [exact Hc|].
  exact (materialize_ready_roles_complete _ n n1 Hok Hrun job1 Hj1).
Qed.
Lemma refresh_complete n n' :
  flow_ok (nd_fabric n) → refresh_ready_roles n = (Ok tt, n') →
  ∀ id job', f_jobs (nd_fabric n') !! id = Some job' → none_left job'.
Proof.
  intros Hok. unfold refresh_ready_roles, bind at 1.
  assert (preserves flows refresh_reductions) as Hflows.
  { apply preserves_bind; [apply _|by apply frame_fget, _|intros jobs]. apply preserves_for_each; [apply _|].
    intros [id role]. apply flows_materialize_reduction_level. }
  specialize (Hflows n Hok). destruct (refresh_reductions n) as [[[]|e| |] n1]; [|done..]. destruct Hflows as [Hok1 _].
  unfold bind, fget, gets. intros Hrun id job' Hj'.
  destruct (materialize_all_complete _ n1 n' Hok1 Hrun) as [Hcalm Hall]. apply (Hall id job'); [|done].
  destruct (Hcalm id job' Hj') as (job1 & Hj1 & _). apply elem_of_hash_keys. by exists job1.
Qed.

(** What follows the refresh leaves the jobs as they are. *)
Definition same_jobs (c c' : Coord) : Prop := f_jobs (fabric_of c') = f_jobs (fabric_of c).
#[global] Instance same_jobs_frame : CoordFrame same_jobs.
Proof.
  split; [split; [by intros c|]|intros; by intros c..]. intros c1 c2 c3. unfold same_jobs. congruence.
Qed.
Lemma same_jobs_on_fabric {E A} (m : comp Node E A) : preserves quiet m → preserves same_jobs (on_fabric m).
Proof.
  intros Hm c. unfold on_fabric, same_jobs. destruct (Hm (mkNode (co_fabric (co_state c)) (co_world c))) as [Hj _].
  by destruct (m _) as [o n].
Qed.
Lemma same_jobs_poll_tasks `{UuidCrate} resource_id ids : preserves same_jobs (poll_tasks resource_id ids).
Proof.
  apply frame_poll_tasks; [apply _|..]; intros id; apply same_jobs_on_fabric; [apply quiet_schedule|apply quiet_begin].
Qed.
Lemma poll_complete `{UuidCrate} resource_id epoch c answer c' :
  flow_ok (fabric_of c) → handle_poll_work resource_id epoch c = (Ok answer, c') →
  ∀ id job, f_jobs (fabric_of c') !! id = Some job → none_left job.
Proof.
  intros Hok. unfold handle_poll_work, bind at 1.
  destruct (on_fabric (resource_epoch resource_id) c) as [o c0] eqn:Hepoch.
  pose proof (on_fabric_reads _ _ _ _ (fabric_resource_epoch resource_id) Hepoch) as Hc0.
  destruct o as [[current|]| | |]; try done. unfold bind at 1, ok_or_throw, lift. simpl.
  destruct (current =? epoch); [|done]. simpl. unfold bind at 1, rethrow.
  destruct (on_fabric refresh_ready_roles c0) as [o1 c1] eqn:Hrefresh.
  apply on_fabric_inv in Hrefresh as (n1 & Hrefresh & Hc1).
  destruct o1 as [[]| | |]; simpl; try done. unfold bind at 1, cget, gets. intros Hpoll id job Hj.
  pose proof (same_jobs_poll_tasks resource_id (pending_task_ids (co_fabric (co_state c1))) c1) as Hsame.
  rewrite Hpoll in Hsame. unfold same_jobs in Hsame. simpl in Hsame. rewrite Hsame, Hc1 in Hj.
  eapply refresh_complete; [|exact Hrefresh|exact Hj]. simpl. by rewrite Hc0.
Qed.
End polls.

(** ** Running jobs *)

Lemma forallb_false {A} (p : A → bool) l : forallb p l = false → ∃ a, a ∈ l ∧ p a = false.
Proof.
  induction l as [|a l IH]; simpl; [done|]. intros [Ha|Hl]%andb_false_iff; [exists a; by split; [left|]|].
  destruct (IH Hl) as (a' & ? & ?). exists a'. by split; [right|].
Qed.
(** Among the unfinished roles of a graph is one whose dependencies have all
    finished. *)
Lemma first_unfinished roles outputs (done : string → bool) name :
  graph_wf roles outputs → name ∈ graph_names roles → done name = false →
  ∃ role dependencies, (role, dependencies) ∈ roles ∧ done role = false ∧ forallb done dependencies = true.
Proof.
  intros Hwf Hname Hdone. pose proof (wf_unique _ _ Hwf) as Hnd.
  assert (Forall (λ '(_, ds), deps_ok (list_to_set (graph_names roles)) ds) roles) as Hdeps.
  { eapply Forall_impl; [exact (wf_dependencies _ _ Hwf)|]. intros [n ds]. apply deps_ok_names. }
  set (resolved := (list_to_set (filter (λ d, done d = true) (graph_names roles)) : gset string)).
  assert (∀ d, d ∈ resolved ↔ done d = true ∧ d ∈ graph_names roles) as Hresolved
    by (intros d; unfold resolved; by rewrite elem_of_list_to_set, list_elem_of_filter).
  destruct (unresolved_minimal roles Hnd Hdeps resolved name) as (role & ds & Hin & Hrole & Hds); [|done| |].
  - by apply acyclic_sn, (wf_acyclic _ _ Hwf).
  - intros [Hin _]%Hresolved. congruence.
  - exists role, ds. split_and!; [done| |].
    + apply not_true_iff_false. intros Ht. apply Hrole, Hresolved. split; [done|]. apply list_elem_of_fmap. by exists (role, ds).
    + apply forallb_forall. intros d Hd. rewrite Forall_forall in Hds. by apply (Hresolved d), Hds, list_elem_of_In.
Qed.
Lemma definition_graph definition : definition_ok definition → ∃ outputs, graph_wf (definition_roles definition) outputs.
Proof. destruct definition as [spec|spec]; [|intros [Hwf _]]; by eexists. Qed.

(** A role that has been launched, or only lacks a resource to run on. *)
Definition under_way (status : CooperativeRoleStatus) : Prop :=
  match status with
  | Ready | Submitted _ | Sharded _ _ | Reducing _ _ _ => True
  | Waiting | RoleCompleted _ | RoleUncertain => False
  end.
Lemma running_job_statuses `{HashOrder} f id job :
  f_jobs f !! id = Some job → cooperative_job_status f id = Some JobRunning →
  (∀ role, job_roles job !! role ≠ Some RoleUncertain) ∧
  ∃ role, is_Some (job_roles job !! role) ∧ finished job role = false.
Proof.
  intros Hj Hrunning. split.
  - intros role Hu. rewrite (job_status_uncertain f id job role Hj Hu) in Hrunning. done.
  - unfold cooperative_job_status in Hrunning. rewrite Hj in Hrunning. simpl in Hrunning.
    destruct (existsb _ _); [done|]. destruct (forallb _ _) eqn:Hall; [done|].
    apply forallb_false in Hall as (status & [role Hs]%elem_of_hash_values & Hc). exists role. unfold finished.
    rewrite Hs. split; [by eexists|]. by destruct status.
Qed.
Lemma running_job_under_way `{HashOrder} f id job :
  flow_ok f → f_jobs f !! id = Some job → none_left job → cooperative_job_status f id = Some JobRunning →
  ∃ role status, job_roles job !! role = Some status ∧ under_way status.
Proof.
  intros Hok Hj Hleft Hrunning. destruct (running_job_statuses f id job Hj Hrunning) as (Hcertain & name & Hname & Hun).
  pose proof (fo_jobs _ Hok _ _ Hj) as Hflow. destruct (definition_graph _ (jf_definition _ _ _ _ Hflow)) as [outputs Hwf].
  destruct (first_unfinished _ _ (finished job) name Hwf) as (role & deps & Hin & Hrole & Hdeps);
    [by apply (jf_known _ _ _ _ Hflow)|done|].
  destruct (jf_roles _ _ _ _ Hflow role deps Hin) as [status Hs]. exists role, status. split; [done|].
  unfold finished in Hrole. rewrite Hs in Hrole. destruct status; simpl; try done.
  - rewrite (Hleft role deps Hin Hs) in Hdeps. done.
  - by destruct (Hcertain role).
Qed.

(** C8 A poll that is answered leaves no role behind.  In a state the
    coordinator reaches, once [handle_poll_work] has answered, with work or
    without, every role that still waits, of every job, depends on a role that
    has not completed; and every job that is reported running has a role under
    way: submitted, sharded, being reduced, or ready and lacking a resource.  So
    a running job never waits for itself. *)
Theorem polls_leave_no_role_waiting `{HashOrder} `{UuidCrate} membership_ttl_ms execution_ttl_ms w c resource_id epoch
    answer c' id job
    (Hreached : steps (mkCoord (Coordinator_new membership_ttl_ms execution_ttl_ms) w) c)
    (Hpoll : handle_poll_work resource_id epoch c = (Ok answer, c'))
    (Hjob : f_jobs (fabric_of c') !! id = Some job) :
  (∀ role dependencies, (role, dependencies) ∈ definition_roles (job_definition job) →
     job_roles job !! role = Some Waiting →
     ∃ dependency, dependency ∈ dependencies ∧ ∀ outputs, job_roles job !! dependency ≠ Some (RoleCompleted outputs)) ∧
  (cooperative_job_status (fabric_of c') id = Some JobRunning →
     ∃ role status, job_roles job !! role = Some status ∧ under_way status).
Proof.
  pose proof (reached_flow_ok _ _ _ _ Hreached) as Hok. pose proof (poll_complete _ _ _ _ _ Hok Hpoll id job Hjob) as Hleft.
  split.
  - intros role deps Hin Hw. destruct (forallb_false _ _ (Hleft role deps Hin Hw)) as (d & Hd & Hun). exists d.
    split; [done|]. intros outputs Hc. unfold finished in Hun. by rewrite Hc in Hun.
  - apply running_job_under_way; [|done..]. assert (steps c c') as Hstep.
    { apply rtc_once. exists (PollWork resource_id epoch). unfold handle, respond, bind. by rewrite Hpoll. }
    by apply (steps_onward _ _ Hstep).
Qed.

(** *** Application: the first poll after the job of [Dataflow] is submitted *)

#[local] Existing Instances Run.order Run.text.
Definition first_poll : outcome ApiError (option WorkAssignment) * Coord :=
  handle_poll_work (Samples.resource_id 1) 1 TwoRoles.submitted.

Lemma polls_leave_no_role_waiting_witness :
  ∃ answer job, first_poll = (Ok answer, first_poll.2) ∧
    f_jobs (fabric_of first_poll.2) !! Samples.job_id 1 = Some job ∧
    (∃ dependency, dependency ∈ ["prepare"] ∧ ∀ outputs, job_roles job !! dependency ≠ Some (RoleCompleted outputs)) ∧
    ∃ role status, job_roles job !! role = Some status ∧ under_way status.
Proof.
  assert (Hok : is_Ok first_poll.1 = true) by (vm_compute; reflexivity).
  destruct (first_poll.1) as [answer|e| |] eqn:Hanswer; [|discriminate Hok..].
  assert (Hpoll : first_poll = (Ok answer, first_poll.2)) by (rewrite (surjective_pairing first_poll) at 1; by f_equal).
  assert (Hst : TwoRoles.role_status first_poll.2 "finish" = Some Waiting) by (vm_compute; reflexivity).
  assert (Hrunning : cooperative_job_status (fabric_of first_poll.2) (Samples.job_id 1) = Some JobRunning)
    by (vm_compute; reflexivity).
  assert (Hroles : (λ job, definition_roles (job_definition job)) <$> f_jobs (fabric_of first_poll.2) !! Samples.job_id 1 =
    Some [("prepare", []); ("finish", ["prepare"])]) by (vm_compute; reflexivity).
  destruct (TwoRoles.role_status_job _ _ _ Hst) as (job & Hj & Hw). rewrite Hj in Hroles. injection Hroles as Hroles.
  exists answer, job. destruct (polls_leave_no_role_waiting 15000 60000 (Samples.world 1000) TwoRoles.submitted
    (Samples.resource_id 1) 1 answer first_poll.2 (Samples.job_id 1) job TwoRoles.submitted_steps Hpoll Hj) as [Hwaits Hruns].
  split; [exact Hpoll|]. split; [exact Hj|]. split; [|exact (Hruns Hrunning)].
  apply (Hwaits "finish" ["prepare"]); [|exact Hw]. rewrite Hroles. right. left.
Defined.
