(* ===== verification/Ledger.v ===== *)
(** * The coordinator as a lease service

    The contract the coordinator has with its agents, apart from placement and
    jobs: a ledger of tasks, each queued, held under one execution, committed
    or gone, and the events that change it.  Serving a request refines it: the
    request has a log of events that its answer tells of, and the ledger of the
    coordinator moves by that log. *)

From S2P Require Import Prelude Float64 World Text Core Samples Scheduler RoleGraph Partition Placement Reduction Fusion LogicalJob Planner Fabric Roles Execution Coordinator Clock Frames Evolution Network Leases Safety Polling.

Open Scope string_scope.
Open Scope list_scope.
Open Scope Z_scope.

(** ** The specification *)

Inductive Phase :=
| Queued
| Held (execution : ExecutionId) (owner : ResourceId) (epoch expiry : Z)
| Committed (outputs : list ObjectId)
| Gone.
Abbreviation Ledger := (gmap TaskId (EffectSemantics * Phase)).

Inductive Event :=
| Created (id : TaskId) (effects : EffectSemantics)
| Granted (id : TaskId) (execution : ExecutionId) (owner : ResourceId) (epoch now : Z)
| Renewed (id : TaskId) (execution : ExecutionId) (owner : ResourceId) (epoch now : Z)
| Finished (id : TaskId) (execution : ExecutionId) (owner : ResourceId) (epoch now : Z) (outputs : list ObjectId)
| TimedOut (id : TaskId) (now : Z).

(** The phase [execution] leaves, if it still holds the task at [now]. *)
Definition from_held (execution : ExecutionId) (owner : ResourceId) (epoch now : Z)
    (entry : EffectSemantics * Phase) (next : Phase) : option (EffectSemantics * Phase) :=
  match entry with
  | (effects, Held execution' owner' epoch' expiry) =>
      if bool_decide (execution = execution' ∧ owner = owner' ∧ epoch = epoch' ∧ now < expiry)
      then Some (effects, next) else None
  | _ => None
  end.

(** A time the clock shows from here on, as [now_unix_ms] returns it. *)
Definition reading (w : World) (now : Z) : Prop := ∃ w', later_world w w' ∧ now = now_of w'.
Lemma reading_now w : reading w (now_of w).
Proof. by exists w. Qed.
Lemma reading_later w w' now : later_world w w' → reading w' now → reading w now.
Proof. intros Hw (w'' & Hw' & ->). exists w''. split; [by etrans|done]. Qed.
#[export] Hint Resolve reading_now : core.

Section ledger.
(** The life of a lease. *)
Context (ttl : Z).

Definition lease_end (now : Z) : Z := Z.min (now + ttl) u64_max.

(** One event; [None] where the specification does not allow it. *)
Definition apply_event (ledger : Ledger) (event : Event) : option Ledger :=
  match event with
  | Created id effects =>
      match ledger !! id with None => Some (<[id := (effects, Queued)]> ledger) | Some _ => None end
  | Granted id execution owner epoch now =>
      match ledger !! id with
      | Some (effects, Queued) => Some (<[id := (effects, Held execution owner epoch (lease_end now))]> ledger)
      | _ => None
      end
  | Renewed id execution owner epoch now =>
      entry ← ledger !! id;
      entry' ← from_held execution owner epoch now entry (Held execution owner epoch (lease_end now));
      Some (<[id := entry']> ledger)
  | Finished id execution owner epoch now outputs =>
      entry ← ledger !! id;
      entry' ← from_held execution owner epoch now entry (Committed outputs);
      Some (<[id := entry']> ledger)
  | TimedOut id now =>
      match ledger !! id with
      | Some (effects, Held _ _ _ expiry) =>
          if expiry <=? now
          then Some (<[id := (effects, if automatically_retryable effects then Queued else Gone)]> ledger)
          else None
      | _ => None
      end
  end.
Fixpoint apply_events (ledger : Ledger) (log : list Event) : option Ledger :=
  match log with
  | [] => Some ledger
  | event :: log' => ledger' ← apply_event ledger event; apply_events ledger' log'
  end.

Lemma apply_events_app ledger log log' :
  apply_events ledger (log ++ log') = (ledger' ← apply_events ledger log; apply_events ledger' log').
Proof.
  revert ledger. induction log as [|event log IH]; intros ledger; simpl; [done|].
  destruct (apply_event ledger event) as [ledger'|]; simpl; [apply IH|done].
Qed.

Definition creation (event : Event) : bool := match event with Created _ _ => true | _ => false end.

(** What the answer to a request says of its log, and of the ledger after it;
    [w] is the environment the request is served in. *)
Definition explains (w : World) (request : Request) (answer : outcome ApiError Response) (log : list Event)
    (after : Ledger) : Prop :=
  match request with
  | PollWork owner epoch =>
      ∃ created, forallb creation created = true ∧
      match answer with
      | Ok (ResAssignment (Some assignment)) =>
          ∃ now, let lease := wa_lease assignment in
          reading w now ∧
          lease = mkExecutionLease (el_task_id lease) (el_execution_id lease) owner epoch (lease_end now) ∧
          log = created ++ [Granted (el_task_id lease) (el_execution_id lease) owner epoch now]
      | _ => log = created
      end
  | RenewExecution lease =>
      match answer with
      | Ok (ResExecution renewed) =>
          ∃ now, reading w now ∧
          renewed = mkExecutionLease (el_task_id renewed) (el_execution_id lease) (el_resource_id lease)
                      (el_resource_epoch lease) (lease_end now) ∧
          log = [Renewed (el_task_id lease) (el_execution_id lease) (el_resource_id lease) (el_resource_epoch lease) now]
      | _ => log = []
      end
  | CompleteExecution lease outputs =>
      (log = [] ∧ ∀ response, answer ≠ Ok response) ∨
      ∃ now created, reading w now ∧ forallb creation created = true ∧
        log = Finished (el_task_id lease) (el_execution_id lease) (el_resource_id lease)
                (el_resource_epoch lease) now (om_id <$> outputs) :: created
  | SubmitTask task =>
      match answer with
      | Ok _ => log = [Created (ts_id task) (ts_effects task)]
      | _ => log = []
      end
  | SubmitCooperativeJob _ | SubmitPlannedJob _ => forallb creation log = true
  | MaintenanceTick =>
      match answer with
      | Ok _ =>
          ∃ now, reading w now ∧ Forall (λ event, ∃ id, event = TimedOut id now) log ∧
          map_Forall (λ _ entry, match entry.2 with Held _ _ _ expiry => now < expiry | _ => True end) after
      | _ => log = [] ∧ w_clock w 0 < 0
      end
  | _ => log = []
  end.

(** A sequence of requests with their answers and logs; the clock is read in order. *)
Inductive explained : World → Ledger → list Request → list (outcome ApiError Response) → list (list Event) →
    World → Ledger → Prop :=
| explained_nil w ledger : explained w ledger [] [] [] w ledger
| explained_cons w w' w'' ledger after final request answer log requests answers logs :
    apply_events ledger log = Some after → explains w request answer log after → later_world w w' →
    explained w' after requests answers logs w'' final →
    explained w ledger (request :: requests) (answer :: answers) (log :: logs) w'' final.
End ledger.

(** ** The coordinator's ledger *)

Definition phase_of (status : TaskStatus) : Phase :=
  match status with
  | Pending => Queued
  | Running lease =>
      Held (el_execution_id lease) (el_resource_id lease) (el_resource_epoch lease) (el_expires_at_unix_ms lease)
  | TaskCompleted outputs => Committed outputs
  | TaskUncertain => Gone
  end.
Definition entry_of (record : TaskRecord) : EffectSemantics * Phase :=
  (ts_effects (tr_spec record), phase_of (tr_status record)).
Definition ledger_of (f : Fabric) : Ledger := entry_of <$> f_tasks f.

(** Serving requests one after the other. *)
Fixpoint serve_all `{HashOrder} `{UuidCrate} (requests : list Request) (c : Coord) :
    list (outcome ApiError Response) * Coord :=
  match requests with
  | [] => ([], c)
  | request :: requests' =>
      let '(answer, c') := handle request c in
      let '(answers, final) := serve_all requests' c' in (answer :: answers, final)
  end.

(** ** Operations that only add tasks

    What they add is pending, and has passed [validate_task]. *)

Definition adds (m m' : gmap TaskId TaskRecord) : Prop :=
  ∀ id, match m !! id with
        | Some record => m' !! id = Some record
        | None =>
            match m' !! id with
            | Some record => tr_status record = Pending ∧ validate_task (tr_spec record) = Ok tt
            | None => True
            end
        end.
#[global] Instance adds_preorder : PreOrder adds.
Proof.
  split.
  - intros m id. by destruct (m !! id).
  - intros m1 m2 m3 H12 H23 id. specialize (H12 id). specialize (H23 id).
    destruct (m1 !! id); [by rewrite H12 in H23|]. destruct (m2 !! id); [by rewrite H23|done].
Qed.
(** A relation between the tasks before and after. *)
Definition on_tasks (R : relation (gmap TaskId TaskRecord)) (n n' : Node) : Prop :=
  R (f_tasks (nd_fabric n)) (f_tasks (nd_fabric n')).
#[global] Instance on_tasks_preorder R : PreOrder R → PreOrder (on_tasks R).
Proof. split; unfold on_tasks; [intros n; reflexivity|]. intros n1 n2 n3. by etrans. Qed.
Abbreviation adds_tasks := (on_tasks adds).
Abbreviation same_tasks := (on_tasks eq).

(** Created events turn a ledger into one that has gained queued tasks. *)
Lemma adds_log ttl m m' :
  adds m m' →
  ∃ created, forallb creation created = true ∧ apply_events ttl (entry_of <$> m) created = Some (entry_of <$> m').
Proof.
  intros Hadds.
  assert (∀ new : gmap TaskId TaskRecord, map_Forall (λ id record, m !! id = None ∧ tr_status record = Pending) new →
    ∃ created, forallb creation created = true ∧
      apply_events ttl (entry_of <$> m) created = Some (entry_of <$> (new ∪ m))) as Hnew.
  { intros new. induction new as [|id record new Hid IH] using map_ind; intros Hall.
    { exists []. by rewrite map_empty_union. }
    apply map_Forall_insert in Hall as [[Hm Hp] Hall]; [|done]. destruct (IH Hall) as (created & Hc & Hrun).
    exists (created ++ [Created id (ts_effects (tr_spec record))]). split; [by rewrite forallb_app, Hc|].
    rewrite apply_events_app, Hrun. simpl. rewrite lookup_fmap, lookup_union_r, Hm by done. simpl.
    rewrite <- insert_union_l, fmap_insert.
    assert (entry_of record = (ts_effects (tr_spec record), Queued)) as -> by (unfold entry_of; by rewrite Hp). done. }
  destruct (Hnew (m' ∖ m)) as (created & Hc & Hrun).
  { intros id record [Hm' Hm]%lookup_difference_Some. specialize (Hadds id). rewrite Hm, Hm' in Hadds. by destruct Hadds. }
  exists created. split; [done|]. rewrite Hrun. do 2 f_equal. apply map_eq. intros id. specialize (Hadds id).
  destruct (m !! id) as [record|] eqn:Hm.
  - rewrite lookup_union_r by (by apply lookup_difference_None; right). congruence.
  - rewrite lookup_union_l by done. rewrite lookup_difference, Hm. done.
Qed.

Lemma tasks_fworld R `{!PreOrder R} {E A} (m : comp World E A) : preserves (on_tasks R) (fworld m).
Proof. intros n. unfold fworld, on_tasks. destruct (m (nd_world n)). reflexivity. Qed.
Lemma tasks_fmod R `{!PreOrder R} {E} (g : Fabric → Fabric) :
  (∀ f, f_tasks (g f) = f_tasks f) → preserves (on_tasks R) (fmod (E:=E) g).
Proof. intros Hg n. unfold on_tasks. simpl. rewrite Hg. reflexivity. Qed.
#[export] Hint Resolve tasks_fworld : frame.
#[export] Hint Extern 1 (preserves (on_tasks _) (fmod _)) => apply tasks_fmod; [apply _|done] : frame.

Section adds.
Context `{HashOrder} `{UuidCrate}.

(** A submission that succeeds adds its task, any other adds nothing. *)
Lemma submit_spec task n :
  match submit task n with
  | (Ok id, n') => id = ts_id task ∧ validate_task task = Ok tt ∧ f_tasks (nd_fabric n) !! ts_id task = None ∧
      f_tasks (nd_fabric n') = <[ts_id task := mkTaskRecord task Pending]> (f_tasks (nd_fabric n))
  | (_, n') => nd_fabric n' = nd_fabric n
  end.
Proof.
  unfold submit, bind, lift, fget, gets. destruct (validate_task _) as [[]|e| |] eqn:Hv; simpl; try done.
  destruct (f_tasks (nd_fabric n) !! ts_id task) eqn:Ht; simpl; [done|]. by split_and!.
Qed.
Lemma adds_submit task : preserves adds_tasks (submit task).
Proof.
  intros n. pose proof (submit_spec task n) as Hs. unfold on_tasks.
  destruct (submit task n) as [[id|e| |] n']; simpl; [|rewrite Hs; reflexivity..].
  destruct Hs as (_ & Hvalid & Hnew & ->). intros id'. destruct (decide (id' = ts_id task)) as [->|Hne].
  - by rewrite Hnew, lookup_insert_eq.
  - rewrite lookup_insert_ne by done. by destruct (_ !! id').
Qed.
End adds.
#[export] Hint Resolve adds_submit : frame.
#[global] Instance adds_tasks_frame : Frame adds_tasks.
Proof.
  split; [apply _|..].
  - intros. apply tasks_fworld, _.
  - intros. by apply tasks_fmod; [apply _|].
  - intros. by apply tasks_fmod; [apply _|].
  - apply adds_submit.
Qed.

(** ** Leases *)

Section operations.
Context `{HashOrder} `{UuidCrate}.

Lemma adds_commit_tail lease outputs : preserves adds_tasks (commit_tail lease outputs).
Proof. unfold commit_tail, publish_object. keep. Qed.

(** The lease operations, whatever the clock says: an error or a panic leaves
    the fabric alone. *)
Lemma renew_execution_log lease n :
  match renew_execution lease n with
  | (Ok renewed, n') =>
      let now := now_of (nd_world n) in
      ∃ record current, lease_valid (nd_fabric n) now lease record current ∧
        renewed = mkExecutionLease (el_task_id current) (el_execution_id current) (el_resource_id current)
                    (el_resource_epoch current) (saturating_add64 now (f_execution_ttl_ms (nd_fabric n))) ∧
        nd_fabric n' = set_tasks (nd_fabric n)
          (<[el_task_id lease := mkTaskRecord (tr_spec record) (Running renewed)]> (f_tasks (nd_fabric n)))
  | (_, n') => nd_fabric n' = nd_fabric n
  end.
Proof.
  unfold renew_execution, bind at 1, fworld at 1. rewrite now_unix_ms_spec. destruct (_ <? 0); [done|].
  unfold bind at 1. destruct (check_lease_spec lease (now_of (nd_world n)) (mkNode (nd_fabric n) (tick (nd_world n))))
    as [(record & current & Hv & ->)|[_ [e ->]]]; [|done].
  by exists record, current.
Qed.
Lemma complete_execution_log lease outputs n :
  let '(o, n') := complete_execution lease outputs n in
  (nd_fabric n' = nd_fabric n ∧ o ≠ Ok tt) ∨
  ∃ record current, lease_valid (nd_fabric n) (now_of (nd_world n)) lease record current ∧
    adds (<[el_task_id lease := mkTaskRecord (tr_spec record) (TaskCompleted (om_id <$> outputs))]>
            (f_tasks (nd_fabric n))) (f_tasks (nd_fabric n')).
Proof.
  pose proof (complete_execution_spec lease outputs n) as Hspec. cbv zeta in Hspec.
  destruct (complete_execution lease outputs n) as [o n'].
  destruct Hspec as [[Hf Ho]|(record & current & Hv & _ & _ & Htail)].
  - left. split; [done|]. by destruct Ho as [[e ->]|[-> _]].
  - right. exists record, current. split; [done|].
    pose proof (adds_commit_tail lease outputs (mkNode (set_tasks (nd_fabric n) (<[el_task_id lease :=
      mkTaskRecord (tr_spec record) (TaskCompleted (om_id <$> outputs))]> (f_tasks (nd_fabric n)))) (tick (nd_world n)))) as Hadds.
    by rewrite <- Htail in Hadds.
Qed.

#[local] Arguments from_held : simpl never.

(** A valid lease holds its task. *)
Lemma valid_held f now lease record current next :
  lease_valid f now lease record current →
  from_held (el_execution_id lease) (el_resource_id lease) (el_resource_epoch lease) now (entry_of record) next =
    Some (ts_effects (tr_spec record), next).
Proof.
  intros [_ _ Hr Hx Hu [Ho He]]. unfold entry_of, from_held. rewrite Hr. simpl. by rewrite bool_decide_eq_true_2.
Qed.
Lemma insert_entry f id record status :
  ledger_of (set_tasks f (<[id := mkTaskRecord (tr_spec record) status]> (f_tasks f))) =
  <[id := (ts_effects (tr_spec record), phase_of status)]> (ledger_of f).
Proof. unfold ledger_of. simpl. by rewrite fmap_insert. Qed.
Lemma lookup_entry f id record : f_tasks f !! id = Some record → ledger_of f !! id = Some (entry_of record).
Proof. intros Ht. unfold ledger_of. by rewrite lookup_fmap, Ht. Qed.

Lemma renewed_event f now lease record current :
  lease_valid f now lease record current →
  let renewed := mkExecutionLease (el_task_id current) (el_execution_id current) (el_resource_id current)
                   (el_resource_epoch current) (saturating_add64 now (f_execution_ttl_ms f)) in
  apply_event (f_execution_ttl_ms f) (ledger_of f)
    (Renewed (el_task_id lease) (el_execution_id lease) (el_resource_id lease) (el_resource_epoch lease) now) =
  Some (ledger_of (set_tasks f (<[el_task_id lease := mkTaskRecord (tr_spec record) (Running renewed)]> (f_tasks f)))).
Proof.
  intros Hv. pose proof Hv as [_ Ht _ Hx _ [Ho He]]. cbv zeta. rewrite insert_entry. simpl.
  rewrite (lookup_entry _ _ _ Ht). simpl. rewrite (valid_held _ _ _ _ _ _ Hv). simpl. by rewrite Hx, Ho, He.
Qed.
Lemma finished_event f now lease record current outputs :
  lease_valid f now lease record current →
  apply_event (f_execution_ttl_ms f) (ledger_of f)
    (Finished (el_task_id lease) (el_execution_id lease) (el_resource_id lease) (el_resource_epoch lease) now outputs) =
  Some (ledger_of (set_tasks f (<[el_task_id lease := mkTaskRecord (tr_spec record) (TaskCompleted outputs)]> (f_tasks f)))).
Proof.
  intros Hv. pose proof (lv_task _ _ _ _ _ Hv) as Ht. rewrite insert_entry. simpl.
  rewrite (lookup_entry _ _ _ Ht). simpl. by rewrite (valid_held _ _ _ _ _ _ Hv).
Qed.
Lemma granted_event f now lease record :
  f_tasks f !! el_task_id lease = Some record → tr_status record = Pending →
  el_expires_at_unix_ms lease = saturating_add64 now (f_execution_ttl_ms f) →
  apply_event (f_execution_ttl_ms f) (ledger_of f)
    (Granted (el_task_id lease) (el_execution_id lease) (el_resource_id lease) (el_resource_epoch lease) now) =
  Some (ledger_of (set_tasks f (<[el_task_id lease := mkTaskRecord (tr_spec record) (Running lease)]> (f_tasks f)))).
Proof.
  intros Ht Hp He. rewrite insert_entry. simpl. rewrite (lookup_entry _ _ _ Ht). unfold entry_of. rewrite Hp. simpl.
  by rewrite He.
Qed.

(** ** Expiry *)

Lemma timed_out_event ttl unix_ms m id record :
  m !! id = Some record → expired_at unix_ms record = true →
  apply_event ttl (entry_of <$> m) (TimedOut id unix_ms) = Some (entry_of <$> <[id := reap_record unix_ms record]> m).
Proof.
  intros Hm He. rewrite fmap_insert. unfold reap_record. rewrite He. unfold expired_at in He.
  destruct (tr_status record) as [|lease| |] eqn:Hs; try done. simpl. rewrite lookup_fmap, Hm. simpl.
  unfold entry_of at 1. rewrite Hs. simpl. rewrite He. unfold entry_of at 2, reaped_status. simpl.
  by destruct (automatically_retryable _).
Qed.
Lemma timed_out_log ttl unix_ms m (expired : gmap TaskId TaskRecord) :
  map_Forall (λ id record, m !! id = Some record ∧ expired_at unix_ms record = true) expired →
  ∃ log, Forall (λ event, ∃ id, event = TimedOut id unix_ms) log ∧
    apply_events ttl (entry_of <$> m) log = Some (entry_of <$> ((reap_record unix_ms <$> expired) ∪ m)).
Proof.
  induction expired as [|id record expired Hid IH] using map_ind; intros Hall.
  { exists []. by rewrite fmap_empty, map_empty_union. }
  apply map_Forall_insert in Hall as [[Hm He] Hall]; [|done]. destruct (IH Hall) as (log & Hlog & Hrun).
  exists (log ++ [TimedOut id unix_ms]). split; [apply Forall_app; split; [done|by constructor; [exists id|]]|].
  rewrite apply_events_app, Hrun. cbn [mbind option_bind apply_events].
  rewrite (timed_out_event _ _ _ id record); [|by rewrite lookup_union_r by (by rewrite lookup_fmap, Hid)|done].
  cbn [mbind option_bind]. by rewrite insert_union_l, fmap_insert.
Qed.

Lemma reap_log unix_ms n :
  let '(o, n') := reap_expired_executions_at unix_ms n in
  (∃ ids, o = Ok ids) ∧ f_tasks (nd_fabric n') = reap_record unix_ms <$> f_tasks (nd_fabric n).
Proof.
  unfold reap_expired_executions_at, bind, fget, gets, fmod, modify. simpl.
  set (n1 := mkNode _ (nd_world n)).
  destruct (quiet_for_each mark_cooperative_role_uncertain
    (List.filter (λ '(_, record), negb (automatically_retryable (ts_effects (tr_spec record))))
       (List.filter (λ '(_, record), expired_at unix_ms record) (hash_iter (f_tasks (nd_fabric n))))).*1
    quiet_mark_cooperative_role_uncertain n1) as (n' & Hn' & Htasks).
  rewrite Hn'. split; [by eexists|]. by rewrite Htasks.
Qed.
(** What reaping does is a log of expiries, and leaves none. *)
Lemma reaped_log ttl unix_ms (m : gmap TaskId TaskRecord) :
  ∃ log, Forall (λ event, ∃ id, event = TimedOut id unix_ms) log ∧
    apply_events ttl (entry_of <$> m) log = Some (entry_of <$> (reap_record unix_ms <$> m)).
Proof.
  destruct (timed_out_log ttl unix_ms m (filter (λ '(_, record), expired_at unix_ms record = true) m)) as (log & Hlog & Hrun).
  { intros id record [Hm He]%map_lookup_filter_Some. done. }
  exists log. split; [done|]. rewrite Hrun. do 2 f_equal. apply map_eq. intros id. rewrite lookup_union, !lookup_fmap.
  destruct (m !! id) as [record|] eqn:Hm.
  - destruct (expired_at unix_ms record) eqn:He.
    + assert (filter (λ '(_, record), expired_at unix_ms record = true) m !! id = Some record) as ->
        by (apply map_lookup_filter_Some; done). simpl. done.
    + assert (filter (λ '(_, record), expired_at unix_ms record = true) m !! id = None) as ->.
      { apply map_lookup_filter_None. right. intros r Hr. rewrite Hm in Hr. injection Hr as <-. by rewrite He. }
      simpl. unfold reap_record. by rewrite He.
  - assert (filter (λ '(_, record), expired_at unix_ms record = true) m !! id = None) as ->
      by (apply map_lookup_filter_None; by left). done.
Qed.
Lemma reaped_unexpired unix_ms (m : gmap TaskId TaskRecord) :
  map_Forall (λ _ entry, match entry.2 with Held _ _ _ expiry => unix_ms < expiry | _ => True end)
    (entry_of <$> (reap_record unix_ms <$> m)).
Proof.
  intros id entry. rewrite !lookup_fmap. destruct (m !! id) as [record|]; [|done]. intros [= <-].
  unfold reap_record. destruct (expired_at unix_ms record) eqn:He.
  - unfold entry_of, reaped_status. simpl. by destruct (automatically_retryable _).
  - unfold expired_at in He. unfold entry_of. simpl. destruct (tr_status record); simpl; try done.
    by apply Z.leb_gt in He.
Qed.
End operations.

(** ** Requests that leave the tasks alone *)

Definition coord_tasks (R : relation (gmap TaskId TaskRecord)) (c c' : Coord) : Prop :=
  R (f_tasks (co_fabric (co_state c))) (f_tasks (co_fabric (co_state c'))).
#[global] Instance coord_tasks_frame R : PreOrder R → CoordFrame (coord_tasks R).
Proof.
  split; [split|intros E g c; unfold coord_tasks; reflexivity..]; unfold coord_tasks; [intros c; reflexivity|].
  intros c1 c2 c3. by etrans.
Qed.
Lemma coord_on_fabric R {E A} (m : comp Node E A) : preserves (on_tasks R) m → preserves (coord_tasks R) (on_fabric m).
Proof.
  intros Hm c. specialize (Hm (mkNode (co_fabric (co_state c)) (co_world c))). unfold on_fabric. by destruct (m _).
Qed.
#[export] Hint Resolve coord_on_fabric : frame.

(** Requests without a log. *)
Definition silent (request : Request) : bool :=
  match request with
  | PollWork _ _ | RenewExecution _ | CompleteExecution _ _ | SubmitTask _ | SubmitCooperativeJob _
  | SubmitPlannedJob _ | MaintenanceTick => false
  | _ => true
  end.

Section handlers.
Context `{HashOrder} `{UuidCrate}.

Lemma same_expire {E} t : preserves same_tasks (expire_resources_at (E:=E) t).
Proof. unfold expire_resources_at, remove_resource. keep. Qed.
Lemma same_plan job : preserves same_tasks (plan_logical_job job).
Proof. unfold plan_logical_job, schedulable_resources. keep. Qed.
Hint Resolve same_expire same_plan : frame.

Lemma silent_handle request : silent request = true → preserves (coord_tasks eq) (handle request).
Proof.
  intros Hsilent. unfold handle, respond. destruct request; try discriminate Hsilent;
    unfold handle_register, handle_heartbeat, handle_list_resources, handle_publish, handle_replica,
      handle_get_task, handle_plan, handle_get_job, handle_update_link, handle_report_measurement;
    keep; apply coord_on_fabric;
    unfold register_resource, heartbeat, active_resources, resource_epoch, publish_object, add_object_location,
      upsert_link, remove_link; keep.
Qed.

(** The clock of a request. *)
Definition coord_later (c c' : Coord) : Prop := later_world (co_world c) (co_world c').
#[local] Instance coord_later_frame : CoordFrame coord_later.
Proof.
  split; [split; [intros c; unfold coord_later; reflexivity|]|intros E g c; unfold coord_later; reflexivity..].
  intros c1 c2 c3. unfold coord_later. by etrans.
Qed.
Lemma later_on_fabric {E A} (m : comp Node E A) : preserves later m → preserves coord_later (on_fabric m).
Proof. intros Hm c. destruct (on_fabric m c) as [o c'] eqn:Hc. by eapply on_fabric_later. Qed.
Hint Resolve later_on_fabric : frame.
Lemma later_begin_execution task_id resource_id : preserves later (begin_execution task_id resource_id).
Proof. unfold begin_execution, find_active, set_task. keep. Qed.
Lemma later_complete_execution lease outputs : preserves later (complete_execution lease outputs).
Proof. unfold complete_execution, check_lease, find_active, publish_object, set_task. keep. Qed.
Lemma later_renew_execution lease : preserves later (renew_execution lease).
Proof. unfold renew_execution, check_lease, find_active, set_task. keep. Qed.
Lemma later_reap t : preserves later (reap_expired_executions_at t).
Proof. unfold reap_expired_executions_at. keep. Qed.
Hint Resolve later_begin_execution later_complete_execution later_renew_execution later_reap : frame.
Lemma later_handle request : preserves coord_later (handle request).
Proof.
  unfold handle, respond. destruct request;
    unfold handle_register, handle_heartbeat, handle_list_resources, handle_poll_work,
      handle_renew, handle_complete, handle_publish, handle_replica, handle_submit_task,
      handle_get_task, handle_submit_cooperative, handle_plan, handle_get_job, handle_update_link,
      handle_report_measurement, maintenance_tick, forget_resource; keep; apply later_on_fabric;
    unfold register_resource, heartbeat, active_resources, resource_epoch, publish_object, add_object_location,
      upsert_link, remove_link, expire_resources_at, remove_resource; keep.
Qed.

(** ** Polling *)

Lemma begin_execution_fails task_id resource_id n o n' :
  begin_execution task_id resource_id n = (o, n') → (∀ lease, o ≠ Ok lease) → nd_fabric n' = nd_fabric n.
Proof.
  unfold begin_execution, bind at 1, fworld at 1. rewrite now_unix_ms_spec. destruct (_ <? 0); [by intros [= <- <-]|].
  unfold bind at 1. destruct (find_active_spec resource_id (now_of (nd_world n)) (mkNode (nd_fabric n) (tick (nd_world n))))
    as [(r & Hr & ->)|[_ ->]]; [|by intros [= <- <-]].
  unfold bind, fget, gets, ok_or_throw, lift. simpl.
  destruct (f_tasks (nd_fabric n) !! task_id); simpl; [|by intros [= <- <-]].
  case_bool_decide; simpl; [|by intros [= <- <-]]. intros [= <- _] Hno. by destruct (Hno _ eq_refl).
Qed.
Lemma poll_tasks_rest resource_id ids c :
  let '(o, c') := poll_tasks resource_id ids c in
  (∀ assignment, o ≠ Ok (Some assignment)) → coord_tasks eq c c'.
Proof.
  revert c. induction ids as [|id ids IH]; intros c; cbn [poll_tasks]; [done|].
  unfold bind at 1, try. destruct (on_fabric (schedule_task id) c) as [o c1] eqn:Hsched.
  pose proof (on_fabric_reads _ _ _ _ (fabric_schedule_task id) Hsched) as Hc1.
  assert (let '(o, c') := poll_tasks resource_id ids c1 in
    (∀ assignment, o ≠ Ok (Some assignment)) → coord_tasks eq c c') as Hnext.
  { specialize (IH c1). destruct (poll_tasks resource_id ids c1). unfold coord_tasks in *. by rewrite Hc1 in IH. }
  assert (coord_tasks eq c c1) as Hsame by (unfold coord_tasks; by rewrite Hc1).
  destruct o as [d|e| |]; [|exact Hnext|by intros _..]. simpl. case_bool_decide; [simpl|exact Hnext].
  unfold bind at 1, cget, gets. unfold bind at 1, ok_or_throw, lift.
  destruct (task_spec _ id) as [spec|]; simpl; [|by intros _]. unfold bind at 1.
  destruct (resolve_inputs _ _); simpl; try by intros _.
  unfold bind at 1, rethrow. destruct (on_fabric (begin_execution id resource_id) c1) as [o2 c2] eqn:Hbegin.
  apply on_fabric_inv in Hbegin as (n2 & Hbegin & ->).
  destruct o2 as [lease|e| |]; simpl; [by intros Hno; destruct (Hno _ eq_refl)|..];
    apply begin_execution_fails in Hbegin; try done; unfold coord_tasks; intros _; simpl in *; by rewrite Hbegin, Hc1.
Qed.
Lemma assigned_event c owner assignment c' :
  assigned c owner assignment c' →
  let lease := wa_lease assignment in
  ∃ now, reading (co_world c) now ∧
    el_expires_at_unix_ms lease = lease_end (f_execution_ttl_ms (co_fabric (co_state c))) now ∧
    apply_event (f_execution_ttl_ms (co_fabric (co_state c))) (ledger_of (co_fabric (co_state c)))
      (Granted (el_task_id lease) (el_execution_id lease) owner (el_resource_epoch lease) now) =
    Some (ledger_of (co_fabric (co_state c'))).
Proof.
  intros [<- (record & Ht & Hspec & Hp) _ (w & Hw & Hnow) _ _ _ Hf].
  exists (now_of w). split_and!; [by exists w|done|].
  rewrite Hf, <- Hspec. by apply granted_event.
Qed.

Lemma poll_log owner epoch c :
  let '(o, c') := handle_poll_work owner epoch c in
  ∃ c1, coord_tasks adds c c1 ∧ later_world (co_world c) (co_world c1) ∧
    f_execution_ttl_ms (co_fabric (co_state c1)) = f_execution_ttl_ms (co_fabric (co_state c)) ∧
    match o with
    | Ok (Some assignment) => assigned c1 owner assignment c' ∧ el_resource_epoch (wa_lease assignment) = epoch
    | _ => coord_tasks eq c1 c'
    end.
Proof.
  unfold handle_poll_work, bind at 1.
  destruct (on_fabric (resource_epoch owner) c) as [o c0] eqn:Hepoch.
  pose proof (on_fabric_reads _ _ _ _ (fabric_resource_epoch owner) Hepoch) as Hc0.
  pose proof (on_fabric_later _ _ _ _ (frame_resource_epoch later owner) Hepoch) as Hw0.
  assert (coord_tasks adds c c0 ∧
    f_execution_ttl_ms (co_fabric (co_state c0)) = f_execution_ttl_ms (co_fabric (co_state c))) as [Hadd Httl]
    by (unfold coord_tasks; rewrite Hc0; split; reflexivity).
  apply on_fabric_inv in Hepoch as (n0 & Hepoch & _).
  destruct o as [[current|]| | |]; try by exists c0. unfold bind at 1, ok_or_throw, lift. simpl.
  apply resource_epoch_Ok in Hepoch as (r & Hr & He).
  destruct (Z.eqb_spec current epoch) as [Heq|]; [|by exists c0]. simpl.
  unfold bind at 1, rethrow.
  pose proof (coord_on_fabric adds _ (frame_refresh_ready_roles adds_tasks) c0) as Hadd1.
  pose proof (ev_execution_ttl _ _ (serves_on_fabric _ keeps_refresh_ready_roles c0)) as Httl1.
  pose proof (later_on_fabric _ (frame_refresh_ready_roles later) c0) as Hw1.
  pose proof (frame_refresh_ready_roles same_network (mkNode (co_fabric (co_state c0)) (co_world c0))) as [Hmembers _].
  assert (f_resources (co_fabric (co_state (on_fabric refresh_ready_roles c0).2)) =
          f_resources (co_fabric (co_state c0))) as Hresources.
  { unfold on_fabric. by destruct (refresh_ready_roles _). }
  clear Hmembers. destruct (on_fabric refresh_ready_roles c0) as [o1 c1]. cbn [snd] in *.
  assert (coord_tasks adds c c1) as Hadds by (by etrans).
  assert (later_world (co_world c) (co_world c1)) as Hw by (by etrans).
  assert (f_execution_ttl_ms (co_fabric (co_state c1)) = f_execution_ttl_ms (co_fabric (co_state c))) as Httl2
    by congruence.
  destruct o1 as [[]|e| |]; simpl; try by exists c1. unfold bind at 1, cget, gets.
  pose proof (poll_tasks_rest owner (pending_task_ids (co_fabric (co_state c1))) c1) as Hrest.
  destruct (poll_tasks _ _ c1) as [o2 c2] eqn:Hpoll. exists c1. split_and!; [done..|].
  destruct o2 as [[assignment|]|e| |]; try by apply Hrest. pose proof (poll_tasks_assigned _ _ _ _ _ Hpoll) as Has.
  split; [done|]. destruct (as_epoch _ _ _ _ Has) as (r1 & Hr1 & Hepoch1). rewrite Hresources, Hc0 in Hr1.
  simpl in Hr. congruence.
Qed.

(** ** Maintenance *)

Lemma total_for_each {S E A} (f : A → comp S E unit) l s :
  (∀ a s, (f a s).1 = Ok tt) → (for_each f l s).1 = Ok tt.
Proof.
  intros Hf. unfold for_each. revert s. induction l as [|a l IH]; intros s; simpl; [done|].
  unfold bind. specialize (Hf a s). destruct (f a s) as [o s']. simpl in Hf. subst o. apply IH.
Qed.
Lemma expire_total t c : ∃ ids, (on_fabric (expire_resources_at (E:=ApiError) t) c).1 = Ok ids.
Proof.
  unfold on_fabric, expire_resources_at, bind, fget, gets. set (ids := (List.filter _ _).*1). exists ids.
  pose proof (total_for_each (remove_resource (E:=ApiError)) ids
    (mkNode (co_fabric (co_state c)) (co_world c)) (λ id n, eq_refl)) as Hall.
  destruct (for_each _ _ _) as [o n']. simpl in Hall. by subst o.
Qed.

(** ** The simulation *)

Abbreviation ledger_at c := (ledger_of (co_fabric (co_state c))).
Abbreviation ttl_at c := (f_execution_ttl_ms (co_fabric (co_state c))).

(** The request has a log that its answer tells of. *)
Definition refines (request : Request) (c : Coord) : Prop :=
  let '(answer, c') := handle request c in
  ∃ log, apply_events (ttl_at c) (ledger_at c) log = Some (ledger_at c') ∧
    explains (ttl_at c) (co_world c) request answer log (ledger_at c').

Lemma same_ledger ttl c c' : coord_tasks eq c c' → apply_events ttl (ledger_at c) [] = Some (ledger_at c').
Proof. intros Hsame. simpl. unfold ledger_of. by rewrite Hsame. Qed.
Lemma added_ledger ttl c c' :
  coord_tasks adds c c' →
  ∃ created, forallb creation created = true ∧ apply_events ttl (ledger_at c) created = Some (ledger_at c').
Proof. apply adds_log. Qed.

Lemma refines_silent request c : silent request = true → refines request c.
Proof.
  intros Hsilent. unfold refines. pose proof (silent_handle request Hsilent c) as Hsame.
  destruct (handle request c) as [answer c']. exists []. split; [by apply (same_ledger (ttl_at c))|].
  by destruct request.
Qed.
Lemma refines_poll owner epoch c : refines (PollWork owner epoch) c.
Proof.
  unfold refines. cbn [handle]. unfold respond, bind. pose proof (poll_log owner epoch c) as Hpoll.
  destruct (handle_poll_work owner epoch c) as [o c'] eqn:Heq. destruct Hpoll as (c1 & Hadds & Hw & Httl & Ho).
  apply (added_ledger (ttl_at c)) in Hadds as (created & Hc & Hrun).
  assert (coord_tasks eq c1 c' → apply_events (ttl_at c) (ledger_at c) created = Some (ledger_at c')) as Hrest.
  { intros Hsame. rewrite Hrun. by apply (same_ledger (ttl_at c)). }
  destruct o as [[assignment|]|e| |]; simpl; try (exists created; split; [by apply Hrest|by exists created]).
  destruct Ho as [Has Hepoch]. destruct (assigned_event _ _ _ _ Has) as (now & Hnow & Hexpires & Hevent). rewrite Httl in *.
  eexists. split; [|exists created; split; [done|]; exists now; split; [by eapply reading_later|]; split; [|reflexivity]].
  - rewrite apply_events_app, Hrun. cbn [mbind option_bind apply_events]. by rewrite <- Hepoch, Hevent.
  - rewrite <- Hepoch, <- Hexpires, <- (as_lease _ _ _ _ Has). by destruct (wa_lease assignment).
Qed.
Lemma refines_renew lease c : refines (RenewExecution lease) c.
Proof.
  unfold refines. cbn [handle]. unfold respond, handle_renew, rethrow, on_fabric, bind.
  pose proof (renew_execution_log lease (mkNode (co_fabric (co_state c)) (co_world c))) as Hrenew.
  destruct (renew_execution lease _) as [o n']. simpl in *.
  destruct o as [renewed|e| |]; try by (exists []; simpl; rewrite Hrenew).
  destruct Hrenew as (record & current & Hv & -> & ->).
  eexists. split; [|exists (now_of (co_world c)); split_and!; [done| |reflexivity]].
  - cbn [apply_events]. by rewrite (renewed_event _ _ _ _ _ Hv).
  - destruct Hv as [_ _ _ -> _ [-> ->]]. done.
Qed.
Lemma refines_complete lease outputs c : refines (CompleteExecution lease outputs) c.
Proof.
  unfold refines. cbn [handle]. unfold respond, handle_complete, rethrow, on_fabric, bind.
  pose proof (complete_execution_log lease outputs (mkNode (co_fabric (co_state c)) (co_world c))) as Hcomplete.
  destruct (complete_execution lease outputs _) as [o n']. simpl in *.
  destruct Hcomplete as [[Hf Hno]|(record & current & Hv & Hadds)].
  - destruct o as [[]|e| |]; [by exfalso; apply Hno|..]; simpl; rewrite Hf; exists []; (split; [reflexivity|]);
      left; (split; [reflexivity|discriminate]).
  - destruct (adds_log (ttl_at c) _ _ Hadds) as (created & Hc & Hrun).
    pose proof (finished_event _ _ _ _ _ (om_id <$> outputs) Hv) as Hevent. simpl in Hevent.
    assert (apply_events (ttl_at c) (ledger_at c)
      (Finished (el_task_id lease) (el_execution_id lease) (el_resource_id lease) (el_resource_epoch lease)
         (now_of (co_world c)) (om_id <$> outputs) :: created) = Some (ledger_of (nd_fabric n'))) as Hlog.
    { cbn [apply_events]. simpl. rewrite Hevent. exact Hrun. }
    destruct o as [[]|e| |]; simpl; eexists; (split; [exact Hlog|]); right; by exists (now_of (co_world c)), created.
Qed.
Lemma refines_submit task c : refines (SubmitTask task) c.
Proof.
  unfold refines. cbn [handle]. unfold respond, handle_submit_task, rethrow, on_fabric, bind.
  pose proof (submit_spec task (mkNode (co_fabric (co_state c)) (co_world c))) as Hsubmit.
  destruct (submit task _) as [o n']. simpl in *.
  destruct o as [id|e| |]; try by (exists []; simpl; rewrite Hsubmit).
  destruct Hsubmit as (-> & _ & Hnew & Htasks). eexists. split; [|reflexivity]. simpl. unfold ledger_of.
  by rewrite lookup_fmap, Hnew, Htasks, fmap_insert.
Qed.
Definition is_job (request : Request) : bool :=
  match request with SubmitCooperativeJob _ | SubmitPlannedJob _ => true | _ => false end.
Lemma adds_job request : is_job request = true → preserves (coord_tasks adds) (handle request).
Proof.
  intros Hjob. destruct request; try discriminate Hjob; unfold handle, respond, handle_submit_cooperative; keep.
Qed.
Lemma refines_job request c : is_job request = true → refines request c.
Proof.
  intros Hjob. unfold refines. pose proof (adds_job request Hjob c) as Hadds. destruct (handle request c) as [answer c'].
  apply (added_ledger (ttl_at c)) in Hadds as (created & Hc & Hrun). exists created. split; [done|].
  by destruct request.
Qed.
Lemma respond_state {A} (f : A → Response) (m : api A) c : (respond f m c).2 = (m c).2.
Proof. unfold respond, bind. by destruct (m c) as [[]]. Qed.
(** A tick does its work at the time it reads. *)
Lemma tick_log c :
  let now := now_of (co_world c) in
  let '(o, c') := maintenance_tick c in
  if w_clock (co_world c) 0 <? 0 then o = Panic ∧ coord_tasks eq c c'
  else o = Ok tt ∧
    f_tasks (co_fabric (co_state c')) = reap_record now <$> f_tasks (co_fabric (co_state c)).
Proof.
  cbv zeta. unfold maintenance_tick, bind at 1, on_fabric at 1, fworld. cbn [nd_world nd_fabric].
  rewrite now_unix_ms_spec. destruct (_ <? 0); [by split|]. cbn [nd_fabric nd_world].
  set (now := now_of (co_world c)). set (c1 := mkCoord _ (tick (co_world c))).
  unfold bind at 1. pose proof (coord_on_fabric eq _ (same_expire (E:=ApiError) now) c1) as H1.
  pose proof (expire_total now c1) as [ids Hids].
  destruct (on_fabric (expire_resources_at now) c1) as [o c2]. simpl in Hids, H1. subst o.
  unfold bind at 1.
  assert (preserves (coord_tasks eq) (for_each forget_resource ids)) as H2 by (unfold forget_resource; keep).
  specialize (H2 c2). pose proof (total_for_each forget_resource ids c2 (λ id c, eq_refl)) as Hforget.
  destruct (for_each forget_resource ids c2) as [o c3]. simpl in Hforget, H2. subst o.
  unfold bind, rethrow, on_fabric.
  pose proof (reap_log now (mkNode (co_fabric (co_state c3)) (co_world c3))) as Hreap.
  destruct (reap_expired_executions_at now _) as [o n']. destruct Hreap as [[reaped ->] Htasks].
  split; [done|]. simpl in *. rewrite Htasks. f_equal. unfold coord_tasks in *. simpl in *. congruence.
Qed.
Lemma refines_tick c : refines MaintenanceTick c.
Proof.
  unfold refines. cbn [handle]. unfold respond, bind. pose proof (tick_log c) as Htick. cbv zeta in Htick.
  destruct (maintenance_tick c) as [o c']. destruct (Z.ltb_spec (w_clock (co_world c) 0) 0) as [Hclock|Hclock].
  - destruct Htick as [-> Hsame]. exists []. split; [by apply (same_ledger (ttl_at c) c)|done].
  - destruct Htick as [-> Htasks].
    destruct (reaped_log (ttl_at c) (now_of (co_world c)) (f_tasks (co_fabric (co_state c)))) as (log & Hlog & Hrun).
    exists log. unfold ledger_of. simpl. rewrite Htasks. split; [done|].
    exists (now_of (co_world c)). split_and!; [done..|]. apply reaped_unexpired.
Qed.

Lemma handle_refines request c : refines request c.
Proof.
  destruct (silent request) eqn:Hs; [by apply refines_silent|].
  destruct request; try discriminate Hs.
  - apply refines_poll.
  - apply refines_renew.
  - apply refines_complete.
  - apply refines_submit.
  - by apply refines_job.
  - by apply refines_job.
  - apply refines_tick.
Qed.

(** C3 The coordinator is a lease service.  From any state and under any clock,
    serving any sequence of requests moves its ledger by logs of events of the
    specification, one log per request, at times its clock shows, and every
    answer tells its log: an assignment is one grant to the polling incarnation,
    after the creation of tasks that became ready; a renewal or a completion
    takes effect only for the execution that holds the task, before its expiry;
    an error of either before the commit is no event; a maintenance tick times
    out exactly what has expired; and nothing else touches a task. *)
Theorem coordinator_refines_ledger requests c :
  let '(answers, c') := serve_all requests c in
  ∃ logs, explained (f_execution_ttl_ms (co_fabric (co_state c)))
    (co_world c) (ledger_of (co_fabric (co_state c))) requests answers logs
    (co_world c') (ledger_of (co_fabric (co_state c'))).
Proof.
  revert c. induction requests as [|request requests IH]; intros c; cbn [serve_all].
  { exists []. constructor. }
  pose proof (handle_refines request c) as Hone. unfold refines in Hone.
  pose proof (ev_execution_ttl _ _ (serves_handle request c)) as Httl.
  pose proof (later_handle request c) as Hlater.
  destruct (handle request c) as [answer c1]. destruct Hone as (log & Hrun & Hexplains).
  specialize (IH c1). destruct (serve_all requests c1) as [answers c']. destruct IH as (logs & Hlogs).
  exists (log :: logs). simpl in Httl. rewrite Httl in Hlogs. by econstructor.
Qed.
(** *** Committed tasks stay committed *)

Lemma committed_event ttl ledger event ledger' id effects outputs :
  apply_event ttl ledger event = Some ledger' → ledger !! id = Some (effects, Committed outputs) →
  ledger' !! id = Some (effects, Committed outputs).
Proof.
  intros Hevent Hid. destruct event as [i e|i x o ep t|i x o ep t|i x o ep t out|i t]; simpl in Hevent;
    (destruct (decide (i = id)) as [->|Hne]; [by rewrite Hid in Hevent|]);
    destruct (ledger !! i) as [[e' []]|]; simpl in Hevent; try discriminate Hevent;
    try (case_bool_decide; [|discriminate Hevent]); try (case_match; [|discriminate Hevent]);
    simpl in Hevent; injection Hevent as <-; by rewrite lookup_insert_ne.
Qed.
Lemma committed_log ttl ledger log ledger' id effects outputs :
  apply_events ttl ledger log = Some ledger' → ledger !! id = Some (effects, Committed outputs) →
  ledger' !! id = Some (effects, Committed outputs).
Proof.
  revert ledger. induction log as [|event log IH]; intros ledger; simpl; [by intros [= <-]|].
  destruct (apply_event ttl ledger event) as [ledger1|] eqn:Hevent; [|done]. intros Hrun Hid.
  apply (IH ledger1); [done|]. by eapply committed_event.
Qed.

(** A completion of the task that was answered with success. *)
Definition acknowledged (id : TaskId) (entry : Request * outcome ApiError Response) : bool :=
  match entry with
  | (CompleteExecution lease _, Ok _) => bool_decide (el_task_id lease = id)
  | _ => false
  end.
Definition acknowledgements (id : TaskId) (requests : list Request) (c : Coord) : nat :=
  length (List.filter (acknowledged id) (zip requests (serve_all requests c).1)).

(** An acknowledged completion found its task held, and leaves it committed. *)
Lemma acknowledged_commits id request c :
  acknowledged id (request, (handle request c).1) = true →
  (∀ effects outputs, ledger_at c !! id ≠ Some (effects, Committed outputs)) ∧
  ∃ effects outputs, ledger_at (handle request c).2 !! id = Some (effects, Committed outputs).
Proof.
  pose proof (handle_refines request c) as Hone. unfold refines in Hone.
  destruct (handle request c) as [answer c']. destruct Hone as (log & Hrun & Hexplains). simpl.
  destruct request; try done. destruct answer as [response| | |]; [|done..].
  rewrite bool_decide_eq_true. intros <-. simpl in Hexplains.
  destruct Hexplains as [[_ Hno]|(now & created & _ & _ & ->)]; [by destruct (Hno response)|].
  cbn [apply_events] in Hrun. destruct (apply_event _ _ _) as [ledger|] eqn:Hevent; [|done]. simpl in Hevent, Hrun.
  destruct (ledger_at c !! el_task_id lease) as [[effects phase]|]; [|done]. simpl in Hevent.
  destruct phase as [|execution owner epoch expiry| |]; simpl in Hevent; try done.
  case_bool_decide; [|done]. simpl in Hevent. injection Hevent as <-. split; [by intros|].
  exists effects, (om_id <$> outputs). eapply committed_log; [exact Hrun|]. by rewrite lookup_insert_eq.
Qed.
Lemma acknowledgements_cons id request requests c :
  acknowledgements id (request :: requests) c =
  ((if acknowledged id (request, (handle request c).1) then 1 else 0) +
   acknowledgements id requests (handle request c).2)%nat.
Proof.
  unfold acknowledgements. cbn [serve_all]. destruct (handle request c) as [answer c'].
  cbn [fst snd]. destruct (serve_all requests c') as [answers final]. cbn [fst zip zip_with List.filter].
  by destruct (acknowledged _ _).
Qed.
Lemma no_more_acknowledgements id requests c effects outputs :
  ledger_at c !! id = Some (effects, Committed outputs) → acknowledgements id requests c = 0%nat.
Proof.
  revert c. induction requests as [|request requests IH]; intros c Hid; [done|]. rewrite acknowledgements_cons.
  destruct (acknowledged _ _) eqn:Hack; [by destruct (proj1 (acknowledged_commits _ _ _ Hack) effects outputs)|].
  apply IH. pose proof (handle_refines request c) as Hone. unfold refines in Hone.
  destruct (handle request c) as [answer c']. destruct Hone as (log & Hrun & _). by eapply committed_log.
Qed.

(** C9 A task is completed at most once.  Whatever requests the coordinator is
    sent, by whichever agents, with whatever leases, delays and ticks in
    between, at most one completion of a task is answered with success. *)
Theorem completed_at_most_once requests c id : (acknowledgements id requests c ≤ 1)%nat.
Proof.
  revert c. induction requests as [|request requests IH]; intros c; [unfold acknowledgements; simpl; lia|].
  rewrite acknowledgements_cons. destruct (acknowledged _ _) eqn:Hack; [|apply IH].
  destruct (acknowledged_commits _ _ _ Hack) as [_ (effects & outputs & Hid)].
  rewrite (no_more_acknowledgements _ _ _ _ _ Hid). lia.
Qed.
End handlers.

(** *** Example: the same lease completed twice *)

#[local] Existing Instances Run.order Run.text.
Definition twice : list Request :=
  let lease := mkExecutionLease (Samples.task_id 7) (mkId 1000) (Samples.resource_id 1) 1 61000 in
  [CompleteExecution lease []; CompleteExecution lease []].
Example completed_twice : acknowledgements (Samples.task_id 7) twice Run.leased = 1%nat.
Proof. vm_compute. reflexivity. Qed.
