(* ===== verification/Daemon.v ===== *)
(** * The coordinator daemon

    [main] of plurifold-coordinator: the arguments, the coordinator it starts,
    and the maintenance task that ticks it.  The handlers run one at a time
    under the coordinator's lock, so a run is a sequence of requests and ticks,
    each at a time. *)

From S2P Require Import Prelude Float64 World Text Core Samples Scheduler RoleGraph Partition Placement Reduction Fusion LogicalJob Planner Fabric Roles Execution Coordinator Clock Frames Evolution Network Leases Safety Polling Ledger.

Open Scope string_scope.
Open Scope list_scope.
Open Scope Z_scope.

(** ** Arguments *)

Record DaemonArgs := mkDaemonArgs {
  da_bind : string;
  da_membership_ttl_ms : Z;
  da_execution_ttl_ms : Z;
  da_maintenance_interval_ms : Z;
}.
(** The declared defaults. *)
Definition default_args : DaemonArgs := mkDaemonArgs "127.0.0.1:8080" 15000 60000 250.
(** [u64] arguments. *)
Definition args_ok (args : DaemonArgs) : Prop :=
  0 ≤ da_membership_ttl_ms args ∧ 0 ≤ da_execution_ttl_ms args.

(** The coordinator [main] starts, and the period it is ticked with. *)
Definition start_coordinator (args : DaemonArgs) : CoordinatorState :=
  Coordinator_new (da_membership_ttl_ms args) (da_execution_ttl_ms args).
Definition maintenance_period (args : DaemonArgs) : Z := Z.max (da_maintenance_interval_ms args) 10.

(** ** Runs *)

(** The environment at time [now]: the clock shows it, UUIDs go on. *)
Definition at_time (now : Z) (c : Coord) : Coord :=
  mkCoord (co_state c) (mkWorld (w_uuids (co_world c)) (λ _, now)).

Section run.
Context `{HashOrder} `{UuidCrate}.
(** A request of a client, or the maintenance task's tick, served at a time. *)
Fixpoint run_daemon (events : list (Z * Request)) (c : Coord) : Coord :=
  match events with
  | [] => c
  | (now, request) :: events' => run_daemon events' (handle request (at_time now c)).2
  end.
End run.

Definition is_tick (request : Request) : bool := match request with MaintenanceTick => true | _ => false end.

(** Events in the order of time up to [now], the maintenance task ticking at
    least every [gap] milliseconds; the last tick was at [tick]. *)
Fixpoint on_schedule (gap tick time : Z) (events : list (Z * Request)) (now : Z) : bool :=
  match events with
  | [] => (time <=? now) && (now <=? tick + gap)
  | (t, request) :: events' =>
      (time <=? t) && (t <=? tick + gap) &&
      on_schedule gap (if is_tick request then t else tick) t events' now
  end.

(** ** What outlives a tick *)

(** No lease of the ledger ended before [tick]. *)
Definition held_from (tick : Z) (ledger : Ledger) : Prop :=
  map_Forall (λ _ entry, match entry.2 with Held _ _ _ expiry => tick ≤ expiry | _ => True end) ledger.
(** No membership did. *)
Definition members_from (tick : Z) (f : Fabric) : Prop :=
  map_Forall (λ _ resource, tick ≤ reg_expires_at_unix_ms resource) (f_resources f).

Lemma lease_end_from ttl tick now : 0 ≤ ttl → tick ≤ now → tick ≤ u64_max → tick ≤ lease_end ttl now.
Proof. unfold lease_end. lia. Qed.

Definition event_from (tick : Z) (event : Event) : Prop :=
  match event with
  | Granted _ _ _ _ now | Renewed _ _ _ _ now => tick ≤ now
  | _ => True
  end.

Lemma held_from_insert tick ledger id entry :
  match entry.2 with Held _ _ _ expiry => tick ≤ expiry | _ => True end →
  held_from tick ledger → held_from tick (<[id := entry]> ledger).
Proof. intros He Hl. by apply map_Forall_insert_2. Qed.

Lemma held_from_event ttl tick ledger event ledger' :
  0 ≤ ttl → tick ≤ u64_max → event_from tick event →
  apply_event ttl ledger event = Some ledger' → held_from tick ledger → held_from tick ledger'.
Proof.
  intros Httl Hmax Hfrom Hevent Hheld. destruct event as [i e|i x o ep t|i x o ep t|i x o ep t out|i t]; simpl in Hevent, Hfrom;
    destruct (ledger !! i) as [[e' []]|]; simpl in Hevent; try discriminate Hevent;
    try (case_bool_decide; [|discriminate Hevent]); try (destruct (_ <=? _); [|discriminate Hevent]);
    simpl in Hevent; injection Hevent as <-; apply held_from_insert; simpl; try done; try by apply lease_end_from.
  by destruct (automatically_retryable _).
Qed.
Lemma held_from_log ttl tick log ledger ledger' :
  0 ≤ ttl → tick ≤ u64_max → Forall (event_from tick) log →
  apply_events ttl ledger log = Some ledger' → held_from tick ledger → held_from tick ledger'.
Proof.
  intros Httl Hmax Hlog. revert ledger. induction Hlog as [|event log Hevent _ IH]; intros ledger; simpl; [by intros [= <-]|].
  destruct (apply_event ttl ledger event) as [ledger1|] eqn:He; [|done]. intros Hrun Hheld.
  apply (IH ledger1); [done|]. by eapply held_from_event.
Qed.

(** The events of a request are of its time. *)
Lemma creations_from tick log : forallb creation log = true → Forall (event_from tick) log.
Proof. rewrite forallb_forall, Forall_forall. intros Hc event Hin%list_elem_of_In%Hc. by destruct event. Qed.
Lemma explained_from ttl w tick request answer log after :
  (∀ now, reading w now → tick ≤ now) → explains ttl w request answer log after → Forall (event_from tick) log.
Proof.
  intros Hw Hex. destruct request; simpl in Hex; try (subst log; constructor); try by apply creations_from.
  - destruct Hex as (created & Hc & Hex). pose proof (creations_from tick _ Hc) as Hcreated.
    destruct answer as [[| |[assignment|]| | | | | | | | |]| | |]; try (by subst log).
    destruct Hex as (now & Hnow & _ & ->). apply Forall_app. split; [done|]. constructor; [by apply Hw|constructor].
  - destruct answer as [[]| | |]; try (subst log; constructor).
    destruct Hex as (now & Hnow & _ & ->). constructor; [by apply Hw|constructor].
  - destruct Hex as [[-> _]|(now & created & _ & Hc & ->)]; [constructor|]. constructor; [done|by apply creations_from].
  - destruct answer; subst log; repeat constructor.
  - destruct answer.
    + destruct Hex as (now & _ & Hlog & _). eapply Forall_impl; [exact Hlog|]. by intros event [id ->].
    + destruct Hex as [-> _]. constructor.
    + destruct Hex as [-> _]. constructor.
    + destruct Hex as [-> _]. constructor.
Qed.

(** ** Members *)

Definition same_members (c c' : Coord) : Prop :=
  f_resources (co_fabric (co_state c')) = f_resources (co_fabric (co_state c)).
#[export] Instance same_members_frame : CoordFrame same_members.
Proof. split; [split; [by intros c|]|by intros E g c..]. intros c1 c2 c3. unfold same_members. congruence. Qed.

Lemma members_on_fabric {E A} (m : comp Node E A) :
  preserves same_network m → preserves same_members (on_fabric m).
Proof.
  intros Hm c. destruct (Hm (mkNode (co_fabric (co_state c)) (co_world c))) as [Hmembers _].
  unfold on_fabric, same_members. by destruct (m _).
Qed.
Lemma members_upsert_link {E} link : preserves same_members (on_fabric (upsert_link (E:=E) link)).
Proof. by intros c. Qed.
Lemma members_remove_link {E} a b : preserves same_members (on_fabric (remove_link (E:=E) a b)).
Proof. by intros c. Qed.
#[export] Hint Resolve members_on_fabric members_upsert_link members_remove_link : frame.

Definition moves_members (request : Request) : bool :=
  match request with RegisterResource _ _ | Heartbeat _ _ | MaintenanceTick => true | _ => false end.

Section members.
Context `{HashOrder} `{UuidCrate}.
Lemma members_handle request : moves_members request = false → preserves same_members (handle request).
Proof.
  intros Hstays. unfold handle, respond. destruct request; try discriminate Hstays;
    unfold handle_list_resources, handle_poll_work,
      handle_renew, handle_complete, handle_publish, handle_replica, handle_submit_task,
      handle_get_task, handle_submit_cooperative, handle_plan, handle_get_job, handle_update_link,
      handle_report_measurement; keep;
    apply members_on_fabric; unfold active_resources, resource_epoch, publish_object, add_object_location; keep.
Qed.

(** Registration and heartbeats write memberships that end after now. *)
Lemma registered_from tick now f id resource :
  0 ≤ f_membership_ttl_ms f → tick ≤ now → tick ≤ u64_max → members_from tick f →
  members_from tick (set_resources f (<[id :=
    mkRegisteredResource resource (saturating_add64 now (f_membership_ttl_ms f))]> (f_resources f))).
Proof.
  intros Httl Hnow Hmax Hall. apply map_Forall_insert_2; [|exact Hall]. simpl. unfold saturating_add64. lia.
Qed.
Lemma register_from tick d c :
  0 ≤ f_membership_ttl_ms (co_fabric (co_state c)) → tick ≤ now_of (co_world c) →
  members_from tick (co_fabric (co_state c)) →
  members_from tick (co_fabric (co_state (on_fabric (register_resource (E:=ApiError) d) c).2)).
Proof.
  intros Httl Hnow Hall. assert (tick ≤ u64_max) by (unfold now_of in Hnow; lia).
  unfold on_fabric, register_resource, bind, fget, gets, fworld. simpl. rewrite now_unix_ms_spec.
  destruct (_ <? 0); [done|]. by apply registered_from.
Qed.
Lemma heartbeat_from tick id epoch c :
  0 ≤ f_membership_ttl_ms (co_fabric (co_state c)) → tick ≤ now_of (co_world c) →
  members_from tick (co_fabric (co_state c)) →
  members_from tick (co_fabric (co_state (on_fabric (heartbeat id epoch) c).2)).
Proof.
  intros Httl Hnow Hall. assert (tick ≤ u64_max) by (unfold now_of in Hnow; lia).
  unfold on_fabric, heartbeat, bind, fget, gets, fworld, ok_or_throw, lift. simpl.
  destruct (f_resources (co_fabric (co_state c)) !! id) as [r|]; [|done]. simpl. destruct (negb _); [done|].
  rewrite now_unix_ms_spec. destruct (_ <? 0); [done|]. by apply registered_from.
Qed.
(** Expiry leaves no membership that has ended. *)
Lemma removed_resources ids (c : Node) :
  f_resources (nd_fabric (for_each (remove_resource (E:=ApiError)) ids c).2) =
  foldl (λ m id, delete id m) (f_resources (nd_fabric c)) ids.
Proof.
  unfold for_each. revert c. induction ids as [|id ids IH]; intros c; simpl; [done|]. unfold bind. simpl. by rewrite IH.
Qed.
Lemma lookup_deletes {A} (m : gmap ResourceId A) ids id :
  foldl (λ m id, delete id m) m ids !! id = if decide (id ∈ ids) then None else m !! id.
Proof.
  revert m. induction ids as [|i ids IH]; intros m; simpl; [done|]. rewrite IH.
  destruct (decide (id ∈ ids)) as [Hin|Hin].
  - by rewrite decide_True by (by right).
  - destruct (decide (id = i)) as [->|Hne]; [by rewrite lookup_delete_eq, decide_True by left|].
    rewrite lookup_delete_ne by done. by rewrite decide_False by (by intros [|]%elem_of_cons).
Qed.
Lemma expired_from t c :
  map_Forall (λ _ resource, t < reg_expires_at_unix_ms resource)
    (f_resources (co_fabric (co_state (on_fabric (expire_resources_at (E:=ApiError) t) c).2))).
Proof.
  unfold on_fabric, expire_resources_at, bind, fget, gets. set (ids := (List.filter _ _).*1).
  pose proof (removed_resources ids (mkNode (co_fabric (co_state c)) (co_world c))) as Hremoved.
  destruct (for_each _ _ _) as [o n'].
  assert (members : map_Forall (λ _ resource, t < reg_expires_at_unix_ms resource) (f_resources (nd_fabric n'))).
  { simpl in Hremoved. rewrite Hremoved. intros id resource. rewrite lookup_deletes.
    destruct (decide (id ∈ ids)) as [|Hout]; [done|]. intros Hr. apply Z.nle_gt. intros Hle. apply Hout.
    unfold ids. apply list_elem_of_fmap. exists (id, resource). split; [done|].
    apply list_elem_of_In, filter_In. split; [|by apply Z.leb_le].
    by apply list_elem_of_In, elem_of_hash_iter. }
  destruct o; exact members.
Qed.
Lemma tick_members c :
  0 ≤ w_clock (co_world c) 0 →
  map_Forall (λ _ resource, now_of (co_world c) < reg_expires_at_unix_ms resource)
    (f_resources (co_fabric (co_state (maintenance_tick c).2))).
Proof.
  intros Hclock. unfold maintenance_tick, bind at 1, on_fabric at 1, fworld. cbn [nd_world nd_fabric].
  rewrite now_unix_ms_spec. destruct (Z.ltb_spec (w_clock (co_world c) 0) 0); [lia|]. cbn [nd_fabric nd_world].
  set (now := now_of (co_world c)). set (c1 := mkCoord _ (tick (co_world c))).
  unfold bind at 1. pose proof (expired_from now c1) as Hmembers. destruct (expire_total now c1) as [ids Hids].
  destruct (on_fabric (expire_resources_at now) c1) as [o c2]. simpl in Hids, Hmembers. subst o.
  unfold bind at 1.
  assert (preserves same_members (for_each forget_resource ids)) as H2 by (unfold forget_resource; keep).
  specialize (H2 c2). destruct (for_each forget_resource ids c2) as [o c3]. unfold same_members in H2. simpl in H2.
  rewrite <- H2 in Hmembers.
  assert (preserves same_members (rethrow from_fabric (on_fabric (reap_expired_executions_at now));;; ret tt)) as H3 by keep.
  destruct o as [[]|e| |]; try exact Hmembers. specialize (H3 c3). unfold same_members in H3. by rewrite H3.
Qed.

(** ** Runs of the daemon *)

(** The state between events, the last tick having been at [tick]. *)
Record settled (tick : Z) (c : Coord) : Prop := {
  se_held : held_from tick (ledger_of (co_fabric (co_state c)));
  se_members : members_from tick (co_fabric (co_state c));
  se_execution_ttl : 0 ≤ f_execution_ttl_ms (co_fabric (co_state c));
  se_membership_ttl : 0 ≤ f_membership_ttl_ms (co_fabric (co_state c));
}.

Lemma reading_at now c t : now ≤ u64_max → reading (co_world (at_time now c)) t → t = now.
Proof. intros Hmax (w & [k Hw] & ->). unfold now_of. rewrite Hw. simpl. lia. Qed.

(** A member's expiry survives any request that is not a tick. *)
Lemma request_members tick now request c :
  is_tick request = false → tick ≤ now → now ≤ u64_max → settled tick c →
  members_from tick (co_fabric (co_state (handle request (at_time now c)).2)).
Proof.
  intros Hr Htick Hmax [_ Hmembers _ Httl].
  destruct (moves_members request) eqn:Hm.
  - destruct request as [d endpoint|id epoch| | | | | | | | | | | | | | |]; try discriminate Hm; try discriminate Hr; cbn [handle]; rewrite respond_state.
    + unfold handle_register, bind, lift. destruct (normalize_endpoint endpoint); try exact Hmembers.
      assert (tick ≤ now_of (co_world (at_time now c))) as Hnow by (unfold now_of; simpl; lia).
      pose proof (register_from tick d (at_time now c) Httl Hnow Hmembers) as Hreg.
      by destruct (on_fabric _ (at_time now c)) as [[] c'].
    + unfold handle_heartbeat, rethrow.
      assert (tick ≤ now_of (co_world (at_time now c))) as Hnow by (unfold now_of; simpl; lia).
      pose proof (heartbeat_from tick id epoch (at_time now c) Httl Hnow Hmembers) as Hbeat.
      by destruct (on_fabric _ (at_time now c)) as [[] c'].
  - pose proof (members_handle request Hm (at_time now c)) as Hsame. unfold same_members in Hsame.
    unfold members_from. by rewrite Hsame.
Qed.

Lemma settled_step tick now request c :
  0 ≤ now → tick ≤ now → now ≤ u64_max → settled tick c →
  settled (if is_tick request then now else tick) (handle request (at_time now c)).2.
Proof.
  intros Hpos Htick Hmax Hc. pose proof Hc as [Hheld Hmembers Hx Hm].
  pose proof (serves_handle request (at_time now c)) as [_ _ _ Hm' Hx' _].
  pose proof (handle_refines request (at_time now c)) as Hone. unfold refines in Hone.
  assert (held_from tick (ledger_of (co_fabric (co_state (handle request (at_time now c)).2)))) as Hheld'.
  { destruct (handle request (at_time now c)) as [answer c']. destruct Hone as (log & Hrun & Hexplains).
    eapply held_from_log; [exact Hx| |eapply explained_from; [|exact Hexplains]|exact Hrun|exact Hheld]; [lia|].
    intros t ->%reading_at; done. }
  split; [| |simpl in *; congruence|simpl in *; congruence].
  - destruct (is_tick request) eqn:Hr; [|exact Hheld']. destruct request; try discriminate Hr.
    destruct (handle MaintenanceTick (at_time now c)) as [answer c']. destruct Hone as (log & _ & Hexplains).
    simpl in Hexplains. destruct answer; try (destruct Hexplains as [_ Hneg]; lia).
    destruct Hexplains as (t & ->%reading_at & _ & Hall); [|done].
    eapply map_Forall_impl; [exact Hall|]. simpl. intros id [effects phase]. simpl. destruct phase; lia.
  - destruct (is_tick request) eqn:Hr; [|by apply request_members]. destruct request; try discriminate Hr.
    cbn [handle]. rewrite respond_state. pose proof (tick_members (at_time now c) Hpos) as Hall.
    eapply map_Forall_impl; [exact Hall|]. simpl. unfold now_of. simpl. intros id resource. lia.
Qed.

Lemma on_schedule_le gap tick time events now : on_schedule gap tick time events now = true → time ≤ now.
Proof.
  revert tick time. induction events as [|[t request] events IH]; intros tick time; simpl; rewrite ?andb_true_iff, ?Z.leb_le.
  - by intros [].
  - intros [[? _] ?%IH]. lia.
Qed.
Lemma settled_run gap tick time events now c :
  0 ≤ time → tick ≤ time → now ≤ u64_max → on_schedule gap tick time events now = true → settled tick c →
  ∃ tick', now ≤ tick' + gap ∧ settled tick' (run_daemon events c).
Proof.
  intros Htime Htick Hmax. revert tick time c Htime Htick.
  induction events as [|[t request] events IH]; intros tick time c Htime Htick; simpl; rewrite !andb_true_iff, !Z.leb_le.
  - intros [_ Hgap] Hc. by exists tick.
  - intros [[Ht _] Hrest] Hc. pose proof (on_schedule_le _ _ _ _ _ Hrest).
    apply (IH (if is_tick request then t else tick) t); [lia|destruct (is_tick request); lia|done|].
    apply settled_step; [lia..|done].
Qed.
End members.

(** C15 Work of a lost agent comes back in time.  The daemon ticks its coordinator
    once per maintenance period; if a tick is never more than [delay] late, then
    whatever requests are served in between, at every moment no task is still
    held under a lease that ended more than the period and the delay ago, and
    no agent is still a member whose membership ended longer ago than that. *)
Theorem nothing_overstays `{HashOrder} `{UuidCrate} args delay start events now w
    (gap := maintenance_period args + delay)
    (c := run_daemon events (mkCoord (start_coordinator args) w))
    (Hargs : args_ok args) (Hstart : 0 ≤ start) (Hnow : now ≤ u64_max)
    (Hschedule : on_schedule gap start start events now = true) :
  (∀ id record lease, f_tasks (co_fabric (co_state c)) !! id = Some record → tr_status record = Running lease →
     now ≤ el_expires_at_unix_ms lease + gap) ∧
  (∀ id resource, f_resources (co_fabric (co_state c)) !! id = Some resource →
     now ≤ reg_expires_at_unix_ms resource + gap).
Proof.
  subst c. assert (settled start (mkCoord (start_coordinator args) w)) as Hsettled.
  { destruct Hargs as [Hm Hx]. split; [|apply map_Forall_empty|exact Hx|exact Hm].
    unfold held_from, ledger_of. simpl. rewrite fmap_empty. apply map_Forall_empty. }
  destruct (settled_run gap start start events now _ Hstart (Z.le_refl _) Hnow Hschedule Hsettled)
    as (tick & Hgap & [Hheld Hmembers _ _]). split.
  - intros id record lease Ht Hs. specialize (Hheld id (entry_of record)). unfold ledger_of in Hheld.
    rewrite lookup_fmap, Ht in Hheld. unfold entry_of in Hheld. rewrite Hs in Hheld. simpl in Hheld.
    specialize (Hheld ltac:(by rewrite Hs)). lia.
  - intros id resource Hr. specialize (Hmembers id resource Hr). simpl in Hmembers. lia.
Qed.

(** *** Application: an agent that takes a task and is not heard of again *)

#[local] Existing Instances Run.order Run.text.
Definition quick_args : DaemonArgs := mkDaemonArgs "127.0.0.1:8080" 300 300 250.
Definition lost_agent : list (Z * Request) :=
  [(1000, MaintenanceTick); (1001, Run.resource 1); (1002, SubmitTask (Samples.task (Samples.task_id 8) Pure));
   (1003, PollWork (Samples.resource_id 1) 1); (1250, MaintenanceTick); (1500, MaintenanceTick)].
Definition after_loss (events : list (Z * Request)) : Coord :=
  run_daemon events (mkCoord (start_coordinator quick_args) (Samples.world 1000)).

Example lost_agent_held : Run.status (after_loss (take 5 lost_agent)) 8 = Some (Running
  (mkExecutionLease (Samples.task_id 8) (mkId 1000) (Samples.resource_id 1) 1 1303)).
Proof. vm_compute. reflexivity. Qed.
Example lost_agent_requeued : Run.status (after_loss lost_agent) 8 = Some Pending.
Proof. vm_compute. reflexivity. Qed.

Lemma nothing_overstays_witness :
  (∃ record lease, f_tasks (co_fabric (co_state (after_loss (take 5 lost_agent)))) !! Samples.task_id 8 = Some record ∧
     tr_status record = Running lease ∧ 1550 ≤ el_expires_at_unix_ms lease + 300) .
Proof.
  destruct (Run.status_record (after_loss (take 5 lost_agent)) 8
    (Running (mkExecutionLease (Samples.task_id 8) (mkId 1000) (Samples.resource_id 1) 1 1303)))
    as (record & Ht & Hs); [vm_compute; reflexivity|].
  exists record, (mkExecutionLease (Samples.task_id 8) (mkId 1000) (Samples.resource_id 1) 1 1303).
  split_and!; [exact Ht|exact Hs|].
  destruct (nothing_overstays quick_args 50 1000 (take 5 lost_agent) 1550 (Samples.world 1000)) as [Hheld _].
  - split; discriminate.
  - discriminate.
  - discriminate.
  - vm_compute. reflexivity.
  - exact (Hheld _ _ _ Ht Hs).
Defined.
