(* ===== verification/AgentCalls.v ===== *)
(** * What the agent asks of its host and of the network

    The calls of plurifold-agent: files, temporary directories, processes,
    HTTP, sleeping, clocks and random identifiers.  The JSON text of the wire
    types and the display of a status code belong to other crates. *)

From Stdlib Require Import Strings.Byte.
From S2P Require Import Prelude Float64 World Text Program Bytes Files Store Core Coordinator Routes.
Open Scope string_scope.
Open Scope list_scope.
Open Scope Z_scope.

(** The agent's errors are texts; two of them stand for texts that quote input:
    [invalid u64 record {record:?}] and [{kind} exited with {status}: {stderr}]. *)
Inductive AgentError :=
| Message (text : string)
| InvalidRecord (record : string)
| ProcessFailed (kind status : string) (stderr : Bytes).

(** ** Processes ([tokio::process::Command]) *)

Record Command := mkCommand {
  cmd_program : string;
  cmd_args : list string;
  (** set over the inherited environment *)
  cmd_env : gmap string string;
  cmd_current_dir : option Path;
}.
Record ProcessOutput := mkProcessOutput {
  po_success : bool;
  po_status : string;
  po_stdout : Bytes;
  po_stderr : Bytes;
}.

(** ** HTTP ([reqwest]) *)

Inductive HttpRequest :=
| HttpGet (url : string) (range : option string)
| HttpPost (url : string) (body : Request).
Record HttpResponse := mkHttpResponse {
  resp_status : Z;
  resp_headers : gmap string string;
  (** the body, or why it could not be read *)
  resp_body : outcome string Bytes;
}.

(** What [reqwest] makes of a server's answer; none is a closed connection. *)
Definition over_http (answer : option (Z * Bytes)) : outcome string HttpResponse :=
  match answer with
  | Some (status, body) => Ok (mkHttpResponse status ∅ (Ok body))
  | None => Err "connection closed"
  end.

(** [GetLease] and [SetLease] lock the [lease_state] that an execution shares
    with the loop that renews its lease. *)
Inductive AgentCall : Type → Type :=
| OnFiles {R : Type} (c : FsCall R) : AgentCall R
| Canonicalize (path : string) : AgentCall (outcome string Path)
| MakeTempDir : AgentCall (outcome string Path)
| DropTempDir (path : Path) : AgentCall unit
| RunCommand (command : Command) : AgentCall (outcome string ProcessOutput)
| Send (request : HttpRequest) : AgentCall (outcome string HttpResponse)
| Sleep (millis : Z) : AgentCall unit
| RandomUuid : AgentCall Uuid
| GetLease : AgentCall ExecutionLease
| SetLease (lease : ExecutionLease) : AgentCall unit
| SystemTime : AgentCall Z
| MonotonicNanos : AgentCall Z.

(** A program of the agent that may fail. *)
Abbreviation agent A := (prog AgentCall (outcome AgentError A)).

Definition fail {A} (text : string) : agent A := Done (Err (Message text)).
Definition of_outcome {A} (m : outcome AgentError A) : agent A := Done m.
(** [ok_or_else(..)?] *)
Definition require {A} (text : string) (o : option A) : agent A := Done (ok_or (Message text) o).
(** [map_err(|error| error.to_string())?] of a call that answers with a text. *)
Definition ask {A} (c : AgentCall (outcome string A)) : agent A :=
  pbind (call c) (λ m, Done (map_err Message m)).
(** A call that cannot fail. *)
Definition tell {A} (c : AgentCall A) : agent A := pbind (call c) (λ a, Done (Ok a)).

(** The text of errors that come from the operating system. *)
Class ErrorTexts := {
  io_error_to_string : IoError → string;
}.

(** The JSON of the wire types ([serde_json]). *)
Class SerdeJson := {
  partition_to_json : TaskShardPartition → outcome string string;
  register_response_of_json : Bytes → outcome string MembershipLease;
  membership_of_json : Bytes → outcome string MembershipLease;
  execution_of_json : Bytes → outcome string ExecutionLease;
  assignment_of_json : Bytes → outcome string (option WorkAssignment);
  resources_of_json : Bytes → outcome string (list ResourceView);
  error_of_json : Bytes → outcome string string;
}.

(** Only characters a header value may show ([32..126]). *)
Definition visible_ascii (s : string) : bool :=
  forallb (λ a, (32 <=? Ascii.N_of_ascii a)%N && (Ascii.N_of_ascii a <=? 126)%N) (String.list_ascii_of_string s).

(** The [http] crate: the text of a status, and header values, which are their
    text when that is visible ASCII. *)
Class HttpCrate := {
  status_to_string : Z → string;
  header_to_str : string → option string;
  header_from_str : string → option string;
  header_to_str_visible : ∀ s, visible_ascii s = true → header_to_str s = Some s;
  header_from_str_visible : ∀ s, visible_ascii s = true → header_from_str s = Some s;
}.

Section errors.
Context `{ErrorTexts}.

(** [StoreError]'s [Display] *)
Definition store_error_to_string (error : StoreError) : string :=
  match error with
  | Io error => io_error_to_string error
  | UnsupportedDigest digest => "unsupported digest " +:+ digest
  | DigestMismatch expected actual =>
      "object digest mismatch: expected " +:+ expected +:+ ", got " +:+ actual
  end.
(** A file system program, its error turned to text. *)
Definition on_files {A} (p : prog FsCall (outcome IoError A)) : agent A :=
  ptry (λ e, Message (io_error_to_string e)) (translate (λ R, OnFiles) p) (λ a, Done (Ok a)).
Definition on_store {A} (p : prog FsCall (outcome StoreError A)) : agent A :=
  ptry (λ e, Message (store_error_to_string e)) (translate (λ R, OnFiles) p) (λ a, Done (Ok a)).
End errors.

(** An agent without network or processes, for evaluating the definitions. *)
Definition offline : handler AgentCall Host := λ R c host,
  match c in AgentCall R return R * Host with
  | OnFiles c => perform _ c host
  | Canonicalize _ | MakeTempDir => (Err "no such path", host)
  | DropTempDir _ | Sleep _ | SetLease _ => (tt, host)
  | GetLease => (mkExecutionLease (mkId 1) (mkId 2) (mkId 3) 1 0, host)
  | RunCommand _ => (Err "no processes", host)
  | Send _ => (Err "connection refused", host)
  | RandomUuid => (42%N, host)
  | SystemTime => (1000, host)
  | MonotonicNanos => (0, host)
  end.

(** Instances for evaluating the definitions: no JSON is readable. *)
Definition toy_json : SerdeJson :=
  {| partition_to_json _ := Ok "{}";
     register_response_of_json _ := Err "invalid JSON";
     membership_of_json _ := Err "invalid JSON";
     execution_of_json _ := Err "invalid JSON";
     assignment_of_json _ := Err "invalid JSON";
     resources_of_json _ := Err "invalid JSON";
     error_of_json _ := Err "invalid JSON" |}.
Definition toy_errors : ErrorTexts := {| io_error_to_string _ := "I/O error" |}.
Definition toy_http : HttpCrate :=
  {| status_to_string := show; header_to_str := Some; header_from_str := Some;
     header_to_str_visible _ _ := eq_refl; header_from_str_visible _ _ := eq_refl |}.

(** A wire form for examples: the bits of a number. *)
Fixpoint to_wire (p : positive) : Bytes :=
  match p with xH => [] | xO p' => x00 :: to_wire p' | xI p' => x01 :: to_wire p' end.
Fixpoint of_wire (bytes : Bytes) : positive :=
  match bytes with [] => xH | x00 :: bytes' => xO (of_wire bytes') | _ :: bytes' => xI (of_wire bytes') end.
Lemma of_to_wire p : of_wire (to_wire p) = p.
Proof. induction p; simpl; congruence. Qed.
