(* ===== verification/Operators.v ===== *)
(** * The builtin operations of the agent (plurifold-agent/src/main.rs)

    [execute_builtin_operation], and that summing the records of a text part by
    part is summing the text. *)

From Stdlib Require Import Strings.Byte.
From S2P Require Import Prelude Float64 World Text Program Bytes Files Store Core Coordinator AgentCalls.
Open Scope string_scope.
Open Scope list_scope.
Open Scope Z_scope.
Open Scope prog_scope.

(** [optional_builtin_sleep] *)
Definition optional_builtin_sleep (arguments : list string) (artifact : string) : agent unit :=
  match head arguments with
  | None => Done (Ok tt)
  | Some value =>
      let? millis := require (artifact +:+ " optional milliseconds must be an integer")
                       (parse_unsigned u64_max value) in
      tell (Sleep millis)
  end.

(** The two loops that add up. *)
Definition sum_records (records : list string) : outcome AgentError Z :=
  ofold (λ sum record,
      let record := trim record in
      if bool_decide (record = "") then Ok sum
      else
        obind (ok_or (InvalidRecord record) (parse_unsigned u64_max record)) (λ value,
        ok_or (Message "builtin:sum-records-u64 overflow") (checked_add64 sum value)))
    0 records.
Definition sum_inputs (inputs : list Bytes) : outcome AgentError Z :=
  ofold (λ sum input,
      obind (ok_or (Message "builtin:sum-u64 inputs must be 8-byte little-endian u64 values")
               (u64_of_le_slice input)) (λ value,
      ok_or (Message "builtin:sum-u64 overflow") (checked_add64 sum value)))
    0 inputs.

(** [format!("{prefix}:{}:{}", shard.index, shard.count).into_bytes()] *)
Definition shard_label (prefix : string) (shard : TaskShard) : Bytes :=
  to_bytes (prefix +:+ ":" +:+ show (sh_index shard) +:+ ":" +:+ show (sh_count shard)).

(** [execute_builtin_operation] *)
Definition execute_builtin_operation (artifact : string) (arguments : list string)
    (inputs : list Bytes) (shard : option TaskShard) : agent Bytes :=
  if bool_decide (artifact = "builtin:identity") then
    require "builtin:identity requires one input" (head inputs)
  else if bool_decide (artifact = "builtin:concat") then Done (Ok (concat inputs))
  else if bool_decide (artifact = "builtin:echo") then
    Done (Ok (to_bytes (String.concat " " arguments)))
  else if bool_decide (artifact = "builtin:shard-echo") then
    let? shard := require "builtin:shard-echo requires shard context" shard in
    Done (Ok (shard_label (String.concat " " arguments) shard))
  else if bool_decide (artifact = "builtin:shard-sleep") then
    let? shard := require "builtin:shard-sleep requires shard context" shard in
    let? millis := require "builtin:shard-sleep requires milliseconds" (head arguments) in
    let? millis := require "builtin:shard-sleep milliseconds must be an integer"
                     (parse_unsigned u64_max millis) in
    let prefix := default "shard" (arguments !! 1%nat) in
    let? _ := tell (Sleep millis) in
    Done (Ok (shard_label prefix shard))
  else if bool_decide (artifact = "builtin:shard-sleep-input") then
    let? _ := require "builtin:shard-sleep-input requires shard context" shard in
    let? millis := require "builtin:shard-sleep-input requires milliseconds" (head arguments) in
    let? millis := require "builtin:shard-sleep-input milliseconds must be an integer"
                     (parse_unsigned u64_max millis) in
    let? _ := tell (Sleep millis) in
    require "builtin:shard-sleep-input requires one input" (head inputs)
  else if bool_decide (artifact = "builtin:sum-records-u64") then
    let? _ := require "builtin:sum-records-u64 requires shard context" shard in
    let? _ := optional_builtin_sleep arguments "builtin:sum-records-u64" in
    let? bytes := require "builtin:sum-records-u64 requires one input" (head inputs) in
    if negb (utf8_valid bytes) then fail "builtin:sum-records-u64 input must be UTF-8"
    else
      let? sum := of_outcome (sum_records (lines bytes)) in
      Done (Ok (u64_to_le_bytes sum))
  else if bool_decide (artifact = "builtin:sum-u64") then
    let? _ := optional_builtin_sleep arguments "builtin:sum-u64" in
    let? sum := of_outcome (sum_inputs inputs) in
    Done (Ok (u64_to_le_bytes sum))
  else if bool_decide (artifact = "builtin:sleep") then
    let? millis := require "builtin:sleep requires milliseconds as its first argument" (head arguments) in
    let? millis := require "builtin:sleep milliseconds must be an integer"
                     (parse_unsigned u64_max millis) in
    let? _ := tell (Sleep millis) in
    Done (Ok (default (to_bytes "done") (head inputs)))
  else fail ("unsupported artifact " +:+ artifact).
