(* ===== verification/MapReduce.v ===== *)
(** * Sharded sums

    What auto-sharding, the record-summing operator and a tree of reducers
    compute together: the sum the operator computes on the whole input. *)

From Stdlib Require Import Strings.Byte.
From S2P Require Import Prelude Float64 World Text Program Bytes Files Store Core Samples Scheduler Partition Coordinator AgentCalls Operators.
Open Scope string_scope.
Open Scope list_scope.
Open Scope Z_scope.

(** ** Sums with an overflow check *)

Section checked_sums.
Context {A : Type} (f : Z → A → outcome AgentError Z) (value : A → option Z).
Context (Hf : ∀ acc a r, is_u64 acc →
  f acc a = Ok r ↔ ∃ x, value a = Some x ∧ 0 ≤ x ∧ r = acc + x ∧ r ≤ u64_max).

Lemma checked_sum_Ok l acc r : is_u64 acc →
  ofold f acc l = Ok r ↔
  ∃ xs, mapM value l = Some xs ∧ Forall (λ x, 0 ≤ x) xs ∧ r = acc + sum_Z xs ∧ r ≤ u64_max.
Proof.
  revert acc. induction l as [|a l IH]; intros acc Hacc; simpl.
  - split; [intros [= <-]; exists []; split_and!; simpl; [done|done|lia|apply Hacc]|].
    intros (xs & [= <-] & _ & -> & _). simpl. by rewrite Z.add_0_r.
  - rewrite obind_Ok. split.
    + intros (acc' & (x & Hx & Hpos & -> & Hmax)%Hf & Hl); [|done].
      apply IH in Hl as (xs & Hxs & Hall & -> & Hle); [|destruct Hacc; unfold is_u64; lia].
      exists (x :: xs). rewrite Hx, Hxs. split_and!; [done|by constructor|simpl; lia|lia].
    + intros (xs & Hxs & Hall & -> & Hle). destruct (value a) as [x|] eqn:Hx; [|done]. simpl in Hxs.
      destruct (mapM value l) as [ys|] eqn:Hys; [|done]. simpl in Hxs. injection Hxs as <-.
      apply Forall_cons in Hall as [Hpos Hall].
      assert (0 ≤ sum_Z ys) by (clear -Hall; induction Hall; simpl; lia). simpl in *.
      exists (acc + x). split; [apply Hf; [done|]; exists x; split_and!; [done..|lia]|].
      apply IH; [destruct Hacc; unfold is_u64; lia|]. exists ys. split_and!; [done..|lia|lia].
Qed.
End checked_sums.

(** What a record adds: nothing when blank. *)
Definition record_value (record : string) : option Z :=
  if bool_decide (trim record = "") then Some 0 else parse_unsigned u64_max (trim record).

Lemma ok_or_Ok {E A} (e : E) (o : option A) a : ok_or e o = Ok a ↔ o = Some a.
Proof. destruct o; naive_solver. Qed.

Lemma sum_records_Ok records r :
  sum_records records = Ok r ↔
  ∃ xs, mapM record_value records = Some xs ∧ Forall (λ x, 0 ≤ x) xs ∧ r = sum_Z xs ∧ r ≤ u64_max.
Proof.
  unfold sum_records. rewrite (checked_sum_Ok _ record_value); [done| |unfold is_u64, u64_max; lia].
  intros acc record s Hacc. unfold record_value. case_bool_decide.
  - split; [intros [= ->]; exists 0; destruct Hacc; split_and!; [done|lia..]|].
    intros (x & [= <-] & _ & -> & _). by rewrite Z.add_0_r.
  - rewrite obind_Ok. setoid_rewrite ok_or_Ok. setoid_rewrite checked_add64_Some. split.
    + intros (x & Hx & -> & Hle). exists x. pose proof (parse_unsigned_range _ _ _ Hx). split_and!; [done|lia|done..].
    + intros (x & Hx & _ & -> & Hle). by exists x.
Qed.
Lemma sum_inputs_Ok inputs r :
  sum_inputs inputs = Ok r ↔
  ∃ xs, mapM u64_of_le_slice inputs = Some xs ∧ Forall (λ x, 0 ≤ x) xs ∧ r = sum_Z xs ∧ r ≤ u64_max.
Proof.
  unfold sum_inputs. rewrite (checked_sum_Ok _ u64_of_le_slice); [done| |unfold is_u64, u64_max; lia].
  intros acc input s Hacc. rewrite obind_Ok. setoid_rewrite ok_or_Ok. setoid_rewrite checked_add64_Some. split.
  - intros (x & Hx & -> & Hle). exists x. pose proof (u64_of_le_slice_range _ _ Hx) as [??]. by split_and!.
  - intros (x & Hx & _ & -> & Hle). by exists x.
Qed.

(** ** Sums group by group *)

Lemma sum_Z_app l k : sum_Z (l ++ k) = sum_Z l + sum_Z k.
Proof. unfold sum_Z. induction l; simpl; lia. Qed.
Lemma sum_Z_nonneg l : Forall (λ x, 0 ≤ x) l → 0 ≤ sum_Z l.
Proof. unfold sum_Z. induction 1; simpl; lia. Qed.

(** The values of a list of lists, list by list. *)
Lemma mapM_append {A B} (f : A → option B) l k xs :
  mapM f (l ++ k) = Some xs ↔ ∃ ys zs, mapM f l = Some ys ∧ mapM f k = Some zs ∧ xs = ys ++ zs.
Proof.
  setoid_rewrite mapM_Some. rewrite Forall2_app_inv_l. naive_solver.
Qed.
Lemma mapM_concat {A B} (f : A → option B) (ls : list (list A)) xs :
  mapM f (concat ls) = Some xs ↔ ∃ xss, mapM (mapM f) ls = Some xss ∧ xs = concat xss.
Proof.
  revert xs. induction ls as [|l ls IH]; intros xs; simpl.
  - split; [intros [= <-]; by exists []|]. by intros (xss & [= <-] & ->).
  - rewrite mapM_append. split.
    + intros (ys & zs & Hys & (zss & Hzss & ->)%IH & ->). exists (ys :: zss). by rewrite Hys, Hzss.
    + intros (xss & (ys & Hys & (zss & Hzss & [= <-])%bind_Some)%bind_Some & ->).
      exists ys, (concat zss). split_and!; [done|by apply IH; exists zss|done].
Qed.

Section grouped.
Context {A : Type} (value : A → option Z) (total : list A → outcome AgentError Z).
Context (Htotal : ∀ l r, total l = Ok r ↔
  ∃ xs, mapM value l = Some xs ∧ Forall (λ x, 0 ≤ x) xs ∧ r = sum_Z xs ∧ r ≤ u64_max).

Lemma grouped_sums ls r :
  total (concat ls) = Ok r ↔
  ∃ rs, Forall2 (λ l x, total l = Ok x) ls rs ∧ r = sum_Z rs ∧ r ≤ u64_max.
Proof.
  rewrite Htotal. setoid_rewrite mapM_concat. split.
  - intros (xs & (xss & Hxss & ->) & Hpos & -> & Hmax). exists (sum_Z <$> xss).
    assert (sum_Z (concat xss) = sum_Z (sum_Z <$> xss)) as Hsum.
    { clear. induction xss as [|xs xss IH]; [done|]. csimpl. by rewrite sum_Z_app, IH. }
    split_and!; [|done|done]. apply mapM_Some in Hxss. clear Hsum.
    induction Hxss as [|l xs ls xss Hl Hls IH]; csimpl; [constructor|].
    simpl in *. apply Forall_app in Hpos as [Hpos Hrest]. rewrite sum_Z_app in Hmax.
    pose proof (sum_Z_nonneg _ Hpos). pose proof (sum_Z_nonneg _ Hrest).
    constructor; [apply Htotal; exists xs; split_and!; [done..|lia]|apply IH; [done|lia]].
  - intros (rs & Hrs & -> & Hmax). revert Hmax. induction Hrs as [|l x ls rs Hl Hls IH]; intros Hmax.
    { exists []. split_and!; [by exists []|done|done|done]. }
    apply Htotal in Hl as (xs & Hxs & Hpos & -> & Hx). simpl in Hmax.
    assert (0 ≤ sum_Z rs).
    { apply sum_Z_nonneg. clear -Hls Htotal. induction Hls as [|l x ls rs Hl]; constructor; [|done].
      apply Htotal in Hl as (ys & _ & ? & -> & _). by apply sum_Z_nonneg. }
    pose proof (sum_Z_nonneg _ Hpos).
    destruct IH as (ys & (xss & Hxss & ->) & Hpos' & Hsum & _); [lia|].
    exists (concat (xs :: xss)). split_and!.
    + exists (xs :: xss). simpl. by rewrite Hxs, Hxss.
    + simpl. by apply Forall_app.
    + simpl. rewrite sum_Z_app. lia.
    + simpl. lia.
Qed.

End grouped.

(** ** What the two operators compute *)

(** The first argument, if any, is a number of milliseconds. *)
Definition sleep_argument_ok (arguments : list string) : Prop :=
  match head arguments with Some value => is_Some (parse_unsigned u64_max value) | None => True end.

Section operators.
Context {S : Type} (h : handler AgentCall S) (s : S).

(** The operation returns [output]. *)
Definition computes (artifact : string) (arguments : list string) (inputs : list Bytes)
    (shard : option TaskShard) (output : Bytes) : Prop :=
  (run h (execute_builtin_operation artifact arguments inputs shard) s).1 = Ok output.

Lemma run_optional_sleep arguments artifact (s0 : S) :
  (sleep_argument_ok arguments → ∃ s1, run h (optional_builtin_sleep arguments artifact) s0 = (Ok tt, s1)) ∧
  (∀ s1, run h (optional_builtin_sleep arguments artifact) s0 = (Ok tt, s1) → sleep_argument_ok arguments).
Proof.
  unfold optional_builtin_sleep, sleep_argument_ok, tell. destruct (head arguments) as [value|]; [|by eauto].
  destruct (parse_unsigned u64_max value) as [millis|]; simpl.
  - destruct (h _ (Sleep millis) s0) as [[] s1]. eauto.
  - split; [by intros []|done].
Qed.

(** Sleep, if told to, and return. *)
Lemma run_after_sleep {A} arguments artifact (k : unit → agent A) (m : outcome AgentError A) a :
  k tt = Done m →
  ((run h (ptry id (optional_builtin_sleep arguments artifact) k) s).1 = Ok a ↔
   sleep_argument_ok arguments ∧ m = Ok a).
Proof.
  intros Hk. rewrite run_ptry. destruct (run_optional_sleep arguments artifact s) as [Hok Hok'].
  destruct (run h (optional_builtin_sleep arguments artifact) s) as [[[]|e| |] s1]; simpl.
  - rewrite Hk. simpl. specialize (Hok' _ eq_refl). naive_solver.
  - split; [done|]. intros [Ha _]. by destruct (Hok Ha).
  - split; [done|]. intros [Ha _]. by destruct (Hok Ha).
  - split; [done|]. intros [Ha _]. by destruct (Hok Ha).
Qed.

Lemma computes_sum_records arguments text rest shard output :
  computes "builtin:sum-records-u64" arguments (text :: rest) (Some shard) output ↔
  sleep_argument_ok arguments ∧ utf8_valid text = true ∧
  ∃ sum, sum_records (lines text) = Ok sum ∧ output = u64_to_le_bytes sum.
Proof.
  unfold computes, execute_builtin_operation. rewrite !bool_decide_eq_false_2 by done.
  rewrite bool_decide_eq_true_2 by done.
  change (require _ (Some shard)) with (Done (E:=AgentCall) (Ok (E:=AgentError) shard)).
  set (m := if negb (utf8_valid text) then Err (Message "builtin:sum-records-u64 input must be UTF-8")
            else obind (sum_records (lines text)) (λ sum, Ok (u64_to_le_bytes sum))).
  etrans; [apply (run_after_sleep arguments _ _ m)|].
  - unfold m, of_outcome. cbn. destruct (utf8_valid text); [|done]. by destruct (sum_records _).
  - unfold m. destruct (utf8_valid text); simpl; [|naive_solver]. rewrite obind_Ok. naive_solver.
Qed.

Lemma computes_sum arguments inputs shard output :
  computes "builtin:sum-u64" arguments inputs shard output ↔
  sleep_argument_ok arguments ∧ ∃ sum, sum_inputs inputs = Ok sum ∧ output = u64_to_le_bytes sum.
Proof.
  unfold computes, execute_builtin_operation. rewrite !bool_decide_eq_false_2 by done.
  rewrite bool_decide_eq_true_2 by done.
  etrans; [apply (run_after_sleep arguments _ _ (obind (sum_inputs inputs) (λ sum, Ok (u64_to_le_bytes sum))))|].
  - unfold of_outcome. cbn. by destruct (sum_inputs _).
  - rewrite obind_Ok. naive_solver.
Qed.

(** ** Texts cut at line ends *)

(** Every piece but the last is made of whole lines. *)
Definition cut_at_lines (pieces : list Bytes) : Prop := Forall whole_lines (removelast pieces).

Lemma cut_at_lines_cons piece pieces :
  cut_at_lines (piece :: pieces) → cut_at_lines pieces ∧ (pieces = [] ∨ whole_lines piece).
Proof.
  unfold cut_at_lines. destruct pieces as [|p ps]; [by auto|]. intros [? ?]%Forall_cons. auto.
Qed.
Lemma utf8_valid_pieces pieces :
  cut_at_lines pieces → utf8_valid (concat pieces) = true ↔ Forall (λ p, utf8_valid p = true) pieces.
Proof.
  induction pieces as [|p ps IH]; intros Hcut; simpl; [by split|].
  apply cut_at_lines_cons in Hcut as [Hcut [->|Hp]]; rewrite Forall_cons.
  - simpl. rewrite app_nil_r. naive_solver.
  - rewrite utf8_valid_app, andb_true_iff, IH by done. done.
Qed.
Lemma lines_pieces pieces : cut_at_lines pieces → lines (concat pieces) = concat (lines <$> pieces).
Proof.
  induction pieces as [|p ps IH]; intros Hcut; simpl; [done|].
  apply cut_at_lines_cons in Hcut as [Hcut [->|Hp]]; csimpl.
  - by rewrite !app_nil_r.
  - by rewrite lines_app, IH.
Qed.

Lemma sum_records_range l r : sum_records l = Ok r → is_u64 r.
Proof. intros (xs & _ & Hpos & -> & Hmax)%sum_records_Ok. split; [by apply sum_Z_nonneg|done]. Qed.

Lemma sum_inputs_range l r : sum_inputs l = Ok r → is_u64 r.
Proof. intros (xs & _ & Hpos & -> & Hmax)%sum_inputs_Ok. split; [by apply sum_Z_nonneg|done]. Qed.
Lemma sum_inputs_le_bytes rs r :
  Forall is_u64 rs → sum_inputs (u64_to_le_bytes <$> rs) = Ok r ↔ r = sum_Z rs ∧ r ≤ u64_max.
Proof.
  intros Hrs. rewrite sum_inputs_Ok.
  assert (mapM u64_of_le_slice (u64_to_le_bytes <$> rs) = Some rs) as ->.
  { apply mapM_Some. induction Hrs; csimpl; constructor; [by apply u64_le_roundtrip|done]. }
  split; [intros (xs & [= <-] & _ & ? & ?); done|]. intros [-> Hmax]. exists rs. split_and!; [done| |done|done].
  eapply Forall_impl; [exact Hrs|]. by intros ? [].
Qed.

(** The sum over a text is the sum of the sums over its pieces. *)
Lemma computes_pieces arguments reduce_arguments shard pieces (shards : list TaskShard) output :
  sleep_argument_ok arguments → sleep_argument_ok reduce_arguments → cut_at_lines pieces →
  length shards = length pieces →
  computes "builtin:sum-records-u64" arguments [concat pieces] (Some shard) output ↔
  ∃ outputs,
    Forall2 (λ '(piece, shard) output, computes "builtin:sum-records-u64" arguments [piece] (Some shard) output)
      (zip pieces shards) outputs ∧
    computes "builtin:sum-u64" reduce_arguments outputs None output.
Proof.
  intros Hargs Hreduce Hcut Hlen. rewrite computes_sum_records, utf8_valid_pieces, lines_pieces by done.
  setoid_rewrite computes_sum. setoid_rewrite (grouped_sums _ _ sum_records_Ok). split.
  - intros (_ & Hutf & sum & (rs & Hrs & -> & Hmax) & ->). exists (u64_to_le_bytes <$> rs).
    assert (Forall is_u64 rs) as Hr.
    { eapply Forall2_Forall_r_of; [exact Hrs|]. intros ? ? _. apply sum_records_range. }
    split; [|split; [done|]; exists (sum_Z rs); split; [by apply sum_inputs_le_bytes|done]].
    clear -Hrs Hutf Hargs Hlen. apply Forall2_fmap_l in Hrs. revert shards Hlen.
    induction Hrs as [|piece r pieces rs Hp Hps IH]; intros [|sh shards] Hlen; try done; csimpl; constructor.
    + apply computes_sum_records. apply Forall_cons in Hutf as [? _]. eauto.
    + apply Forall_cons in Hutf as [_ ?]. apply IH; [done|]. simpl in Hlen. lia.
  - intros (outputs & Houts & _ & sum & Hsum & ->). split; [done|].
    assert (Forall (λ p, utf8_valid p = true) pieces ∧
            ∃ rs, outputs = u64_to_le_bytes <$> rs ∧ Forall2 (λ l x, sum_records l = Ok x) (lines <$> pieces) rs)
      as (Hutf & rs & -> & Hrs).
    { clear -Houts Hlen. revert shards outputs Hlen Houts.
      induction pieces as [|piece pieces IH]; intros [|sh shards] outputs Hlen Houts; try done; csimpl in *.
      - apply Forall2_nil_inv_l in Houts as ->. split; [done|]. exists []. by split; [|constructor].
      - apply Forall2_cons_inv_l in Houts as (o & os & Ho & Hos & ->).
        apply computes_sum_records in Ho as (_ & Hv & r & Hr & ->).
        destruct (IH shards os) as (Hutf & rs & -> & Hrs); [simpl in Hlen; lia|done|].
        split; [by constructor|]. exists (r :: rs). by split; [|constructor]. }
    split; [done|].
    assert (Forall is_u64 rs) as Hr.
    { eapply Forall2_Forall_r_of; [exact Hrs|]. intros ? ? _. apply sum_records_range. }
    apply sum_inputs_le_bytes in Hsum as [-> Hmax]; [|done]. exists (sum_Z rs). eauto.
Qed.
End operators.

(** ** Pieces of a text *)

(** A line of [text] starts at byte [offset]. *)
Definition line_start (text : Bytes) (offset : Z) : Prop :=
  offset = 0 ∨ text !! Z.to_nat (offset - 1) = Some newline.

Lemma sub_bytes_whole_lines text start len :
  0 ≤ start → 0 ≤ len → line_start text (start + len) → whole_lines (sub_bytes text (start, len)).
Proof.
  intros Hstart Hlen Hline. unfold sub_bytes. simpl. destruct (decide (len = 0)) as [->|Hne]; [by left|].
  destruct Hline as [?|Hline]; [lia|]. right. exists (take (Z.to_nat (len - 1)) (drop (Z.to_nat start) text)).
  replace (Z.to_nat len) with (S (Z.to_nat (len - 1))) by lia. apply take_S_r.
  rewrite lookup_drop. rewrite <- Hline. f_equal. lia.
Qed.

Lemma tiles_cut_at_lines text lo ranges :
  tiles lo (Z.of_nat (length text)) ranges → 0 ≤ lo → Forall (λ r, line_start text r.1) ranges →
  concat (sub_bytes text <$> ranges) = drop (Z.to_nat lo) text ∧ cut_at_lines (sub_bytes text <$> ranges).
Proof.
  revert lo. induction ranges as [|[start len] ranges IH]; intros lo; csimpl.
  { intros -> _ _. rewrite Nat2Z.id, drop_all. by split; [|constructor]. }
  intros (-> & Hlen & Htiles) Hlo [_ Hstarts]%Forall_cons.
  destruct (IH _ Htiles ltac:(lia) Hstarts) as [Hconcat Hcut]. split.
  - rewrite Hconcat. unfold sub_bytes. simpl. rewrite <- (take_drop (Z.to_nat len) (drop (Z.to_nat lo) text)) at 2.
    f_equal. rewrite drop_drop. f_equal. lia.
  - unfold cut_at_lines in *. destruct ranges as [|[next len'] ranges]; [constructor|].
    change (Forall whole_lines (sub_bytes text (lo, len) :: removelast (sub_bytes text <$> (next, len') :: ranges))).
    constructor; [|done]. apply sub_bytes_whole_lines; [done..|].
    simpl in Htiles. destruct Htiles as [<- _]. by apply Forall_cons in Hstarts as [? _].
Qed.

(** The concrete partitions of an object's records start at record offsets, and
    tile it. *)
Lemma record_partitions template input offsets objects object units count ps :
  splittable template (SpecRecords input offsets) objects object units → 0 < count ≤ u32_max →
  Forall2 (λ i p, concrete_partition template (SpecRecords input offsets) i count objects = Ok p)
    (seqZ 0 count) ps →
  tiles 0 (om_size_bytes object) (byte_range <$> ps) ∧
  Forall (λ p, (byte_range p).1 ∈ offsets ∧ (byte_range p).1 < om_size_bytes object) ps.
Proof.
  intros Hsplit Hcount Hps. pose proof (splittable_units _ _ _ _ _ Hsplit) as Hu.
  destruct (children_exist _ _ _ _ _ _ Hsplit Hcount) as [ps' Hps'].
  assert (ps = ps') as <-.
  { clear -Hps Hps'. revert ps' Hps'.
    induction Hps as [|i p l ps Hp _ IH]; intros ps' Hps'; [by apply Forall2_nil_inv_l in Hps' as ->|].
    apply Forall2_cons_inv_l in Hps' as (p' & ps2 & [Hp' _] & Hrest & ->).
    f_equal; [congruence|by apply IH]. }
  destruct (byte_cut_ends _ _ _ _ _ _ Hsplit Hcount) as [H0 Hn]. split.
  - rewrite (Forall2_fmap_eq _ (cut_range (λ i, unit_offset (SpecRecords input offsets) (cut_point units count i)))
      (seqZ 0 count)).
    + apply tiles_seqZ; [done..|lia|]. intros. by eapply byte_cut_mono.
    + eapply Forall2_impl; [exact Hps'|]. by intros ?? (_ & _ & ? & _).
  - eapply Forall2_Forall_r_of; [exact Hps'|]. intros i p Hi%elem_of_seqZ (_ & _ & -> & _).
    unfold cut_range. cbn [fst]. destruct Hsplit as (? & _ & _ & _ & _ & Hv & ->).
    pose proof (cut_point_bounds _ count Hu Hcount i ltac:(lia)).
    assert (cut_point (Z.of_nat (length offsets) - 1) count i < Z.of_nat (length offsets) - 1) as Hlt.
    { pose proof (proj1 (valid_record_offsets_spec _ _) Hv) as (? & _).
      unfold cut_point. apply Z.div_lt_upper_bound; nia. }
    split.
    + eapply list_elem_of_lookup_2, unit_offset_lookup. lia.
    + rewrite <- (proj2 (unit_offset_ends _ _ Hv)). apply (unit_offset_lt _ _ Hv); lia.
Qed.

(** C25 Sharding, summing and reducing is summing: when an object is a text and
    the record offsets of an auto-sharded role are starts of its lines, then
    for every shard count the operator's result on the whole text is the
    reducer's on the shards' results; and one side fails (by overflow, a record
    that is no number, invalid UTF-8) exactly when the other does. *)
Theorem sharded_record_sum {S} (h : handler AgentCall S) (s : S) template input offsets objects object units
    count ps text arguments reduce_arguments shard output
    (Hsplit : splittable template (SpecRecords input offsets) objects object units)
    (Hcount : 0 < count ≤ u32_max)
    (Htext : Z.of_nat (length text) = om_size_bytes object)
    (Hlines : ∀ offset, offset ∈ offsets → offset < om_size_bytes object → line_start text offset)
    (Hps : Forall2 (λ i p, concrete_partition template (SpecRecords input offsets) i count objects = Ok p)
             (seqZ 0 count) ps)
    (Hargs : sleep_argument_ok arguments) (Hreduce : sleep_argument_ok reduce_arguments) :
  computes h s "builtin:sum-records-u64" arguments [text] (Some shard) output ↔
  ∃ outputs,
    Forall2 (λ '(piece, shard) output, computes h s "builtin:sum-records-u64" arguments [piece] (Some shard) output)
      (zip ((λ p, sub_bytes text (byte_range p)) <$> ps)
           (zip_with (λ i p, mkTaskShard i count (Some p)) (seqZ 0 count) ps)) outputs ∧
    computes h s "builtin:sum-u64" reduce_arguments outputs None output.
Proof.
  destruct (record_partitions _ _ _ _ _ _ _ _ Hsplit Hcount Hps) as [Htiles Hstarts].
  destruct (tiles_cut_at_lines text 0 (byte_range <$> ps)) as [Hconcat Hcut].
  - by rewrite Htext.
  - done.
  - apply Forall_fmap. eapply Forall_impl; [exact Hstarts|]. intros p [Hin Hlt]. by apply Hlines.
  - rewrite <- list_fmap_compose in Hconcat, Hcut. rewrite <- (drop_0 text) at 1.
    change 0%nat with (Z.to_nat 0). rewrite <- Hconcat. apply computes_pieces; [done..|].
    rewrite length_zip_with, length_fmap, (Forall2_length _ _ _ Hps). lia.
Qed.

(** A tree of reducers computes what one reducer would: however the inputs
    are grouped, in order, reducing each group and then the results gives the
    bytes of reducing all of them, and overflows exactly when that does. *)
Theorem reduction_tree {S} (h : handler AgentCall S) (s : S) arguments groups output
    (Hargs : sleep_argument_ok arguments) :
  computes h s "builtin:sum-u64" arguments (concat groups) None output ↔
  ∃ partials,
    Forall2 (λ group partial, computes h s "builtin:sum-u64" arguments group None partial) groups partials ∧
    computes h s "builtin:sum-u64" arguments partials None output.
Proof.
  rewrite computes_sum. setoid_rewrite (grouped_sums _ _ sum_inputs_Ok). split.
  - intros (_ & sum & (rs & Hrs & -> & Hmax) & ->). exists (u64_to_le_bytes <$> rs).
    assert (Forall is_u64 rs) as Hr.
    { eapply Forall2_Forall_r_of; [exact Hrs|]. intros ? ? _. apply sum_inputs_range. }
    split; [|apply computes_sum; split; [done|]; exists (sum_Z rs); split; [by apply sum_inputs_le_bytes|done]].
    apply Forall2_fmap_r. eapply Forall2_impl; [exact Hrs|]. intros g r Hg. apply computes_sum. split; [done|by exists r].
  - intros (partials & Hpartials & (_ & sum & Hsum & ->)%computes_sum). split; [done|].
    assert (∃ rs, partials = u64_to_le_bytes <$> rs ∧ Forall2 (λ l x, sum_inputs l = Ok x) groups rs)
      as (rs & -> & Hrs).
    { clear -Hpartials. induction Hpartials as [|g p groups partials Hp _ (rs & -> & Hrs)]; [by exists []|].
      apply computes_sum in Hp as (_ & r & Hr & ->). exists (r :: rs). by split; [|constructor]. }
    assert (Forall is_u64 rs) as Hr.
    { eapply Forall2_Forall_r_of; [exact Hrs|]. intros ? ? _. apply sum_inputs_range. }
    apply sum_inputs_le_bytes in Hsum as [-> Hmax]; [|done]. exists (sum_Z rs). eauto.
Qed.

(** ** Examples *)

(** Four records on twelve bytes, one of them blank, cut in two shards. *)
Definition sample_text : Bytes :=
  to_bytes "1" ++ [newline] ++ to_bytes "20000" ++ [newline; newline] ++ to_bytes "42" ++ [newline].
Definition sample_partitions : list TaskShardPartition := [Records 0 0 2 4 0 8 12; Records 0 2 2 4 8 4 12].

Lemma sharded_record_sum_witness :
  ∃ outputs,
    Forall2 (λ '(piece, shard) output,
        computes offline sample_host "builtin:sum-records-u64" [] [piece] (Some shard) output)
      (zip ((λ p, sub_bytes sample_text (byte_range p)) <$> sample_partitions)
           (zip_with (λ i p, mkTaskShard i 2 (Some p)) (seqZ 0 2) sample_partitions)) outputs ∧
    computes offline sample_host "builtin:sum-u64" ["5"] outputs None (u64_to_le_bytes 20043).
Proof.
  apply (sharded_record_sum offline sample_host Samples.one_input 0 [0; 2; 8; 9; 12] (Samples.one_object 12)
    (Samples.object (Samples.object_id 1) 12 [Samples.resource_id 1]) 4 2 sample_partitions sample_text
    [] ["5"] (mkTaskShard 0 1 None) (u64_to_le_bytes 20043)).
  - apply sample_splittable.
  - unfold u32_max. lia.
  - reflexivity.
  - intros offset Hin Hlt. rewrite !elem_of_cons, elem_of_nil in Hin.
    destruct Hin as [->|[->|[->|[->|[->|[]]]]]]; [by left|by right..|]. simpl in Hlt. lia.
  - repeat constructor; vm_compute; reflexivity.
  - exact I.
  - vm_compute. by eexists.
  - vm_compute. reflexivity.
Defined.

Lemma reduction_tree_witness :
  ∃ partials,
    Forall2 (λ group partial, computes offline sample_host "builtin:sum-u64" [] group None partial)
      [[u64_to_le_bytes 1; u64_to_le_bytes 2]; [u64_to_le_bytes 300]] partials ∧
    computes offline sample_host "builtin:sum-u64" [] partials None (u64_to_le_bytes 303).
Proof.
  apply (reduction_tree offline sample_host []
    [[u64_to_le_bytes 1; u64_to_le_bytes 2]; [u64_to_le_bytes 300]] (u64_to_le_bytes 303)); [exact I|].
  vm_compute. reflexivity.
Defined.
