(* ===== verification/Executor.v ===== *)
(** * External executors (plurifold-agent/src/executor.rs)

    Native and WASI artifacts: the policy that allows them, the process each
    one becomes, and the detection of accelerators. *)

From Stdlib Require Import Strings.Byte.
From S2P Require Import Prelude Float64 World Text Program Bytes Files Store Core Coordinator AgentCalls.
Open Scope string_scope.
Open Scope list_scope.
Open Scope Z_scope.
Open Scope prog_scope.

(** ** Paths *)

(** [Path::display] of a path whose components are [path]; an absolute one
    starts with the component ["/"]. *)
Definition path_to_string (path : Path) : string :=
  match path with
  | root :: rest => if bool_decide (root = "/") then "/" +:+ String.concat "/" rest
                    else String.concat "/" path
  | [] => ""
  end.
(** [Path::is_absolute] *)
Definition is_absolute (path : string) : bool := starts_with "/" path.
(** [Path::starts_with] compares whole components. *)
Definition path_starts_with (path root : Path) : bool := bool_decide (root `prefix_of` path).

(** [Ord] of [PathBuf]: component by component, bytewise. *)
Fixpoint path_leb (p q : Path) : bool :=
  match p, q with
  | [], _ => true
  | _ :: _, [] => false
  | a :: p', b :: q' =>
      match String.compare a b with Lt => true | Gt => false | Eq => path_leb p' q' end
  end.
(** [Vec::sort] *)
Fixpoint path_insert (p : Path) (l : list Path) : list Path :=
  match l with
  | [] => [p]
  | q :: l' => if path_leb p q then p :: l else q :: path_insert p l'
  end.
Definition path_sort (l : list Path) : list Path := foldr path_insert [] l.
(** [Vec::dedup] *)
Fixpoint dedup (l : list Path) : list Path :=
  match l with
  | p :: (q :: _) as l' => if bool_decide (p = q) then dedup l' else p :: dedup l'
  | _ => l
  end.

(** ** The policy *)

Record ExecutorPolicy := mkExecutorPolicy {
  ep_roots : list Path;
  ep_wasmtime : option string;
}.
(** [ExecutorPolicy::default()] *)
Definition ExecutorPolicy_default : ExecutorPolicy := mkExecutorPolicy [] None.

Definition native_enabled (self : ExecutorPolicy) : bool := negb (bool_decide (ep_roots self = [])).
Definition wasi_enabled (self : ExecutorPolicy) : bool :=
  native_enabled self && bool_decide (is_Some (ep_wasmtime self)).

Definition plain_command (program : string) (args : list string) : Command := mkCommand program args ∅ None.

(** [command_exists]: the program can be started. *)
Definition command_exists (program : string) : prog AgentCall bool :=
  let* started := call (RunCommand (plain_command program ["--version"])) in
  Done (match started with Ok _ => true | _ => false end).

Fixpoint canonical_roots (roots : list string) : agent (list Path) :=
  match roots with
  | [] => Done (Ok [])
  | root :: roots' =>
      let* resolved := call (Canonicalize root) in
      let? canonical := of_outcome
        (map_err (λ error, Message ("cannot canonicalize exec root " +:+ root +:+ ": " +:+ error)) resolved) in
      let* directory := call (OnFiles (IsDir canonical)) in
      if negb directory then fail ("exec root " +:+ path_to_string canonical +:+ " is not a directory")
      else
        let? rest := canonical_roots roots' in
        Done (Ok (canonical :: rest))
  end.

(** [ExecutorPolicy::new] *)
Definition ExecutorPolicy_new (roots : list string) (enable_wasi : bool) (wasmtime : string) :
    agent ExecutorPolicy :=
  let? canonical := canonical_roots roots in
  let sorted := dedup (path_sort canonical) in
  if enable_wasi then
    let* exists_ := command_exists wasmtime in
    if negb exists_ then fail "--enable-wasi was set but wasmtime is not executable"
    else Done (Ok (mkExecutorPolicy sorted (Some wasmtime)))
  else Done (Ok (mkExecutorPolicy sorted None)).

(** [ExecutorPolicy::authorize_artifact] *)
Definition authorize_artifact (self : ExecutorPolicy) (path : string) : agent Path :=
  if negb (is_absolute path) then fail ("external artifact path must be absolute, got " +:+ path)
  else
    let* resolved := call (Canonicalize path) in
    let? canonical := of_outcome
      (map_err (λ error, Message ("cannot resolve artifact " +:+ path +:+ ": " +:+ error)) resolved) in
    if negb (existsb (path_starts_with canonical) (ep_roots self))
    then fail ("artifact " +:+ path_to_string canonical +:+ " is outside configured exec roots")
    else
      let* file := call (OnFiles (IsFile canonical)) in
      if negb file then fail ("artifact " +:+ path_to_string canonical +:+ " is not a file")
      else Done (Ok canonical).

(** ** Environment of a task *)

Definition input_name (index : nat) : string := "input-" +:+ show_nat index.
Definition input_variable (index : nat) : string := "PLURIFOLD_INPUT_" +:+ show_nat index.

Section executors.
Context `{SerdeJson} `{ErrorTexts}.

(** [shard_env] *)
Definition shard_env (shard : option TaskShard) : outcome AgentError (list (string * string)) :=
  match shard with
  | None => Ok []
  | Some shard =>
      let env := [("PLURIFOLD_SHARD_INDEX", show (sh_index shard));
                  ("PLURIFOLD_SHARD_COUNT", show (sh_count shard))] in
      match sh_partition shard with
      | None => Ok env
      | Some partition =>
          obind (map_err Message (partition_to_json partition)) (λ json,
          let env := env ++ [("PLURIFOLD_SHARD_PARTITION", json)] in
          match partition with
          | ByteRange _ offset length total_bytes
          | Records _ _ _ _ offset length total_bytes =>
              Ok (env ++ [("PLURIFOLD_RANGE_OFFSET", show offset);
                          ("PLURIFOLD_RANGE_LENGTH", show length);
                          ("PLURIFOLD_RANGE_TOTAL_BYTES", show total_bytes)])
          end)
      end
  end.

(** [Command::env], pair after pair. *)
Definition set_env (env : gmap string string) (pairs : list (string * string)) : gmap string string :=
  fold_left (λ env '(name, value), <[name := value]> env) pairs env.

Definition base_env (entrypoint : string) (input_count : nat) : list (string * string) :=
  [("PLURIFOLD_ABI", "1"); ("PLURIFOLD_ENTRYPOINT", entrypoint);
   ("PLURIFOLD_INPUT_COUNT", show_nat input_count)].

(** [configure_native_env] *)
Definition configure_native_env (workdir : Path) (entrypoint : string) (input_count : nat)
    (shard : option TaskShard) : outcome AgentError (gmap string string) :=
  let env := set_env ∅ (base_env entrypoint input_count) in
  let env := set_env env
    ((λ index, (input_variable index, path_to_string (workdir ++ [input_name index]))) <$> seq 0 input_count) in
  obind (shard_env shard) (λ pairs, Ok (set_env env pairs)).

(** [wasi_env] *)
Definition wasi_env (entrypoint : string) (input_count : nat) (shard : option TaskShard) :
    outcome AgentError (list (string * string)) :=
  let env := base_env entrypoint input_count ++
    ((λ index, (input_variable index, "/work/" +:+ input_name index)) <$> seq 0 input_count) in
  obind (shard_env shard) (λ pairs, Ok (env ++ pairs)).

(** ** Running a process *)

Fixpoint stage_from (workdir : Path) (index : nat) (inputs : list Bytes) : agent unit :=
  match inputs with
  | [] => Done (Ok tt)
  | bytes :: inputs' =>
      let? _ := on_files (fs_write (workdir ++ [input_name index]) bytes) in
      stage_from workdir (S index) inputs'
  end.

(** The temporary directory is removed when it goes out of scope. *)
Definition drop_dir {A} (workdir : Path) (p : agent A) : agent A :=
  let* result := p in
  let* _ := call (DropTempDir workdir) in
  Done result.

(** [stage_inputs], with what its caller does with the directory. *)
Definition with_staged_inputs {A} (inputs : list Bytes) (body : Path → agent A) : agent A :=
  let? workdir := ask MakeTempDir in
  drop_dir workdir (let? _ := stage_from workdir 0 inputs in body workdir).

(** [collect_output] *)
Definition collect_output (command : Command) (kind : string) : agent Bytes :=
  let* started := call (RunCommand command) in
  let? output := of_outcome
    (map_err (λ error, Message ("failed to start " +:+ kind +:+ ": " +:+ error)) started) in
  if negb (po_success output)
  then Done (Err (ProcessFailed kind (po_status output) (po_stderr output)))
  else Done (Ok (po_stdout output)).

(** [execute_native] *)
Definition execute_native (executable : Path) (entrypoint : string) (arguments : list string)
    (inputs : list Bytes) (shard : option TaskShard) : agent Bytes :=
  with_staged_inputs inputs (λ workdir,
    let? env := of_outcome (configure_native_env workdir entrypoint (length inputs) shard) in
    collect_output (mkCommand (path_to_string executable) arguments env (Some workdir)) "native task").

Definition env_arguments (env : list (string * string)) : list string :=
  env ≫= λ '(name, value), ["--env"; name +:+ "=" +:+ value].

(** [execute_wasi] *)
Definition execute_wasi (wasmtime : string) (module : Path) (entrypoint : string)
    (arguments : list string) (inputs : list Bytes) (shard : option TaskShard) : agent Bytes :=
  with_staged_inputs inputs (λ workdir,
    let host_dir := path_to_string workdir in
    if negb (utf8_valid (to_bytes host_dir)) then fail "task workdir is not valid UTF-8"
    else
      let? env := of_outcome (wasi_env entrypoint (length inputs) shard) in
      collect_output
        (plain_command wasmtime
           (["run"; "--dir"; host_dir +:+ "::/work"] ++ env_arguments env ++
            [path_to_string module] ++ arguments))
        "WASI task").

(** [ExecutorPolicy::execute] *)
Definition policy_execute (self : ExecutorPolicy) (artifact entrypoint : string)
    (arguments : list string) (inputs : list Bytes) (shard : option TaskShard) : agent Bytes :=
  match strip_prefix "native:" artifact with
  | Some path =>
      if negb (native_enabled self)
      then fail "native executor is disabled; start the agent with at least one --exec-root"
      else
        let? executable := authorize_artifact self path in
        execute_native executable entrypoint arguments inputs shard
  | None =>
      match strip_prefix "wasi:" artifact with
      | Some path =>
          let? wasmtime := require
            "WASI executor is disabled; start the agent with --enable-wasi and --exec-root"
            (ep_wasmtime self) in
          let? module := authorize_artifact self path in
          execute_wasi wasmtime module entrypoint arguments inputs shard
      | None => fail ("unsupported artifact " +:+ artifact)
      end
  end.
End executors.

(** ** Accelerators *)

Definition MIB : Z := 1024 * 1024.
Definition saturating_mul64 (a b : Z) : Z := Z.min (a * b) u64_max.
Definition saturating_add32 (a b : Z) : Z := Z.min (a + b) u32_max.

(** The text a command printed, if it ran, succeeded and printed UTF-8. *)
Definition command_text (command : Command) : prog AgentCall (option Bytes) :=
  let* started := call (RunCommand command) in
  Done (match started with
        | Ok output =>
            if po_success output && utf8_valid (po_stdout output) then Some (po_stdout output) else None
        | _ => None
        end).

(** One line of [nvidia-smi]: the state is (count, least memory, driver). *)
Definition nvidia_line (state : Z * Z * option string) (line : string) :
    option (Z * Z * option string) :=
  let '(count, min_memory_mib, driver) := state in
  let fields := trim <$> split_at_char comma line in
  memory_mib ← head fields ≫= parse_unsigned u64_max;
  let current_driver := fields !! 1%nat ≫= λ value, if bool_decide (value = "") then None else Some value in
  Some (saturating_add32 count 1, Z.min min_memory_mib memory_mib,
        match driver with Some _ => driver | None => current_driver end).
Definition nvidia_lines (lines : list string) : option (Z * Z * option string) :=
  '(count, min_memory_mib, driver) ←
    foldl (λ state line, state ≫= λ state, nvidia_line state line) (Some (0, u64_max, None))
      (filter (λ line, line ≠ "") (trim <$> lines));
  if 0 <? count then Some (count, saturating_mul64 min_memory_mib MIB, driver) else None.

(** [detect_nvidia] *)
Definition detect_nvidia : prog AgentCall (option (Z * Z * option string)) :=
  let* text := command_text (plain_command "nvidia-smi"
    ["--query-gpu=memory.total,driver_version"; "--format=csv,noheader,nounits"]) in
  Done (text ≫= λ text, nvidia_lines (lines text)).

(** [Iterator::find_map] *)
Definition find_map {A B} (f : A → option B) (l : list A) : option B := head (omap f l).

Definition ascend_count (line : string) : option Z :=
  '(key, value) ← split_once colon line;
  if bool_decide (trim key = "Total Count") then parse_unsigned u32_max (trim value) else None.
Definition ascend_memory (line : string) : option Z :=
  '(_, rhs) ← rsplit_once slash line;
  value ← first_word rhs ≫= parse_unsigned u64_max;
  if 1024 <=? value then Some value else None.
(** [Iterator::min] *)
Definition min_Z (l : list Z) : option Z :=
  match l with [] => None | z :: l' => Some (fold_left Z.min l' z) end.

(** [detect_ascend] *)
Definition detect_ascend : prog AgentCall (option (Z * Z)) :=
  let* list_text := command_text (plain_command "npu-smi" ["info"; "-l"]) in
  let count := text ← list_text; count ← find_map ascend_count (lines text);
               if 0 <? count then Some count else None in
  match count with
  | None => Done None
  | Some count =>
      let* info := command_text (plain_command "npu-smi" ["info"]) in
      let memory := default 0 (text ← info; min_Z (omap ascend_memory (lines text))) in
      Done (Some (count, saturating_mul64 memory MIB))
  end.

Definition cann_candidates : list Path :=
  [["/"; "usr"; "local"; "Ascend"; "ascend-toolkit"; "latest"; "version.cfg"];
   ["/"; "usr"; "local"; "Ascend"; "ascend-toolkit"; "latest"; "x86_64-linux"; "ascend_toolkit_install.info"];
   ["/"; "usr"; "local"; "Ascend"; "ascend-toolkit"; "latest"; "aarch64-linux"; "ascend_toolkit_install.info"]].

(** [trim_matches] of quotes and brackets *)
Definition quote : string := String (Ascii.ascii_of_N 34) EmptyString.
Definition trim_quotes (s : string) : string :=
  trim_end_of [quote; "["; "]"] (trim_start_of [quote; "["; "]"] s).

(** The version a line gives, under either key. *)
Definition cann_line (line : string) : option string :=
  let line := trim line in
  find_map (λ key,
      value ← strip_prefix key line;
      let value := trim_quotes (trim value) in
      if bool_decide (value = "") then None else Some value)
    ["toolkit_running_version="; "version="].

Fixpoint first_cann_version (candidates : list Path) : prog AgentCall (option string) :=
  match candidates with
  | [] => Done None
  | path :: candidates' =>
      let* read := call (OnFiles (ReadFile path)) in
      match read with
      | Ok bytes =>
          match (if utf8_valid bytes then find_map cann_line (lines bytes) else None) with
          | Some version => Done (Some version)
          | None => first_cann_version candidates'
          end
      | _ => first_cann_version candidates'
      end
  end.
(** [detect_cann_version] *)
Definition detect_cann_version : prog AgentCall (option string) := first_cann_version cann_candidates.

Definition add_accelerator (accelerator : Accelerator) (features : list string)
    (descriptor : ResourceDescriptor) : ResourceDescriptor :=
  mkResourceDescriptor (rd_id descriptor) (rd_epoch descriptor) (rd_architecture descriptor)
    (rd_cpu_cores descriptor) (rd_memory_bytes descriptor)
    (rd_accelerators descriptor ++ [accelerator]) (rd_features descriptor ∪ list_to_set features)
    (rd_performance_score descriptor) (rd_queue_delay_ms descriptor)
    (rd_startup_delay_ms descriptor) (rd_failure_probability descriptor).

(** [detect_accelerators] *)
Definition detect_accelerators (descriptor : ResourceDescriptor) : prog AgentCall ResourceDescriptor :=
  let* nvidia := detect_nvidia in
  let descriptor :=
    match nvidia with
    | Some (count, memory_bytes, driver) =>
        add_accelerator (mkAccelerator NvidiaGpu count memory_bytes)
          (["accelerator:nvidia"; "cuda"] ++ match driver with Some driver => ["cuda-driver:" +:+ driver] | None => [] end)
          descriptor
    | None => descriptor
    end in
  let* ascend := detect_ascend in
  match ascend with
  | Some (count, memory_bytes) =>
      let* version := detect_cann_version in
      Done (add_accelerator (mkAccelerator AscendNpu count memory_bytes)
        (["accelerator:ascend"; "cann"] ++ match version with Some version => ["cann:" +:+ version] | None => [] end)
        descriptor)
  | None => Done descriptor
  end.

(** ** Only allowed artifacts are run *)

Abbreviation history := (list (event AgentCall)).

(** The agent has resolved [path] to [canonical], a file under one of its roots. *)
Definition resolved_under (self : ExecutorPolicy) (h : history) (path : string) (canonical : Path) : Prop :=
  mkEvent _ (Canonicalize path) (Ok canonical) ∈ h ∧
  mkEvent _ (OnFiles (IsFile canonical)) true ∈ h ∧
  ∃ root, root ∈ ep_roots self ∧ root `prefix_of` canonical.

(** The command runs the artifact on the task's [arguments], in a directory made
    for the task: itself, or as the module of [wasmtime run].  wasmtime takes the
    first argument that belongs to no option for the module and gives it the
    arguments after; the options before it open that one directory and set
    variables. *)
Definition runs_artifact (self : ExecutorPolicy) (artifact : string) (arguments : list string) (h : history)
    (command : Command) : Prop :=
  ∃ path canonical workdir, is_absolute path = true ∧ resolved_under self h path canonical ∧
    mkEvent _ MakeTempDir (Ok workdir) ∈ h ∧
    ((artifact = "native:" +:+ path ∧ cmd_program command = path_to_string canonical ∧
      cmd_args command = arguments ∧ cmd_current_dir command = Some workdir) ∨
     (artifact = "wasi:" +:+ path ∧ Some (cmd_program command) = ep_wasmtime self ∧
      ∃ variables, cmd_args command =
        ["run"; "--dir"; path_to_string workdir +:+ "::/work"] ++
        (variables ≫= λ '(name, value), ["--env"; name +:+ "=" +:+ value]) ++
        path_to_string canonical :: arguments)).

(** Of all calls, only starting a process is restricted. *)
Definition only_commands (P : history → Command → Prop) (h : history) (R : Type) (c : AgentCall R) : Prop :=
  match c with RunCommand command => P h command | _ => True end.

Section authorization.
Context `{SerdeJson} `{ErrorTexts} (self : ExecutorPolicy).

(** Any call but starting a process. *)
Definition not_a_command (R : Type) (c : AgentCall R) : Prop :=
  match c with RunCommand _ => False | _ => True end.

Lemma calls_only_no_commands {A} P h (p : prog AgentCall A) :
  makes_only not_a_command p → calls_only (only_commands P) h p (λ h' _, h ⊆ h').
Proof. apply calls_only_only. by intros h' R []. Qed.
Lemma only_on_files {A} Q (p : prog FsCall (outcome IoError A)) :
  (∀ R (c : FsCall R), Q R (OnFiles c)) → makes_only Q (on_files p).
Proof. intros HQ. unfold on_files. follow_calls. Qed.
Lemma only_stage Q workdir index inputs :
  (∀ R (c : FsCall R), Q R (OnFiles c)) → makes_only Q (stage_from workdir index inputs).
Proof.
  intros HQ. revert index. induction inputs as [|b inputs IH]; intros index; cbn [stage_from]; [done|].
  apply only_ptry; [by apply only_on_files|auto].
Qed.

Lemma calls_only_authorize P h path :
  calls_only (only_commands P) h (authorize_artifact self path)
    (λ h' m, ∀ canonical, m = Ok canonical → is_absolute path = true ∧ resolved_under self h' path canonical).
Proof.
  unfold authorize_artifact. destruct (is_absolute path) eqn:Habs; [|done]. simpl.
  split; [done|]. intros [resolved|e| |]; [|done..].
  unfold of_outcome, ptry. simpl.
  destruct (existsb (path_starts_with resolved) (ep_roots self)) eqn:Hroots; [|done]. simpl. split; [done|]. intros [|]; simpl; [|done].
  intros canonical [= <-]. split; [done|]. split_and!; [by right; left|by left|].
  apply existsb_Exists_true, Exists_exists in Hroots as (root & Hin & Hpre).
  exists root. split; [done|]. by apply bool_decide_eq_true in Hpre.
Qed.

(** Staging inputs and running one command. *)
Lemma calls_only_staged P h inputs (body : Path → agent Bytes) :
  (∀ h' workdir, h ⊆ h' → mkEvent _ MakeTempDir (Ok workdir) ∈ h' →
     calls_only (only_commands P) h' (body workdir) (λ _ _, True)) →
  calls_only (only_commands P) h (with_staged_inputs inputs body) (λ _ _, True).
Proof.
  intros Hbody. unfold with_staged_inputs, ask, ptry at 1. simpl. split; [done|].
  intros [workdir|e| |]; [|done..]. simpl.
  unfold drop_dir. apply calls_only_pbind with (φ := λ _ _, True).
  - eapply calls_only_ptry; [apply calls_only_no_commands; by apply only_stage| |done].
    intros h' [] Hsub. apply Hbody; [intros e He; apply Hsub; by right|apply Hsub; by left].
  - intros h' m Hm. simpl. by split.
Qed.

Lemma calls_only_collect P h command kind :
  P h command → calls_only (only_commands P) h (collect_output command kind) (λ _ _, True).
Proof.
  intros HP. unfold collect_output, of_outcome, ptry. simpl. split; [done|]. intros [output|e| |]; simpl; [|done..].
  by destruct (po_success output).
Qed.

Lemma resolved_under_mono h h' path canonical :
  h ⊆ h' → resolved_under self h path canonical → resolved_under self h' path canonical.
Proof. intros Hsub (H1 & H2 & H3). split_and!; auto. Qed.

(** C22 The agent starts a process for a task only to run its artifact, and only
    an artifact it may run: whatever the file system, the processes and the
    network answer, every command is the file an absolute path resolved to,
    found to be a file, under a configured root, with exactly the task's
    arguments; or the configured wasmtime with that file as the module it runs
    (after the one directory it opens and the variables it sets, before the
    task's arguments).  The directory is one made for the task. *)
Theorem only_allowed_artifacts_run artifact entrypoint arguments inputs shard :
  calls_only (only_commands (runs_artifact self artifact arguments)) []
    (policy_execute self artifact entrypoint arguments inputs shard) (λ _ _, True).
Proof.
  unfold policy_execute. destruct (strip_prefix "native:" artifact) as [path|] eqn:Hnative.
  - apply strip_prefix_Some in Hnative as ->. destruct (native_enabled self); [|done]. simpl negb. cbv iota.
    eapply calls_only_ptry; [apply calls_only_authorize| |done].
    intros h canonical Hc. destruct (Hc _ eq_refl) as [Habs Hres].
    apply calls_only_staged. intros h' workdir Hsub Hdir.
    destruct (configure_native_env workdir entrypoint (length inputs) shard) as [env|e| |]; [|done..]. unfold of_outcome, ptry at 1. simpl pbind.
    apply calls_only_collect. exists path, canonical, workdir.
    split_and!; [done|by eapply resolved_under_mono|done|by left].
  - destruct (strip_prefix "wasi:" artifact) as [path|] eqn:Hwasi; [|done].
    apply strip_prefix_Some in Hwasi as ->. unfold require.
    destruct (ep_wasmtime self) as [wasmtime|] eqn:Hw; [|done]. unfold ptry at 1. simpl pbind.
    eapply calls_only_ptry; [apply calls_only_authorize| |done].
    intros h canonical Hc. destruct (Hc _ eq_refl) as [Habs Hres].
    apply calls_only_staged. intros h' workdir Hsub Hdir.
    cbv zeta. destruct (utf8_valid (to_bytes (path_to_string workdir))); [|done]. simpl negb. cbv iota.
    destruct (wasi_env entrypoint (length inputs) shard) as [env|e| |]; [|done..]. unfold of_outcome, ptry at 1. simpl pbind.
    apply calls_only_collect. exists path, canonical, workdir.
    split_and!; [done|by eapply resolved_under_mono|done|]. right. split_and!; [done..|]. by exists env.
Qed.
End authorization.

(** ** What a task finds *)

Lemma set_env_app env l k : set_env (set_env env l) k = set_env env (l ++ k).
Proof. unfold set_env. by rewrite fold_left_app. Qed.
Lemma lookup_set_env_ne env pairs name : name ∉ pairs.*1 → set_env env pairs !! name = env !! name.
Proof.
  unfold set_env. revert env. induction pairs as [|[n v] pairs IH]; intros env Hn; simpl; [done|].
  apply not_elem_of_cons in Hn as [Hne Hn]. rewrite IH by done. by apply lookup_insert_ne.
Qed.
(** With distinct names nothing is overwritten. *)
Lemma lookup_set_env env pairs name value :
  NoDup pairs.*1 → (name, value) ∈ pairs → set_env env pairs !! name = Some value.
Proof.
  revert env. induction pairs as [|[n v] pairs IH]; intros env Hnd Hin; [by apply not_elem_of_nil in Hin|].
  apply NoDup_cons in Hnd as [Hn Hnd]. apply elem_of_cons in Hin as [[= -> ->]|Hin].
  - unfold set_env. simpl. change (set_env (<[n:=v]> env) pairs !! n = Some v).
    rewrite lookup_set_env_ne by done. apply lookup_insert_eq.
  - apply (IH (<[n := v]> env)); done.
Qed.
Lemma set_env_exact pairs name value :
  NoDup pairs.*1 → set_env ∅ pairs !! name = Some value ↔ (name, value) ∈ pairs.
Proof.
  intros Hnd. split; [|by apply lookup_set_env].
  destruct (decide (name ∈ pairs.*1)) as [Hin|Hin].
  - apply list_elem_of_fmap in Hin as ([n v] & -> & Hin). simpl.
    rewrite (lookup_set_env _ _ _ _ Hnd Hin). by intros [= <-].
  - rewrite lookup_set_env_ne by done. by rewrite lookup_empty.
Qed.

Lemma show_nat_as_N n : show_nat n = pretty (N.of_nat n).
Proof. done. Qed.
Lemma show_nat_digits n : digits_value 0 (show_nat n) = Some (N.of_nat n).
Proof. rewrite show_nat_as_N. apply show_N. Qed.
Lemma input_variable_inj i j : input_variable i = input_variable j → i = j.
Proof.
  intros Heq. apply (inj (String.append _)) in Heq. apply (f_equal (digits_value 0)) in Heq.
  rewrite !show_nat_digits in Heq. injection Heq. lia.
Qed.
Lemma input_name_inj i j : input_name i = input_name j → i = j.
Proof.
  intros Heq. apply (inj (String.append _)) in Heq. apply (f_equal (digits_value 0)) in Heq.
  rewrite !show_nat_digits in Heq. injection Heq. lia.
Qed.
Lemma input_variable_not_count i : input_variable i ≠ "PLURIFOLD_INPUT_COUNT".
Proof.
  change "PLURIFOLD_INPUT_COUNT" with ("PLURIFOLD_INPUT_" +:+ "COUNT"). intros Heq.
  apply (inj (String.append _)) in Heq. pose proof (show_nat_digits i) as Hd. by rewrite Heq in Hd.
Qed.

Section environment.
Context `{SerdeJson} `{ErrorTexts}.

Definition shard_names : list string :=
  ["PLURIFOLD_SHARD_INDEX"; "PLURIFOLD_SHARD_COUNT"; "PLURIFOLD_SHARD_PARTITION";
   "PLURIFOLD_RANGE_OFFSET"; "PLURIFOLD_RANGE_LENGTH"; "PLURIFOLD_RANGE_TOTAL_BYTES"].

Lemma shard_env_names shard pairs : shard_env shard = Ok pairs → NoDup pairs.*1 ∧ pairs.*1 ⊆ shard_names.
Proof.
  destruct shard as [[index count [partition|]]|]; cbn.
  - destruct (partition_to_json partition) as [json|e| |]; try done. cbn.
    intros Hp. assert (pairs.*1 = shard_names) as -> by (destruct partition; by injection Hp as <-).
    split; [apply (bool_decide_eq_true_1 _); vm_compute; reflexivity|done].
  - intros [= <-]. split; [apply (bool_decide_eq_true_1 _); vm_compute; reflexivity|].
    cbn. intros x [->|[->|Hx]%elem_of_cons]%elem_of_cons; [by left|by right; left|].
    by apply not_elem_of_nil in Hx.
  - intros [= <-]. split; [constructor|]. cbn. apply list_subseteq_nil.
Qed.

(** The variables of a task, in the order they are set; inputs are found under [path]. *)
Definition task_pairs (path : nat → string) (entrypoint : string) (input_count : nat)
    (shard_pairs : list (string * string)) : list (string * string) :=
  base_env entrypoint input_count ++ ((λ index, (input_variable index, path index)) <$> seq 0 input_count) ++
  shard_pairs.

Lemma task_pairs_NoDup path entrypoint input_count shard pairs :
  shard_env shard = Ok pairs → NoDup (task_pairs path entrypoint input_count pairs).*1.
Proof.
  intros [Hnd Hsub]%shard_env_names. unfold task_pairs. rewrite !fmap_app, <- list_fmap_compose.
  assert (∀ name, name ∈ (input_variable <$> seq 0 input_count) → ∃ i, name = input_variable i) as Hinput
    by (intros name (i & -> & _)%list_elem_of_fmap; by exists i).
  assert (∀ name i, name = input_variable i → (name ∉ ((base_env entrypoint input_count).*1)) ∧ name ∉ shard_names) as Hnew.
  { intros name i ->. unfold base_env, shard_names. csimpl. rewrite !not_elem_of_cons.
    split; (split_and!; [..|by intros ?%not_elem_of_nil]); first [apply input_variable_not_count|intros Heq; discriminate Heq]. }
  apply NoDup_app. split_and!.
  - apply (bool_decide_eq_true_1 _). vm_compute. reflexivity.
  - intros name Hb [Hi|Hs]%elem_of_app.
    + destruct (Hinput _ Hi) as [i Heq]. by destruct (Hnew _ _ Heq).
    + assert (Forall (λ name, name ∉ shard_names) (base_env entrypoint input_count).*1) as Hbase
        by (apply (bool_decide_eq_true_1 _); vm_compute; reflexivity).
      rewrite Forall_forall in Hbase. by apply (Hbase _ Hb), Hsub.
  - apply NoDup_app. split_and!; [| |done].
    + apply NoDup_fmap_2_strong; [|apply NoDup_seq]. intros i j _ _. apply input_variable_inj.
    + intros name Hi Hs. destruct (Hinput _ Hi) as [i Heq]. destruct (Hnew _ _ Heq) as [_ Hn]. by apply Hn, Hsub.
Qed.
End environment.

Section task_environment.
Context `{SerdeJson} `{ErrorTexts}.

(** The native environment is the WASI one with the inputs in the work directory. *)
Lemma native_env_pairs workdir entrypoint input_count shard :
  configure_native_env workdir entrypoint input_count shard =
  obind (shard_env shard) (λ pairs,
    Ok (set_env ∅ (task_pairs (λ i, path_to_string (workdir ++ [input_name i])) entrypoint input_count pairs))).
Proof. unfold configure_native_env, task_pairs. destruct (shard_env shard); simpl; [|done..]. by rewrite !set_env_app. Qed.

(** Input [i] of the task stands at its place in the work directory. *)
Definition inputs_staged (workdir : Path) (inputs : list Bytes) (files : gmap Path Node) : Prop :=
  ∀ (i : nat) bytes, inputs !! i = Some bytes → files !! (workdir ++ [input_name i]) = Some (RegularFile bytes).

Lemma stage_from_ok {h : handler AgentCall Host} workdir index inputs (host : Host) :
  (∀ R (c : FsCall R) s, h R (OnFiles c) s = perform R c s) → reliable host →
  h_files host !! workdir = Some Directory →
  (∀ i, (index ≤ i)%nat → h_files host !! (workdir ++ [input_name i]) ≠ Some Directory) →
  ∃ host', run h (stage_from workdir index inputs) host = (Ok tt, host') ∧ reliable host' ∧
    (∀ path, (∀ i, (index ≤ i)%nat → path ≠ workdir ++ [input_name i]) →
       h_files host' !! path = h_files host !! path) ∧
    ∀ (i : nat) bytes, inputs !! i = Some bytes →
      h_files host' !! (workdir ++ [input_name (index + i)]) = Some (RegularFile bytes).
Proof.
  intros Hh. revert index host. induction inputs as [|bytes inputs IH]; intros index host Hrel Hdir Hfree.
  { exists host. split_and!; [done..|]. intros i b Hi. by rewrite lookup_nil in Hi. }
  set (path := workdir ++ [input_name index]).
  set (host1 := set_files (<[path := RegularFile bytes]> (<[path := RegularFile []]> (h_files host)))
                  (next_fault (next_fault host))).
  assert (run h (on_files (fs_write path bytes)) host = (Ok tt, host1)) as Hwrite.
  { unfold on_files, fs_write. rewrite run_ptry, run_translate. simpl. rewrite !Hh. simpl.
    unfold update_files. rewrite (Hrel 0%nat).
    assert (create_file path (h_files host) = Ok (<[path := RegularFile []]> (h_files host))) as ->.
    { unfold create_file, check_parent, path. rewrite removelast_last, Hdir. simpl.
      specialize (Hfree index ltac:(lia)). by repeat case_match. }
    simpl. rewrite Hh. simpl. rewrite (Hrel 1%nat). unfold write_all. rewrite lookup_insert_eq. done. }
  assert (∀ i, path = workdir ++ [input_name i] → i = index) as Hinj
    by (intros i Heq%app_inv_head; apply input_name_inj; congruence).
  assert (workdir ≠ path) as Hne.
  { intros Heq. apply (f_equal length) in Heq. unfold path in Heq. rewrite length_app in Heq. simpl in Heq. lia. }
  destruct (IH (S index) host1) as (host2 & Hrun & Hrel2 & Hframe & Hdone).
  - intros n. apply (Hrel (S (S n))).
  - simpl. by rewrite !lookup_insert_ne.
  - intros i Hi. simpl. assert (path ≠ workdir ++ [input_name i]) as Hi' by (intros ->%Hinj; lia).
    rewrite !lookup_insert_ne by done. apply Hfree. lia.
  - exists host2. cbn [stage_from]. fold path. rewrite run_ptry, Hwrite. split_and!; [done|done| |].
    + intros path' Hp. rewrite Hframe by (intros i Hi; apply Hp; lia). simpl.
      assert (path ≠ path') by (apply not_eq_sym, Hp; lia). by rewrite !lookup_insert_ne.
    + intros [|i] b Hi; simpl in Hi.
      * injection Hi as ->. rewrite Nat.add_0_r, Hframe; [simpl; by rewrite lookup_insert_eq|].
        intros i Hi Heq%Hinj. lia.
      * replace (index + S i)%nat with (S index + i)%nat by lia. by apply Hdone.
Qed.

(** A native task finds what the executor interface promises: when the work
    directory can be written, every input is in a file of its own with exactly
    its bytes; the environment defines the interface version, the entry point,
    the number of inputs, the path of each input's file and the shard, none of
    these overwriting another, and nothing else. *)
Theorem native_task_environment (h : handler AgentCall Host) workdir entrypoint inputs shard host env
    (Hfiles : ∀ R (c : FsCall R) s, h R (OnFiles c) s = perform R c s)
    (Hrel : reliable host) (Hdir : h_files host !! workdir = Some Directory)
    (Hempty : ∀ i, h_files host !! (workdir ++ [input_name i]) = None)
    (Henv : configure_native_env workdir entrypoint (length inputs) shard = Ok env) :
  ∃ host' pairs, run h (stage_from workdir 0 inputs) host = (Ok tt, host') ∧
    inputs_staged workdir inputs (h_files host') ∧ shard_env shard = Ok pairs ∧
    (∀ (i : nat), (i < length inputs)%nat →
       env !! input_variable i = Some (path_to_string (workdir ++ [input_name i]))) ∧
    ∀ name value, env !! name = Some value ↔
      (name, value) ∈ [("PLURIFOLD_ABI", "1"); ("PLURIFOLD_ENTRYPOINT", entrypoint);
                       ("PLURIFOLD_INPUT_COUNT", show_nat (length inputs))] ∨
      (∃ i, (i < length inputs)%nat ∧ name = input_variable i ∧
         value = path_to_string (workdir ++ [input_name i])) ∨
      (name, value) ∈ pairs.
Proof.
  destruct (stage_from_ok (h:=h) workdir 0 inputs host Hfiles Hrel Hdir) as (host' & Hrun & _ & _ & Hstaged).
  { intros i _. by rewrite Hempty. }
  rewrite native_env_pairs in Henv. apply obind_Ok in Henv as (pairs & Hpairs & [= <-]).
  pose proof (task_pairs_NoDup (λ i, path_to_string (workdir ++ [input_name i])) entrypoint (length inputs)
    _ _ Hpairs) as Hnd.
  assert (∀ name value, set_env ∅ (task_pairs (λ i, path_to_string (workdir ++ [input_name i])) entrypoint
      (length inputs) pairs) !! name = Some value ↔
      (name, value) ∈ base_env entrypoint (length inputs) ∨
      (∃ i, (i < length inputs)%nat ∧ name = input_variable i ∧
         value = path_to_string (workdir ++ [input_name i])) ∨ (name, value) ∈ pairs) as Hexact.
  { intros name value. rewrite set_env_exact by done. unfold task_pairs. rewrite !elem_of_app, list_elem_of_fmap.
    setoid_rewrite elem_of_seq. split.
    - intros [?|[(i & [= -> ->] & ?)|?]]; [by left|right; left; exists i; split_and!; [lia|done..]|by right; right].
    - intros [?|[(i & ? & -> & ->)|?]]; [by left|right; left; exists i; split; [done|lia]|by right; right]. }
  exists host', pairs. split_and!; [done| |done| |exact Hexact].
  - intros i bytes Hi. by apply (Hstaged i).
  - intros i Hi. apply Hexact. right; left. by exists i.
Qed.
End task_environment.

(** ** Examples *)

Definition sample_workdir : Path := ["/"; "tmp"].
Definition workdir_host : Host :=
  mkHost (<[sample_workdir := Directory]> {[ ["/"] := Directory ]}) 1 7 (λ _, None).

Lemma native_task_environment_witness :
  ∃ env host',
    configure_native_env (H:=toy_json) sample_workdir "transform" 1 (Some (mkTaskShard 2 4 None)) = Ok env ∧
    run offline (stage_from (H0:=toy_errors) sample_workdir 0 [to_bytes "payload"]) workdir_host = (Ok tt, host') ∧
    inputs_staged sample_workdir [to_bytes "payload"] (h_files host').
Proof.
  destruct (configure_native_env (H:=toy_json) sample_workdir "transform" 1 (Some (mkTaskShard 2 4 None)))
    as [env| | |] eqn:Henv; [|discriminate Henv..].
  destruct (native_task_environment (H:=toy_json) (H0:=toy_errors) offline sample_workdir "transform"
    [to_bytes "payload"] (Some (mkTaskShard 2 4 None)) workdir_host env)
    as (host' & pairs & Hrun & Hstaged & _); [intros; reflexivity|intros n; reflexivity|reflexivity| |exact Henv|].
  - intros i. unfold workdir_host, sample_workdir. simpl h_files. simpl app.
    rewrite lookup_insert_ne by discriminate. by rewrite lookup_singleton_ne.
  - exists env, host'. exact (conj eq_refl (conj Hrun Hstaged)).
Defined.
