(* ===== verification/TaskExecution.v ===== *)
(** * Executing a task (plurifold-agent/src/main.rs)

    One operation, or the stages of a fused pipeline whose intermediate outputs
    stay in memory; and that a fused pipeline computes what the tasks it
    replaces would have computed one after the other. *)

From Stdlib Require Import Strings.Byte.
From S2P Require Import Prelude Float64 World Text Program Bytes Files Store Core Samples Fusion Coordinator AgentCalls Operators Executor.
Open Scope string_scope.
Open Scope list_scope.
Open Scope Z_scope.
Open Scope prog_scope.

Section execution.
Context `{SerdeJson} `{ErrorTexts} (executor : ExecutorPolicy).

(** [execute_operation] *)
Definition execute_operation (artifact entrypoint : string) (arguments : list string)
    (inputs : list Bytes) (shard : option TaskShard) : agent Bytes :=
  if starts_with "builtin:" artifact
  then execute_builtin_operation artifact arguments inputs shard
  else policy_execute executor artifact entrypoint arguments inputs shard.

(** The inputs of one stage. *)
Definition stage_input (inputs : list Bytes) (previous : option Bytes) (stage_index : nat)
    (binding : PipelineInput) : outcome AgentError Bytes :=
  match binding with
  | External index =>
      ok_or (Message ("pipeline input index " +:+ show_nat index +:+ " is out of range")) (inputs !! index)
  | PreviousOutput =>
      ok_or (Message ("pipeline stage " +:+ show_nat stage_index +:+ " references a missing previous output"))
        previous
  end.
Fixpoint gather_inputs (inputs : list Bytes) (previous : option Bytes) (stage_index : nat)
    (bindings : list PipelineInput) : outcome AgentError (list Bytes) :=
  match bindings with
  | [] => Ok []
  | binding :: bindings' =>
      obind (stage_input inputs previous stage_index binding) (λ bytes,
      obind (gather_inputs inputs previous stage_index bindings') (λ rest, Ok (bytes :: rest)))
  end.

Fixpoint run_stages (stages : list TaskPipelineStage) (inputs : list Bytes) (shard : option TaskShard)
    (stage_index : nat) (previous : option Bytes) : agent (option Bytes) :=
  match stages with
  | [] => Done (Ok previous)
  | stage :: stages' =>
      let? bytes := of_outcome (gather_inputs inputs previous stage_index (stage_inputs stage)) in
      let? output := execute_operation (stage_artifact stage) (stage_entrypoint stage)
                       (stage_arguments stage) bytes shard in
      run_stages stages' inputs shard (S stage_index) (Some output)
  end.

(** [execute_pipeline] *)
Definition execute_pipeline (pipeline : TaskPipeline) (inputs : list Bytes) (shard : option TaskShard) :
    agent Bytes :=
  if (length pipeline <? 2)%nat then fail "task pipeline requires at least two stages"
  else
    let? previous := run_stages pipeline inputs shard 0 None in
    require "task pipeline produced no output" previous.

(** [execute_task_with_policy] *)
Definition execute_task_with_policy (task : TaskSpec) (inputs : list Bytes) : agent Bytes :=
  match ts_pipeline task with
  | Some pipeline => execute_pipeline pipeline inputs (ts_shard task)
  | None =>
      execute_operation (ts_artifact task) (ts_entrypoint task) (ts_arguments task) inputs (ts_shard task)
  end.

(** ** The tasks a pipeline replaces *)

Section chain.
Context (contents : ObjectId → Bytes).

(** The unfused tasks of the later roles: each reads its own inputs and the
    object its predecessor produced, whose bytes are [previous]. *)
Fixpoint separate_tasks (templates : list TaskTemplate) (ids : nat → TaskId) (outputs : nat → ObjectId)
    (previous : Bytes) : agent Bytes :=
  match templates with
  | [] => Done (Ok previous)
  | template :: templates' =>
      let task := instantiate_with template [outputs O] (ids O) in
      let? output := execute_task_with_policy task ((contents <$> tt_inputs template) ++ [previous]) in
      separate_tasks templates' (λ n, ids (S n)) (λ n, outputs (S n)) output
  end.
(** The whole chain, the first task reading the dependencies of the job. *)
Definition separate_chain (first : TaskTemplate) (rest : list TaskTemplate) (deps : list ObjectId)
    (ids : nat → TaskId) (outputs : nat → ObjectId) : agent Bytes :=
  let task := instantiate_with first deps (ids O) in
  let? output := execute_task_with_policy task (contents <$> ts_inputs task) in
  separate_tasks rest (λ n, ids (S n)) outputs output.

(** The bytes an object list denotes, [None] being the previous output. *)
Definition bytes_of (previous : Bytes) (objects : list (option ObjectId)) : list Bytes :=
  (λ o, match o with Some object => contents object | None => previous end) <$> objects.

Lemma gather_inputs_ok inputs bindings objects stage_index previous p :
  mapM (resolve_binding inputs) bindings = Some objects →
  (previous = Some p ∨ Forall is_Some objects) →
  gather_inputs (contents <$> inputs) previous stage_index bindings = Ok (bytes_of p objects).
Proof.
  intros Hb%mapM_Some Hprev.
  induction Hb as [|binding o bindings objects Ho _ IH]; [done|]. cbn [gather_inputs].
  assert (stage_input (contents <$> inputs) previous stage_index binding =
          Ok (match o with Some object => contents object | None => p end)) as ->.
  { destruct binding as [index|]; simpl in Ho.
    - apply fmap_Some in Ho as (object & Ho & ->). simpl. by rewrite list_lookup_fmap, Ho.
    - injection Ho as <-. destruct Hprev as [->|Hall]; [done|].
      apply Forall_cons in Hall as [Hsome _]. by destruct Hsome. }
  simpl. rewrite IH; [done|]. destruct Hprev as [->|Hall]; [by left|right]. by apply Forall_cons in Hall as [_ ?].
Qed.

Context {S : Type} (h : handler AgentCall S).

(** Two programs that answer alike from every state. *)
Definition same_runs {A} (p q : prog AgentCall A) : Prop := ∀ s, run h p s = run h q s.

Lemma later_stages_run inputs templates stages stage_index ids outputs previous :
  Forall2 (later_stage_runs inputs) templates stages →
  same_runs (ptry id (run_stages stages (contents <$> inputs) None stage_index (Some previous))
               (require "task pipeline produced no output"))
            (separate_tasks templates ids outputs previous).
Proof.
  intros Hstages. revert stage_index ids outputs previous.
  induction Hstages as [|template stage templates stages (Ha & He & Harg & Hb) _ IH];
    intros stage_index ids outputs previous; [done|].
  cbn [run_stages separate_tasks].
  rewrite (gather_inputs_ok _ _ _ _ _ previous Hb) by by left.
  assert (bytes_of previous ((Some <$> tt_inputs template) ++ [None]) =
          (contents <$> tt_inputs template) ++ [previous]) as ->
    by (unfold bytes_of; by rewrite fmap_app, <- list_fmap_compose).
  intros s. unfold of_outcome. rewrite !run_ptry. simpl. rewrite run_ptry.
  unfold execute_task_with_policy. cbn [ts_pipeline ts_artifact ts_entrypoint ts_arguments ts_shard instantiate_with].
  rewrite Ha, He, Harg.
  destruct (run h (execute_operation _ _ _ _ _) s) as [[output|e| |] s']; [|done..].
  specialize (IH (Datatypes.S stage_index) (λ n, ids (Datatypes.S n)) (λ n, outputs (Datatypes.S n)) output s').
  by rewrite run_ptry in IH.
Qed.

(** C18 Fusion does not change results: executing the fused task of a chain on its
    deduplicated inputs gives exactly the result (the bytes, the error, and the
    state left behind) of executing the tasks of the chain one after the other,
    the first on its own inputs and the dependencies, each later one on its own
    inputs and the bytes its predecessor produced. *)
Theorem fused_execution first rest deps requirements w ids outputs
    (Hrest : rest ≠ []) :
  match (fused_pipeline_task (E:=unit) (first :: rest) deps requirements w).1 with
  | Ok task =>
      ∀ s, run h (execute_task_with_policy task (contents <$> ts_inputs task)) s =
           run h (separate_chain first rest deps ids outputs) s
  | _ => False
  end.
Proof.
  unfold fused_pipeline_task, bind, instantiate, new_id, new_v4, ret. simpl.
  destruct (fused_stages first rest deps) as [stages inputs] eqn:E.
  destruct (fused_stages_ok _ _ _ _ _ E) as (_ & _ & stage & later & -> & (Ha & He & Harg & Hb) & Hlater).
  intros s. unfold execute_task_with_policy at 1. cbn [ts_pipeline ts_inputs ts_shard]. unfold execute_pipeline.
  destruct Hlater as [|template later_stage rest later Hl Hlater]; [done|]. simpl length. cbn [Nat.ltb Nat.leb].
  cbn [run_stages]. rewrite (gather_inputs_ok _ _ _ _ _ [] Hb) by (right; apply Forall_fmap, Forall_true; intros x; by exists x).
  assert (bytes_of [] (Some <$> tt_inputs first ++ deps) = contents <$> tt_inputs first ++ deps) as ->
    by (unfold bytes_of; by rewrite <- list_fmap_compose).
  unfold separate_chain, of_outcome. rewrite !run_ptry. simpl. rewrite run_ptry.
  unfold execute_task_with_policy at 1. cbn [ts_pipeline ts_artifact ts_entrypoint ts_arguments ts_shard ts_inputs instantiate_with].
  rewrite Ha, He, Harg.
  destruct (run h (execute_operation _ _ _ _ _) s) as [[output|e| |] s']; [|done..].
  pose proof (later_stages_run inputs (template :: rest) (later_stage :: later) 1 (λ n, ids (Datatypes.S n)) outputs output) as Hrun.
  specialize (Hrun ltac:(by constructor) s'). by rewrite run_ptry in Hrun.
Qed.
End chain.
End execution.

(** ** Examples *)

Definition sample_contents (id : ObjectId) : Bytes :=
  if bool_decide (id = Samples.object_id 1) then to_bytes "left" else to_bytes "right".
Definition sample_first : TaskTemplate :=
  Samples.template "builtin:identity" [Samples.object_id 1] ResourceRequirements_default 1 4.
Definition sample_second : TaskTemplate :=
  Samples.template "builtin:concat" [Samples.object_id 2; Samples.object_id 1] ResourceRequirements_default 1 9.

Lemma fused_execution_witness :
  match (fused_pipeline_task (E:=unit) [sample_first; sample_second] [] ResourceRequirements_default (Samples.world 0)).1 with
  | Ok task =>
      (run offline (execute_task_with_policy (H:=toy_json) (H0:=toy_errors) ExecutorPolicy_default task
         (sample_contents <$> ts_inputs task)) sample_host).1 = Ok (to_bytes "rightleftleft")
  | _ => False
  end.
Proof.
  pose proof (fused_execution (H:=toy_json) (H0:=toy_errors) ExecutorPolicy_default sample_contents offline
    sample_first [sample_second] [] ResourceRequirements_default (Samples.world 0)
    (λ n, Samples.task_id (N.of_nat n)) (λ n, Samples.object_id (N.of_nat n)) ltac:(discriminate)) as Hsame.
  destruct (fused_pipeline_task _ _ _ _).1 as [task| | |]; [|destruct Hsame..].
  rewrite Hsame. vm_compute. reflexivity.
Defined.
