(* ===== verification/DataPlane.v ===== *)
(** * The agent's data plane (plurifold-agent/src/main.rs)

    The HTTP handlers that serve probes and blobs to other agents, and byte
    ranges. *)

From Stdlib Require Import Strings.Byte.
From S2P Require Import Prelude Float64 World Text Program Bytes Files Store StoreConcurrency Core Coordinator Routes AgentCalls.
Open Scope string_scope.
Open Scope list_scope.
Open Scope Z_scope.
Open Scope prog_scope.

Definition PROBE_BYTES : Z := 256 * 1024.
Definition MAX_PROBE_BYTES : Z := 1024 * 1024.

(** [DataError], and its constructors *)
Record DataError := mkDataError { de_status : Z; de_message : string }.
Definition data_bad_request (message : string) : DataError := mkDataError 400 message.
Definition data_internal (error : string) : DataError := mkDataError 500 error.
Definition data_not_found (message : string) : DataError := mkDataError 404 message.

Record DataState := mkDataState { ds_store : LocalObjectStore; ds_resource_id : ResourceId }.

(** What the data plane is asked: [data_router] gives the method and the path. *)
Inductive DataRequest :=
| ProbeOf (bytes : Z)
| PutOf (body : Bytes)
| BlobOf (digest : string) (range : option string).
Definition data_router (request : DataRequest) : Method * string :=
  match request with
  | ProbeOf bytes => (GET, "/v1/probe/" +:+ show bytes)
  | PutOf _ => (POST, "/v1/objects")
  | BlobOf digest _ => (GET, "/v1/blobs/" +:+ digest)
  end.
(** [DataError::into_response] *)
Definition data_into_response `{HttpServer} (error : DataError) : Z * Bytes :=
  (de_status error, error_json (de_message error)).

(** [probe_bytes]; the path segment has been parsed as a [usize]. *)
Definition probe_bytes (bytes : Z) : outcome DataError Bytes :=
  if MAX_PROBE_BYTES <? bytes
  then Err (data_bad_request ("probe payload cannot exceed " +:+ show MAX_PROBE_BYTES +:+ " bytes"))
  else Ok (replicate (Z.to_nat bytes) x00).

Section data_plane.
Context `{Sha256Crate} `{ErrorTexts} `{HttpCrate}.

(** [put_object] *)
Definition put_object (state : DataState) (body : Bytes) : prog AgentCall (outcome DataError ObjectMetadata) :=
  ptry (λ e, data_internal (store_error_to_string e))
    (translate (λ R, OnFiles) (store_put (ds_store state) body)) (λ stored,
  let* uuid := call RandomUuid in
  Done (Ok (mkObjectMetadata (mkId uuid) (so_size_bytes stored) (Some (so_digest stored))
              (Some "application/octet-stream") [ds_resource_id state] None))).

(** [parse_byte_range]; [usize] is 64 bits. *)
Definition parse_byte_range (range_header : option string) (total : Z) : outcome DataError (option (Z * Z)) :=
  match range_header with
  | None => Ok None
  | Some value =>
      obind (ok_or (data_bad_request "Range header is not valid ASCII") (header_to_str value)) (λ value,
      obind (ok_or (data_bad_request "only byte ranges are supported") (strip_prefix "bytes=" value)) (λ spec,
      if contains_char comma spec then Err (data_bad_request "multiple byte ranges are not supported")
      else
        obind (ok_or (data_bad_request "invalid byte range") (split_once hyphen spec)) (λ '(start, end_),
        obind (ok_or (data_bad_request "byte range start must be an integer") (parse_unsigned u64_max start)) (λ start,
        obind (ok_or (data_bad_request "byte range end must be an integer") (parse_unsigned u64_max end_)) (λ end_,
        if (end_ <? start) || (total <=? end_)
        then Err (mkDataError 416 "byte range is outside the object")
        else Ok (Some (start, end_ + 1)))))))
  end.

(** A header whose value may be rejected. *)
Definition insert_header (name value : string) (headers : gmap string string) :
    outcome DataError (gmap string string) :=
  match header_from_str value with
  | Some v => Ok (<[name := v]> headers)
  | None => Err (data_internal "failed to parse header value")
  end.

(** What [get_blob] does with the bytes it has read. *)
Definition blob_response (digest : string) (bytes : Bytes) (range_header : option string) :
    outcome DataError HttpResponse :=
  let total := Z.of_nat (length bytes) in
  obind (parse_byte_range range_header total) (λ requested,
  obind (match requested with
         | Some (start, end_exclusive) => obind (slice bytes start end_exclusive) (λ payload, Ok (payload, requested))
         | None => Ok (bytes, None)
         end) (λ '(payload, range),
  obind (match range with
         | Some (start, end_exclusive) =>
             obind (insert_header "content-range"
               ("bytes " +:+ show start +:+ "-" +:+ show (end_exclusive - 1) +:+ "/" +:+ show total) ∅) (λ headers,
             obind (insert_header "x-plurifold-range-digest" (sha256_digest payload) headers) (λ headers,
             Ok (206, headers)))
         | None => Ok (200, ∅)
         end) (λ '(status, headers),
  obind (insert_header "x-plurifold-digest" digest
           (<["content-type" := "application/octet-stream"]> (<["accept-ranges" := "bytes"]> headers))) (λ headers,
  Ok (mkHttpResponse status headers (Ok payload)))))).

(** [get_blob] *)
Definition get_blob (state : DataState) (digest : string) (range_header : option string) :
    prog FsCall (outcome DataError HttpResponse) :=
  let digest := "sha256:" +:+ digest in
  ptry (λ error, match error with
                 | Io NotFound => data_not_found "object not found"
                 | other => data_internal (store_error_to_string other)
                 end)
    (store_get (ds_store state) digest) (λ bytes,
  Done (blob_response digest bytes range_header)).

(** ** Byte ranges *)

(** What a client writes to ask for [length] bytes from [offset]. *)
Definition range_header (offset end_ : Z) : string := "bytes=" +:+ show offset +:+ "-" +:+ show (end_ - 1).

Lemma visible_digits s : all_chars is_digit s = true → visible_ascii s = true.
Proof.
  apply all_chars_impl. intros a. unfold is_digit, digit_value. destruct (_ && _)%N eqn:Ha; [|done]. intros _.
  apply andb_true_iff in Ha as [Hlo%N.leb_le Hhi%N.leb_le]. apply andb_true_iff. split; apply N.leb_le; lia.
Qed.
Lemma visible_ascii_app s t : visible_ascii (s +:+ t) = visible_ascii s && visible_ascii t.
Proof. apply all_chars_app. Qed.

(** A range the client writes is read back. *)
Lemma parse_range_header offset end_ total :
  0 ≤ offset < end_ → end_ ≤ total ≤ u64_max →
  parse_byte_range (Some (range_header offset end_)) total = Ok (Some (offset, end_)).
Proof.
  intros Hrange Htotal. unfold parse_byte_range, range_header.
  pose proof (show_digits offset ltac:(lia)) as Ho. pose proof (show_digits (end_ - 1) ltac:(lia)) as He.
  rewrite header_to_str_visible by (by rewrite !visible_ascii_app, (visible_digits _ Ho), (visible_digits _ He)).
  unfold ok_or, obind. rewrite strip_prefix_app.
  rewrite !contains_char_app, (contains_char_absent is_digit comma _ Ho), (contains_char_absent is_digit comma _ He) by done.
  change (contains_char comma "-") with false. cbn [orb].
  assert (split_once hyphen (show offset +:+ "-" +:+ show (end_ - 1)) = Some (show offset, show (end_ - 1))) as ->
    by (apply (split_once_app hyphen); by apply (contains_char_absent is_digit)).
  rewrite !parse_show by lia.
  destruct (Z.ltb_spec (end_ - 1) offset); [lia|]. destruct (Z.leb_spec total (end_ - 1)); [lia|].
  simpl. by replace (end_ - 1 + 1) with end_ by lia.
Qed.
Lemma parse_byte_range_Ok header total start end_ :
  parse_byte_range header total = Ok (Some (start, end_)) → 0 ≤ start < end_ ∧ end_ ≤ total.
Proof.
  unfold parse_byte_range. destruct header as [value|]; [|done].
  destruct (header_to_str value) as [v|]; [|done]. unfold ok_or, obind.
  destruct (strip_prefix _ v) as [spec|]; [|done]. destruct (contains_char comma spec); [done|].
  destruct (split_once hyphen spec) as [[s e]|]; [|done].
  destruct (parse_unsigned u64_max s) as [s'|] eqn:Hs; [|done].
  destruct (parse_unsigned u64_max e) as [e'|] eqn:He; [|done].
  destruct (Z.ltb_spec e' s'); [done|]. destruct (Z.leb_spec total e'); [done|]. simpl. intros [= <- <-].
  apply parse_unsigned_range in Hs. lia.
Qed.

(** ** Serving a blob *)

Lemma hexdigit_visible a : is_ascii_hexdigit a = true →
  ((32 <=? Ascii.N_of_ascii a)%N && (Ascii.N_of_ascii a <=? 126)%N) = true.
Proof.
  unfold is_ascii_hexdigit. rewrite !orb_true_iff, !andb_true_iff, !N.leb_le. lia.
Qed.
Lemma visible_digest bytes : visible_ascii (sha256_digest bytes) = true.
Proof.
  unfold sha256_digest. rewrite visible_ascii_app. simpl.
  pose proof (sha256_hex_digits bytes) as [_ Hd]%andb_true_iff.
  by apply (all_chars_impl _ _ _ hexdigit_visible).
Qed.
Lemma insert_visible name value headers :
  visible_ascii value = true → insert_header name value headers = Ok (<[name := value]> headers).
Proof. intros Hv. unfold insert_header. by rewrite header_from_str_visible. Qed.

(** The answer to a request for [range] of [bytes] (the whole, if [None]). *)
Definition answers_with (bytes : Bytes) (range : option (Z * Z)) (response : HttpResponse) : Prop :=
  match range with
  | None => resp_status response = 200 ∧ resp_body response = Ok bytes
  | Some (start, end_) =>
      0 ≤ start < end_ ∧ end_ ≤ Z.of_nat (length bytes) ∧ resp_status response = 206 ∧
      resp_body response = Ok (sub_bytes bytes (start, end_ - start)) ∧
      resp_headers response !! "x-plurifold-range-digest" =
        Some (sha256_digest (sub_bytes bytes (start, end_ - start)))
  end.

Lemma blob_response_range bytes header range :
  parse_byte_range header (Z.of_nat (length bytes)) = Ok range →
  ∃ response, blob_response (sha256_digest bytes) bytes header = Ok response ∧ answers_with bytes range response.
Proof.
  intros Hparse. unfold blob_response. rewrite Hparse. simpl. destruct range as [[start end_]|]; simpl.
  - apply parse_byte_range_Ok in Hparse as [Hrange Hend]. rewrite slice_Ok by lia. simpl.
    rewrite insert_visible.
    2:{ rewrite !visible_ascii_app, !(visible_digits (show _)) by (apply show_digits; lia). done. }
    simpl. rewrite insert_visible by apply visible_digest. simpl. rewrite insert_visible by apply visible_digest.
    eexists. split; [done|]. simpl. split_and!; [lia..|done|done|].
    by rewrite !lookup_insert_ne, lookup_insert_eq by done.
  - rewrite insert_visible by apply visible_digest. by eexists.
Qed.

Lemma blob_response_error bytes header e :
  parse_byte_range header (Z.of_nat (length bytes)) = Err e →
  blob_response (sha256_digest bytes) bytes header = Err e.
Proof. intros Hparse. unfold blob_response. by rewrite Hparse. Qed.

(** The header asks for the bytes from [start] to [last], both included: it is
    text of the form [bytes=<start>-<last>] with two numbers a [usize] holds. *)
Definition asks (value : string) (start last : Z) : Prop :=
  ∃ s e, header_to_str value = Some ("bytes=" +:+ s +:+ "-" +:+ e) ∧
    parse_unsigned u64_max s = Some start ∧ parse_unsigned u64_max e = Some last.

Lemma digits_value_chars acc s n c :
  digits_value acc s = Some n → digit_value c = None → contains_char c s = false.
Proof.
  revert acc. induction s as [|a s IH]; intros acc; simpl; [done|].
  intros (d & Hd & Hs)%bind_Some Hc. rewrite (IH _ Hs Hc), orb_false_r.
  destruct (Ascii.eqb_spec a c) as [->|]; [congruence|done].
Qed.
Lemma parse_unsigned_chars max s n c :
  parse_unsigned max s = Some n → digit_value c = None → Ascii.eqb (Ascii.ascii_of_N 43) c = false → contains_char c s = false.
Proof.
  unfold parse_unsigned. intros Hs Hc Hplus. destruct (strip_prefix "+" s) as [s'|] eqn:Hp.
  - apply strip_prefix_Some in Hp as ->. 
    transitivity (Ascii.eqb (Ascii.ascii_of_N 43) c || contains_char c s'); [done|]. rewrite Hplus. simpl.
    destruct s'; [done|]. apply bind_Some in Hs as (v & Hv & _). by eapply digits_value_chars.
  - destruct s; [done|]. apply bind_Some in Hs as (v & Hv & _). by eapply digits_value_chars.
Qed.

(** A header that asks for a range gets it or 416; any other gets 400. *)
Lemma parse_byte_range_asks value total start last :
  asks value start last →
  parse_byte_range (Some value) total =
    if (last <? start) || (total <=? last) then Err (mkDataError 416 "byte range is outside the object")
    else Ok (Some (start, last + 1)).
Proof.
  intros (s & e & Hv & Hs & He). unfold parse_byte_range. rewrite Hv. unfold ok_or, obind.
  rewrite strip_prefix_app, !contains_char_app.
  rewrite (parse_unsigned_chars _ _ _ comma Hs), (parse_unsigned_chars _ _ _ comma He) by done.
  change (contains_char comma "-") with false. cbn [orb].
  assert (split_once hyphen (s +:+ "-" +:+ e) = Some (s, e)) as ->
    by (apply (split_once_app hyphen); by eapply parse_unsigned_chars).
  by rewrite Hs, He.
Qed.
Lemma split_once_Some c s before after : split_once c s = Some (before, after) → s = before +:+ String c after.
Proof.
  revert before. induction s as [|a s IH]; intros before; simpl; [done|].
  destruct (Ascii.eqb_spec a c) as [->|]; [by intros [= <- <-]|].
  intros ([b f] & Hs & [= <- <-])%bind_Some. by rewrite (IH _ Hs).
Qed.
Lemma parse_byte_range_asks_or_not value total :
  (∃ start last, asks value start last) ∨
  (∃ message, parse_byte_range (Some value) total = Err (data_bad_request message)) ∧
    ∀ start last, ¬ asks value start last.
Proof.
  assert ((∃ start last, asks value start last) ∨
    ∃ message, parse_byte_range (Some value) total = Err (data_bad_request message)) as [Hasks|[message Hbad]].
  - unfold parse_byte_range. destruct (header_to_str value) as [v|] eqn:Hv; [|by right; eexists].
    unfold ok_or, obind. destruct (strip_prefix _ v) as [spec|] eqn:Hspec; [|by right; eexists].
    destruct (contains_char comma spec); [by right; eexists|].
    destruct (split_once hyphen spec) as [[s e]|] eqn:Hsplit; [|by right; eexists].
    destruct (parse_unsigned u64_max s) as [start|] eqn:Hs; [|by right; eexists].
    destruct (parse_unsigned u64_max e) as [last|] eqn:He; [|by right; eexists].
    left. exists start, last, s, e. apply strip_prefix_Some in Hspec as ->.
    apply split_once_Some in Hsplit as ->. by rewrite Hv.
  - by left.
  - right. split; [by eexists|]. intros start last Hasks%(parse_byte_range_asks _ total).
    rewrite Hbad in Hasks. by destruct (_ || _).
Qed.

Lemma path_for_digest_name self name :
  path_for_digest self ("sha256:" +:+ name) =
    if is_hex_digest name then Ok (store_path self name) else Err (UnsupportedDigest ("sha256:" +:+ name)).
Proof.
  unfold path_for_digest, is_hex_digest. rewrite strip_prefix_app. cbn [ok_or obind].
  by destruct (_ =? _)%nat, (forallb _ _).
Qed.
(** What [get_blob] makes of the bytes of the blob it has read. *)
Lemma blob_response_exact bytes header :
  match blob_response (sha256_digest bytes) bytes header with
  | Ok response =>
      match header with
      | None => answers_with bytes None response
      | Some value => ∃ start last, asks value start last ∧ start ≤ last < Z.of_nat (length bytes) ∧
          answers_with bytes (Some (start, last + 1)) response
      end
  | Err error => ∃ value, header = Some value ∧
      ((de_status error = 400 ∧ ∀ start last, ¬ asks value start last) ∨
       (de_status error = 416 ∧ ∃ start last, asks value start last ∧
          (last < start ∨ Z.of_nat (length bytes) ≤ last)))
  | Panic | Diverged => False
  end.
Proof.
  set (total := Z.of_nat (length bytes)). destruct header as [value|].
  - destruct (parse_byte_range_asks_or_not value total) as [(start & last & Hasks)|[[message Hbad] Hno]].
    + pose proof (parse_byte_range_asks value total start last Hasks) as Hparse.
      destruct (_ || _) eqn:Hout in Hparse.
      * rewrite (blob_response_error _ _ _ Hparse). exists value. split; [done|]. right. split; [done|].
        exists start, last. split; [done|]. apply orb_true_iff in Hout as [?%Z.ltb_lt|?%Z.leb_le]; auto.
      * destruct (blob_response_range _ _ _ Hparse) as (response & -> & Hans). exists start, last.
        apply orb_false_iff in Hout as [?%Z.ltb_ge ?%Z.leb_gt]. split_and!; auto.
    + rewrite (blob_response_error _ _ _ Hbad). exists value. split; [done|]. by left.
  - by destruct (blob_response_range bytes None None eq_refl) as (response & -> & Hans).
Qed.

(** What reading the blob's file gives: this read's fault, or the file. *)
Definition blob_read (state : DataState) (name : string) (h : Host) : outcome IoError Bytes :=
  match h_faults h 0 with
  | Some fault => Err (fault_error fault)
  | None => read_file (store_path (ds_store state) name) (h_files h)
  end.

Lemma blob_read_fault_free state name h : fault_free (blob_read state name h).
Proof. unfold blob_read. destruct (h_faults h 0); [done|]. apply read_file_fault_free. Qed.

(** C34 The data plane answers exactly what was asked: whatever the request's
    path and [Range] header and whatever the disk holds, [get_blob] does not
    panic and changes nothing.  It succeeds when the blob's file is read, hashes
    to its name, and the header is absent or asks for a range that lies in the
    blob; the answer is the blob (200) or that range with its digest (206).  It
    answers 404 when the name is a digest and there is no such file, 500 when the
    name is no digest, the read fails in another way or the bytes have another
    hash, 400 when the header of a sound blob asks for no range, and 416 when the
    range it asks for is empty or not within the blob. *)
Theorem get_blob_serves state name header h :
  let '(result, h') := run perform (get_blob state name header) h in
  h_files h' = h_files h ∧
  match result with
  | Ok response =>
      ∃ bytes, is_hex_digest name = true ∧ blob_read state name h = Ok bytes ∧ sha256_hex bytes = name ∧
        match header with
        | None => answers_with bytes None response
        | Some value => ∃ start last, asks value start last ∧ start ≤ last < Z.of_nat (length bytes) ∧
            answers_with bytes (Some (start, last + 1)) response
        end
  | Err error =>
      (de_status error = 404 ∧ is_hex_digest name = true ∧ blob_read state name h = Err NotFound) ∨
      (de_status error = 500 ∧
         (is_hex_digest name = false ∨ (∃ e, e ≠ NotFound ∧ blob_read state name h = Err e) ∨
          ∃ bytes, blob_read state name h = Ok bytes ∧ sha256_hex bytes ≠ name)) ∨
      (∃ bytes value, blob_read state name h = Ok bytes ∧ sha256_hex bytes = name ∧ header = Some value ∧
         ((de_status error = 400 ∧ ∀ start last, ¬ asks value start last) ∨
          (de_status error = 416 ∧ ∃ start last, asks value start last ∧
             (last < start ∨ Z.of_nat (length bytes) ≤ last))))
  | Panic | Diverged => False
  end.
Proof.
  unfold get_blob, store_get, blob_read. rewrite !run_ptry, path_for_digest_name.
  destruct (is_hex_digest name); [|cbn; split; [done|]; right; left; by split; [|left]].
  cbn. destruct (match h_faults h 0 with Some _ => _ | None => _ end) as [bytes|e| |] eqn:Hread; cbn.
  - unfold verify. case_bool_decide as Heq; cbn; (split; [done|]).
    + apply (inj (String.append "sha256:")) in Heq. pose proof (blob_response_exact bytes header) as Hexact.
      replace (String.append "sha256:" name) with (sha256_digest bytes) by (unfold sha256_digest; congruence).
      destruct (blob_response _ bytes header) as [response|error| |]; [|destruct Hexact as (value & ? & ?)|done..].
      * by exists bytes.
      * right; right. by exists bytes, value.
    + right; left. split; [done|]. right; right. exists bytes. split; [done|]. intros <-. by destruct Heq.
  - split; [done|]. destruct e; [by left|right; left..]; (split; [done|]); right; left; eexists; (split; [|reflexivity]); discriminate.
  - pose proof (blob_read_fault_free state name h) as Hff. unfold blob_read in Hff. by rewrite Hread in Hff.
  - pose proof (blob_read_fault_free state name h) as Hff. unfold blob_read in Hff. by rewrite Hread in Hff.
Qed.
End data_plane.
