(* ===== verification/Agent.v ===== *)
(** * The agent's dealings with the coordinator and its peers
    (plurifold-agent/src/main.rs)

    Registration, heartbeats and polls; fetching the inputs of a task; running
    it and committing its output; renewing its lease; measuring links. *)

From Stdlib Require Import Strings.Byte.
From S2P Require Import Prelude Float64 World Text Program Bytes Files Store StoreConcurrency Core Coordinator Routes AgentCalls Operators Executor TaskExecution DataPlane.
Open Scope string_scope.
Open Scope list_scope.
Open Scope Z_scope.
Open Scope prog_scope.

Section agent.
Context `{Sha256Crate} `{ErrorTexts} `{HttpCrate} `{SerdeJson} `{UuidCrate}.

(** ** Answers *)

(** [response_error] *)
Definition response_error (response : HttpResponse) : string :=
  let status := status_to_string (resp_status response) in
  match obind (resp_body response) error_of_json with
  | Ok error => status +:+ ": " +:+ error
  | _ => status
  end.
(** [parse_json] *)
Definition parse_json {T} (of_json : Bytes → outcome string T) (response : HttpResponse) : agent T :=
  if negb (is_success (resp_status response)) then fail (response_error response)
  else of_outcome (map_err Message (obind (resp_body response) of_json)).
(** [expect_success] *)
Definition expect_success (response : HttpResponse) : agent unit :=
  if is_success (resp_status response) then Done (Ok tt) else fail (response_error response).

(** ** The coordinator *)

(** [register] *)
Definition register (coordinator data_endpoint : string) (descriptor : ResourceDescriptor) :
    agent MembershipLease :=
  let? response := ask (Send (HttpPost (coordinator +:+ "/v1/resources/register")
                                (RegisterResource descriptor data_endpoint))) in
  parse_json register_response_of_json response.
(** [send_heartbeat] *)
Definition send_heartbeat (coordinator : string) (lease : MembershipLease) : agent MembershipLease :=
  let? response := ask (Send (HttpPost (coordinator +:+ "/v1/resources/heartbeat")
                                (Heartbeat (ml_resource_id lease) (ml_epoch lease)))) in
  parse_json membership_of_json response.
(** [poll_work] *)
Definition poll_work (coordinator : string) (lease : MembershipLease) : agent (option WorkAssignment) :=
  let? response := ask (Send (HttpPost (coordinator +:+ "/v1/work/poll")
                                (PollWork (ml_resource_id lease) (ml_epoch lease)))) in
  parse_json assignment_of_json response.
(** [report_link_measurement] *)
Definition report_link_measurement (coordinator : string) (lease : MembershipLease)
    (peer : ResourceId) (measurement : LinkMeasurement) : agent unit :=
  let? response := ask (Send (HttpPost (coordinator +:+ "/v1/topology/measurement")
                                (ReportLinkMeasurement (ml_resource_id lease) (ml_epoch lease) peer measurement))) in
  expect_success response.

(** ** Links *)

Definition RTT_PROBE_SAMPLES : nat := 3.

(** [Duration::as_secs_f64] of a duration in nanoseconds. *)
Definition as_secs_f64 (nanos : Z) : f64 :=
  (f64_of_Z (nanos / 1000000000) + f64_of_Z (nanos mod 1000000000) / 1000000000)%float.

(** [fetch_probe]: the time it took, in nanoseconds ([Instant] saturates at 0). *)
Definition fetch_probe (endpoint : string) (bytes : Z) : agent Z :=
  let* started := call MonotonicNanos in
  let? response := ask (Send (HttpGet (endpoint +:+ "/v1/probe/" +:+ show bytes) None)) in
  if negb (is_success (resp_status response)) then fail (response_error response)
  else
    let? body := of_outcome (map_err Message (resp_body response)) in
    if negb (Z.of_nat (length body) =? bytes)
    then fail ("probe returned " +:+ show_nat (length body) +:+ " bytes, expected " +:+ show bytes)
    else
      let* now := call MonotonicNanos in
      Done (Ok (Z.max 0 (now - started))).

Fixpoint probe_rtt (endpoint : string) (samples : nat) (rtt_ms : f64) : agent f64 :=
  match samples with
  | O => Done (Ok rtt_ms)
  | S samples' =>
      let? elapsed := fetch_probe endpoint 0 in
      probe_rtt endpoint samples' (f64_min rtt_ms (as_secs_f64 elapsed * 1000)%float)
  end.

(** [measure_peer] *)
Definition measure_peer (endpoint : string) : agent (f64 * f64) :=
  let endpoint := trim_end_slashes endpoint in
  let? rtt_ms := probe_rtt endpoint RTT_PROBE_SAMPLES infinity in
  let? elapsed := fetch_probe endpoint PROBE_BYTES in
  let payload_elapsed_ms := f64_max (as_secs_f64 elapsed * 1000 - rtt_ms)%float 0.1%float in
  let bandwidth_mbps := (f64_of_Z PROBE_BYTES * 8 / payload_elapsed_ms / 1000)%float in
  Done (Ok (rtt_ms, bandwidth_mbps)).

(** Of two agents the one with the smaller identifier, as text, measures. *)
Definition measures (self peer : ResourceId) : bool :=
  negb (bool_decide (peer = self))
  && match String.compare (id_to_string self) (id_to_string peer) with Lt => true | _ => false end.

Fixpoint probe_peers (coordinator : string) (lease : MembershipLease) (peers : list ResourceView) : agent unit :=
  match peers with
  | [] => Done (Ok tt)
  | peer :: peers' =>
      let peer_id := rd_id (rv_descriptor peer) in
      if negb (measures (ml_resource_id lease) peer_id) then probe_peers coordinator lease peers'
      else
        match rv_data_endpoint peer with
        | None => probe_peers coordinator lease peers'
        | Some endpoint =>
            let* measured := measure_peer endpoint in
            match measured with
            | Panic => Done Panic
            | Diverged => Done Diverged
            | Ok _ | Err _ =>
                let measurement := match measured with
                                   | Ok (rtt_ms, bandwidth_mbps) => Reachable rtt_ms bandwidth_mbps
                                   | _ => Unreachable
                                   end in
                let? _ := report_link_measurement coordinator lease peer_id measurement in
                probe_peers coordinator lease peers'
            end
        end
  end.
(** [discover_topology] *)
Definition discover_topology (coordinator : string) (lease : MembershipLease) : agent unit :=
  let? response := ask (Send (HttpGet (coordinator +:+ "/v1/resources") None)) in
  let? resources := parse_json resources_of_json response in
  probe_peers coordinator lease resources.

(** ** Inputs *)

Definition no_replicas : AgentError := Message "no replicas supplied".

(** The replicas of a byte range, tried in order: the first good answer. *)
Fixpoint fetch_range (replicas : list ObjectReplica) (offset end_ length_ : Z) (last_error : AgentError) :
    agent Bytes :=
  match replicas with
  | [] => Done (Err last_error)
  | replica :: replicas' =>
      let url := or_url replica in
      let* sent := call (Send (HttpGet url (Some (range_header offset end_)))) in
      match sent with
      | Panic => Done Panic
      | Diverged => Done Diverged
      | Err error => fetch_range replicas' offset end_ length_ (Message error)
      | Ok response =>
          if negb (resp_status response =? 206) then
            fetch_range replicas' offset end_ length_
              (Message ("replica " +:+ url +:+ " returned " +:+ status_to_string (resp_status response) +:+ " for byte range"))
          else
            match resp_headers response !! "x-plurifold-range-digest" ≫= header_to_str with
            | None =>
                fetch_range replicas' offset end_ length_ (Message ("replica " +:+ url +:+ " omitted range digest"))
            | Some expected_range_digest =>
                let? bytes := of_outcome (map_err Message (resp_body response)) in
                if negb (Z.of_nat (length bytes) =? length_) then
                  fetch_range replicas' offset end_ length_
                    (Message ("replica " +:+ url +:+ " returned " +:+ show_nat (length bytes) +:+
                              " range bytes, expected " +:+ show length_))
                else
                  let actual := "sha256:" +:+ sha256_hex bytes in
                  if negb (bool_decide (actual = expected_range_digest)) then
                    fetch_range replicas' offset end_ length_
                      (Message ("replica range digest mismatch: expected " +:+ expected_range_digest +:+
                                ", received " +:+ actual))
                  else Done (Ok bytes)
            end
      end
  end.

(** The replicas of a whole object, tried in order; a good one is stored and
    announced. *)
Fixpoint fetch_whole (coordinator : string) (store : LocalObjectStore) (resource_id : ResourceId)
    (object_id : ObjectId) (digest : string) (replicas : list ObjectReplica) (last_error : AgentError) :
    agent Bytes :=
  match replicas with
  | [] => Done (Err last_error)
  | replica :: replicas' =>
      let url := or_url replica in
      let* sent := call (Send (HttpGet url None)) in
      match sent with
      | Panic => Done Panic
      | Diverged => Done Diverged
      | Err error => fetch_whole coordinator store resource_id object_id digest replicas' (Message error)
      | Ok response =>
          if negb (is_success (resp_status response)) then
            fetch_whole coordinator store resource_id object_id digest replicas'
              (Message ("replica " +:+ url +:+ " returned " +:+ status_to_string (resp_status response)))
          else
            let? bytes := of_outcome (map_err Message (resp_body response)) in
            let? stored := on_store (store_put store bytes) in
            if negb (bool_decide (so_digest stored = digest)) then
              fetch_whole coordinator store resource_id object_id digest replicas'
                (Message ("replica digest mismatch: expected " +:+ digest +:+ ", received " +:+ so_digest stored))
            else
              let? response := ask (Send (HttpPost (coordinator +:+ "/v1/objects/replica")
                                            (RegisterReplica object_id resource_id))) in
              let? _ := expect_success response in
              Done (Ok bytes)
      end
  end.

(** The range to read: none when it is the whole object. *)
Definition wanted_range (size_bytes : Z) (range : option (Z * Z)) : option (Z * Z) :=
  match range with
  | Some (offset, length_) => if (offset =? 0) && (length_ =? size_bytes) then None else range
  | None => None
  end.

(** [materialize_input]; [usize] is 64 bits, so [usize::try_from] succeeds. *)
Definition materialize_input (coordinator : string) (store : LocalObjectStore) (resource_id : ResourceId)
    (input : ResolvedObject) (range : option (Z * Z)) : agent Bytes :=
  let metadata := ro_metadata input in
  let? digest := require ("input " +:+ id_to_string (om_id metadata) +:+ " has no digest") (om_digest metadata) in
  match wanted_range (om_size_bytes metadata) range with
  | Some (offset, length_) =>
      let? end_ := require "input byte range overflows" (checked_add64 offset length_) in
      if om_size_bytes metadata <? end_ then
        fail ("input byte range " +:+ show offset +:+ ".." +:+ show end_ +:+ " exceeds object size " +:+
              show (om_size_bytes metadata))
      else if length_ =? 0 then Done (Ok [])
      else
        let* local := translate (λ R, OnFiles) (store_contains store digest) in
        if local : bool then
          let? bytes := on_store (store_get store digest) in
          of_outcome (slice bytes offset end_)
        else fetch_range (ro_replicas input) offset end_ length_ no_replicas
  | None =>
      let* local := translate (λ R, OnFiles) (store_contains store digest) in
      if local : bool then on_store (store_get store digest)
      else fetch_whole coordinator store resource_id (om_id metadata) digest (ro_replicas input) no_replicas
  end.

(** ** One execution *)

Fixpoint materialize_inputs (coordinator : string) (store : LocalObjectStore) (resource_id : ResourceId)
    (task : TaskSpec) (input_index : nat) (inputs : list ResolvedObject) : agent (list Bytes) :=
  match inputs with
  | [] => Done (Ok [])
  | input :: inputs' =>
      let? bytes := materialize_input coordinator store resource_id input (input_byte_range task input_index) in
      let? rest := materialize_inputs coordinator store resource_id task (S input_index) inputs' in
      Done (Ok (bytes :: rest))
  end.

(** [execute_and_commit], beside the loop that renews the lease. *)
Definition execute_and_commit (coordinator : string) (store : LocalObjectStore) (executor : ExecutorPolicy)
    (resource_id : ResourceId) (assignment : WorkAssignment) : agent unit :=
  let task := wa_task assignment in
  let? input_bytes := materialize_inputs coordinator store resource_id task 0 (wa_inputs assignment) in
  let? output_bytes := execute_task_with_policy executor task input_bytes in
  let? stored := on_store (store_put store output_bytes) in
  let* uuid := call RandomUuid in
  let output := mkObjectMetadata (mkId uuid) (so_size_bytes stored) (Some (so_digest stored))
                  (Some "application/octet-stream") [resource_id] (Some (ts_id task)) in
  let* lease := call GetLease in
  let? response := ask (Send (HttpPost (coordinator +:+ "/v1/work/complete") (CompleteExecution lease [output]))) in
  expect_success response.

(** ** Keeping the lease *)

(** [now_unix_ms] *)
Definition now_unix_ms : agent Z :=
  let* t := call SystemTime in
  Done (if t <? 0 then Panic else Ok (if t <=? u64_max then t else u64_max)).

(** How long the loop sleeps when the lease has [remaining] milliseconds. *)
Definition renewal_sleep (remaining : Z) : Z := Z.min (Z.max (remaining / 3) 50) 5000.

(** One turn of [renew_execution_loop]: whether the loop goes on. *)
Definition renew_turn (coordinator : string) : agent bool :=
  let* lease := call GetLease in
  let? now := now_unix_ms in
  let remaining := Z.max 0 (el_expires_at_unix_ms lease - now) in
  if remaining =? 0 then Done (Ok false)
  else
    let* _ := call (Sleep (renewal_sleep remaining)) in
    let* current := call GetLease in
    let* sent := call (Send (HttpPost (coordinator +:+ "/v1/work/renew") (RenewExecution current))) in
    match sent with
    | Panic => Done Panic
    | Diverged => Done Diverged
    | Err _ => Done (Ok true)
    | Ok response =>
        let* renewed := parse_json execution_of_json response in
        match renewed with
        | Ok lease => let* _ := call (SetLease lease) in Done (Ok true)
        | Err _ => Done (Ok false)
        | Panic => Done Panic
        | Diverged => Done Diverged
        end
    end.
(** [renew_execution_loop], for [turns] turns at most. *)
Fixpoint renew_execution_loop (turns : nat) (coordinator : string) : agent unit :=
  match turns with
  | O => Done Diverged
  | S turns' =>
      let? continue := renew_turn coordinator in
      if continue : bool then renew_execution_loop turns' coordinator else Done (Ok tt)
  end.
End agent.

(** ** What is known of a materialized input *)

Section materialize.
Context `{Sha256Crate} `{ErrorTexts} `{HttpCrate} `{SerdeJson} `{UuidCrate}.

(** Any answer at all. *)
Definition anything (R : Type) (c : AgentCall R) (r : R) : Prop := True.

Lemma ensures_get (φ : outcome AgentError Bytes → Prop) store digest :
  (∀ bytes, digest = sha256_digest bytes → φ (Ok bytes)) → (∀ e, φ (Err e)) → φ Panic → φ Diverged →
  ensures anything (on_store (store_get store digest)) φ.
Proof.
  intros Hok Herr Hpanic Hdiv. unfold on_store, store_get.
  destruct (path_for_digest store digest) as [path|e| |]; cbn; [|by auto..]. intros [bytes|e| |] _; cbn; auto.
  destruct (verify digest bytes) as [[]|e| |] eqn:Hv; cbn; auto. apply Hok. by apply verify_Ok.
Qed.
Lemma ensures_put (φ : outcome AgentError StoredObject → Prop) store bytes :
  φ (Ok (stored_object store bytes)) → (∀ e, φ (Err e)) → φ Panic → φ Diverged →
  ensures anything (on_store (store_put store bytes)) φ.
Proof.
  intros Hok Herr Hpanic Hdiv. unfold on_store, store_put, fs_write. cbn. intros [|] _; cbn; [done|].
  intros id _ pid _ [[]|e| |] _; cbn; auto. intros [[]|e| |] _; cbn; auto. intros [[]|e| |] _; cbn; auto.
  intros [|] _; cbn; auto.
Qed.

#[local] Arguments on_store : simpl never.
#[local] Arguments ptry : simpl never.

Lemma ensures_fetch_range replicas offset end_ length_ last_error :
  ensures anything (fetch_range replicas offset end_ length_ last_error)
    (λ m, ∀ bytes, m = Ok bytes → Z.of_nat (length bytes) = length_).
Proof.
  revert last_error. induction replicas as [|replica replicas IH]; intros last_error; cbn; [done|].
  intros [response|e| |] _; cbn; [|apply IH|done..].
  destruct (resp_status response =? 206); cbn; [|apply IH].
  destruct (_ ≫= header_to_str) as [expected|]; cbn; [|apply IH].
  destruct (resp_body response) as [bytes|e| |]; [|done..]. unfold of_outcome, ptry at 1. cbn.
  destruct (Z.eqb_spec (Z.of_nat (length bytes)) length_) as [Hlen|]; cbn; [|apply IH].
  case_bool_decide; cbn; [|apply IH]. by intros bytes' [= <-].
Qed.
Lemma ensures_fetch_whole coordinator store resource_id object_id digest replicas last_error :
  ensures anything (fetch_whole coordinator store resource_id object_id digest replicas last_error)
    (λ m, ∀ bytes, m = Ok bytes → digest = sha256_digest bytes).
Proof.
  revert last_error. induction replicas as [|replica replicas IH]; intros last_error; cbn; [done|].
  intros [response|e| |] _; cbn; [|apply IH|done..].
  destruct (is_success (resp_status response)); cbn; [|apply IH].
  destruct (resp_body response) as [bytes|e| |]; [|done..].
  unfold ptry at 1. cbn [of_outcome map_err pbind].
  eapply ensures_ptry; [apply (ensures_put (λ m, ∀ stored, m = Ok stored → stored = stored_object store bytes)); [|done..]; by intros ? [= ->]|].
  intros [stored|e| |] Hstored; [|done..]. rewrite (Hstored _ eq_refl). cbn.
  case_bool_decide as Hdigest; cbn; [|apply IH]. unfold ask, ptry at 1. cbn. intros [answer|e| |] _; cbn; [|done..].
  unfold expect_success, ptry. destruct (is_success _); cbn; [|done]. by intros bytes' [= <-].
Qed.

(** The bytes an input must have: all of the object, or a part of that length. *)
Definition input_matches (metadata : ObjectMetadata) (range : option (Z * Z)) (bytes : Bytes) : Prop :=
  match wanted_range (om_size_bytes metadata) range with
  | None => om_digest metadata = Some (sha256_digest bytes)
  | Some (offset, length_) =>
      offset + length_ ≤ om_size_bytes metadata ∧ Z.of_nat (length bytes) = length_
  end.

Lemma ensures_materialize coordinator store resource_id input range :
  (∀ offset length_, range = Some (offset, length_) → 0 ≤ offset ∧ 0 ≤ length_) →
  ensures anything (materialize_input coordinator store resource_id input range)
    (λ m, ∀ bytes, m = Ok bytes → input_matches (ro_metadata input) range bytes).
Proof.
  intros Hrange. unfold materialize_input, input_matches.
  destruct (om_digest (ro_metadata input)) as [digest|]; [|done].
  unfold ptry at 1. cbn [require ok_or pbind].
  destruct (wanted_range _ range) as [[offset length_]|] eqn:Hwanted.
  - assert (0 ≤ offset ∧ 0 ≤ length_) as [Hoffset Hlength].
    { apply Hrange. unfold wanted_range in Hwanted. by repeat case_match; simplify_eq. }
    unfold require. destruct (checked_add64 offset length_) as [end_|] eqn:Hend; [|done].
    apply checked_add64_Some in Hend as [-> _]. unfold ptry at 1. cbn [ok_or pbind].
    destruct (Z.ltb_spec (om_size_bytes (ro_metadata input)) (offset + length_)); [done|].
    destruct (Z.eqb_spec length_ 0) as [->|]; [by intros bytes [= <-]|].
    eapply ensures_pbind with (φ := λ _, True); [apply ensures_true|].
    intros [|] _.
    + eapply ensures_ptry; [apply (ensures_get (λ _, True)); done|]. intros [bytes|e| |] _; [|done..].
      intros bytes' Hslice. split; [lia|]. unfold slice in Hslice.
      destruct (_ && _) eqn:Hbounds; [|done]. injection Hslice as <-.
      apply andb_true_iff in Hbounds as [Hb1%Z.leb_le Hb2%Z.leb_le].
      rewrite length_take, length_drop. lia.
    + eapply ensures_mono; [apply ensures_fetch_range|]. intros m Hm bytes Hok. split; [lia|]. by apply Hm.
  - eapply ensures_pbind with (φ := λ _, True); [apply ensures_true|].
    intros [|] _.
    + apply ensures_get; [|done..]. by intros bytes -> bytes' [= <-].
    + eapply ensures_mono; [apply ensures_fetch_whole|]. intros m Hm bytes Hok. f_equal. by apply Hm.
Qed.
End materialize.

Section inputs.
Context `{Sha256Crate} `{ErrorTexts} `{HttpCrate} `{SerdeJson} `{UuidCrate}.

(** The ranges of a task's shard are unsigned. *)
Definition ranges_unsigned (task : TaskSpec) : Prop :=
  ∀ index offset length_, input_byte_range task index = Some (offset, length_) → 0 ≤ offset ∧ 0 ≤ length_.

Lemma ensures_materialize_inputs coordinator store resource_id task index inputs :
  ranges_unsigned task →
  ensures anything (materialize_inputs coordinator store resource_id task index inputs)
    (λ m, ∀ contents, m = Ok contents → length contents = length inputs ∧
       ∀ i input bytes, inputs !! i = Some input → contents !! i = Some bytes →
         input_matches (ro_metadata input) (input_byte_range task (index + i)) bytes).
Proof.
  intros Hranges. revert index. induction inputs as [|input inputs IH]; intros index; cbn [materialize_inputs].
  { intros contents [= <-]. split; [done|]. intros i input bytes Hi. by rewrite lookup_nil in Hi. }
  eapply ensures_ptry; [apply ensures_materialize; intros; by eapply Hranges|].
  intros [bytes|e| |] Hbytes; [|done..].
  eapply ensures_ptry; [apply IH|]. intros [rest|e| |] Hrest; [|done..].
  intros contents [= <-]. destruct (Hrest _ eq_refl) as [Hlen Hall]. split; [simpl; by rewrite Hlen|].
  intros [|i] input' bytes' Hi Hb; simplify_eq/=.
  - rewrite Nat.add_0_r. by apply Hbytes.
  - replace (index + S i)%nat with (S index + i)%nat by lia. by eapply Hall.
Qed.

(** C16 A task never computes on the wrong bytes: whatever the disk, the network
    and the peers answer, if the inputs of an assignment are materialized then
    each one that is read whole hashes to the digest the coordinator gave for
    it, and each byte range lies inside its object and has exactly the length
    asked for. *)
Theorem inputs_are_checked coordinator store resource_id task inputs
    (Hranges : ranges_unsigned task) :
  ensures anything (materialize_inputs coordinator store resource_id task 0 inputs)
    (λ m, ∀ contents, m = Ok contents → length contents = length inputs ∧
       ∀ i input bytes, inputs !! i = Some input → contents !! i = Some bytes →
         input_matches (ro_metadata input) (input_byte_range task i) bytes).
Proof.
  eapply ensures_mono; [by apply ensures_materialize_inputs|]. done.
Qed.
End inputs.

(** ** Who measures a link *)

Lemma string_compare_flip s t : String.compare t s = CompOpp (String.compare s t).
Proof. apply String.compare_antisym. Qed.

(** Every link is measured from exactly one end: of two different agents
    whose identifiers print differently, one probes the other and not
    conversely; and no agent probes itself. *)
Theorem one_end_measures `{UuidCrate} (a b : ResourceId)
    (Hne : id_to_string a ≠ id_to_string b) :
  measures a b = negb (measures b a) ∧ measures a a = false.
Proof.
  unfold measures. assert (a ≠ b) by (intros ->; done). rewrite !bool_decide_eq_false_2 by done.
  rewrite bool_decide_eq_true_2 by done. split; [|done]. simpl.
  rewrite (string_compare_flip (id_to_string a) (id_to_string b)).
  destruct (String.compare (id_to_string a) (id_to_string b)) eqn:Hc; simpl; [|done..].
  by apply String.compare_eq_iff in Hc.
Qed.

(** ** Committing *)

Section commits.
Context `{Sha256Crate} `{ErrorTexts} `{HttpCrate} `{SerdeJson} `{UuidCrate}.

(** Calls that post nothing. *)
Definition no_post (R : Type) (c : AgentCall R) : Prop :=
  match c with Send (HttpPost _ _) => False | _ => True end.

(** What the work before a commit asks for: nothing is posted, but for the
    replicas that are announced. *)
Section before.
Context (Q : ∀ R, AgentCall R → Prop) (Hquiet : ∀ R c, no_post R c → Q R c).
#[local] Hint Resolve Hquiet : calls.
#[local] Hint Extern 1 (no_post _ _) => exact I : calls.

Lemma only_on_store {A} (p : prog FsCall (outcome StoreError A)) : makes_only Q (on_store p).
Proof. unfold on_store. follow_calls. Qed.
Lemma only_ask_get url range : makes_only Q (ask (Send (HttpGet url range))).
Proof. unfold ask. follow_calls. Qed.
#[local] Hint Resolve only_on_store only_ask_get : calls.

Lemma only_expect_success response : makes_only Q (expect_success response).
Proof. unfold expect_success, fail. follow_calls. Qed.
#[local] Hint Resolve only_expect_success : calls.

Lemma only_fetch_range replicas offset end_ length_ last_error :
  makes_only Q (fetch_range replicas offset end_ length_ last_error).
Proof.
  revert last_error. induction replicas as [|replica replicas IH]; intros last_error; cbn [fetch_range]; [done|].
  unfold of_outcome. follow_calls.
Qed.

(** The coordinator a replica is announced to. *)
Context (coordinator : string).
Context (Hreplica : ∀ object_id location,
  Q _ (Send (HttpPost (coordinator +:+ "/v1/objects/replica") (RegisterReplica object_id location)))).
#[local] Hint Resolve Hreplica : calls.
Lemma only_fetch_whole store resource_id object_id digest replicas last_error :
  makes_only Q (fetch_whole coordinator store resource_id object_id digest replicas last_error).
Proof.
  revert last_error. induction replicas as [|replica replicas IH]; intros last_error; cbn [fetch_whole]; [done|].
  unfold of_outcome, ask. follow_calls.
Qed.
#[local] Hint Resolve only_fetch_range only_fetch_whole : calls.

Lemma only_materialize store resource_id input range :
  makes_only Q (materialize_input coordinator store resource_id input range).
Proof.
  unfold materialize_input, require, of_outcome, fail. follow_calls.
Qed.
#[local] Hint Resolve only_materialize : calls.
Lemma only_materialize_inputs store resource_id task index inputs :
  makes_only Q (materialize_inputs coordinator store resource_id task index inputs).
Proof.
  revert index. induction inputs as [|input inputs IH]; intros index; cbn [materialize_inputs]; [done|].
  follow_calls.
Qed.

Lemma only_builtin artifact arguments inputs shard :
  makes_only Q (execute_builtin_operation artifact arguments inputs shard).
Proof.
  unfold execute_builtin_operation, optional_builtin_sleep, require, of_outcome, fail, tell.
  follow_calls.
Qed.
Lemma only_policy_execute executor artifact entrypoint arguments inputs shard :
  makes_only Q (policy_execute executor artifact entrypoint arguments inputs shard).
Proof.
  assert (∀ workdir inputs, makes_only Q (stage_from workdir 0 inputs)) as Hstage
    by (intros; apply only_stage; auto with calls).
  unfold policy_execute, execute_native, execute_wasi, authorize_artifact, with_staged_inputs, drop_dir,
    collect_output, require, of_outcome, fail, ask.
  follow_calls.
Qed.
#[local] Hint Resolve only_builtin only_policy_execute : calls.
Lemma only_run_stages executor stages inputs shard index previous :
  makes_only Q (run_stages executor stages inputs shard index previous).
Proof.
  revert index previous. induction stages as [|stage stages IH]; intros index previous; cbn [run_stages]; [done|].
  unfold of_outcome, execute_operation. follow_calls.
Qed.
#[local] Hint Resolve only_run_stages : calls.
Lemma only_execute_task executor task inputs :
  makes_only Q (execute_task_with_policy executor task inputs).
Proof.
  unfold execute_task_with_policy, execute_pipeline, execute_operation, require, fail. follow_calls.
Qed.
End before.

(** Any call but sending the outputs of an execution. *)
Definition not_a_commit (R : Type) (c : AgentCall R) : Prop :=
  match c with Send (HttpPost _ (CompleteExecution _ _)) => False | _ => True end.
Lemma no_post_no_commit R (c : AgentCall R) : no_post R c → not_a_commit R c.
Proof. by destruct c as [| | | | |[]| | | | | |]. Qed.

(** The store has said that the blob of [bytes] is in place. *)
Definition blob_stored (store : LocalObjectStore) (bytes : Bytes) (h : history) : Prop :=
  let blob := store_path store (sha256_hex bytes) in
  mkEvent _ (OnFiles (Exists blob)) true ∈ h ∨
  ∃ tmp, mkEvent _ (OnFiles (Rename tmp blob)) (Ok tt) ∈ h.

(** A commit names one output, already stored, under the lease last read. *)
Definition commit_allowed (store : LocalObjectStore) (resource_id : ResourceId) (task_id : TaskId)
    (h : history) (R : Type) (c : AgentCall R) : Prop :=
  match c with
  | Send (HttpPost _ (CompleteExecution lease outputs)) =>
      mkEvent _ GetLease lease ∈ h ∧
      ∃ bytes id, blob_stored store bytes h ∧
        outputs = [mkObjectMetadata id (Z.of_nat (length bytes)) (Some (sha256_digest bytes))
                     (Some "application/octet-stream") [resource_id] (Some task_id)]
  | _ => True
  end.

Lemma calls_only_put store resource_id task_id bytes h :
  calls_only (commit_allowed store resource_id task_id) h (on_store (store_put store bytes))
    (λ h' m, ∀ stored, m = Ok stored → stored = stored_object store bytes ∧ blob_stored store bytes h').
Proof.
  unfold on_store, store_put, fs_write, ptry. cbn. split; [done|]. intros [|]; cbn.
  { intros stored [= <-]. split; [done|]. left. by left. }
  split; [done|]. intros id. split; [done|]. intros pid. split; [done|]. intros [[]|e| |]; cbn; [|done..].
  split; [done|]. intros [[]|e| |]; cbn; [|done..]. split; [done|]. intros [[]|e| |]; cbn; [| |done..].
  { intros stored [= <-]. split; [done|]. right. eexists. by left. }
  split; [done|]. intros [|]; cbn; [|done]. split; [done|]. intros r stored [= <-].
  split; [done|]. left. right. by left.
Qed.

(** C13 An output is announced only once it can be served: whatever happens, the
    agent sends a completion only under a lease it has just read, with a single
    output made by this resource for this task, whose size and digest are those
    of bytes that the local store has already put in place. *)
Theorem commits_after_storing coordinator store executor resource_id assignment :
  calls_only (commit_allowed store resource_id (ts_id (wa_task assignment))) []
    (execute_and_commit coordinator store executor resource_id assignment) (λ _ _, True).
Proof.
  set (allowed := commit_allowed _ _ _).
  assert (∀ A h (p : prog AgentCall A), makes_only not_a_commit p → calls_only allowed h p (λ _ _, True)) as Hquiet.
  { intros A h p Hp. eapply calls_only_mono; [apply (calls_only_only not_a_commit); [|done]|done].
    intros h' R c Hc. destruct c as [| | | | |[|? []]| | | | | |]; done. }
  unfold execute_and_commit. cbv zeta.
  eapply calls_only_ptry; [apply Hquiet, only_materialize_inputs; [apply no_post_no_commit|done]| |done]. intros h input_bytes _.
  eapply calls_only_ptry; [apply Hquiet, only_execute_task, no_post_no_commit| |done]. intros h' output_bytes _.
  eapply calls_only_ptry; [apply calls_only_put| |done]. intros h'' stored Hstored.
  destruct (Hstored _ eq_refl) as [-> Hblob]. cbn [pbind call calls_only].
  split; [done|]. intros uuid. split; [done|]. intros lease. unfold ask, ptry. cbn. split.
  - split; [by left|]. exists output_bytes, (mkId uuid). split; [|done].
    destruct Hblob as [Hb|[tmp Hb]]; [left|right; exists tmp]; by right; right.
  - intros [response|e| |]; cbn; [|done..]. apply Hquiet, only_expect_success.
Qed.
End commits.

(** ** Reading a part of an object *)

Section ranges.
Context `{Sha256Crate} `{ErrorTexts} `{HttpCrate} `{SerdeJson} `{UuidCrate}.

(** What a peer's data plane sends back for a request of a blob. *)
Definition peer_answer (peer : DataState) (peer_host : Host) (name : string) (range : option string) : HttpResponse :=
  match (run perform (get_blob peer name range) peer_host).1 with
  | Ok response => response
  | Err error => mkHttpResponse (de_status error) ∅ (Ok (to_bytes (de_message error)))
  | Panic | Diverged => mkHttpResponse 500 ∅ (Err "connection closed")
  end.

Lemma peer_answer_range peer peer_host blob offset end_ :
  h_files peer_host !! store_path (ds_store peer) (sha256_hex blob) = Some (RegularFile blob) →
  h_faults peer_host 0 = None → 0 ≤ offset < end_ → end_ ≤ Z.of_nat (length blob) ≤ u64_max →
  answers_with blob (Some (offset, end_))
    (peer_answer peer peer_host (sha256_hex blob) (Some (range_header offset end_))).
Proof.
  intros Hfile Hfault Hrange Hend. unfold peer_answer, get_blob.
  assert (run perform (store_get (ds_store peer) ("sha256:" +:+ sha256_hex blob)) peer_host =
          (Ok blob, next_fault peer_host)) as Hget.
  { unfold store_get. change ("sha256:" +:+ sha256_hex blob) with (sha256_digest blob).
    rewrite path_for_own_digest. simpl. rewrite Hfault. unfold read_file. rewrite Hfile. simpl.
    by rewrite (proj2 (verify_Ok _ blob) eq_refl). }
  rewrite run_ptry, Hget. cbn [run fst].
  destruct (blob_response_range blob (Some (range_header offset end_)) (Some (offset, end_))) as (response & Hr & Hans);
    [by apply parse_range_header|].
  change ("sha256:" +:+ sha256_hex blob) with (sha256_digest blob). by rewrite Hr.
Qed.

Context {S : Type} (h : handler AgentCall S).

(** The object can be read here. *)
Definition read_here (store : LocalObjectStore) (blob : Bytes) : Prop :=
  ∀ s, (h _ (OnFiles (IsFile (store_path store (sha256_hex blob)))) s).1 = true ∧
       (h _ (OnFiles (ReadFile (store_path store (sha256_hex blob)))) s).1 = Ok blob.
(** It is not here, but a peer that has it answers at [url]. *)
Definition read_from (store : LocalObjectStore) (url : string) (blob : Bytes) : Prop :=
  (∀ s, (h _ (OnFiles (IsFile (store_path store (sha256_hex blob)))) s).1 = false) ∧
  ∃ peer peer_host,
    h_files peer_host !! store_path (ds_store peer) (sha256_hex blob) = Some (RegularFile blob) ∧
    h_faults peer_host 0 = None ∧
    ∀ range s, (h _ (Send (HttpGet url range)) s).1 = Ok (peer_answer peer peer_host (sha256_hex blob) range).

(** C26 A byte range is the same bytes wherever it is read: sliced from the local
    store, or requested from a peer by its [Range] header, cut out there by the
    data plane, and checked against the range digest on arrival. *)
Theorem range_reads_agree coordinator store resource_id input replica rest blob offset length_ s
    (Hdigest : om_digest (ro_metadata input) = Some (sha256_digest blob))
    (Hsize : om_size_bytes (ro_metadata input) = Z.of_nat (length blob)) (Hu64 : Z.of_nat (length blob) ≤ u64_max)
    (Hreplicas : ro_replicas input = replica :: rest)
    (Hoffset : 0 ≤ offset) (Hlength : 0 < length_) (Hend : offset + length_ ≤ Z.of_nat (length blob))
    (Hpart : length_ ≠ Z.of_nat (length blob))
    (Hread : read_here store blob ∨ read_from store (or_url replica) blob) :
  (run h (materialize_input coordinator store resource_id input (Some (offset, length_))) s).1 =
  Ok (sub_bytes blob (offset, length_)).
Proof.
  unfold materialize_input. rewrite Hdigest, Hsize. unfold wanted_range.
  rewrite (proj2 (Z.eqb_neq length_ _) Hpart), andb_false_r.
  unfold require, checked_add64. rewrite (proj2 (Z.leb_le _ _)) by lia. cbn [ok_or].
  unfold ptry at 1. cbn [pbind]. unfold ptry at 1. cbn [pbind].
  destruct (Z.ltb_spec (Z.of_nat (length blob)) (offset + length_)); [lia|].
  rewrite (proj2 (Z.eqb_neq length_ 0)) by lia.
  unfold store_contains. rewrite path_for_own_digest. rewrite run_pbind, run_translate. cbn [run call].
  destruct (h bool _ s) as [local s1] eqn:Hlocal. cbn [fst].
  destruct Hread as [Hread|[Hread (peer & peer_host & Hfile & Hfault & Hanswer)]].
  - destruct (Hread s) as [Hl _]. rewrite Hlocal in Hl. simpl in Hl. subst local.
    assert (∃ s2, run h (on_store (store_get store (sha256_digest blob))) s1 = (Ok blob, s2)) as [s2 Hget].
    { unfold on_store. rewrite run_ptry, run_translate. unfold store_get. rewrite path_for_own_digest. simpl.
      destruct (Hread s1) as [_ Hr]. destruct (h _ (OnFiles (ReadFile _)) s1) as [r s2]. simpl in Hr. subst r. simpl.
      rewrite (proj2 (verify_Ok _ blob) eq_refl). simpl. by exists s2. }
    rewrite run_ptry, Hget. unfold of_outcome. cbn [run fst]. rewrite slice_Ok by lia.
    by replace (offset + length_ - offset) with length_ by lia.
  - specialize (Hread s). rewrite Hlocal in Hread. simpl in Hread. subst local. rewrite Hreplicas.
    cbn [fetch_range]. rewrite run_pbind. cbn [run call].
    specialize (Hanswer (Some (range_header offset (offset + length_))) s1).
    destruct (h _ (Send _) s1) as [sent s2]. simpl in Hanswer. subst sent. cbn [run].
    destruct (peer_answer_range peer peer_host blob offset (offset + length_)) as (_ & _ & Hst & Hbody & Hhead);
      [done|done|lia|lia|].
    replace (offset + length_ - offset) with length_ in * by lia.
    rewrite Hst, Hhead, Hbody. cbn [negb Z.eqb Pos.eqb mbind option_bind].
    rewrite header_to_str_visible by apply visible_digest. unfold of_outcome, ptry. cbn [pbind map_err].
    rewrite length_sub_bytes by lia. rewrite Z.eqb_refl. cbn [negb].
    by rewrite bool_decide_eq_true_2.
Qed.
End ranges.

(** ** Examples *)

Definition letters : Bytes := to_bytes "abcdefghij".
Definition letters_host : Host :=
  mkHost {[ store_path sample_store (sha256_hex (Sha256Crate:=toy_sha256) letters) := RegularFile letters ]} 1 7 (λ _, None).
Definition letters_peer : DataState := mkDataState sample_store (mkId 9).
(** An agent with an empty store, whose only peer holds [letters]. *)
Definition with_peer : handler AgentCall Host := λ R c host,
  match c in AgentCall R return R * Host → R * Host with
  | Send (HttpGet url range) => λ _,
      (Ok (peer_answer (H:=toy_sha256) (H0:=toy_errors) (H1:=toy_http) letters_peer letters_host
             (sha256_hex (Sha256Crate:=toy_sha256) letters) range), host)
  | _ => λ other, other
  end (offline R c sample_host).
Definition letters_input : ResolvedObject :=
  mkResolvedObject
    (mkObjectMetadata (mkId 1) 10 (Some (sha256_digest (H:=toy_sha256) letters)) None [] None)
    [mkObjectReplica (mkId 9) "http://peer/v1/blobs/x"].

Lemma inputs_are_checked_witness :
  ensures anything
    (materialize_inputs (H:=toy_sha256) (H0:=toy_errors) (H1:=toy_http) (H2:=toy_json) (H3:=Samples.Samples.uuid_text)
       "http://c" sample_store (mkId 3) (Samples.Samples.task (mkId 5) Pure) 0 [letters_input])
    (λ m, ∀ contents, m = Ok contents → length contents = 1%nat).
Proof.
  eapply ensures_mono.
  - apply (inputs_are_checked (H:=toy_sha256) (H0:=toy_errors) (H1:=toy_http) (H2:=toy_json) (H3:=Samples.Samples.uuid_text)
      "http://c" sample_store (mkId 3) (Samples.Samples.task (mkId 5) Pure) [letters_input]).
    intros index offset length_ Hr. discriminate Hr.
  - intros m Hm contents Hok. by destruct (Hm contents Hok).
Defined.

Lemma one_end_measures_witness :
  measures (H3:=Samples.Samples.uuid_text) (mkId 3) (mkId 7) = negb (measures (H3:=Samples.Samples.uuid_text) (mkId 7) (mkId 3)).
Proof.
  apply (one_end_measures (H:=Samples.Samples.uuid_text) (mkId 3) (mkId 7)). vm_compute. discriminate.
Defined.

Lemma range_reads_agree_witness :
  (run with_peer (materialize_input (H:=toy_sha256) (H0:=toy_errors) (H1:=toy_http) (H2:=toy_json) (H3:=Samples.Samples.uuid_text)
     "http://c" sample_store (mkId 3) letters_input (Some (3, 4))) sample_host).1 = Ok (to_bytes "defg").
Proof.
  apply (range_reads_agree (H:=toy_sha256) (H0:=toy_errors) (H1:=toy_http) (H2:=toy_json) (H3:=Samples.Samples.uuid_text)
    with_peer "http://c" sample_store (mkId 3) letters_input (mkObjectReplica (mkId 9) "http://peer/v1/blobs/x") []
    letters 3 4 sample_host).
  - reflexivity.
  - reflexivity.
  - vm_compute. discriminate.
  - reflexivity.
  - lia.
  - lia.
  - vm_compute. discriminate.
  - vm_compute. discriminate.
  - right. split; [intros s; vm_compute; reflexivity|]. exists letters_peer, letters_host. split; [|split].
    + apply lookup_singleton_eq.
    + reflexivity.
    + intros range s. reflexivity.
Defined.
