(* ===== verification/Pipelines.v ===== *)
(** * Tasks as a small typed language

    A task names inputs by position, and the stages of a pipeline read them or
    the output of the stage before.  The coordinator's [validate_task] is the
    type checker of this language and the agent's executor its interpreter:
    what the coordinator hands out does not go wrong there. *)

From S2P Require Import Prelude Float64 World Text Program Bytes Files Store StoreConcurrency Core Samples Scheduler RoleGraph Partition Placement Reduction Fusion LogicalJob Planner Fabric Roles Execution Coordinator Clock Frames Evolution Network Leases Safety Polling Ledger AgentCalls Operators Executor TaskExecution DataPlane Agent.

Open Scope string_scope.
Open Scope list_scope.
Open Scope Z_scope.
Open Scope prog_scope.

(** ** Typing *)

(** A binding inside a task of [inputs] inputs, where a previous output is there or not. *)
Definition binding_typed (inputs : nat) (binding : PipelineInput) : Prop :=
  match binding with External index => (index < inputs)%nat | PreviousOutput => True end.
(** A stage that reads the previous output [previous] times. *)
Record stage_typed (inputs previous : nat) (stage : TaskPipelineStage) : Prop := {
  st_artifact : starts_with "builtin:" (stage_artifact stage) = true;
  st_entrypoint : stage_entrypoint stage = "run";
  st_previous : length (List.filter is_previous_output (stage_inputs stage)) = previous;
  st_bindings : Forall (binding_typed inputs) (stage_inputs stage);
}.
(** The first stage has no previous output, every other reads it once. *)
Definition pipeline_typed (inputs : nat) (pipeline : TaskPipeline) : Prop :=
  match pipeline with
  | first :: (_ :: _) as later => stage_typed inputs 0 first ∧ Forall (stage_typed inputs 1) later
  | _ => False
  end.

(** A range of [count] units from [start] inside [total]. *)
Definition range_typed (start count total : Z) : Prop := start + count ≤ u64_max ∧ start + count ≤ total.
Definition partition_typed (inputs : nat) (partition : TaskShardPartition) : Prop :=
  match partition with
  | ByteRange input offset length_ total_bytes => (input < inputs)%nat ∧ range_typed offset length_ total_bytes
  | Records input record_start record_count total_records offset length_ total_bytes =>
      (input < inputs)%nat ∧ range_typed record_start record_count total_records ∧
      range_typed offset length_ total_bytes
  end.
Definition shard_typed (inputs : nat) (shard : TaskShard) : Prop :=
  sh_count shard ≠ 0 ∧ sh_index shard < sh_count shard ∧
  match sh_partition shard with Some partition => partition_typed inputs partition | None => True end.

Record task_typed (task : TaskSpec) (inputs := length (ts_inputs task)) : Prop := {
  tk_shard : match ts_shard task with Some shard => shard_typed inputs shard | None => True end;
  tk_pipeline : match ts_pipeline task with
                | Some pipeline => ts_artifact task = "plurifold:pipeline" ∧ ts_entrypoint task = "run" ∧
                    ts_effects task = Pure ∧ pipeline_typed inputs pipeline
                | None => True
                end;
}.

(** ** The checker is sound and complete *)

Lemma invalid_if_Ok condition message : invalid_if condition message = Ok tt ↔ condition = false.
Proof. unfold invalid_if. by destruct condition. Qed.
Lemma obind_unit_Ok {E A} (m : outcome E unit) (k : unit → outcome E A) a :
  obind m k = Ok a ↔ m = Ok tt ∧ k tt = Ok a.
Proof. destruct m as [[]| | |]; simpl; naive_solver. Qed.
Lemma checked_range start count total :
  bool_decide (checked_add64 start count = None) || (total <? saturating_add64 start count) = false ↔
  range_typed start count total.
Proof.
  unfold checked_add64, saturating_add64, range_typed. rewrite orb_false_iff, bool_decide_eq_false, Z.ltb_ge.
  destruct (Z.leb_spec (start + count) u64_max); split; intros []; split; try done; lia.
Qed.
Lemma checked_partition inputs partition :
  validate_task_partition inputs partition = Ok tt ↔ partition_typed inputs partition.
Proof.
  destruct partition; simpl; rewrite invalid_if_Ok, <- ?orb_assoc, orb_false_iff, Nat.leb_gt.
  - by rewrite checked_range.
  - rewrite orb_assoc, orb_false_iff. by rewrite !checked_range.
Qed.
Lemma checked_shard inputs shard : validate_task_shard inputs shard = Ok tt ↔ shard_typed inputs shard.
Proof.
  unfold validate_task_shard, shard_typed. rewrite obind_unit_Ok, invalid_if_Ok, orb_false_iff, Z.eqb_neq, Z.leb_gt.
  destruct (sh_partition shard) as [partition|]; [rewrite checked_partition|]; naive_solver.
Qed.

Lemma checked_stage inputs index stage :
  validate_stage inputs index stage = Ok tt ↔ stage_typed inputs (if (index =? 0)%nat then 0 else 1)%nat stage.
Proof.
  unfold validate_stage. cbv zeta.
  rewrite !obind_unit_Ok, !invalid_if_Ok, !negb_false_iff, bool_decide_eq_true, (ofold_unit_Ok (λ input, _)).
  assert (∀ message, Forall (λ input, match input with External i => invalid_if (inputs <=? i)%nat (message i) | PreviousOutput => Ok tt end = Ok tt)
    (stage_inputs stage) ↔ Forall (binding_typed inputs) (stage_inputs stage)) as ->.
  { intros message. apply Forall_iff. intros [i|]; simpl; [|done]. by rewrite invalid_if_Ok, Nat.leb_gt. }
  rewrite orb_false_iff. set (previous := length _).
  assert ((index =? 0)%nat && negb (previous =? 0)%nat = false ∧ (0 <? index)%nat && negb (previous =? 1)%nat = false ↔
    previous = if (index =? 0)%nat then 0%nat else 1%nat) as ->.
  { destruct index; simpl; rewrite ?negb_false_iff, ?Nat.eqb_eq; tauto. }
  split; [by intros (? & ? & ? & ?)|]. by intros [].
Qed.
Lemma checked_later inputs index later :
  Forall (λ numbered, (let '(i, stage) := numbered in validate_stage inputs i stage) = Ok tt) (imap (λ i stage, (S index + i, stage)%nat) later) ↔
  Forall (stage_typed inputs 1) later.
Proof.
  revert index. induction later as [|stage later IH]; intros index; [done|]. rewrite imap_cons, !Forall_cons.
  rewrite checked_stage, Nat.add_0_r. cbn [Nat.eqb]. rewrite <- (IH (S index)).
  assert (imap ((λ i stage, (S index + i, stage)%nat) ∘ S) later = imap (λ i stage, (S (S index) + i, stage)%nat) later) as ->
    by (apply imap_ext; intros i x _; simpl; f_equal; lia).
  done.
Qed.
Lemma checked_pipeline task pipeline :
  validate_pipeline task pipeline = Ok tt ↔
  ts_artifact task = "plurifold:pipeline" ∧ ts_entrypoint task = "run" ∧ ts_effects task = Pure ∧
  pipeline_typed (length (ts_inputs task)) pipeline.
Proof.
  unfold validate_pipeline. rewrite !obind_unit_Ok, !invalid_if_Ok, orb_false_iff, !negb_false_iff, !bool_decide_eq_true.
  rewrite (ofold_unit_Ok (λ '(i, stage), validate_stage _ i stage)).
  destruct pipeline as [|first [|second later]]; simpl pipeline_typed; [split; [by intros (_ & _ & [=] & _)|tauto]..|].
  rewrite imap_cons, Forall_cons, checked_stage. cbn [Nat.eqb].
  pose proof (checked_later (length (ts_inputs task)) 0 (second :: later)) as Hlater.
  change (imap (pair ∘ S) (second :: later)) with (imap (λ i stage, (1 + i, stage)%nat) (second :: later)).
  cbv beta. rewrite Hlater. cbn [length Nat.ltb Nat.leb]. tauto.
Qed.
(** The checker accepts exactly the typed tasks. *)
Lemma validate_task_typed task : validate_task task = Ok tt ↔ task_typed task.
Proof.
  unfold validate_task. rewrite obind_unit_Ok. split.
  - intros [Hshard Hpipeline]. split.
    + destruct (ts_shard task); [by apply checked_shard|done].
    + destruct (ts_pipeline task); [by apply checked_pipeline|done].
  - intros [Hshard Hpipeline]. split.
    + destruct (ts_shard task); [by apply checked_shard|done].
    + destruct (ts_pipeline task); [by apply checked_pipeline|done].
Qed.

(** ** Total evaluation *)

Section evaluation.
Context `{SerdeJson} `{ErrorTexts} (executor : ExecutorPolicy).

(** What a typed pipeline means: bindings are values, no lookup fails, and no
    process is started. *)
Definition binding_value (inputs : list Bytes) (previous : Bytes) (binding : PipelineInput) : Bytes :=
  match binding with External index => default [] (inputs !! index) | PreviousOutput => previous end.
Fixpoint evaluate_stages (stages : list TaskPipelineStage) (inputs : list Bytes) (shard : option TaskShard)
    (previous : Bytes) : agent Bytes :=
  match stages with
  | [] => Done (Ok previous)
  | stage :: stages' =>
      let? output := execute_builtin_operation (stage_artifact stage) (stage_arguments stage)
                       (binding_value inputs previous <$> stage_inputs stage) shard in
      evaluate_stages stages' inputs shard output
  end.
Definition evaluate_task (task : TaskSpec) (inputs : list Bytes) : agent Bytes :=
  match ts_pipeline task with
  | Some pipeline => evaluate_stages pipeline inputs (ts_shard task) []
  | None =>
      execute_operation executor (ts_artifact task) (ts_entrypoint task) (ts_arguments task) inputs (ts_shard task)
  end.

(** Typed bindings have values. *)
Lemma gather_typed (inputs : list Bytes) previous bytes index bindings :
  Forall (binding_typed (length inputs)) bindings →
  (previous = Some bytes ∨ List.filter is_previous_output bindings = []) →
  gather_inputs inputs previous index bindings = Ok (binding_value inputs bytes <$> bindings).
Proof.
  intros Hall Hprevious. induction Hall as [|binding bindings Hb _ IH]; [done|]. cbn [gather_inputs].
  assert (stage_input inputs previous index binding = Ok (binding_value inputs bytes binding)) as ->.
  { destruct binding as [i|]; simpl in *.
    - destruct (lookup_lt_is_Some_2 inputs i Hb) as [b ->]. done.
    - destruct Hprevious as [->|Hnone]; [done|discriminate Hnone]. }
  simpl. rewrite IH; [done|]. destruct Hprevious as [->|Hnone]; [by left|right]. by destruct binding.
Qed.
Lemma typed_operation inputs previous stage arguments bytes shard :
  stage_typed inputs previous stage →
  execute_operation executor (stage_artifact stage) (stage_entrypoint stage) arguments bytes shard =
  execute_builtin_operation (stage_artifact stage) arguments bytes shard.
Proof. intros [Ha _ _ _]. unfold execute_operation. by rewrite Ha. Qed.

Context {S : Type} (h : handler AgentCall S).

Lemma later_stages_evaluate stages (inputs : list Bytes) shard index previous s :
  Forall (stage_typed (length inputs) 1) stages →
  run h (run_stages executor stages inputs shard index (Some previous)) s =
  let '(m, s') := run h (evaluate_stages stages inputs shard previous) s in
  (obind m (λ bytes, Ok (Some bytes)), s').
Proof.
  intros Hall. revert index previous s. induction Hall as [|stage stages Hstage _ IH]; intros index previous s; [done|].
  cbn [run_stages evaluate_stages]. unfold of_outcome.
  rewrite (gather_typed _ _ previous) by (first [apply Hstage|by left]).
  rewrite !run_ptry. cbn [run]. rewrite run_ptry, (typed_operation _ _ _ _ _ _ Hstage).
  destruct (run h (execute_builtin_operation _ _ _ _) s) as [[output|e| |] s']; [apply IH|done..].
Qed.

(** A typed task runs as it evaluates. *)
Lemma typed_task_runs task (inputs : list Bytes) s :
  task_typed task → length inputs = length (ts_inputs task) →
  run h (execute_task_with_policy executor task inputs) s = run h (evaluate_task task inputs) s.
Proof.
  intros [_ Hpipeline] Hlen. unfold execute_task_with_policy, evaluate_task.
  destruct (ts_pipeline task) as [pipeline|]; [|done]. destruct Hpipeline as (_ & _ & _ & Htyped).
  destruct pipeline as [|first [|second later]]; try done. destruct Htyped as [Hfirst Hlater]. rewrite <- Hlen in *.
  unfold execute_pipeline. cbn [length Nat.ltb Nat.leb]. generalize dependent (second :: later). intros rest Hlater.
  rewrite run_ptry. cbn [run_stages evaluate_stages]. unfold of_outcome.
  rewrite (gather_typed _ _ []);
    [|apply Hfirst|right; apply nil_length_inv; apply Hfirst].
  rewrite run_ptry. cbn [run]. rewrite run_ptry, (typed_operation _ _ _ _ _ _ Hfirst).
  rewrite run_ptry. destruct (run h (execute_builtin_operation _ _ _ _) s) as [[output|e| |] s']; [|done..].
  rewrite (later_stages_evaluate _ _ _ _ _ _ Hlater).
  by destruct (run h (evaluate_stages _ _ _ _) s') as [[]].
Qed.
End evaluation.

(** ** Only checked tasks are stored *)

Definition all_valid (m : gmap TaskId TaskRecord) : Prop :=
  map_Forall (λ _ record, validate_task (tr_spec record) = Ok tt) m.

Lemma all_valid_adds m m' : adds m m' → all_valid m → all_valid m'.
Proof.
  intros Hadds Hall id record Hid. specialize (Hadds id). destruct (m !! id) as [record0|] eqn:Hm.
  - rewrite Hadds in Hid. injection Hid as <-. by apply (Hall id).
  - rewrite Hid in Hadds. apply Hadds.
Qed.
Lemma all_valid_status m id record status :
  m !! id = Some record → all_valid m → all_valid (<[id := mkTaskRecord (tr_spec record) status]> m).
Proof. intros Hid Hall. apply map_Forall_insert_2; [exact (Hall id record Hid)|exact Hall]. Qed.

Section stored.
Context `{HashOrder} `{UuidCrate}.

Abbreviation tasks_at c := (f_tasks (co_fabric (co_state c))).

Lemma all_valid_handle request c : all_valid (tasks_at c) → all_valid (tasks_at (handle request c).2).
Proof.
  intros Hall. destruct (silent request) eqn:Hsilent.
  { pose proof (silent_handle request Hsilent c) as Hsame. unfold coord_tasks in Hsame. by rewrite <- Hsame. }
  destruct (is_job request) eqn:Hjob; [eapply all_valid_adds; [by apply adds_job|exact Hall]|].
  destruct request; try discriminate Hsilent; try discriminate Hjob; cbn [handle]; rewrite respond_state.
  - pose proof (poll_log resource_id epoch c) as Hpoll. destruct (handle_poll_work _ _ c) as [o c'].
    destruct Hpoll as (c1 & Hadds & _ & _ & Ho). pose proof (all_valid_adds _ _ Hadds Hall) as Hall1.
    destruct o as [[assignment|]|e| |]; simpl in *; try (unfold coord_tasks in Ho; by rewrite <- Ho).
    destruct Ho as [[_ (record & Hid & <- & _) _ _ _ _ _ ->] _]. by apply all_valid_status.
  - unfold handle_renew, rethrow, on_fabric.
    pose proof (renew_execution_log lease (mkNode (co_fabric (co_state c)) (co_world c))) as Hrenew.
    destruct (renew_execution lease _) as [o n']. simpl in *.
    destruct o as [renewed|e| |]; simpl; try (by rewrite Hrenew).
    destruct Hrenew as (record & current & Hv & _ & ->). apply all_valid_status; [apply Hv|exact Hall].
  - unfold handle_complete, bind, rethrow, on_fabric.
    pose proof (complete_execution_log lease outputs (mkNode (co_fabric (co_state c)) (co_world c))) as Hcomplete.
    destruct (complete_execution lease outputs _) as [o n']. simpl in *.
    assert (all_valid (f_tasks (nd_fabric n'))) as Hall'; [|by destruct o].
    destruct Hcomplete as [[-> _]|(record & current & Hv & Hadds)]; [exact Hall|].
    eapply all_valid_adds; [exact Hadds|]. apply all_valid_status; [apply Hv|exact Hall].
  - unfold handle_submit_task, rethrow, on_fabric.
    pose proof (submit_spec task (mkNode (co_fabric (co_state c)) (co_world c))) as Hsubmit.
    destruct (submit task _) as [o n']. simpl in *. destruct o as [id|e| |]; simpl; try (by rewrite Hsubmit).
    destruct Hsubmit as (_ & Hvalid & _ & ->). by apply map_Forall_insert_2.
  - pose proof (tick_log c) as Htick. cbv zeta in Htick. destruct (maintenance_tick c) as [o c'].
    destruct (_ <? 0); destruct Htick as [_ Htasks]; unfold coord_tasks in *; simpl in *; [by rewrite <- Htasks|].
    rewrite Htasks. apply map_Forall_fmap. eapply map_Forall_impl; [exact Hall|]. intros id record Hv. simpl.
    unfold reap_record. by destruct (expired_at _ record).
Qed.
Lemma all_valid_steps c c' : steps c c' → all_valid (tasks_at c) → all_valid (tasks_at c').
Proof. induction 1 as [c|c1 c2 c3 [request ->] _ IH]; [done|]. intros Hall. by apply IH, all_valid_handle. Qed.
End stored.

Section agents.
Context `{Sha256Crate} `{ErrorTexts} `{HttpCrate} `{SerdeJson} `{UuidCrate} {S : Type} (h : handler AgentCall S).
Lemma materialized_length coordinator store resource_id task index inputs contents s s' :
  run h (materialize_inputs coordinator store resource_id task index inputs) s = (Ok contents, s') →
  length contents = length inputs.
Proof.
  revert index contents s. induction inputs as [|input inputs IH]; intros index contents s; cbn [materialize_inputs run].
  { by intros [= <- _]. }
  rewrite run_ptry. destruct (run h _ s) as [[bytes|e| |] s1]; [|done..]. rewrite run_ptry.
  destruct (run h _ s1) as [[rest|e| |] s2] eqn:Hrest; [|done..]. intros [= <- ->]. simpl. f_equal. by eapply IH.
Qed.
End agents.

(** C7 Assigned work does not go wrong.  Whatever a coordinator started afresh has
    been sent, a task it assigns is well typed: shard ranges lie in their
    objects, the stages of a pipeline are built-in, name inputs the task has,
    and each but the first reads the output before it exactly once.  And if the
    agent materializes the inputs of the assignment, whatever disk, network and
    peers answer, there are as many as the task has, and executing the task on
    them is its total evaluation, in which no input or previous output can be
    missing and a pipeline starts no process. *)
Theorem assigned_work_runs `{HashOrder} `{Sha256Crate} `{ErrorTexts} `{HttpCrate} `{SerdeJson} `{UuidCrate}
    {S : Type} (h : handler AgentCall S) membership_ttl_ms execution_ttl_ms w c owner epoch assignment c'
    (Hsteps : steps (mkCoord (Coordinator_new membership_ttl_ms execution_ttl_ms) w) c)
    (Hpoll : handle_poll_work owner epoch c = (Ok (Some assignment), c')) :
  let task := wa_task assignment in
  task_typed task ∧
  ∀ coordinator store resource_id executor s,
    let '(m, s') := run h (materialize_inputs coordinator store resource_id task 0 (wa_inputs assignment)) s in
    ∀ inputs, m = Ok inputs →
      length inputs = length (ts_inputs task) ∧
      run h (execute_task_with_policy executor task inputs) s' = run h (evaluate_task executor task inputs) s'.
Proof.
  simpl. pose proof (handle_poll_work_assigned _ _ _ _ _ Hpoll) as (c1 & Hassigned & _).
  assert (task_typed (wa_task assignment)) as Htyped.
  { apply validate_task_typed. pose proof (all_valid_handle (PollWork owner epoch) c) as Hall.
    cbn [handle] in Hall. rewrite respond_state, Hpoll in Hall. simpl in Hall.
    destruct Hassigned as [_ _ _ _ _ _ _ Hf]. rewrite Hf in Hall. simpl in Hall.
    refine (Hall _ (el_task_id (wa_lease assignment)) _ (lookup_insert_eq _ _ _)).
    eapply all_valid_steps; [exact Hsteps|]. apply map_Forall_empty. }
  split; [exact Htyped|]. intros coordinator store resource_id executor s.
  destruct (run h (materialize_inputs _ _ _ _ _ _) s) as [m s'] eqn:Hrun. intros inputs ->.
  assert (length inputs = length (ts_inputs (wa_task assignment))) as Hlen.
  { rewrite (materialized_length _ _ _ _ _ _ _ _ _ _ Hrun). symmetry.
    eapply Forall2_length, as_inputs, Hassigned. }
  split; [exact Hlen|]. by apply typed_task_runs.
Qed.

(** *** Application: a pipeline, from its submission to its output *)

Definition letters_object : ObjectMetadata :=
  mkObjectMetadata (mkId 1) 10 (Some (sha256_digest (H:=toy_sha256) letters)) None [Samples.resource_id 1] None.
Definition doubling : TaskPipeline :=
  [mkTaskPipelineStage "builtin:identity" "run" [] [External 0];
   mkTaskPipelineStage "builtin:concat" "run" [] [PreviousOutput; External 0]].
Definition doubling_task : TaskSpec :=
  mkTaskSpec (Samples.task_id 7) "plurifold:pipeline" "run" [] [mkId 1] ResourceRequirements_default Pure
    CostHint_default None (Some doubling).
#[local] Existing Instances Run.order Run.text.
Definition doubling_pending : Coord :=
  Run.serve (SubmitTask doubling_task) (Run.serve (PublishObject letters_object) (Run.serve (Run.resource 1) Run.start)).

Lemma assigned_work_runs_witness :
  ∃ assignment c', handle_poll_work (Samples.resource_id 1) 1 doubling_pending = (Ok (Some assignment), c') ∧
    task_typed (wa_task assignment) ∧
    (run offline (execute_task_with_policy (H:=toy_json) (H0:=toy_errors) ExecutorPolicy_default
       (wa_task assignment) [letters]) letters_host).1 = Ok (to_bytes "abcdefghijabcdefghij").
Proof.
  destruct (handle_poll_work (Samples.resource_id 1) 1 doubling_pending) as [o c'] eqn:Hpoll.
  assert (Ho : option_map wa_task (match o with Ok (Some assignment) => Some assignment | _ => None end) = Some doubling_task).
  { replace o with (handle_poll_work (Samples.resource_id 1) 1 doubling_pending).1 by (rewrite Hpoll; reflexivity).
    vm_compute. reflexivity. }
  destruct o as [[assignment|]| | |]; try discriminate Ho. injection Ho as Htask. exists assignment, c'.
  destruct (assigned_work_runs (H0:=toy_sha256) (H1:=toy_errors) (H2:=toy_http) (H3:=toy_json) offline
    15000 60000 (Samples.world_at 8 1000 100000) doubling_pending (Samples.resource_id 1) 1 assignment c') as [Htyped Hruns].
  - do 3 (eapply rtc_r; [|by eexists]). apply rtc_refl.
  - exact Hpoll.
  - split_and!; [reflexivity|exact Htyped|].
    rewrite Htask. vm_compute. reflexivity.
Defined.
