(* ===== verification/Worker.v ===== *)
(** * The worker loop (plurifold-agent/src/main.rs)

    The descriptor an agent advertises, its start, and [run_worker] as a state
    machine: one step per event its [select!] may take, or that a task it has
    spawned brings about. *)

From Stdlib Require Import Strings.Byte.
From S2P Require Import Prelude Float64 World Text Program Bytes Files Store Core Samples Coordinator AgentCalls Executor DataPlane Agent.
Open Scope string_scope.
Open Scope list_scope.
Open Scope Z_scope.
Open Scope prog_scope.

(** ** The descriptor *)

(** [ResourceArgs] *)
Record ResourceArgs := mkResourceArgs {
  ra_name : string;
  ra_cpu_cores : option Z;
  ra_memory_gib : option Z;
  ra_performance : f64;
  ra_features : list string;
}.

(** What the machine says of itself: [std::env::consts::ARCH],
    [available_parallelism], and the text of [/proc/meminfo]. *)
Record Machine := mkMachine {
  mc_arch : string;
  mc_parallelism : option Z;
  mc_meminfo : option Bytes;
}.

(** [current_architecture] *)
Definition current_architecture (machine : Machine) : Architecture :=
  let arch := mc_arch machine in
  if bool_decide (arch = "x86_64") then X86_64
  else if bool_decide (arch = "aarch64") then Aarch64
  else if bool_decide (arch = "riscv64") then RiscV64
  else ArchOther arch.
(** [detected_cpu_cores] *)
Definition detected_cpu_cores (machine : Machine) : Z :=
  match mc_parallelism machine with
  | Some value => if value <=? u32_max then value else u32_max
  | None => 1
  end.
Definition mem_total (line : string) : option Z :=
  rest ← strip_prefix "MemTotal:" line;
  kib ← first_word rest ≫= parse_unsigned u64_max;
  if kib * 1024 <=? u64_max then Some (kib * 1024) else None.
(** [detected_memory_bytes] *)
Definition detected_memory_bytes (machine : Machine) : Z :=
  default (16 * 2 ^ 30)
    (text ← mc_meminfo machine;
     if utf8_valid text then find_map mem_total (lines text) else None).

(** [descriptor]; [gib << 30] drops the bits beyond the 64th. *)
Definition descriptor (id : ResourceId) (args : ResourceArgs) (machine : Machine) : ResourceDescriptor :=
  mkResourceDescriptor id 0 (current_architecture machine)
    (match ra_cpu_cores args with Some cores => cores | None => detected_cpu_cores machine end)
    (match ra_memory_gib args with Some gib => wrap64 (gib * 2 ^ 30) | None => detected_memory_bytes machine end)
    [] (list_to_set (ra_features args ++ ["agent-name:" +:+ ra_name args]))
    (ra_performance args) 0 0 0.01%float.

Definition with_feature (feature : string) (d : ResourceDescriptor) : ResourceDescriptor :=
  mkResourceDescriptor (rd_id d) (rd_epoch d) (rd_architecture d) (rd_cpu_cores d) (rd_memory_bytes d)
    (rd_accelerators d) (rd_features d ∪ {[ feature ]}) (rd_performance_score d) (rd_queue_delay_ms d)
    (rd_startup_delay_ms d) (rd_failure_probability d).

(** What [main] advertises for [Command::Run]. *)
Definition advertised_descriptor (id : ResourceId) (args : ResourceArgs) (machine : Machine)
    (executor : ExecutorPolicy) : prog AgentCall ResourceDescriptor :=
  let* d := detect_accelerators (descriptor id args machine) in
  let d := if native_enabled executor then with_feature "executor:native" d else d in
  Done (if wasi_enabled executor then with_feature "executor:wasi" d else d).

(** What [main] prints, as JSON, for [Command::Describe]. *)
Definition described_descriptor (args : ResourceArgs) (machine : Machine) : prog AgentCall ResourceDescriptor :=
  let* resource_id := call RandomUuid in
  detect_accelerators (descriptor (mkId resource_id) args machine).

(** The periods of the worker, in milliseconds. *)
Record WorkerPeriods := mkWorkerPeriods { wp_heartbeat : Z; wp_poll : Z; wp_probe : Z }.
Definition worker_periods (heartbeat_interval_ms poll_interval_ms probe_interval_ms : Z) : WorkerPeriods :=
  mkWorkerPeriods (Z.max heartbeat_interval_ms 50) (Z.max poll_interval_ms 20) (Z.max probe_interval_ms 50).

(** ** The loop *)

Record Worker := mkWorker {
  wk_lease : MembershipLease;
  wk_busy : bool;
  wk_probing : bool;
  (** the spawned tasks that have not ended *)
  wk_executing : list WorkAssignment;
  wk_probers : nat;
}.

Inductive WorkerEvent :=
| HeartbeatTick
| PollTick
| ProbeTick
| ExecutionEnds (index : nat)       (* [execute_and_commit] returned *)
| ExecutionPanics (index : nat)     (* it unwound: the task ends there *)
| ProbeEnds.

Section worker.
Context `{Sha256Crate} `{ErrorTexts} `{HttpCrate} `{SerdeJson} `{UuidCrate}.
Context (coordinator data_endpoint : string) (advertised : ResourceDescriptor).

Definition set_lease (lease : MembershipLease) (w : Worker) : Worker :=
  mkWorker lease (wk_busy w) (wk_probing w) (wk_executing w) (wk_probers w).

Definition heartbeat_tick (w : Worker) : prog AgentCall Worker :=
  let* updated := send_heartbeat coordinator (wk_lease w) in
  match updated with
  | Ok lease => Done (set_lease lease w)
  | _ =>
      let* registered := register coordinator data_endpoint advertised in
      Done (match registered with Ok lease => set_lease lease w | _ => w end)
  end.
Definition poll_tick (w : Worker) : prog AgentCall Worker :=
  let* polled := poll_work coordinator (wk_lease w) in
  Done (match polled with
        | Ok (Some assignment) =>
            mkWorker (wk_lease w) true (wk_probing w) (assignment :: wk_executing w) (wk_probers w)
        | _ => w
        end).
(** [probing.swap(true)]: a pass starts unless one is under way. *)
Definition probe_tick (w : Worker) : Worker :=
  if wk_probing w then w
  else mkWorker (wk_lease w) (wk_busy w) true (wk_executing w) (S (wk_probers w)).

(** The guards of [select!], and that only a running task can end. *)
Definition event_enabled (event : WorkerEvent) (w : Worker) : bool :=
  match event with
  | HeartbeatTick | ProbeTick => true
  | PollTick => negb (wk_busy w)
  | ExecutionEnds index | ExecutionPanics index => bool_decide (is_Some (wk_executing w !! index))
  | ProbeEnds => (0 <? wk_probers w)%nat
  end.
Definition on_event (event : WorkerEvent) (w : Worker) : prog AgentCall Worker :=
  match event with
  | HeartbeatTick => heartbeat_tick w
  | PollTick => poll_tick w
  | ProbeTick => Done (probe_tick w)
  | ExecutionEnds index =>
      Done (mkWorker (wk_lease w) false (wk_probing w) (delete index (wk_executing w)) (wk_probers w))
  | ExecutionPanics index =>
      Done (mkWorker (wk_lease w) (wk_busy w) (wk_probing w) (delete index (wk_executing w)) (wk_probers w))
  | ProbeEnds =>
      Done (mkWorker (wk_lease w) (wk_busy w) false (wk_executing w) (pred (wk_probers w)))
  end.

(** Before the loop: the first registration. *)
Definition start_worker : agent Worker :=
  let? lease := register coordinator data_endpoint advertised in
  Done (Ok (mkWorker lease false false [] 0)).

Context {S : Type} (h : handler AgentCall S).

Definition worker_step (c c' : Worker * S) : Prop :=
  ∃ event, event_enabled event c.1 = true ∧ run h (on_event event c.1) c.2 = c'.
(** Any sequence of events. *)
Definition worker_steps : Worker * S → Worker * S → Prop := rtc worker_step.

(** At most one execution and one probing pass at a time. *)
Record one_at_a_time (w : Worker) : Prop := {
  one_execution : (length (wk_executing w) ≤ 1)%nat;
  executing_busy : wk_executing w ≠ [] → wk_busy w = true;
  one_probe : wk_probers w = if wk_probing w then 1%nat else 0%nat;
}.

Lemma run_poll_tick w s :
  let '(w', s') := run h (poll_tick w) s in
  w' = w ∨ ∃ assignment, w' = mkWorker (wk_lease w) true (wk_probing w) (assignment :: wk_executing w) (wk_probers w).
Proof.
  unfold poll_tick. rewrite run_pbind. destruct (run h (poll_work coordinator (wk_lease w)) s) as [m s'].
  simpl. destruct m as [[assignment|]|e| |]; [right; by exists assignment|by left..].
Qed.
Lemma run_heartbeat_tick w s :
  let '(w', s') := run h (heartbeat_tick w) s in ∃ lease, w' = set_lease lease w.
Proof.
  unfold heartbeat_tick. rewrite run_pbind. destruct (run h (send_heartbeat _ _) s) as [m s'].
  assert (∀ r : outcome AgentError MembershipLease, ∃ lease, match r with Ok lease => set_lease lease w | _ => w end = set_lease lease w) as Hany.
  { intros []; eauto; exists (wk_lease w); by destruct w. }
  destruct m as [lease|e| |]; [simpl; by exists lease|..];
    rewrite run_pbind; destruct (run h (register _ _ _) s') as [r s'']; apply Hany.
Qed.

Lemma one_at_a_time_step c c' : worker_step c c' → one_at_a_time c.1 → one_at_a_time c'.1.
Proof.
  destruct c as [w s]. intros (event & Henabled & <-) [Hone Hbusy Hprobe]. simpl in *.
  destruct event as [| | |index|index|]; simpl in Henabled; cbn [on_event run fst].
  - pose proof (run_heartbeat_tick w s) as Hrun. destruct (run _ _ _) as [w' s']. destruct Hrun as [lease ->]. simpl. by split.
  - pose proof (run_poll_tick w s) as Hrun. destruct (run _ _ _) as [w' s']. simpl.
    destruct Hrun as [->|[assignment ->]]; [by split|]. apply negb_true_iff in Henabled.
    destruct (wk_executing w) as [|a l]; [|by rewrite Hbusy in Henabled]. by split.
  - unfold probe_tick. destruct (wk_probing w) eqn:Hp; [by split; rewrite ?Hp|]. split; simpl; [done|done|by rewrite Hprobe].
  - apply bool_decide_eq_true in Henabled as [a Ha]. pose proof (lookup_lt_Some _ _ _ Ha).
    destruct (wk_executing w) as [|b [|]]; simpl in *; [lia| |lia]. destruct index; [|lia].
    change (delete 0%nat [b]) with (@nil WorkAssignment). split; simpl; [lia|done|done].
  - apply bool_decide_eq_true in Henabled as [a Ha]. pose proof (lookup_lt_Some _ _ _ Ha).
    destruct (wk_executing w) as [|b [|]]; simpl in *; [lia| |lia]. destruct index; [|lia].
    change (delete 0%nat [b]) with (@nil WorkAssignment). split; simpl; [lia|done|done].
  - apply Nat.ltb_lt in Henabled. destruct (wk_probing w); [|lia]. split; simpl; [done|done|by rewrite Hprobe].
Qed.

(** C27 An agent works on one thing at a time: through every sequence of ticks,
    answers and endings, at most one leased execution and one probing pass are
    under way, and the agent asks for work only while it executes nothing. *)
Theorem one_execution_at_a_time lease s w s'
    (Hsteps : worker_steps (mkWorker lease false false [] 0, s) (w, s')) :
  (length (wk_executing w) ≤ 1)%nat ∧ (wk_probers w ≤ 1)%nat ∧
  (event_enabled PollTick w = true → wk_executing w = []).
Proof.
  assert (one_at_a_time w) as [Hone Hbusy Hprobe].
  { apply (rtc_keeps worker_step (λ c, one_at_a_time c.1) _ _ one_at_a_time_step Hsteps).
    split; simpl; [lia|done|done]. }
  split_and!; [done|rewrite Hprobe; destruct (wk_probing w); lia|].
  simpl. intros Hfree%negb_true_iff. destruct (wk_executing w) eqn:He; [done|]. by rewrite Hbusy in Hfree.
Qed.

(** ** A worker whose execution panicked *)

(** Busy, with nothing running. *)
Definition stuck (w : Worker) : Prop := wk_busy w = true ∧ wk_executing w = [].

Lemma stuck_step c c' : worker_step c c' → stuck c.1 → stuck c'.1.
Proof.
  destruct c as [w s]. intros (event & Henabled & <-) [Hbusy Hnone]. simpl in *.
  destruct event as [| | |index|index|]; simpl in Henabled; cbn [on_event run fst].
  - pose proof (run_heartbeat_tick w s) as Hrun. destruct (run _ _ _) as [w' s']. destruct Hrun as [lease ->]. simpl. by split.
  - by rewrite Hbusy in Henabled.
  - unfold probe_tick. by destruct (wk_probing w).
  - rewrite Hnone in Henabled. by apply bool_decide_eq_true in Henabled as [a Ha].
  - rewrite Hnone in Henabled. by apply bool_decide_eq_true in Henabled as [a Ha].
  - by split.
Qed.
(** From there on the agent never asks for work again. *)
Lemma stuck_forever c c' : worker_steps c c' → stuck c.1 → stuck c'.1 ∧ event_enabled PollTick c'.1 = false.
Proof.
  intros Hsteps Hstuck.
  destruct (rtc_keeps worker_step (λ c, stuck c.1) _ _ stuck_step Hsteps Hstuck) as [Hbusy Hnone].
  split; [by split|]. simpl. by rewrite Hbusy.
Qed.
End worker.

(** ** [main] *)

(** The options of [Command::Run]. *)
Record RunOptions := mkRunOptions {
  ro_resource : ResourceArgs;
  ro_coordinator : string;
  ro_bind : string;
  ro_advertise : option string;
  ro_store_dir : Path;
  ro_periods : Z * Z * Z;
  ro_exec_roots : list string;
  ro_enable_wasi : bool;
  ro_wasmtime : string;
}.
Record RunningAgent := mkRunningAgent {
  run_coordinator : string;
  run_data_plane : DataState;
  run_executor : ExecutorPolicy;
  run_descriptor : ResourceDescriptor;
  run_periods : WorkerPeriods;
  run_worker : Worker;
}.

(** [Command::Run] up to the loop of [run_worker]; the listener of the data
    plane, bound before the descriptor is made, is not modelled. *)
Definition start_agent `{Sha256Crate} `{ErrorTexts} `{HttpCrate} `{SerdeJson} (options : RunOptions)
    (machine : Machine) : agent RunningAgent :=
  let? executor := ExecutorPolicy_new (ro_exec_roots options) (ro_enable_wasi options) (ro_wasmtime options) in
  let* resource_id := call RandomUuid in
  let resource_id : ResourceId := mkId resource_id in
  let? store := on_store (store_new (ro_store_dir options)) in
  let advertise := match ro_advertise options with Some advertise => advertise | None => "http://" +:+ ro_bind options end in
  let* advertised := advertised_descriptor resource_id (ro_resource options) machine executor in
  let coordinator := trim_end_slashes (ro_coordinator options) in
  let '(heartbeat, poll, probe) := ro_periods options in
  let? worker := start_worker coordinator advertise advertised in
  Done (Ok (mkRunningAgent coordinator (mkDataState store resource_id) executor advertised
              (worker_periods heartbeat poll probe) worker)).

(** An agent that has started has asked for what it advertises: the features of
    the executors it has enabled, and no work yet. *)
Lemma started_agent_idle `{Sha256Crate} `{ErrorTexts} `{HttpCrate} `{SerdeJson} {S} (h : handler AgentCall S)
    options machine s started s' :
  run h (start_agent options machine) s = (Ok started, s') →
  wk_busy (run_worker started) = false ∧ wk_executing (run_worker started) = [] ∧
  (native_enabled (run_executor started) = true → "executor:native" ∈ rd_features (run_descriptor started)) ∧
  (wasi_enabled (run_executor started) = true → "executor:wasi" ∈ rd_features (run_descriptor started)).
Proof.
  unfold start_agent. rewrite run_ptry. destruct (run h (ExecutorPolicy_new _ _ _) s) as [[executor|e| |] s1]; [|done..].
  rewrite run_pbind. cbn [run call]. destruct (h _ RandomUuid s1) as [uuid s2]. rewrite run_ptry.
  destruct (run h (on_store _) s2) as [[store|e| |] s3]; [|done..].
  rewrite run_pbind. destruct (run h (advertised_descriptor _ _ _ _) s3) as [advertised s4] eqn:Hadvertised.
  destruct (ro_periods options) as [[heartbeat poll] probe]. unfold start_worker. rewrite !run_ptry.
  destruct (run h (register _ _ _) s4) as [[lease|e| |] s5]; [|done..]. cbn. intros [= <- <-]. simpl.
  split_and!; [done|done|..]; unfold advertised_descriptor in Hadvertised; rewrite run_pbind in Hadvertised;
    destruct (run h (detect_accelerators _) s3) as [detected s6]; injection Hadvertised as <- _;
    intros Henabled; try rewrite Henabled; destruct (native_enabled executor), (wasi_enabled executor); try done; set_solver.
Qed.

(** ** Examples *)

Definition sample_assignment : WorkAssignment :=
  mkWorkAssignment (mkExecutionLease (mkId 1) (mkId 2) (mkId 3) 1 5000) (Samples.task (mkId 1) Pure) [].
(** Every answer is a success, and every poll brings work. *)
Definition working_json : SerdeJson :=
  {| partition_to_json _ := Ok "{}";
     register_response_of_json _ := Ok (mkMembershipLease (mkId 3) 1 5000);
     membership_of_json _ := Ok (mkMembershipLease (mkId 3) 1 9000);
     execution_of_json _ := Ok (wa_lease sample_assignment);
     assignment_of_json _ := Ok (Some sample_assignment);
     resources_of_json _ := Ok [];
     error_of_json _ := Err "invalid JSON" |}.
Definition answering : handler AgentCall Host := λ R c host,
  match c in AgentCall R return R * Host → R * Host with
  | Send _ => λ _, (Ok (mkHttpResponse 200 ∅ (Ok [])), host)
  | _ => λ other, other
  end (offline R c host).
Definition sample_descriptor : ResourceDescriptor := Samples.resource (mkId 3) 1 0 [].
Definition sample_membership : MembershipLease := mkMembershipLease (mkId 3) 1 5000.
Definition executing_worker : Worker := mkWorker (mkMembershipLease (mkId 3) 1 9000) true true [sample_assignment] 1.

Lemma one_execution_at_a_time_witness :
  worker_steps (H1:=toy_http) (H2:=working_json) "http://c" "http://a" sample_descriptor answering
    (mkWorker sample_membership false false [] 0, sample_host) (executing_worker, sample_host) ∧
  (length (wk_executing executing_worker) ≤ 1)%nat.
Proof.
  assert (worker_steps (H1:=toy_http) (H2:=working_json) "http://c" "http://a" sample_descriptor answering
    (mkWorker sample_membership false false [] 0, sample_host) (executing_worker, sample_host)) as Hsteps.
  { eapply rtc_l; [exists HeartbeatTick; split; reflexivity|].
    eapply rtc_l; [exists PollTick; split; reflexivity|].
    eapply rtc_l; [exists ProbeTick; split; reflexivity|]. apply rtc_refl. }
  split; [exact Hsteps|].
  apply (one_execution_at_a_time (H1:=toy_http) (H2:=working_json) "http://c" "http://a" sample_descriptor answering
    sample_membership sample_host executing_worker sample_host Hsteps).
Defined.
