(* ===== verification/Renewal.v ===== *)
(** * Keeping a lease alive

    The agent's renewal loop against the coordinator's own handlers, on one
    clock, with requests and answers that take time; in between the coordinator
    serves other agents and clients and its own maintenance ticks. *)

From Stdlib Require Import Strings.Byte.
From S2P Require Import Prelude Float64 World Text Program Bytes Files Store Core Samples Fabric Execution Coordinator Clock Frames Evolution Network Leases Safety Polling Ledger Daemon Routes AgentCalls Agent.
Open Scope string_scope.
Open Scope list_scope.
Open Scope Z_scope.

(** ** What the coordinator serves besides *)

Section traffic.
Context `{UuidCrate} `{HashOrder}.
(** The execution, and the incarnation of the agent that holds it. *)
Context (task : TaskId) (execution : ExecutionId) (owner : ResourceId) (epoch : Z).

(** A request that is not this execution's own, and no new incarnation of its
    agent: anything else, the maintenance tick included. *)
Definition foreign (request : Request) : bool :=
  match request with
  | RenewExecution lease | CompleteExecution lease _ =>
      negb (bool_decide (el_task_id lease = task ∧ el_execution_id lease = execution))
  | RegisterResource descriptor _ => negb (bool_decide (rd_id descriptor = owner))
  | _ => true
  end.
(** The agent's heartbeat. *)
Definition is_beat (request : Request) : bool :=
  match request with Heartbeat id e => bool_decide (id = owner ∧ e = epoch) | _ => false end.

(** Foreign requests in the order of time, the agent being heard of at least
    every [gap] milliseconds up to [horizon]; the last heartbeat was at [beat]. *)
Fixpoint heard (gap beat time : Z) (events : list (Z * Request)) (horizon : Z) : bool :=
  match events with
  | [] => horizon <=? beat + gap
  | (t, request) :: events' =>
      (time <=? t) && (t <=? beat + gap) && foreign request &&
      heard gap (if is_beat request then t else beat) t events' horizon
  end.

(** *** The task stays with its lease *)

Lemma adds_lookup m m' id record : adds m m' → m !! id = Some record → m' !! id = Some record.
Proof. intros Hadds Hm. specialize (Hadds id). by rewrite Hm in Hadds. Qed.

(** No valid lease of another execution names the task. *)
Lemma foreign_lease f now lease record current ours ourlease :
  lease_valid f now lease record current → f_tasks f !! task = Some ours → tr_status ours = Running ourlease →
  el_execution_id ourlease = execution →
  bool_decide (el_task_id lease = task ∧ el_execution_id lease = execution) = false → el_task_id lease ≠ task.
Proof.
  intros [_ Ht Hr Hx _ _] Hours Hrun Hexec Hforeign%bool_decide_eq_false Heq.
  apply Hforeign. split; [done|]. rewrite Heq in Ht. congruence.
Qed.

Lemma running_stays request c record lease :
  0 ≤ w_clock (co_world c) 0 → now_of (co_world c) < el_expires_at_unix_ms lease → foreign request = true →
  f_tasks (co_fabric (co_state c)) !! task = Some record → tr_status record = Running lease →
  el_execution_id lease = execution →
  f_tasks (co_fabric (co_state (handle request c).2)) !! task = Some record.
Proof.
  intros Hclock Hlive Hforeign Ht Hrun Hexec.
  destruct (silent request) eqn:Hs.
  { pose proof (silent_handle request Hs c) as Hsame. unfold coord_tasks in Hsame. by rewrite <- Hsame. }
  destruct (is_job request) eqn:Hj; [by eapply adds_lookup; [apply (adds_job request Hj c)|]|].
  destruct request as [| | |owner' epoch'|l|l outputs| | |spec| | | | | | | |]; try discriminate Hs; try discriminate Hj;
    cbn [handle]; rewrite respond_state; simpl in Hforeign.
  - pose proof (poll_log owner' epoch' c) as Hpoll. destruct (handle_poll_work owner' epoch' c) as [o c'].
    destruct Hpoll as (c1 & Hadds & _ & _ & Ho). assert (Ht1 := adds_lookup _ _ _ _ Hadds Ht).
    assert (coord_tasks eq c1 c' → f_tasks (co_fabric (co_state c')) !! task = Some record) as Hrest
      by (unfold coord_tasks; by intros <-).
    destruct o as [[assignment|]|e| |]; try by apply Hrest.
    destruct Ho as [[_ (pending & Hp & _ & Hstatus) _ _ _ _ _ Hf] _]. simpl. rewrite Hf. simpl.
    rewrite lookup_insert_ne; [done|]. intros <-. congruence.
  - apply negb_true_iff in Hforeign. unfold handle_renew, rethrow, on_fabric, bind.
    pose proof (renew_execution_log l (mkNode (co_fabric (co_state c)) (co_world c))) as Hrenew.
    destruct (renew_execution l _) as [o n']. destruct o as [renewed|e| |]; cbn; try by rewrite Hrenew.
    destruct Hrenew as (r & current & Hv & _ & ->). cbn.
    rewrite lookup_insert_ne; [done|]. by eapply foreign_lease.
  - apply negb_true_iff in Hforeign. unfold handle_complete, rethrow, on_fabric, bind.
    pose proof (complete_execution_log l outputs (mkNode (co_fabric (co_state c)) (co_world c))) as Hcomplete.
    destruct (complete_execution l outputs _) as [o n'].
    assert (f_tasks (nd_fabric n') !! task = Some record) as Hn'.
    { destruct Hcomplete as [[-> _]|(r & current & Hv & Hadds)]; [done|]. eapply adds_lookup; [exact Hadds|].
      rewrite lookup_insert_ne; [done|]. by eapply foreign_lease. }
    destruct o as [[]|e| |]; exact Hn'.
  - unfold handle_submit_task, rethrow, on_fabric, bind.
    pose proof (adds_submit spec (mkNode (co_fabric (co_state c)) (co_world c))) as Hadds.
    destruct (submit spec _) as [o n']. assert (f_tasks (nd_fabric n') !! task = Some record) as Hn'
      by (by eapply adds_lookup). destruct o; exact Hn'.
  - pose proof (tick_log c) as Htick. cbv zeta in Htick. destruct (maintenance_tick c) as [o c'].
    destruct (Z.ltb_spec (w_clock (co_world c) 0) 0); [lia|]. destruct Htick as [_ Htasks]. simpl. rewrite Htasks.
    rewrite lookup_fmap, Ht. simpl. unfold reap_record, expired_at. rewrite Hrun.
    by destruct (Z.leb_spec (el_expires_at_unix_ms lease) (now_of (co_world c))); [lia|].
Qed.

(** *** The agent stays a member *)

(** Until [until] the agent is a member, of its epoch. *)
Definition member_until (until : Z) (f : Fabric) : Prop :=
  ∃ resource, f_resources f !! owner = Some resource ∧ rd_epoch (reg_descriptor resource) = epoch ∧
    until ≤ reg_expires_at_unix_ms resource.

Lemma expire_keeps t c until :
  t < until → member_until until (co_fabric (co_state c)) →
  member_until until (co_fabric (co_state (on_fabric (expire_resources_at (E:=ApiError) t) c).2)).
Proof.
  intros Ht (resource & Hr & He & Hu). exists resource. split_and!; [|done..].
  unfold on_fabric, expire_resources_at, bind, fget, gets. set (ids := (List.filter _ _).*1).
  pose proof (removed_resources ids (mkNode (co_fabric (co_state c)) (co_world c))) as Hremoved.
  destruct (for_each _ _ _) as [o n']. simpl in Hremoved.
  assert (f_resources (nd_fabric n') !! owner = Some resource) as Hn'.
  { rewrite Hremoved, lookup_deletes, decide_False; [done|]. intros Hin.
    apply list_elem_of_fmap in Hin as ([id r] & Heq & [Hin Hle]%list_elem_of_In%filter_In). simpl in Heq. subst id.
    apply list_elem_of_In, elem_of_hash_iter in Hin. simpl in Hin. rewrite Hr in Hin. injection Hin as <-. apply Z.leb_le in Hle. lia. }
  by destruct o.
Qed.
Lemma tick_keeps c until :
  0 ≤ w_clock (co_world c) 0 → now_of (co_world c) < until → member_until until (co_fabric (co_state c)) →
  member_until until (co_fabric (co_state (maintenance_tick c).2)).
Proof.
  intros Hclock Hlive Hmember. unfold maintenance_tick, bind at 1, on_fabric at 1, fworld. cbn [nd_world nd_fabric].
  rewrite now_unix_ms_spec. destruct (Z.ltb_spec (w_clock (co_world c) 0) 0); [lia|]. cbn [nd_fabric nd_world].
  set (now := now_of (co_world c)) in *. set (c1 := mkCoord _ (tick (co_world c))).
  unfold bind at 1. pose proof (expire_keeps now c1 until Hlive Hmember) as H2. destruct (expire_total now c1) as [ids Hids].
  destruct (on_fabric (expire_resources_at now) c1) as [o c2]. simpl in Hids, H2. subst o.
  unfold bind at 1.
  assert (preserves same_members (for_each forget_resource ids)) as H3 by (unfold forget_resource; keep).
  specialize (H3 c2). destruct (for_each forget_resource ids c2) as [o c3]. unfold same_members in H3. simpl in H3.
  assert (preserves same_members (rethrow from_fabric (on_fabric (reap_expired_executions_at now));;; ret tt)) as H4
    by (keep; apply members_on_fabric, network_reap).
  specialize (H4 c3). unfold same_members in H4. unfold member_until in *.
  destruct o as [[]|e| |]; cbn [snd]; rewrite ?H4, H3; exact H2.
Qed.
Lemma member_stays request c until :
  0 ≤ w_clock (co_world c) 0 → now_of (co_world c) < until → foreign request = true →
  member_until until (co_fabric (co_state c)) →
  member_until (if is_beat request
                then saturating_add64 (now_of (co_world c)) (f_membership_ttl_ms (co_fabric (co_state c)))
                else until) (co_fabric (co_state (handle request c).2)).
Proof.
  intros Hclock Hlive Hforeign Hmember.
  destruct (moves_members request) eqn:Hm.
  2:{ assert (is_beat request = false) as -> by by destruct request.
      pose proof (members_handle request Hm c) as Hsame. unfold same_members, member_until in *. by rewrite Hsame. }
  destruct request as [d endpoint|id e| | | | | | | | | | | | | | |]; try discriminate Hm; cbn [handle]; rewrite respond_state; simpl in Hforeign.
  - apply negb_true_iff, bool_decide_eq_false in Hforeign. simpl.
    unfold handle_register, bind, lift. destruct (normalize_endpoint endpoint); try exact Hmember.
    assert (member_until until (co_fabric (co_state (on_fabric (register_resource (E:=ApiError) d) c).2))) as Hreg.
    { unfold on_fabric, register_resource, bind, fget, gets, fworld. simpl. rewrite now_unix_ms_spec.
      rewrite (proj2 (Z.ltb_ge _ _)) by done. unfold member_until. simpl. by rewrite lookup_insert_ne. }
    by destruct (on_fabric _ c) as [[] c'].
  - assert (member_until (if is_beat (Heartbeat id e)
      then saturating_add64 (now_of (co_world c)) (f_membership_ttl_ms (co_fabric (co_state c))) else until)
      (co_fabric (co_state (on_fabric (heartbeat id e) c).2))) as Hbeat.
    { destruct Hmember as (resource & Hr & He & Hu). unfold is_beat, member_until.
      unfold on_fabric, heartbeat, bind, fget, gets, fworld, ok_or_throw, lift. simpl.
      destruct (f_resources (co_fabric (co_state c)) !! id) as [r|] eqn:Hid; simpl.
      2:{ rewrite bool_decide_eq_false_2 by (intros [-> _]; congruence). by exists resource. }
      destruct (Z.eqb_spec (rd_epoch (reg_descriptor r)) e) as [Heq|Hne]; simpl.
      2:{ rewrite bool_decide_eq_false_2 by (intros [-> ->]; congruence). by exists resource. }
      rewrite now_unix_ms_spec, (proj2 (Z.ltb_ge _ _)) by done. simpl. destruct (decide (id = owner)) as [->|Hno].
      - rewrite bool_decide_eq_true_2 by (split; congruence). rewrite lookup_insert_eq.
        eexists. split_and!; [done|simpl; congruence|simpl; lia].
      - rewrite bool_decide_eq_false_2 by naive_solver. rewrite lookup_insert_ne by done. by exists resource. }
    unfold handle_heartbeat, rethrow. by destruct (on_fabric _ c) as [[] c'].
  - by apply tick_keeps.
Qed.

(** *** Watching the execution while requests are served *)

(** The life of a lease and of a membership, and the longest silence. *)
Context (ttl membership_ms gap : Z) (Hgap : gap < membership_ms).

(** The coordinator runs the task under [lease], which is the execution's, and
    the agent was last heard of at [beat]. *)
Record holds (beat : Z) (lease : ExecutionLease) (c : Coord) : Prop := {
  hl_ttl : f_execution_ttl_ms (co_fabric (co_state c)) = ttl;
  hl_membership : f_membership_ttl_ms (co_fabric (co_state c)) = membership_ms;
  hl_lease : el_task_id lease = task ∧ el_execution_id lease = execution ∧
    el_resource_id lease = owner ∧ el_resource_epoch lease = epoch;
  hl_task : ∃ record, f_tasks (co_fabric (co_state c)) !! task = Some record ∧ tr_status record = Running lease;
  hl_member : member_until (beat + membership_ms) (co_fabric (co_state c));
}.

Lemma holds_step request t beat lease c :
  0 ≤ t → t < el_expires_at_unix_ms lease → t ≤ beat + gap → t + membership_ms ≤ u64_max → 0 ≤ membership_ms →
  foreign request = true → holds beat lease c →
  holds (if is_beat request then t else beat) lease (handle request (at_time t c)).2.
Proof.
  intros Ht Hlive Hbeat Hmax Hms Hforeign [Httl Hm Hlease (record & Hrecord & Hrun) Hmember].
  pose proof (serves_handle request (at_time t c)) as [_ _ _ Hm' Hx' _]. simpl in Hm', Hx'.
  assert (now_of (co_world (at_time t c)) = t) as Hnow by (unfold now_of; simpl; lia).
  split; [congruence|congruence|done| |].
  - exists record. split; [|done]. eapply running_stays; [done|by rewrite Hnow|done..|]. by destruct Hlease as (_ & ? & _).
  - pose proof (member_stays request (at_time t c) (beat + membership_ms) Ht ltac:(rewrite Hnow; lia) Hforeign Hmember) as Hstays.
    rewrite Hnow in Hstays. simpl in Hstays. rewrite Hm in Hstays. destruct (is_beat request); [|done].
    unfold saturating_add64 in Hstays. by rewrite Z.min_l in Hstays by done.
Qed.

(** The requests served until [now], and those after. *)
Fixpoint arrived (now : Z) (events : list (Z * Request)) : list (Z * Request) * list (Z * Request) :=
  match events with
  | [] => ([], [])
  | (t, request) :: events' =>
      if t <=? now then let '(served, later) := arrived now events' in ((t, request) :: served, later)
      else ([], events)
  end.
Lemma holds_arrived horizon now beat time lease events c :
  0 ≤ time ≤ now → now ≤ horizon → now < el_expires_at_unix_ms lease → now + membership_ms ≤ u64_max →
  0 ≤ membership_ms → heard gap beat time events horizon = true → holds beat lease c →
  let '(served, later) := arrived now events in
  ∃ beat', now ≤ beat' + gap ∧ heard gap beat' now later horizon = true ∧ holds beat' lease (run_daemon served c).
Proof.
  revert beat time c. induction events as [|[t request] events IH]; intros beat time c Htime Hhorizon Hlive Hmax Hms; simpl.
  { intros Hbeat Hholds. exists beat. rewrite Z.leb_le in *. split_and!; [lia|lia|done]. }
  intros Hheard Hholds. pose proof Hheard as [[[Ht%Z.leb_le Hb%Z.leb_le]%andb_true_iff Hf]%andb_true_iff Hrest]%andb_true_iff.
  destruct (Z.leb_spec t now) as [Hle|Hgt].
  - specialize (IH (if is_beat request then t else beat) t (handle request (at_time t c)).2).
    destruct (arrived now events) as [served later]. cbn [run_daemon]. apply IH; try done; [lia|].
    apply holds_step; try done; lia.
  - exists beat. cbn [run_daemon heard]. rewrite Hf, Hrest. split_and!; [lia| |done].
    rewrite !andb_true_iff, !Z.leb_le. lia.
Qed.
End traffic.

(** ** The agent and the coordinator *)

(** The agent, the coordinator, what else it will be sent and the time they
    share; each message to the coordinator takes the first, its answer the
    second of the next delays. *)
Record Timed := mkTimed {
  tm_now : Z;
  tm_lease : ExecutionLease;
  tm_coordinator : Coord;
  tm_traffic : list (Z * Request);
  tm_delays : nat → Z * Z;
}.

Section timed.
Context `{Sha256Crate} `{ErrorTexts} `{HttpCrate} `{SerdeJson} `{UuidCrate} `{HashOrder} `{HttpServer}.
(** The agent reads a lease as the coordinator writes it. *)
Context (Hjson : ∀ lease, execution_of_json (response_json (ResExecution lease)) = Ok lease).
(** Where the coordinator listens. *)
Context (home : string).
(** The execution, and the incarnation of the agent that holds it. *)
Context (task : TaskId) (execution : ExecutionId) (owner : ResourceId) (epoch : Z).
(** The life of a lease and of a membership, the longest time between two
    heartbeats, the longest a message takes, and the end of time. *)
Context (ttl membership_ms gap delay_ms horizon : Z).
Abbreviation holds := (holds task execution owner epoch ttl membership_ms).
Abbreviation heard := (heard task execution owner epoch gap).

(** The coordinator serves what arrives until then, and then [request]. *)
Definition deliver (url : string) (request : Request) (t : Timed) : outcome string HttpResponse * Timed :=
  let '(there, back) := tm_delays t 0 in
  let arrival := tm_now t + there in
  let '(served, later) := arrived arrival (tm_traffic t) in
  let '(answer, c) := serve_http home POST url request (at_time arrival (run_daemon served (tm_coordinator t))) in
  (over_http answer, mkTimed (arrival + back) (tm_lease t) c later (λ n, tm_delays t (S n))).

Definition timed : handler AgentCall Timed := λ R c t,
  match c in AgentCall R return R * Timed → R * Timed with
  | SystemTime => λ _, (tm_now t, t)
  | Sleep millis => λ _, (tt, mkTimed (tm_now t + millis) (tm_lease t) (tm_coordinator t) (tm_traffic t) (tm_delays t))
  | GetLease => λ _, (tm_lease t, t)
  | SetLease lease => λ _, (tt, mkTimed (tm_now t) lease (tm_coordinator t) (tm_traffic t) (tm_delays t))
  | Send (HttpPost url request) => λ _, deliver url request t
  | _ => λ other, other
  end (let '(r, _) := offline R c sample_host in (r, t)).

(** ** How long the loop sleeps *)

Lemma renewal_sleep_bounds remaining : 50 ≤ renewal_sleep remaining ≤ 5000.
Proof. unfold renewal_sleep. lia. Qed.
Lemma renewal_sleep_margin life remaining delay :
  150 < life → 2 * life ≤ 3 * remaining → 3 * delay ≤ life → renewal_sleep remaining + delay < remaining.
Proof.
  intros. unfold renewal_sleep. pose proof (Z.div_mod remaining 3). pose proof (Z.mod_pos_bound remaining 3). lia.
Qed.

(** ** The lease between two turns *)

(** The time from one renewal's arrival to the next. *)
Definition turn_ms : Z := 5000 + 2 * delay_ms.

(** The agent has the lease of the last renewal, granted at most an answer's
    delay ago; what the coordinator is still sent is foreign to the execution
    and lets the agent's heartbeats through; and [turns] more turns fit before
    the horizon. *)
Record on_time (turns : nat) (t : Timed) : Prop := {
  ot_delays n : 0 ≤ (tm_delays t n).1 ≤ delay_ms ∧ 0 ≤ (tm_delays t n).2 ≤ delay_ms;
  ot_holds : ∃ granted beat, 0 ≤ granted ≤ tm_now t ∧ tm_now t ≤ granted + delay_ms ∧
    el_expires_at_unix_ms (tm_lease t) = granted + ttl ∧ holds beat (tm_lease t) (tm_coordinator t) ∧
    heard beat granted (tm_traffic t) horizon = true;
  ot_horizon : tm_now t + Z.of_nat turns * turn_ms ≤ horizon;
}.

(** A renewal that arrives before the expiry is granted. *)
Lemma renew_execution_granted lease n record current :
  0 ≤ w_clock (nd_world n) 0 → lease_valid (nd_fabric n) (now_of (nd_world n)) lease record current →
  let renewed := mkExecutionLease (el_task_id current) (el_execution_id current) (el_resource_id current)
                   (el_resource_epoch current)
                   (saturating_add64 (now_of (nd_world n)) (f_execution_ttl_ms (nd_fabric n))) in
  renew_execution lease n =
    (Ok renewed, mkNode (set_tasks (nd_fabric n)
       (<[el_task_id lease := mkTaskRecord (tr_spec record) (Running renewed)]> (f_tasks (nd_fabric n))))
       (tick (nd_world n))).
Proof.
  intros Hclock Hvalid. unfold renew_execution. unfold bind at 1, fworld at 1. rewrite now_unix_ms_spec.
  rewrite (proj2 (Z.ltb_ge _ _)) by done. unfold bind at 1.
  destruct (check_lease_spec lease (now_of (nd_world n)) (mkNode (nd_fabric n) (tick (nd_world n))))
    as [(record' & current' & Hv & ->)|[Hno _]]; [|destruct Hno; by exists record, current].
  pose proof (lv_task _ _ _ _ _ Hv) as Ht. pose proof (lv_running _ _ _ _ _ Hv) as Hr. cbn [nd_fabric] in Ht.
  rewrite (lv_task _ _ _ _ _ Hvalid) in Ht. injection Ht as <-.
  rewrite (lv_running _ _ _ _ _ Hvalid) in Hr. injection Hr as <-. done.
Qed.

Lemma handle_renew_granted c lease now record resource :
  0 ≤ now → now + f_execution_ttl_ms (co_fabric (co_state c)) ≤ u64_max →
  0 ≤ f_execution_ttl_ms (co_fabric (co_state c)) →
  f_tasks (co_fabric (co_state c)) !! el_task_id lease = Some record → tr_status record = Running lease →
  f_resources (co_fabric (co_state c)) !! el_resource_id lease = Some resource →
  rd_epoch (reg_descriptor resource) = el_resource_epoch lease →
  now < reg_expires_at_unix_ms resource → now < el_expires_at_unix_ms lease →
  let renewed := mkExecutionLease (el_task_id lease) (el_execution_id lease) (el_resource_id lease)
                   (el_resource_epoch lease) (now + f_execution_ttl_ms (co_fabric (co_state c))) in
  let '(o, c') := handle (RenewExecution lease) (at_time now c) in
  o = Ok (ResExecution renewed) ∧
  co_fabric (co_state c') =
    set_tasks (co_fabric (co_state c))
      (<[el_task_id lease := mkTaskRecord (tr_spec record) (Running renewed)]> (f_tasks (co_fabric (co_state c)))).
Proof.
  intros Hnow Hmax Httl Htask Hrun Hres Hepoch Hmember Hlive. cbv zeta.
  assert (now_of (co_world (at_time now c)) = now) as Hof by (unfold now_of; simpl; lia).
  pose proof (renew_execution_granted lease (mkNode (co_fabric (co_state c)) (co_world (at_time now c))) record lease Hnow) as Hgrant.
  cbn [nd_fabric nd_world] in Hgrant. rewrite Hof in Hgrant. cbv zeta in Hgrant.
  unfold handle, respond, handle_renew, rethrow, on_fabric, bind. change (co_state (at_time now c)) with (co_state c).
  rewrite Hgrant by (split; [exists resource; by split|done..]). cbn.
  unfold saturating_add64. by rewrite Z.min_l.
Qed.

#[local] Arguments handle : simpl never.

Context (Hdelay : 0 ≤ delay_ms) (Hround : 3 * delay_ms < ttl) (Httl : 150 < ttl).
Context (Hgap : 0 ≤ gap < membership_ms) (Hend : horizon + Z.max ttl membership_ms ≤ u64_max).

(** A renewal that arrives in time is granted, and leaves the lease held. *)
Lemma renewal_holds beat now lease c :
  0 ≤ now → now ≤ horizon → now ≤ beat + gap → now < el_expires_at_unix_ms lease → holds beat lease c →
  let renewed := mkExecutionLease (el_task_id lease) (el_execution_id lease) (el_resource_id lease)
                   (el_resource_epoch lease) (now + ttl) in
  let '(o, c') := handle (RenewExecution lease) (at_time now c) in
  o = Ok (ResExecution renewed) ∧ holds beat renewed c'.
Proof.
  intros Hnow Hhor Hbeat Hlive [Hx Hm (Htid & Heid & Hrid & Hep) (record & Hrecord & Hrun) (resource & Hr & He & Hu)].
  pose proof (handle_renew_granted c lease now record resource) as Hgrant. cbv zeta in *. rewrite Hx in Hgrant.
  destruct (handle _ _) as [o c']. destruct Hgrant as [-> Hf]; [lia..|congruence|done|congruence|congruence|lia|done|].
  split; [done|]. split; rewrite ?Hf; [done..| |by exists resource].
  rewrite <- Htid. eexists. split; [simpl; apply lookup_insert_eq|reflexivity].
Qed.

(** One turn of the loop renews the lease. *)
Lemma renew_turn_on_time turns t :
  on_time (S turns) t →
  ∃ t', run timed (renew_turn home) t = (Ok true, t') ∧ on_time turns t' ∧ tm_now t + 50 ≤ tm_now t'.
Proof.
  intros [Hdelays (granted & beat & Hgranted & Hlate & Hexpires & Hholds & Hheard) Hhorizon].
  destruct (Hdelays 0%nat) as [Hthere Hback]. destruct (tm_delays t 0) as [there back] eqn:Hd. simpl in Hthere, Hback.
  set (remaining := el_expires_at_unix_ms (tm_lease t) - tm_now t) in *.
  pose proof (renewal_sleep_bounds remaining) as Hsleep.
  pose proof (renewal_sleep_margin ttl remaining there Httl ltac:(lia) ltac:(lia)) as Hmargin.
  set (arrival := tm_now t + renewal_sleep remaining + there).
  assert (granted ≤ arrival ∧ arrival + back + Z.of_nat turns * turn_ms ≤ horizon) as [Harrival Hleft]
    by (unfold arrival, turn_ms in *; lia).
  assert (arrival ≤ horizon) as Hhor by (unfold turn_ms in *; lia).
  assert (arrival < el_expires_at_unix_ms (tm_lease t)) as Hlive by (unfold arrival, remaining in *; lia).
  pose proof (holds_arrived task execution owner epoch ttl membership_ms gap ltac:(lia) horizon arrival beat granted
    (tm_lease t) (tm_traffic t) (tm_coordinator t)) as Hserved.
  destruct (arrived arrival (tm_traffic t)) as [served later] eqn:Harrived.
  destruct Hserved as (beat' & Hbeat' & Hlater & Hcurrent); [lia..|done|done|].
  pose proof (renewal_holds beat' arrival (tm_lease t) _ ltac:(lia) Hhor Hbeat' Hlive Hcurrent) as Hrenewed.
  cbv zeta in Hrenewed. set (renewed := mkExecutionLease _ _ _ _ _) in *.
  destruct (handle (RenewExecution (tm_lease t)) (at_time arrival (run_daemon served (tm_coordinator t)))) as [o c] eqn:Hhandle.
  destruct Hrenewed as [-> Hnext].
  exists (mkTimed (arrival + back) renewed c later (λ n, tm_delays t (S n))). split_and!; [| |unfold arrival; simpl; lia].
  - unfold renew_turn, ptry, ask, parse_json. cbn. fold remaining.
    rewrite (proj2 (Z.ltb_ge _ _)) by lia. cbn.
    rewrite (proj2 (Z.leb_le _ _)) by lia. cbn. fold remaining.
    rewrite (Z.max_r 0 remaining) by lia. rewrite (proj2 (Z.eqb_neq _ _)) by lia. cbn.
    unfold deliver. cbn [tm_delays tm_now tm_coordinator tm_lease tm_traffic]. rewrite Hd. fold arrival. rewrite Harrived.
    rewrite (serve_routed home POST "/v1/work/renew" (RenewExecution (tm_lease t)) _ eq_refl), Hhandle. cbn. rewrite Hjson. done.
  - split; cbn [tm_now tm_lease tm_coordinator tm_traffic tm_delays]; [intros n; apply Hdelays| |done].
    exists arrival, beat'. split_and!; [lia..|done|done|done].
Qed.

End timed.

(** ** An example *)

(** A wire form of leases. *)
Definition lease_fields (lease : ExecutionLease) :=
  (el_task_id lease, el_execution_id lease, el_resource_id lease, el_resource_epoch lease, el_expires_at_unix_ms lease).
Definition lease_wire (lease : ExecutionLease) : Bytes := to_wire (encode (lease_fields lease)).
Definition lease_json : SerdeJson :=
  {| partition_to_json _ := Ok "{}";
     register_response_of_json _ := Err "invalid JSON";
     membership_of_json _ := Err "invalid JSON";
     execution_of_json bytes :=
       match decode (A:=TaskId * ExecutionId * ResourceId * Z * Z) (of_wire bytes) with
       | Some (task, execution, resource, epoch, expires) =>
           Ok (mkExecutionLease task execution resource epoch expires)
       | None => Err "invalid JSON"
       end;
     assignment_of_json _ := Err "invalid JSON";
     resources_of_json _ := Err "invalid JSON";
     error_of_json _ := Err "invalid JSON" |}.
Definition lease_server : HttpServer :=
  {| response_json response := match response with ResExecution lease => lease_wire lease | _ => [] end;
     error_json message := to_bytes message; rejection _ _ _ := (404, []); rejection_fails _ _ _ := eq_refl |}.
Lemma lease_wire_decodes lease :
  @execution_of_json lease_json (@response_json lease_server (ResExecution lease)) = Ok lease.
Proof. simpl. unfold lease_wire. rewrite of_to_wire, decode_encode. by destruct lease. Qed.

#[local] Existing Instances Run.order Run.text toy_http lease_json lease_server.
(** What else happens in two minutes: another agent joins and takes a task that
    a client submits, the maintenance task ticks four times a second and the
    agent is heard of every five seconds. *)
Definition sample_traffic : list (Z * Request) :=
  [(1000, Run.resource 2); (1100, SubmitTask (Samples.task (Samples.task_id 8) Pure));
   (1200, PollWork (Samples.resource_id 2) 1)] ++
  (seqZ 1 480 ≫= λ k, let now := 1000 + 250 * k in
     (now, MaintenanceTick) :: (if k mod 20 =? 0 then [(now, Heartbeat (Samples.resource_id 1) 1)] else [])).
(** The agent of the run of [Evolution], just granted its lease of a minute, with
    messages that take 20 and 30 milliseconds. *)
Definition timed_start : Timed := mkTimed 1000 sample_lease Run.leased sample_traffic (λ _, (20, 30)).

