(* ===== verification/Cli.v ===== *)
(** * The command line client (plurifold-cli/src/main.rs)

    One definition per command: each reads files, sends requests to the
    coordinator or to an agent and prints; [demo] schedules a task on a fabric
    of its own. *)

From Stdlib Require Import Strings.Byte.
From S2P Require Import Prelude Float64 World Text Program Bytes Core Samples Scheduler Planner Fabric Coordinator Routes AgentCalls.
Open Scope string_scope.
Open Scope list_scope.
Open Scope Z_scope.
Open Scope prog_scope.

(** ** Calls *)

(** [Result<A, _>] of another crate, its error already a text. *)
Abbreviation result A := (string + A)%type.

Inductive CliRequest :=
| CliGet (url : string)
| CliPost (url : string) (body : Request)
| CliPostBytes (url : string) (body : Bytes).
Record CliResponse := mkCliResponse { cr_status : Z; cr_body : result Bytes }.

(** What is printed: texts, and numbers with one decimal ([{:.1}]). *)
Inductive Piece := Plain (text : string) | OneDecimal (value : f64).

(** [OnFabric]: a computation of the process on a fabric of its own, with the
    clock and the random source of the process. *)
Inductive CliCall : Type → Type :=
| ReadInputFile (path : string) : CliCall (result Bytes)
| Fetch (request : CliRequest) : CliCall (result CliResponse)
| Println (line : list Piece) : CliCall unit
| CliSleep (millis : Z) : CliCall unit
| InstantNow : CliCall Z
| NewUuid : CliCall Uuid
| OnFabric {A : Type} (m : comp Node FabricError A) : CliCall (outcome FabricError A).

(** A command's program; an error ends the process with its text. *)
Abbreviation cli A := (prog CliCall (outcome string A)).

(** [serde_json] on the types the client reads and prints. *)
Class CliJson := {
  cli_error_of_json : Bytes → result string;
  put_object_of_json : Bytes → result ObjectMetadata;
  submitted_task_of_json : Bytes → result TaskId;
  submitted_job_of_json : Bytes → result JobId;
  submitted_logical_of_json : Bytes → result (JobId * option CooperativePlan);
  task_view_of_json : Bytes → result TaskView;
  job_view_of_json : Bytes → result CooperativeJobView;
  plan_of_json : Bytes → result CooperativePlan;
  resource_list_of_json : Bytes → result (list ResourceView);
  cooperative_job_of_json : Bytes → result CooperativeJobSpec;
  logical_job_of_json : Bytes → result LogicalJobSpec;
  task_view_pretty : TaskView → result string;
  job_view_pretty : CooperativeJobView → result string;
  plan_pretty : CooperativePlan → result string;
  resource_list_pretty : list ResourceView → result string;
}.

Definition of_result {A} (m : result A) : outcome string A :=
  match m with inl e => Err e | inr a => Ok a end.
Definition request_ {A} (c : CliCall (result A)) : cli A := pbind (call c) (λ m, Done (of_result m)).
Definition println (text : string) : cli unit := pbind (call (Println [Plain text])) (λ _, Done (Ok tt)).

(** ** Commands *)

Inductive CliCommand :=
| Demo
| Put (coordinator agent file : string)
| Submit (coordinator artifact entrypoint : string) (arguments : list string) (inputs : list ObjectId)
    (required_features : list string) (compute_ms : f64) (output_bytes : Z)
| Status (coordinator : string) (task : TaskId)
| Wait (coordinator : string) (task : TaskId) (timeout_s : Z)
| JobSubmit (coordinator file : string)
| JobPlan (coordinator file : string)
| JobAutoSubmit (coordinator file : string)
| JobStatus (coordinator : string) (job : JobId)
| JobWait (coordinator : string) (job : JobId) (timeout_s : Z)
| Resources (coordinator : string)
| Link (coordinator : string) (from to : ResourceId) (rtt_ms bandwidth_mbps : f64).

Section commands.
Context `{CliJson} `{HttpCrate} `{UuidCrate} `{HashOrder}.

(** [base] *)
Definition base (url : string) : string := trim_end_slashes url.

(** [checked] *)
Definition checked (response : CliResponse) : outcome string CliResponse :=
  if is_success (cr_status response) then Ok response
  else
    let message := match cr_body response with
                   | inr bytes => match cli_error_of_json bytes with inr error => error | inl _ => "request failed" end
                   | inl _ => "request failed"
                   end in
    Err (status_to_string (cr_status response) +:+ ": " +:+ message).

(** [checked(client....send().await?).await?] *)
Definition fetch_checked (request : CliRequest) : cli CliResponse :=
  let? response := request_ (Fetch request) in
  Done (checked response).
(** [response.json().await?] *)
Definition json {A} (of_json : Bytes → result A) (response : CliResponse) : outcome string A :=
  obind (of_result (cr_body response)) (λ bytes, of_result (of_json bytes)).

(** [put] *)
Definition put (coordinator agent file : string) : cli unit :=
  let? bytes := request_ (ReadInputFile file) in
  let? response := fetch_checked (CliPostBytes (base agent +:+ "/v1/objects") bytes) in
  let? object := Done (json put_object_of_json response) in
  let? _ := fetch_checked (CliPost (base coordinator +:+ "/v1/objects/publish") (PublishObject object)) in
  println (id_to_string (om_id object)).

(** [submit] *)
Definition cli_submit (coordinator : string) (task : TaskSpec) : cli unit :=
  let? response := fetch_checked (CliPost (base coordinator +:+ "/v1/tasks") (SubmitTask task)) in
  let? submitted := Done (json submitted_task_of_json response) in
  println (id_to_string submitted).
(** [task_view] *)
Definition task_view (coordinator : string) (task : TaskId) : cli TaskView :=
  let? response := fetch_checked (CliGet (base coordinator +:+ "/v1/tasks/" +:+ id_to_string task)) in
  Done (json task_view_of_json response).
(** [submit_job] *)
Definition submit_job (coordinator : string) (job : CooperativeJobSpec) : cli unit :=
  let? response := fetch_checked (CliPost (base coordinator +:+ "/v1/jobs") (SubmitCooperativeJob job)) in
  let? submitted := Done (json submitted_job_of_json response) in
  println (id_to_string submitted).
(** [plan_job] *)
Definition plan_job (coordinator : string) (job : LogicalJobSpec) : cli CooperativePlan :=
  let? response := fetch_checked (CliPost (base coordinator +:+ "/v1/jobs/plan") (PlanLogicalJob job)) in
  Done (json plan_of_json response).
(** [auto_submit_job] *)
Definition auto_submit_job (coordinator : string) (job : LogicalJobSpec) :
    cli (JobId * option CooperativePlan) :=
  let? response := fetch_checked (CliPost (base coordinator +:+ "/v1/jobs/auto") (SubmitPlannedJob job)) in
  Done (json submitted_logical_of_json response).
(** [cooperative_job_view] *)
Definition cooperative_job_view (coordinator : string) (job : JobId) : cli CooperativeJobView :=
  let? response := fetch_checked (CliGet (base coordinator +:+ "/v1/jobs/" +:+ id_to_string job)) in
  Done (json job_view_of_json response).

(** [Instant::now() + Duration::from_secs(seconds)]: an instant, in nanoseconds,
    whose seconds are an [i64]. *)
Definition deadline_after (now seconds : Z) : outcome string Z :=
  if now / 1000000000 + seconds <=? 2 ^ 63 - 1 then Ok (now + seconds * 1000000000) else Panic.

(** What a look at a task or a job says: done, with the text to print; gone
    wrong; or not yet. *)
Inductive Verdict := Finished (text : result string) | Failed | Unfinished.
Definition task_verdict (view : TaskView) : Verdict :=
  match tv_status view with
  | TaskCompleted _ => Finished (task_view_pretty view)
  | TaskUncertain => Failed
  | Pending | Running _ => Unfinished
  end.
Definition job_verdict (view : CooperativeJobView) : Verdict :=
  match cjv_status view with
  | JobCompleted _ => Finished (job_view_pretty view)
  | JobUncertain => Failed
  | JobRunning => Unfinished
  end.

(** The loop of [wait] and [wait_job], for [turns] turns at most. *)
Fixpoint wait_loop {V} (turns : nat) (look : cli V) (verdict : V → Verdict) (what : string) (deadline : Z) :
    cli unit :=
  match turns with
  | O => Done Diverged
  | S turns' =>
      let? view := look in
      match verdict view with
      | Finished text => let? text := Done (of_result text) in println text
      | Failed => Done (Err (what +:+ " entered uncertain state"))
      | Unfinished =>
          let* now := call InstantNow in
          if deadline <=? now then Done (Err ("timed out waiting for " +:+ what))
          else
            let* _ := call (CliSleep 100) in
            wait_loop turns' look verdict what deadline
      end
  end.
(** [wait] *)
Definition wait (turns : nat) (coordinator : string) (task : TaskId) (timeout_s : Z) : cli unit :=
  let* now := call InstantNow in
  let? deadline := Done (deadline_after now timeout_s) in
  wait_loop turns (task_view coordinator task) task_verdict ("task " +:+ id_to_string task) deadline.
(** [wait_job] *)
Definition wait_job (turns : nat) (coordinator : string) (job : JobId) (timeout_s : Z) : cli unit :=
  let* now := call InstantNow in
  let? deadline := Done (deadline_after now timeout_s) in
  wait_loop turns (cooperative_job_view coordinator job) job_verdict ("cooperative job " +:+ id_to_string job) deadline.

(** ** The demonstration *)

(** [cpu_resource] *)
Definition cpu_resource (id : ResourceId) (performance_score : f64) : ResourceDescriptor :=
  mkResourceDescriptor id 0 X86_64 16 (64 * 2 ^ 30) [] ∅ performance_score 0 0 0.

Definition demo_task (id : TaskId) (data : ObjectId) : TaskSpec :=
  mkTaskSpec id "demo://analysis" "run" [] [data] ResourceRequirements_default Pure
    (mkCostHint 5000 (2 ^ 20)) None None.
Definition demo_object (data : ObjectId) (local : ResourceId) : ObjectMetadata :=
  mkObjectMetadata data (10 * 2 ^ 30) None None [local] None.

(** What [demo] does with its fabric. *)
Definition demo_fabric (local remote : ResourceId) (data : ObjectId) (task : TaskId) :
    comp Node FabricError PlacementDecision :=
  bind (register_resource (cpu_resource local 1)) (λ _,
  bind (register_resource (cpu_resource remote 10)) (λ _,
  bind (set_topology [mkLinkProfile local remote 100 100]) (λ _,
  bind (publish_object (demo_object data local)) (λ _,
  bind (submit (demo_task task data)) (λ task_id,
  schedule_task task_id))))).

(** [demo]; every [unwrap] panics on an error. *)
Definition demo : cli unit :=
  let* local := call NewUuid in
  let* remote := call NewUuid in
  let* data := call NewUuid in
  let* task := call NewUuid in
  let* placed := call (OnFabric (demo_fabric (mkId local) (mkId remote) (mkId data) (mkId task))) in
  match placed with
  | Ok decision =>
      let* _ := call (Println [Plain ("local resource:  " +:+ id_to_string (tag:=ResourceTag) (mkId local))]) in
      let* _ := call (Println [Plain ("remote resource: " +:+ id_to_string (tag:=ResourceTag) (mkId remote) +:+
                                      " (10x compute, 100 ms / 100 Mbps link)")]) in
      let* _ := call (Println [Plain ("selected:        " +:+ id_to_string (pd_resource_id decision))]) in
      let* _ := call (Println [Plain "estimated total: "; OneDecimal (pb_total_ms (pd_cost decision)); Plain " ms"]) in
      let* _ := call (Println [Plain "input transfer:  "; OneDecimal (pb_input_transfer_ms (pd_cost decision)); Plain " ms"]) in
      Done (Ok tt)
  | Diverged => Done Diverged
  | _ => Done Panic
  end.

(** ** [main] *)

(** [tokio::fs::read(file).await?] and [serde_json::from_slice(&bytes)?] *)
Definition read_json {A} (of_json : Bytes → result A) (file : string) : cli A :=
  let? bytes := request_ (ReadInputFile file) in
  Done (of_result (of_json bytes)).
Definition print_json {A} (pretty : A → result string) (a : A) : cli unit :=
  let? text := Done (of_result (pretty a)) in
  println text.

(** The task of [Command::Submit]. *)
Definition submitted_task (id : TaskId) (artifact entrypoint : string) (arguments : list string)
    (inputs : list ObjectId) (required_features : list string) (compute_ms : f64) (output_bytes : Z) : TaskSpec :=
  let default := ResourceRequirements_default in
  mkTaskSpec id artifact entrypoint arguments inputs
    (mkResourceRequirements (req_architecture default) (req_min_memory_bytes default) (req_accelerator default)
       (list_to_set required_features))
    Pure (mkCostHint compute_ms output_bytes) None None.

(** [main] after parsing, its loops run for [turns] turns at most. *)
Definition cli_main (turns : nat) (command : CliCommand) : cli unit :=
  match command with
  | Demo => demo
  | Put coordinator agent file => put coordinator agent file
  | Submit coordinator artifact entrypoint arguments inputs features compute_ms output_bytes =>
      let* uuid := call NewUuid in
      cli_submit coordinator
        (submitted_task (mkId uuid) artifact entrypoint arguments inputs features compute_ms output_bytes)
  | Status coordinator task =>
      let? view := task_view coordinator task in
      print_json task_view_pretty view
  | Wait coordinator task timeout_s => wait turns coordinator task timeout_s
  | JobSubmit coordinator file =>
      let? job := read_json cooperative_job_of_json file in
      submit_job coordinator job
  | JobPlan coordinator file =>
      let? job := read_json logical_job_of_json file in
      let? plan := plan_job coordinator job in
      print_json plan_pretty plan
  | JobAutoSubmit coordinator file =>
      let? job := read_json logical_job_of_json file in
      let? submitted := auto_submit_job coordinator job in
      println (id_to_string submitted.1)
  | JobStatus coordinator job =>
      let? view := cooperative_job_view coordinator job in
      print_json job_view_pretty view
  | JobWait coordinator job timeout_s => wait_job turns coordinator job timeout_s
  | Resources coordinator =>
      let? response := fetch_checked (CliGet (base coordinator +:+ "/v1/resources")) in
      let? resources := Done (json resource_list_of_json response) in
      print_json resource_list_pretty resources
  | Link coordinator from to rtt_ms bandwidth_mbps =>
      let? _ := fetch_checked (CliPost (base coordinator +:+ "/v1/topology/link")
                                 (UpdateLink (mkLinkProfile from to rtt_ms bandwidth_mbps))) in
      Done (Ok tt)
  end.
End commands.

(** ** Waiting ends *)

Section waiting.
Context `{CliJson} `{HttpCrate} `{UuidCrate}.
Context {S : Type} (h : handler CliCall S) (time : S → Z).

(** Time, in nanoseconds: it does not run backwards, [InstantNow] reads it, and
    a sleep lasts as long as asked at least. *)
Record clock : Prop := {
  clock_forward R c s : time s ≤ time (h R c s).2;
  clock_now s : time s ≤ (h _ InstantNow s).1 ≤ time (h _ InstantNow s).2;
  clock_sleep millis s : time s + millis * 1000000 ≤ time (h _ (CliSleep millis) s).2;
}.
Context (Hclock : clock).

Lemma run_forward {A} (p : prog CliCall A) s : time s ≤ time (run h p s).2.
Proof.
  revert s. induction p as [a|R c k IH]; intros s; simpl; [lia|].
  pose proof (clock_forward Hclock R c s) as Hc. destruct (h R c s) as [r s']. simpl in Hc.
  specialize (IH r s'). lia.
Qed.

(** A look gives a view or an error. *)
Definition settles {V} (look : cli V) : Prop :=
  ∀ s, match (run h look s).1 with Ok _ | Err _ => True | Panic | Diverged => False end.

Lemma settles_fetch_json {A} request (of_json : Bytes → result A) :
  settles (ptry id (fetch_checked request) (λ response, Done (json of_json response))).
Proof.
  intros s. unfold fetch_checked, request_. rewrite !run_ptry, run_pbind. simpl.
  destruct (h _ (Fetch request) s) as [[error|response] s']; simpl; [done|].
  unfold checked. destruct (is_success _); simpl; [|done]. unfold json.
  destruct (cr_body response) as [error|bytes]; simpl; [done|]. by destruct (of_json bytes).
Qed.

(** What an answer of the loop says of the last look. *)
Definition justified {V} (look : cli V) (verdict : V → Verdict) (deadline start : Z)
    (answer : outcome string unit) (finish : S) : Prop :=
  ∃ s seen s', start ≤ time s ∧ run h look s = (seen, s') ∧
  match answer with
  | Ok _ => ∃ view text, seen = Ok view ∧ verdict view = Finished (inr text)
  | Err error =>
      seen = Err error ∨
      ∃ view, seen = Ok view ∧
        (verdict view = Finished (inl error) ∨ verdict view = Failed ∨
         verdict view = Unfinished ∧ deadline ≤ time finish)
  | Panic | Diverged => False
  end.

Lemma wait_loop_ends {V} (look : cli V) verdict what deadline turns s :
  settles look → deadline ≤ time s + Z.of_nat turns * 100000000 →
  let '(answer, finish) := run h (wait_loop (Datatypes.S turns) look verdict what deadline) s in
  justified look verdict deadline (time s) answer finish.
Proof.
  intros Hlook. revert s. induction turns as [|turns IH]; intros s Hturns;
    cbn [wait_loop]; rewrite run_ptry; specialize (Hlook s) as Hs;
    destruct (run h look s) as [seen s1] eqn:Hrun; pose proof (run_forward look s) as Hf;
    rewrite Hrun in Hf; simpl in Hs, Hf; destruct seen as [view|error| |]; try done;
    try (exists s, (Err error), s1; split_and!; [lia|done|by left]);
    (destruct (verdict view) as [[error|text]| |] eqn:Hv;
      [exists s, (Ok view), s1; split_and!; [lia|done|]; right; exists view; by auto
      |unfold println; simpl; destruct (h _ (Println _) s1); exists s, (Ok view), s1; split_and!; [lia|done|]; by exists view, text
      |exists s, (Ok view), s1; split_and!; [lia|done|]; right; exists view; by auto|]);
    rewrite run_pbind; simpl; pose proof (clock_now Hclock s1) as Hnow;
    destruct (h _ InstantNow s1) as [now s2]; simpl in Hnow; destruct (Z.leb_spec deadline now).
  1,3: exists s, (Ok view), s1; split_and!; [lia|done|]; right; exists view; split; [done|]; right; right; split; [done|simpl; lia].
  - lia.
  - cbn [run]. pose proof (clock_sleep Hclock 100 s2) as Hsleep.
    destruct (h _ (CliSleep 100) s2) as [[] s3]. simpl in Hsleep.
    specialize (IH s3 ltac:(lia)). cbn [wait_loop] in IH.
    destruct (run h _ s3) as [answer finish]. destruct IH as (t & seen & t' & Ht & Hseen & Hans).
    exists t, seen, t'. split_and!; [lia|done|done].
Qed.

(** The same from the start, with the deadline the clock gives. *)
Lemma wait_from_start {V} (look : cli V) verdict what timeout_s turns s :
  settles look → (Z.to_nat (10 * timeout_s) < turns)%nat →
  let '(answer, finish) := run h (pbind (call InstantNow) (λ now,
      ptry id (Done (deadline_after now timeout_s)) (wait_loop turns look verdict what))) s in
  (answer = Panic ∧ 2 ^ 63 ≤ (h _ InstantNow s).1 / 1000000000 + timeout_s) ∨
  ∃ deadline, time s + timeout_s * 1000000000 ≤ deadline ∧
    justified look verdict deadline (time s) answer finish.
Proof.
  intros Hlook Hturns. rewrite run_pbind. simpl. pose proof (clock_now Hclock s) as Hnow.
  destruct (h _ InstantNow s) as [now s1]. simpl in *. rewrite run_ptry. simpl. unfold deadline_after.
  destruct (Z.leb_spec (now / 1000000000 + timeout_s) (2 ^ 63 - 1)) as [Hfits|Hover]; [|left; split; [done|lia]].
  destruct turns as [|turns]; [lia|].
  pose proof (wait_loop_ends look verdict what (now + timeout_s * 1000000000) turns s1 Hlook) as Hends.
  destruct (run h _ s1) as [answer finish]. right. exists (now + timeout_s * 1000000000). split; [lia|].
  destruct Hends as (t & seen & t' & Ht & Hseen & Hans); [lia|].
  exists t, seen, t'. split_and!; [lia|done|done].
Qed.

End waiting.

(** ** An example *)

(** A clock that each call moves by a microsecond, and a coordinator whose
    tasks and jobs never finish. *)
Definition unfinished_json : CliJson :=
  {| cli_error_of_json _ := inl "invalid JSON";
     put_object_of_json _ := inl "invalid JSON";
     submitted_task_of_json _ := inl "invalid JSON";
     submitted_job_of_json _ := inl "invalid JSON";
     submitted_logical_of_json _ := inl "invalid JSON";
     task_view_of_json _ := inr (mkTaskView (demo_task (mkId 1) (mkId 2)) Pending);
     job_view_of_json _ := inr (mkCooperativeJobView (Cooperative (mkCooperativeJobSpec (mkId 1) [] [])) JobRunning []);
     plan_of_json _ := inl "invalid JSON";
     resource_list_of_json _ := inl "invalid JSON";
     cooperative_job_of_json _ := inl "invalid JSON";
     logical_job_of_json _ := inl "invalid JSON";
     task_view_pretty _ := inr "{}";
     job_view_pretty _ := inr "{}";
     plan_pretty _ := inr "{}";
     resource_list_pretty _ := inr "{}" |}.
Definition ticking : handler CliCall Z := λ R c now,
  match c in CliCall R return R * Z with
  | ReadInputFile _ => (inl "no such file", now + 1000)
  | Fetch _ => (inr (mkCliResponse 200 (inr [])), now + 1000)
  | Println _ => (tt, now + 1000)
  | CliSleep millis => (tt, now + Z.max 0 (millis * 1000000))
  | InstantNow => (now, now + 1000)
  | NewUuid => (7%N, now + 1000)
  | OnFabric m => ((m (mkNode Fabric_default (mkWorld (λ _, 0%N) (λ _, 0)))).1, now + 1000)
  end.
Lemma ticking_clock : clock ticking id.
Proof. split; [intros R []; simpl; lia|intros s; simpl; lia|intros millis s; simpl; lia]. Qed.


(** The demonstration places its task beside the data. *)
Example demo_stays_local :
  match demo_fabric (H2:=trie_order) (mkId 1) (mkId 2) (mkId 3) (mkId 4) (mkNode Fabric_default (Samples.world 1000)) with
  | (Ok decision, _) => pd_resource_id decision = mkId 1
  | _ => False
  end.
Proof. vm_compute. reflexivity. Qed.
