(* ===== verification/Wire.v ===== *)
(** * The programs meet at the coordinator's routes

    Agents and clients build their requests by hand; every body they post goes
    to the route that takes it, and every path the client reads is a route's. *)

From Stdlib Require Import Strings.Byte.
From S2P Require Import Prelude Float64 World Text Program Bytes Files Store Core Fabric Coordinator Routes AgentCalls Operators Executor TaskExecution DataPlane Agent Worker Polling Cli.
Open Scope string_scope.
Open Scope list_scope.
Open Scope Z_scope.

(** A path is a route's, for some request. *)
Definition readable `{UuidCrate} (home url : string) : Prop := ∃ request, routed home GET url request = true.
Lemma routed_at `{UuidCrate} home method path request :
  route request = Some (method, path) → routed home method (home +:+ path) request = true.
Proof. intros Hr. unfold routed. by rewrite Hr, !bool_decide_eq_true_2. Qed.
Lemma readable_at `{UuidCrate} home path request :
  route request = Some (GET, path) → readable home (home +:+ path).
Proof. intros Hr. exists request. by apply routed_at. Qed.

(** ** Agents *)

Section agents.
Context `{Sha256Crate} `{ErrorTexts} `{HttpCrate} `{SerdeJson} `{UuidCrate}.
Context (home : string).

Definition posts_to_routes (R : Type) (c : AgentCall R) : Prop :=
  match c with Send (HttpPost url request) => routed home POST url request = true | _ => True end.
(** Of the agent at [endpoint], its data plane's routes are asked. *)
Definition reads_data_plane (endpoint : string) (R : Type) (c : AgentCall R) : Prop :=
  match c with
  | Send (HttpGet url _) => ∃ request path, data_router request = (GET, path) ∧ url = endpoint +:+ path
  | _ => True
  end.
Lemma no_post_to_routes R (c : AgentCall R) : no_post R c → posts_to_routes R c.
Proof. by destruct c as [| | | | |[]| | | | | |]. Qed.
#[local] Hint Resolve no_post_to_routes : calls.
#[local] Hint Extern 1 (no_post _ _) => exact I : calls.
#[local] Hint Extern 1 (posts_to_routes _ (Send (HttpPost _ _))) => apply routed_at; reflexivity : calls.

Lemma posts_json {T} (of_json : Bytes → outcome string T) response :
  makes_only posts_to_routes (parse_json of_json response).
Proof. unfold parse_json, fail, of_outcome. follow_calls. Qed.
Lemma posts_expect_success response : makes_only posts_to_routes (expect_success response).
Proof. apply only_expect_success. Qed.
#[local] Hint Resolve posts_json posts_expect_success : calls.

Lemma posts_register data_endpoint descriptor : makes_only posts_to_routes (register home data_endpoint descriptor).
Proof. unfold register, ask. follow_calls. Qed.
Lemma posts_heartbeat lease : makes_only posts_to_routes (send_heartbeat home lease).
Proof. unfold send_heartbeat, ask. follow_calls. Qed.
Lemma posts_poll lease : makes_only posts_to_routes (Agent.poll_work home lease).
Proof. unfold Agent.poll_work, ask. follow_calls. Qed.
Lemma posts_report lease peer measurement :
  makes_only posts_to_routes (Agent.report_link_measurement home lease peer measurement).
Proof. unfold Agent.report_link_measurement, ask. follow_calls. Qed.
#[local] Hint Resolve posts_register posts_heartbeat posts_poll posts_report : calls.

Lemma posts_measure endpoint : makes_only posts_to_routes (measure_peer endpoint).
Proof.
  assert (∀ endpoint bytes, makes_only posts_to_routes (fetch_probe endpoint bytes)) as Hfetch
    by (intros; unfold fetch_probe, tell, ask, fail, of_outcome; follow_calls).
  assert (∀ endpoint samples rtt_ms, makes_only posts_to_routes (probe_rtt endpoint samples rtt_ms)) as Hrtt
    by (intros endpoint' samples; induction samples as [|samples IH]; intros; cbn [probe_rtt]; follow_calls).
  unfold measure_peer. follow_calls.
Qed.
#[local] Hint Resolve posts_measure : calls.
Lemma posts_discover lease : makes_only posts_to_routes (discover_topology home lease).
Proof.
  assert (∀ peers, makes_only posts_to_routes (probe_peers home lease peers)) as Hprobe
    by (intros peers; induction peers as [|peer peers IH]; cbn [probe_peers]; follow_calls).
  unfold discover_topology, ask. follow_calls.
Qed.
Lemma posts_commit store executor resource_id assignment :
  makes_only posts_to_routes (execute_and_commit home store executor resource_id assignment).
Proof.
  assert (∀ task inputs, makes_only posts_to_routes (materialize_inputs home store resource_id task 0 inputs)) as Hinputs
    by (intros; apply only_materialize_inputs; [apply no_post_to_routes|intros; by apply routed_at]).
  assert (∀ task inputs, makes_only posts_to_routes (execute_task_with_policy executor task inputs)) as Hexecute
    by (intros; apply only_execute_task, no_post_to_routes).
  assert (∀ bytes, makes_only posts_to_routes (on_store (store_put store bytes))) as Hput
    by (intros; apply only_on_store, no_post_to_routes).
  unfold execute_and_commit, ask. follow_calls.
Qed.
Lemma posts_renewals turns : makes_only posts_to_routes (renew_execution_loop turns home).
Proof.
  assert (makes_only posts_to_routes (renew_turn home)) as Hturn
    by (unfold renew_turn, now_unix_ms, ask, tell, fail; follow_calls).
  induction turns as [|turns IH]; cbn [renew_execution_loop]; follow_calls.
Qed.
Lemma posts_worker data_endpoint advertised event w :
  makes_only posts_to_routes (on_event home data_endpoint advertised event w).
Proof. destruct event; cbn [on_event]; unfold heartbeat_tick, poll_tick; follow_calls. Qed.

(** A peer is probed, and its blobs are read, at the routes of its data plane. *)
Lemma probes_read_data_plane endpoint bytes :
  makes_only (reads_data_plane endpoint) (fetch_probe endpoint bytes).
Proof.
  unfold fetch_probe, ask, fail, of_outcome. follow_calls; try exact I. by exists (ProbeOf bytes), ("/v1/probe/" +:+ show bytes).
Qed.
Lemma replica_at_data_plane state metadata replica range :
  replica_ok state metadata replica →
  ∃ endpoint suffix, co_data_endpoints state !! or_resource_id replica = Some endpoint ∧
    om_digest metadata = Some ("sha256:" +:+ suffix) ∧
    or_url replica = endpoint +:+ (data_router (BlobOf suffix range)).2.
Proof. by intros [_ Hreplica]. Qed.
End agents.

(** ** The client *)

Section clients.
Context `{CliJson} `{HttpCrate} `{UuidCrate} `{HashOrder}.

(** The coordinator a command is for. *)
Definition command_home (command : CliCommand) : string :=
  match command with
  | Demo => ""
  | Put coordinator _ _ | Submit coordinator _ _ _ _ _ _ _ | Status coordinator _ | Wait coordinator _ _
  | JobSubmit coordinator _ | JobPlan coordinator _ | JobAutoSubmit coordinator _ | JobStatus coordinator _
  | JobWait coordinator _ _ | Resources coordinator | Link coordinator _ _ _ _ => base coordinator
  end.
Definition command_agent (command : CliCommand) : string :=
  match command with Put _ agent _ => base agent | _ => "" end.
Definition asks_routes (home agent : string) (R : Type) (c : CliCall R) : Prop :=
  match c with
  | Fetch (CliPost url request) => routed home POST url request = true
  | Fetch (CliPostBytes url body) => ∃ path, data_router (PutOf body) = (POST, path) ∧ url = agent +:+ path
  | Fetch (CliGet url) => readable home url
  | _ => True
  end.

Lemma asks_fetch home agent request : asks_routes home agent _ (Fetch request) → makes_only (asks_routes home agent) (fetch_checked request).
Proof. intros Hc. unfold fetch_checked, request_. follow_calls. Qed.
Lemma asks_println home agent text : makes_only (asks_routes home agent) (println text).
Proof. unfold println. follow_calls. done. Qed.
#[local] Hint Resolve asks_fetch asks_println : calls.
#[local] Hint Extern 1 (asks_routes _ _ _ (Fetch (CliPost _ _))) => apply routed_at; reflexivity : calls.
#[local] Hint Extern 1 (asks_routes _ _ _ (Fetch (CliPostBytes _ _))) => by eexists : calls.
#[local] Hint Extern 1 (asks_routes _ _ _ _) => exact I : calls.

Lemma asks_task_view agent coordinator task : makes_only (asks_routes (base coordinator) agent) (task_view coordinator task).
Proof.
  unfold task_view. assert (asks_routes (base coordinator) agent _ (Fetch (CliGet (base coordinator +:+ "/v1/tasks/" +:+ id_to_string task))))
    by (by apply (readable_at _ _ (GetTask (id_to_string task)))).
  follow_calls.
Qed.
Lemma asks_job_view agent coordinator job : makes_only (asks_routes (base coordinator) agent) (cooperative_job_view coordinator job).
Proof.
  unfold cooperative_job_view. assert (asks_routes (base coordinator) agent _ (Fetch (CliGet (base coordinator +:+ "/v1/jobs/" +:+ id_to_string job))))
    by (by apply (readable_at _ _ (GetCooperativeJob (id_to_string job)))).
  follow_calls.
Qed.
#[local] Hint Resolve asks_task_view asks_job_view : calls.

Lemma asks_wait_loop {V} home agent turns (look : cli V) verdict what deadline :
  makes_only (asks_routes home agent) look → makes_only (asks_routes home agent) (wait_loop turns look verdict what deadline).
Proof.
  intros Hlook. induction turns as [|turns IH]; cbn [wait_loop]; unfold request_; follow_calls.
Qed.
#[local] Hint Resolve asks_wait_loop : calls.

(** Every request of a command is to a route of its coordinator, or of the data
    plane of the agent it uploads to. *)
Theorem commands_ask_routes turns command :
  makes_only (asks_routes (command_home command) (command_agent command)) (cli_main turns command).
Proof.
  destruct command; cbn [cli_main command_home];
    unfold demo, put, cli_submit, wait, wait_job, submit_job, plan_job, auto_submit_job, print_json, read_json, request_.
  all: follow_calls.
  apply asks_fetch, (readable_at _ _ ListResources eq_refl).
Qed.
End clients.
