(* ===== verification/Upload.v ===== *)
(** * From the client's file to a download

    [put] of the client against the agent's data plane and the coordinator: an
    upload that succeeds is published, and can be downloaded again. *)

From Stdlib Require Import Strings.Byte.
From S2P Require Import Prelude Float64 World Text Program Bytes Files Store StoreConcurrency Core Samples Fabric Execution Coordinator Clock Frames Evolution Leases Routes AgentCalls DataPlane Cli.
Open Scope string_scope.
Open Scope list_scope.
Open Scope Z_scope.

(** The agent's host and the coordinator. *)
Record Site := mkSite { si_agent : Host; si_coordinator : Coord }.

(** What has been put can be downloaded. *)
Lemma stored_blob_served `{Sha256Crate} `{ErrorTexts} `{HttpCrate} data_plane host host' m bytes stored :
  represents (ds_store data_plane) (h_files host) m → content_addressed m → 0 ≤ h_next_temp host < u64_max →
  run perform (store_put (ds_store data_plane) bytes) host = (Ok stored, host') → h_faults host' 0 = None →
  ∃ response bytes',
    (run perform (get_blob data_plane (sha256_hex bytes) None) host').1 = Ok response ∧
    resp_status response = 200 ∧ resp_body response = Ok bytes' ∧ sha256_hex bytes' = sha256_hex bytes ∧
    ((∀ old, m !! sha256_hex bytes = Some old → old = bytes) → bytes' = bytes).
Proof.
  intros Hm Hca Hnext Hstored Hfault.
  pose proof (put_alone (ds_store data_plane) host m bytes Hm Hca Hnext) as Halone.
  rewrite Hstored in Halone. destruct Halone as (m' & _ & _ & _ & -> & _).
  destruct (run perform (store_get (ds_store data_plane) (so_digest (stored_object (ds_store data_plane) bytes)))
    host') as [result host2] eqn:Hget.
  destruct (put_get_roundtrip _ _ m bytes _ _ _ _ Hm Hca Hnext Hstored Hfault Hget) as (_ & bytes' & -> & Hhash & Hold).
  destruct (blob_response_range bytes' None None eq_refl) as (answer & Hanswer & Hstatus & Hbody).
  exists answer, bytes'. split_and!; [|done..]. unfold get_blob. rewrite run_ptry.
  change (so_digest _) with ("sha256:" +:+ sha256_hex bytes) in Hget. rewrite Hget. cbn [run fst].
  rewrite <- Hhash. change ("sha256:" +:+ sha256_hex bytes') with (sha256_digest bytes'). by rewrite Hanswer.
Qed.

Lemma elem_of_push_locations location added locations :
  location ∈ fold_left push_location added locations ↔ location ∈ locations ∨ location ∈ added.
Proof.
  revert locations. induction added as [|l added IH]; intros locations; simpl; [set_solver|].
  rewrite IH. unfold push_location. case_bool_decide; set_solver.
Qed.
(** The locations of a published object include those it was published with. *)
Lemma publish_object_located object n n' location :
  publish_object object n = (Ok tt, n') → location ∈ om_locations object →
  ∃ o, f_objects (nd_fabric n') !! om_id object = Some o ∧ same_object_identity object o = true ∧
       location ∈ om_locations o.
Proof.
  intros Hpub Hin. destruct (publish_object_published object n n' Hpub) as (o & Ho & Hsame).
  exists o. split_and!; [done|done|]. revert Hpub. unfold publish_object, bind, fget, gets.
  destruct (f_objects (nd_fabric n) !! om_id object) as [existing|] eqn:He.
  - destruct (same_object_identity existing object); [|done]. intros [= <-]. simpl in Ho.
    rewrite lookup_insert_eq in Ho. injection Ho as <-. simpl. by apply elem_of_push_locations; right.
  - intros [= <-]. simpl in Ho. rewrite lookup_insert_eq in Ho. by injection Ho as <-.
Qed.

Section upload.
Context `{Sha256Crate} `{ErrorTexts} `{HttpCrate} `{UuidCrate} `{HashOrder} `{HttpServer} `{CliJson}.
(** The agent: its data plane, and how its calls are served; its files are
    those of its host, whose faults may come at any time. *)
Context (data_plane : DataState) (agent_calls : handler AgentCall Host).
Context (Hfiles : ∀ R (c : FsCall R) host, agent_calls R (OnFiles c) host = perform R c host).
Context (Huuid : ∀ host, (agent_calls _ RandomUuid host).2 = host).
(** The wire form of an object's metadata, which decodes to it. *)
Context (object_to_json : ObjectMetadata → Bytes).
Context (Hjson : ∀ object, put_object_of_json (object_to_json object) = inr object).
(** Where the two listen, and what the client's files hold. *)
Context (coordinator agent : string) (input_files : string → result Bytes).

(** What the client receives; a handler that unwinds closes the connection. *)
Definition received (answer : option (Z * Bytes)) : result CliResponse :=
  match answer with
  | Some (status, body) => inr (mkCliResponse status (inr body))
  | None => inl "connection closed"
  end.
Definition agent_answers (body : Bytes) (host : Host) : option (Z * Bytes) * Host :=
  let '(o, host') := run agent_calls (put_object data_plane body) host in
  (match o with
   | Ok object => Some (200, object_to_json object)
   | Err error => Some (data_into_response error)
   | Panic | Diverged => None
   end, host').
(** The client's calls; what goes to another address is not found. *)
Definition at_site : handler CliCall Site := λ R c site,
  match c in CliCall R return R * Site with
  | ReadInputFile file => (input_files file, site)
  | Fetch (CliPostBytes url body) =>
      if bool_decide (url = base agent +:+ (data_router (PutOf body)).2) then
        let '(answer, host) := agent_answers body (si_agent site) in
        (received answer, mkSite host (si_coordinator site))
      else (inr (mkCliResponse 404 (inr [])), site)
  | Fetch (CliPost url request) =>
      let '(answer, c) := serve_http (base coordinator) POST url request (si_coordinator site) in
      (received answer, mkSite (si_agent site) c)
  | Fetch (CliGet _) => (inr (mkCliResponse 404 (inr [])), site)
  | Println _ | CliSleep _ => (tt, site)
  | InstantNow => (0, site)
  | NewUuid => (0%N, site)
  | OnFabric m => (Panic, site)
  end.

(** The data plane's [put_object] as the store sees it. *)
Lemma run_put_object body host :
  let '(o, host') := run agent_calls (put_object data_plane body) host in
  let '(stored, host1) := run perform (store_put (ds_store data_plane) body) host in
  host' = host1 ∧ match stored with
  | Ok s => ∃ uuid, o = Ok (mkObjectMetadata (mkId uuid) (so_size_bytes s) (Some (so_digest s))
              (Some "application/octet-stream") [ds_resource_id data_plane] None)
  | Err e => o = Err (data_internal (store_error_to_string e))
  | Panic => o = Panic
  | Diverged => o = Diverged
  end.
Proof.
  unfold put_object. rewrite run_ptry, run_translate.
  replace (run (λ R c, agent_calls R (OnFiles c)) (store_put (ds_store data_plane) body) host)
    with (run perform (store_put (ds_store data_plane) body) host) by
    (symmetry; apply run_ext; intros; apply Hfiles).
  destruct (run perform _ host) as [[s|e| |] host1]; [|by split..].
  cbn [pbind call run]. pose proof (Huuid host1) as Hu. destruct (agent_calls _ RandomUuid host1) as [uuid host2].
  simpl in Hu. subst host2. split; [done|]. by exists uuid.
Qed.

(** A publication that is answered by success has taken place. *)
Lemma publish_answered home url object c status body c' :
  serve_http home POST url (PublishObject object) c = (Some (status, body), c') → is_success status = true →
  ∀ location, location ∈ om_locations object →
  ∃ o, f_objects (co_fabric (co_state c')) !! om_id object = Some o ∧ same_object_identity object o = true ∧
       location ∈ om_locations o.
Proof.
  intros Hserve Hok location Hin. destruct (serve_success _ _ _ _ _ _ _ _ Hserve Hok) as (o & Ho & Hsucc). revert Ho Hsucc.
  unfold handle, respond, handle_publish, rethrow, on_fabric, bind, throw, ret.
  destruct (om_digest object); [|by intros [= <- <-]].
  destruct (publish_object object (mkNode (co_fabric (co_state c)) (co_world c))) as [[[]|e| |] n'] eqn:Hpub; cbn.
  - intros [= <- <-] _. by apply (publish_object_located _ _ _ _ Hpub).
  - intros [= <- <-]. cbn. by destruct e.
  - by intros [= <- <-].
  - by intros [= <- <-].
Qed.

(** What a [put] that succeeds has done. *)
Lemma put_succeeds file bytes site site' :
  input_files file = inr bytes → run at_site (put coordinator agent file) site = (Ok tt, site') →
  ∃ stored object status body,
    run perform (store_put (ds_store data_plane) bytes) (si_agent site) = (Ok stored, si_agent site') ∧
    om_size_bytes object = so_size_bytes stored ∧ om_digest object = Some (so_digest stored) ∧
    om_locations object = [ds_resource_id data_plane] ∧
    serve_http (base coordinator) POST (base coordinator +:+ "/v1/objects/publish") (PublishObject object)
      (si_coordinator site) = (Some (status, body), si_coordinator site') ∧
    is_success status = true.
Proof.
  intros Hfile. unfold put, fetch_checked, request_. rewrite run_ptry, run_pbind. cbn. rewrite Hfile. cbn.
  rewrite bool_decide_eq_true_2 by done.
  destruct (agent_answers bytes (si_agent site)) as [answer host] eqn:Hagent. cbn.
  unfold agent_answers in Hagent. pose proof (run_put_object bytes (si_agent site)) as Hrun.
  destruct (run agent_calls (put_object data_plane bytes) (si_agent site)) as [o host'].
  destruct (run perform (store_put (ds_store data_plane) bytes) (si_agent site)) as [stored host1] eqn:Hstored.
  destruct Hrun as [-> Ho]. injection Hagent as <- <-.
  destruct stored as [stored|e| |]; [destruct Ho as [uuid ->]|rewrite Ho; cbn; done..].
  set (object := mkObjectMetadata _ _ _ _ _ _). cbn. rewrite Hjson. cbn.
  destruct (serve_http _ _ _ _ _) as [[[status body]|] c] eqn:Hcoordinator; cbn; [|done].
  unfold checked. cbn [cr_status]. destruct (is_success status) eqn:Hok; cbn; [|done]. intros [= <-].
  by exists stored, object, status, body.
Qed.

(** C32 What the client uploads can be downloaded: when [put] succeeds, the
    coordinator knows an object of the digest and size of the file, located at
    the agent; and the agent's data plane, unless reading the disk fails, serves
    under that digest bytes of the same hash, which are the file's unless the
    store already held others under it. *)
Theorem uploads_are_served file bytes m site site'
    (Hfile : input_files file = inr bytes)
    (Hm : represents (ds_store data_plane) (h_files (si_agent site)) m) (Hca : content_addressed m)
    (Hnext : 0 ≤ h_next_temp (si_agent site) < u64_max)
    (Hput : run at_site (put coordinator agent file) site = (Ok tt, site'))
    (Hfault : h_faults (si_agent site') 0 = None) :
  (∃ id object,
     f_objects (co_fabric (co_state (si_coordinator site'))) !! id = Some object ∧ om_digest object = Some (sha256_digest bytes) ∧ om_size_bytes object = Z.of_nat (length bytes) ∧
     ds_resource_id data_plane ∈ om_locations object) ∧
  ∃ response bytes',
    (run perform (get_blob data_plane (sha256_hex bytes) None) (si_agent site')).1 = Ok response ∧
    resp_status response = 200 ∧ resp_body response = Ok bytes' ∧ sha256_hex bytes' = sha256_hex bytes ∧
    ((∀ old, m !! sha256_hex bytes = Some old → old = bytes) → bytes' = bytes).
Proof.
  destruct (put_succeeds file bytes site site' Hfile Hput)
    as (stored & object & status & body & Hstored & Hsize & Hdigest & Hlocated & Hcoordinator & Hok).
  pose proof (put_alone (ds_store data_plane) (si_agent site) m bytes Hm Hca Hnext) as Halone.
  rewrite Hstored in Halone. destruct Halone as (m' & _ & _ & _ & -> & _). split.
  - destruct (publish_answered _ _ _ _ _ _ _ Hcoordinator Hok (ds_resource_id data_plane)) as (known & Hknown & Hsame & Hloc);
      [rewrite Hlocated; by left|].
    exists (om_id object), known. apply same_object_identity_spec in Hsame as (_ & Hs & Hd & _).
    by rewrite <- Hd, <- Hs, Hsize, Hdigest.
  - by eapply stored_blob_served.
Qed.
End upload.

(** ** An example *)

Definition object_fields (object : ObjectMetadata) :=
  (om_id object, om_size_bytes object, om_digest object, om_encoding object, om_locations object, om_producer object).
Definition object_wire (object : ObjectMetadata) : Bytes := to_wire (encode (object_fields object)).
Definition object_json : CliJson :=
  {| cli_error_of_json _ := inl "invalid JSON";
     put_object_of_json bytes :=
       match decode (A:=ObjectId * Z * option string * option string * list ResourceId * option TaskId) (of_wire bytes) with
       | Some (id, size_bytes, digest, encoding, locations, producer) =>
           inr (mkObjectMetadata id size_bytes digest encoding locations producer)
       | None => inl "invalid JSON"
       end;
     submitted_task_of_json _ := inl "invalid JSON";
     submitted_job_of_json _ := inl "invalid JSON";
     submitted_logical_of_json _ := inl "invalid JSON";
     task_view_of_json _ := inl "invalid JSON";
     job_view_of_json _ := inl "invalid JSON";
     plan_of_json _ := inl "invalid JSON";
     resource_list_of_json _ := inl "invalid JSON";
     cooperative_job_of_json _ := inl "invalid JSON";
     logical_job_of_json _ := inl "invalid JSON";
     task_view_pretty _ := inr "{}";
     job_view_pretty _ := inr "{}";
     plan_pretty _ := inr "{}";
     resource_list_pretty _ := inr "{}" |}.
Lemma object_wire_decodes object : @put_object_of_json object_json (object_wire object) = inr object.
Proof. unfold object_wire. simpl. rewrite of_to_wire, decode_encode. by destruct object. Qed.

#[local] Existing Instances toy_sha256 toy_errors toy_http Samples.uuid_text trie_order toy_server object_json.
Definition sample_plane : DataState := mkDataState sample_store (mkId 9).
Definition sample_files (file : string) : result Bytes :=
  if bool_decide (file = "data.bin") then inr (to_bytes "plurifold") else inl "no such file".
Definition sample_site : Site :=
  mkSite sample_host (mkCoord (Coordinator_new 15000 60000) (Samples.world 1000)).
Definition sample_client : handler CliCall Site :=
  at_site sample_plane offline object_wire "http://c" "http://a/" sample_files.
Definition uploaded_site : Site := (run sample_client (put "http://c" "http://a/" "data.bin") sample_site).2.

Lemma uploads_are_served_witness :
  (∃ id object,
     f_objects (co_fabric (co_state (si_coordinator uploaded_site))) !! id = Some object ∧ om_size_bytes object = 9) ∧
  ∃ response,
    (run perform (get_blob sample_plane (sha256_hex (to_bytes "plurifold")) None) (si_agent uploaded_site)).1 = Ok response ∧
    resp_body response = Ok (to_bytes "plurifold").
Proof.
  assert (run sample_client (put "http://c" "http://a/" "data.bin") sample_site = (Ok tt, uploaded_site)) as Hput.
  { unfold uploaded_site. rewrite (surjective_pairing (run _ _ _)) at 1. f_equal. }
  destruct (uploads_are_served sample_plane offline (λ R c host, eq_refl) (λ host, eq_refl) object_wire object_wire_decodes
    "http://c" "http://a/" sample_files "data.bin" (to_bytes "plurifold") ∅ sample_site uploaded_site)
    as [(id & object & Hknown & _ & Hsize & _) (response & bytes & Hrun & _ & Hbody & _ & Hsame)].
  - reflexivity.
  - exact sample_represents.
  - intros name bytes Hb. by rewrite lookup_empty in Hb.
  - vm_compute. split; [discriminate|reflexivity].
  - exact Hput.
  - vm_compute. reflexivity.
  - split; [exists id, object; by split|]. exists response. split; [exact Hrun|].
    rewrite Hbody. f_equal. apply Hsame. intros old Hold. by rewrite lookup_empty in Hold.
Defined.
