(* ===== verification/Completion.v ===== *)
(** * From an execution to its published result

    [execute_and_commit] of the agent against the coordinator's handlers: a
    commit that succeeds leaves the task completed with one published object,
    which holds what the operation computed and can be downloaded. *)

From Stdlib Require Import Strings.Byte.
From S2P Require Import Prelude Float64 World Text Program Bytes Files Store StoreConcurrency Core Samples Scheduler RoleGraph Partition Placement Reduction Fusion LogicalJob Planner Fabric Roles Execution Coordinator Clock Frames Evolution Network Leases Routes AgentCalls Operators Executor TaskExecution Polling DataPlane Agent Pipelines Cli Upload.
Open Scope string_scope.
Open Scope list_scope.
Open Scope Z_scope.
Open Scope prog_scope.

(** ** Where a committed object is *)

Definition same_objects (n n' : Node) : Prop := f_objects (nd_fabric n') = f_objects (nd_fabric n).
Lemma objects_fmod {E} (g : Fabric → Fabric) :
  (∀ f, f_objects (g f) = f_objects f) → preserves same_objects (fmod (E:=E) g).
Proof. intros Hg n. apply Hg. Qed.
#[local] Hint Extern 1 (preserves same_objects (fmod _)) => apply objects_fmod; done : frame.
#[local] Instance same_objects_frame : Frame same_objects.
Proof.
  assert (PreOrder same_objects) by (split; [by intros n|]; intros n1 n2 n3; unfold same_objects; congruence).
  split; [done|..]; try (intros; by apply objects_fmod).
  - intros E A m _ n. unfold fworld, same_objects. by destruct (m (nd_world n)).
  - intros task. unfold submit, set_task. keep.
Qed.

Section completion.
Context `{HashOrder} `{UuidCrate}.
(** A completion with one output that is answered by success. *)
Lemma complete_execution_one lease output n n' :
  complete_execution lease [output] n = (Ok tt, n') →
  ∃ record, committed (nd_fabric n') lease record [output] ∧
    ∃ o, f_objects (nd_fabric n') !! om_id output = Some o ∧ same_object_identity output o = true ∧
      ∀ location, location ∈ om_locations output → location ∈ om_locations o.
Proof.
  intros Hrun. pose proof (complete_execution_spec lease [output] n) as Hspec. cbv zeta in Hspec. rewrite Hrun in Hspec.
  destruct Hspec as [[_ [[e [=]]|[[=] _]]]|(record & current & _ & _ & _ & Htail)]. exists record.
  set (n1 := mkNode _ _) in Htail.
  assert (committed (nd_fabric n1) lease record [output]) as Hc by (apply lookup_insert_eq).
  apply commit_tail_spec in Hc. rewrite <- Htail in Hc. split; [apply Hc|].
  unfold commit_tail, for_each, bind, ret in Htail. simpl in Htail. unfold bind, ret in Htail.
  destruct (publish_object output n1) as [[[]|e| |] n2] eqn:Hpub; simpl in Htail; try discriminate Htail.
  pose proof (frame_complete_cooperative_role same_objects (el_task_id lease) [om_id output] n2) as Hsame.
  rewrite <- Htail in Hsame. unfold same_objects in Hsame. simpl in Hsame. rewrite Hsame.
  destruct (publish_object_published output n1 n2 Hpub) as (o & Ho & Hid). exists o. split_and!; [exact Ho|done|].
  intros location Hin. destruct (publish_object_located _ _ _ _ Hpub Hin) as (o' & Ho' & _ & Hl). congruence.
Qed.
End completion.

(** ** The agent at work *)

(** The agent's host, the lease it shares with its renewal loop, the coordinator. *)
Record Working := mkWorking { wo_host : Host; wo_lease : ExecutionLease; wo_coordinator : Coord }.

Section working.
Context `{Sha256Crate} `{ErrorTexts} `{HttpCrate} `{SerdeJson} `{UuidCrate} `{HashOrder} `{HttpServer}.
(** How the host's calls are served: its files, whose faults may come at any
    time, its processes, and what peers answer. *)
Context (agent_calls : handler AgentCall Host).
Context (Hfiles : ∀ R (c : FsCall R) host, agent_calls R (OnFiles c) host = perform R c host).
Context (Huuid : ∀ host, (agent_calls _ RandomUuid host).2 = host).
(** What happens at the coordinator, and to the lease, before the agent's next
    request: other agents, ticks, renewals of the same execution. *)
Context (others : ExecutionLease * Coord → ExecutionLease * Coord).
Context (Hothers : ∀ lease c, el_task_id (others (lease, c)).1 = el_task_id lease).
(** Where the coordinator listens. *)
Context (home : string).

Definition working : handler AgentCall Working := λ R c site,
  let '(lease, coordinator) := others (wo_lease site, wo_coordinator site) in
  match c in AgentCall R return R * Host → R * Working with
  | GetLease => λ _, (lease, mkWorking (wo_host site) lease coordinator)
  | SetLease lease' => λ _, (tt, mkWorking (wo_host site) lease' coordinator)
  | Send (HttpPost url request) => λ _,
      let '(answer, coordinator') := serve_http home POST url request coordinator in
      (over_http answer, mkWorking (wo_host site) lease coordinator')
  | _ => λ '(r, host), (r, mkWorking host lease coordinator)
  end (agent_calls R c (wo_host site)).

(** The part of [execute_and_commit] before the store. *)
Definition compute (coordinator : string) (store : LocalObjectStore) (executor : ExecutorPolicy)
    (resource_id : ResourceId) (assignment : WorkAssignment) : agent Bytes :=
  let task := wa_task assignment in
  let? input_bytes := materialize_inputs coordinator store resource_id task 0 (wa_inputs assignment) in
  execute_task_with_policy executor task input_bytes.

Lemma working_files R (c : FsCall R) site :
  working R (OnFiles c) site =
  let '(lease, coordinator) := others (wo_lease site, wo_coordinator site) in
  let '(r, host) := perform R c (wo_host site) in (r, mkWorking host lease coordinator).
Proof. unfold working. rewrite Hfiles. by destruct (others _), (perform R c _). Qed.
Lemma working_uuid site :
  ∃ uuid lease coordinator, working _ RandomUuid site = (uuid, mkWorking (wo_host site) lease coordinator).
Proof.
  unfold working. pose proof (Huuid (wo_host site)) as Hu. destruct (others _) as [lease coordinator].
  destruct (agent_calls _ RandomUuid (wo_host site)) as [uuid host]. simpl in Hu. subst host. by exists uuid, lease, coordinator.
Qed.
Lemma working_lease site :
  ∃ lease coordinator, working _ GetLease site = (lease, mkWorking (wo_host site) lease coordinator).
Proof. unfold working. destruct (others _) as [lease coordinator]. by exists lease, coordinator. Qed.
Lemma working_post url request site :
  ∃ lease coordinator, el_task_id lease = el_task_id (wo_lease site) ∧
    working _ (Send (HttpPost url request)) site =
      let '(answer, coordinator') := serve_http home POST url request coordinator in
      (over_http answer, mkWorking (wo_host site) lease coordinator').
Proof.
  unfold working. pose proof (Hothers (wo_lease site) (wo_coordinator site)) as Hid.
  destruct (others _) as [lease coordinator]. by exists lease, coordinator.
Qed.
(** Programs on the files act on the host. *)
Lemma run_working_files {X} (p : prog FsCall X) site :
  ∃ lease coordinator,
    run working (translate (λ R, OnFiles) p) site =
      let '(x, host) := run perform p (wo_host site) in (x, mkWorking host lease coordinator).
Proof.
  rewrite run_translate. revert site. induction p as [x|R c k IH]; intros site; cbn [run].
  { exists (wo_lease site), (wo_coordinator site). by destruct site. }
  rewrite working_files. destruct (others _) as [lease coordinator]. destruct (perform R c (wo_host site)) as [r host].
  apply (IH r (mkWorking host lease coordinator)).
Qed.

(** A completion that is answered by success has taken place. *)
Lemma complete_answered url lease outputs c status body c' :
  serve_http home POST url (CompleteExecution lease outputs) c = (Some (status, body), c') → is_success status = true →
  ∃ n', complete_execution lease outputs (mkNode (co_fabric (co_state c)) (co_world c)) = (Ok tt, n') ∧
    nd_fabric n' = co_fabric (co_state c').
Proof.
  intros Hserve Hok. destruct (serve_success _ _ _ _ _ _ _ _ Hserve Hok) as (o & Ho & Hsucc). revert Ho Hsucc.
  cbn [handle]. unfold respond, handle_complete, rethrow, on_fabric, bind, ret.
  destruct (complete_execution lease outputs _) as [[[]|e| |] n']; intros [= <- <-]; [by exists n'|by destruct e|done..].
Qed.

(** A commit that succeeds: what was computed is in the store, and a completion
    with one output that names it was answered by success. *)
Lemma commit_succeeds url store executor resource_id assignment output site site1 site' :
  run working (compute url store executor resource_id assignment) site = (Ok output, site1) →
  run working (execute_and_commit url store executor resource_id assignment) site = (Ok tt, site') →
  ∃ stored uuid lease c n',
    run perform (store_put store output) (wo_host site1) = (Ok stored, wo_host site') ∧
    el_task_id lease = el_task_id (wo_lease site') ∧
    complete_execution lease [mkObjectMetadata (mkId uuid) (so_size_bytes stored) (Some (so_digest stored))
      (Some "application/octet-stream") [resource_id] (Some (ts_id (wa_task assignment)))] c = (Ok tt, n') ∧
    nd_fabric n' = co_fabric (co_state (wo_coordinator site')).
Proof.
  unfold compute, execute_and_commit. cbv zeta. rewrite !run_ptry.
  destruct (run working (materialize_inputs _ _ _ _ _ _) site) as [[inputs|e| |] site0]; [|done..].
  intros Hcompute. rewrite run_ptry, Hcompute. unfold on_store. rewrite run_ptry, run_ptry.
  destruct (run_working_files (store_put store output) site1) as (lease & coordinator & ->).
  destruct (run perform (store_put store output) (wo_host site1)) as [[stored|e| |] host]; [|done..].
  unfold ask, ptry. cbn [run pbind call].
  destruct (working_uuid (mkWorking host lease coordinator)) as (uuid & lease1 & c1 & ->). cbn [wo_host].
  destruct (working_lease (mkWorking host lease1 c1)) as (lease2 & c2 & ->). cbn [wo_host].
  set (output_object := mkObjectMetadata _ _ _ _ _ _).
  destruct (working_post (url +:+ "/v1/work/complete") (CompleteExecution lease2 [output_object])
    (mkWorking host lease2 c2)) as (lease3 & c3 & Hid & ->).
  destruct (serve_http _ _ _ _ _) as [[[status body]|] c4] eqn:Hserve; [|done]. cbn [over_http map_err run pbind call].
  unfold expect_success. cbn [resp_status]. destruct (is_success status) eqn:Hok; [|done].
  intros [= <-]. destruct (complete_answered _ _ _ _ _ _ _ Hserve Hok) as (n' & Hrun & Hf).
  exists stored, uuid, lease2, (mkNode (co_fabric (co_state c3)) (co_world c3)), n'. by split_and!.
Qed.

(** C10 A committed result can be used.  Run the agent's [execute_and_commit]
    against the coordinator, whatever disk, processes and peers answer, and
    whatever the coordinator does for others before each request.  If it
    succeeds, and the operation computed [output], then the coordinator has the
    task completed with exactly one object, produced by this task, of the size
    and digest of [output] and located at this agent; and the agent's data
    plane, unless reading the disk fails, serves under that digest bytes of the
    same hash, which are [output] unless the store already held others. *)
Theorem results_are_published url store executor resource_id assignment output site site1 site' m
    (Hcompute : run working (compute url store executor resource_id assignment) site = (Ok output, site1))
    (Hm : represents store (h_files (wo_host site1)) m) (Hca : content_addressed m)
    (Hnext : 0 ≤ h_next_temp (wo_host site1) < u64_max)
    (Hcommit : run working (execute_and_commit url store executor resource_id assignment) site = (Ok tt, site'))
    (Hfault : h_faults (wo_host site') 0 = None) :
  let f := co_fabric (co_state (wo_coordinator site')) in
  (∃ record id object,
     f_tasks f !! el_task_id (wo_lease site') = Some record ∧ tr_status record = TaskCompleted [id] ∧
     f_objects f !! id = Some object ∧ om_producer object = Some (ts_id (wa_task assignment)) ∧
     om_digest object = Some (sha256_digest output) ∧ om_size_bytes object = Z.of_nat (length output) ∧
     resource_id ∈ om_locations object) ∧
  ∃ response bytes,
    (run perform (get_blob (mkDataState store resource_id) (sha256_hex output) None) (wo_host site')).1 = Ok response ∧
    resp_status response = 200 ∧ resp_body response = Ok bytes ∧ sha256_hex bytes = sha256_hex output ∧
    ((∀ old, m !! sha256_hex output = Some old → old = output) → bytes = output).
Proof.
  destruct (commit_succeeds _ _ _ _ _ _ _ _ _ Hcompute Hcommit)
    as (stored & uuid & lease & c & n' & Hstored & Hid & Hrun & Hf). cbv zeta. rewrite <- Hf, <- Hid. split.
  - pose proof (put_alone store (wo_host site1) m output Hm Hca Hnext) as Halone.
    rewrite Hstored in Halone. destruct Halone as (m' & _ & _ & _ & -> & _).
    destruct (complete_execution_one _ _ _ _ Hrun) as (record & Hc & object & Ho & Hsame & Hlocated).
    apply same_object_identity_spec in Hsame as (_ & Hsize & Hdigest & _ & Hproducer).
    eexists _, (mkId uuid), object. split_and!; [exact Hc|done|exact Ho|by rewrite <- Hproducer|by rewrite <- Hdigest
      |by rewrite <- Hsize|apply Hlocated; by left].
  - by apply (stored_blob_served (mkDataState store resource_id) (wo_host site1) (wo_host site') m output stored).
Qed.
End working.

(** *** Application: the pipeline of [Pipelines], polled, run and committed *)

#[local] Existing Instances Run.order Run.text toy_sha256 toy_errors toy_http toy_json toy_server.
(** A store that holds [letters]. *)
Definition letters_home : Host :=
  mkHost (<[store_path sample_store (sha256_hex letters) := RegularFile letters]> (h_files sample_host)) 1 7 (λ _, None).
Definition no_assignment : WorkAssignment :=
  mkWorkAssignment (mkExecutionLease (mkId 0) (mkId 0) (mkId 0) 0 0) doubling_task [].
Definition doubling_assignment : WorkAssignment :=
  match (handle_poll_work (Samples.resource_id 1) 1 doubling_pending).1 with
  | Ok (Some assignment) => assignment
  | _ => no_assignment
  end.
Definition doubling_site : Working :=
  mkWorking letters_home (wa_lease doubling_assignment) (Run.serve (PollWork (Samples.resource_id 1) 1) doubling_pending).
Definition at_work : handler AgentCall Working := working offline id "http://c".
Definition computed : outcome AgentError Bytes * Working :=
  run at_work (compute "http://c" sample_store ExecutorPolicy_default (Samples.resource_id 1) doubling_assignment)
    doubling_site.
Definition done_work : outcome AgentError unit * Working :=
  run at_work (execute_and_commit "http://c" sample_store ExecutorPolicy_default (Samples.resource_id 1)
    doubling_assignment) doubling_site.

Lemma letters_represents :
  represents sample_store (h_files letters_home) {[ sha256_hex letters := letters ]}.
Proof.
  intros name Hname. unfold letters_home. cbn [h_files].
  destruct (decide (name = sha256_hex letters)) as [->|Hne]; [by rewrite lookup_insert_eq, lookup_singleton_eq|].
  rewrite (lookup_singleton_ne (sha256_hex letters)) by congruence.
  rewrite lookup_insert_ne; [apply sample_entry|]. intros Hp. apply Hne. symmetry. by apply (store_path_inj sample_store).
Qed.

Lemma computed_files : h_files (wo_host computed.2) = h_files letters_home.
Proof. exact (eq_refl (h_files letters_home) <: h_files (wo_host computed.2) = h_files letters_home). Qed.

Lemma results_are_published_witness :
  ∃ response, (run perform (get_blob (mkDataState sample_store (Samples.resource_id 1))
      (sha256_hex (to_bytes "abcdefghijabcdefghij")) None) (wo_host done_work.2)).1 = Ok response ∧
    resp_status response = 200.
Proof.
  assert (computed = (Ok (to_bytes "abcdefghijabcdefghij"), computed.2)) as Hcompute.
  { rewrite (surjective_pairing computed) at 1. f_equal. }
  assert (done_work = (Ok tt, done_work.2)) as Hdone.
  { rewrite (surjective_pairing done_work) at 1. f_equal. }
  destruct (results_are_published offline (λ R c host, eq_refl) (λ host, eq_refl) id (λ lease c, eq_refl) "http://c"
    "http://c" sample_store ExecutorPolicy_default (Samples.resource_id 1) doubling_assignment
    (to_bytes "abcdefghijabcdefghij") doubling_site computed.2 done_work.2 {[ sha256_hex letters := letters ]})
    as [_ (response & bytes & Hget & Hstatus & _)].
  - exact Hcompute.
  - rewrite computed_files. apply letters_represents.
  - intros name bytes Hb. apply lookup_singleton_Some in Hb as [<- <-]. reflexivity.
  - vm_compute. split; [discriminate|reflexivity].
  - exact Hdone.
  - vm_compute. reflexivity.
  - exists response. split; [exact Hget|exact Hstatus].
Defined.
