(* ===== verification/Findings.v ===== *)
(** * Runs that end badly

    Concrete runs of the coordinator and the agent in which they do not do what
    their documentation says or what their callers need. *)

From S2P Require Import Prelude Float64 World Text Program Bytes Files Store StoreConcurrency Core Samples Fabric Execution Coordinator Clock Frames Evolution Leases AgentCalls Agent Worker.

Open Scope string_scope.
Open Scope list_scope.
Open Scope Z_scope.

#[local] Existing Instances Run.order Run.text.

(** ** A lease of an earlier incarnation commits

    docs/protocol.md: re-registering the same resource increments its epoch and
    old execution attempts cannot commit.  Once the maintenance tick has removed
    the expired resource, [register_resource] no longer knows its epoch and
    starts again from the descriptor's; the old lease then matches. *)
Definition leased_then (later : Z) : Coord :=
  Run.serve (PollWork (Samples.resource_id 1) 1)
    (Run.serve (SubmitTask (Samples.task (Samples.task_id 7) Exclusive))
      (Run.serve (Run.resource 1)
        (mkCoord (Coordinator_new 15000 60000) (Samples.world_at 4 1000 later)))).
Definition before_expiry : Coord := leased_then 20000.
Definition reincarnated : Coord := Run.serve (Run.resource 1) (Run.serve MaintenanceTick before_expiry).
Definition stale_lease : ExecutionLease :=
  mkExecutionLease (Samples.task_id 7) (mkId 1000) (Samples.resource_id 1) 1 61000.

Example stale_incarnation_commits :
  Run.status before_expiry 7 = Some (Running stale_lease) ∧
  f_resources (co_fabric (co_state (Run.serve MaintenanceTick before_expiry))) = ∅ ∧
  Run.status (Run.serve (CompleteExecution stale_lease []) reincarnated) 7 = Some (TaskCompleted []).
Proof. vm_compute. split_and!; reflexivity. Qed.

(** ** A rejected completion completes the task

    [complete_execution] compares each output with the published objects before
    it commits, but not the outputs with each other: of two outputs with one
    fresh id and different contents the second is refused after the task has
    been marked completed, and the role of the task is never completed. *)
Definition two_outputs : list ObjectMetadata :=
  [Samples.object (Samples.object_id 9) 3 [Samples.resource_id 1];
   Samples.object (Samples.object_id 9) 4 [Samples.resource_id 1]].

Example conflicting_outputs_half_commit :
  (handle (CompleteExecution stale_lease two_outputs) (leased_then 1000)).1 =
    Err (from_fabric (ObjectConflict (Samples.object_id 9))) ∧
  Run.status (Run.serve (CompleteExecution stale_lease two_outputs) (leased_then 1000)) 7 =
    Some (TaskCompleted [Samples.object_id 9; Samples.object_id 9]).
Proof. vm_compute. split_and!; reflexivity. Qed.

(** ** One task with a foreign digest starves the others

    [poll_work] gives up when the inputs of a schedulable task cannot be
    resolved, instead of trying the next pending task: every poll of the
    resource fails while that task is pending. *)
Definition foreign_object : ObjectMetadata :=
  mkObjectMetadata (Samples.object_id 1) 3 (Some "md5:00") None [Samples.resource_id 1] None.
Definition foreign_task : TaskSpec :=
  mkTaskSpec (Samples.task_id 7) "test" "run" [] [Samples.object_id 1] ResourceRequirements_default
    Pure CostHint_default None None.
Definition starved : Coord :=
  Run.serve (SubmitTask (Samples.task (Samples.task_id 1) Pure))
    (Run.serve (SubmitTask foreign_task)
      (Run.serve (PublishObject foreign_object)
        (Run.serve (Run.resource 1)
          (mkCoord (Coordinator_new 15000 60000) (Samples.world 1000))))).

Example unresolvable_task_starves_others :
  (handle (PollWork (Samples.resource_id 1) 1) starved).1 = Err (conflict "unsupported digest md5:00") ∧
  Run.status (Run.serve (PollWork (Samples.resource_id 1) 1) starved) 1 = Some Pending.
Proof. vm_compute. split_and!; reflexivity. Qed.

(** ** A panic keeps an agent from ever polling again

    [materialize_input] checks a byte range against the size the coordinator
    states, then slices the stored bytes: when they are shorter the slice
    panics.  The spawned execution unwinds past [busy_flag.store(false)], and
    the agent stays busy with nothing running. *)
Definition overstated_input : ResolvedObject :=
  mkResolvedObject
    (mkObjectMetadata (mkId 1) 100 (Some (sha256_digest (H:=toy_sha256) letters)) None [] None) [].

Example overstated_size_panics :
  (run offline (materialize_input (H:=toy_sha256) (H0:=toy_errors) (H1:=toy_http) (H2:=toy_json) (H3:=Samples.uuid_text)
     "http://c" sample_store (mkId 3) overstated_input (Some (50, 10))) letters_host).1 = Panic.
Proof. vm_compute. reflexivity. Qed.

Lemma panic_leaves_agent_stuck `{HttpCrate} `{SerdeJson} coordinator endpoint advertised {S}
    (h : handler AgentCall S) lease assignment s w s' :
  worker_steps coordinator endpoint advertised h
    ((run h (on_event coordinator endpoint advertised (ExecutionPanics 0)
       (mkWorker lease true false [assignment] 0)) s)) (w, s') →
  event_enabled PollTick w = false.
Proof.
  intros Hsteps. by apply (stuck_forever coordinator endpoint advertised h) in Hsteps as [_ ?].
Qed.
